(* ===== verification/_CoqProject ===== *)
-Q . S2P
Prelude.v
Bits.v
Errors.v
Regex.v
Time.v
Period.v
PeriodFacts.v
Iso.v
IsoFacts.v
WasmMemory.v
JsonString.v
Strings.v
Eav.v
Entries.v
Cas.v
Files.v
FilesFacts.v
Protocol.v
MemoryNet.v
MemoryWorker.v
MemoryFacts.v
MemoryHistory.v
Actions.v
Config.v
ConfigFacts.v
MakeConfig.v
SecBuf.v
Sodium.v
Keys.v
KeysFacts.v
Keystore.v
KeystoreFacts.v
Conductor.v
ConductorAdmin.v
ConductorFacts.v
ConductorBoot.v
ConductorErrors.v
Rpc.v
RpcFacts.v
Dht.v
DhtFacts.v
Chain.v
ChainFacts.v
Network.v
Nucleus.v
State.v
NetworkFacts.v
StateFacts.v
Workflow.v
Lookup.v
Validation.v
Workflows.v
Handler.v
Capabilities.v
Initialize.v
Api.v
Ribosome.v
ApiFacts.v
ValidationFacts.v
Guarantees.v
Machine.v
LookupFacts.v
CallFacts.v
HandlerFacts.v
Waiter.v
WaiterFacts.v
Package.v
PackageFacts.v
PackageErrors.v
Transport.v
TransportFacts.v
IpcWorker.v
IpcFacts.v
IpcDemo.v
