(* ===== verification/Prelude.v ===== *)
(** * Verification of holochain-rust

    Holochain runs a distributed application as many nodes.  A node holds an
    agent's source chain, a signed append-only list of headers and entries, and a
    shard of a distributed hash table (DHT), in which it holds entries and links
    that other agents publish.  The rules of an application (its DNA) are wasm
    code: before an entry is committed to the chain or held in the shard, the
    validation callback of the DNA must accept it.  A conductor runs the nodes of
    one machine: it boots them from a configuration, keeps the keys of the agents,
    and serves calls and its own administration over JSON-RPC.

    This development models the core of a node, the storages and the in-memory
    network below it, and the keystore, the conductor and its interface above it,
    as Rocq functions, and proves what the parts promise to each other.  Names
    follow the source; every file names the paths under [src/] it models.

    ** The parts, from the bottom up

    - [Prelude] (this file): results, panics ([outcome]), state passing, machine
      integers, lists.  [Bits] and [Errors]: bit packing, error types, and the
      64-bit encoding of what crosses the wasm boundary ([core_types/src/error]).
      [Strings]: what the source uses of [str] and of fixed regular expressions.
    - [Regex], [Time], [Period], [Iso]: timeouts, periods and timestamps with their
      text ([core_types/src/time.rs]); the text is read with the source's regular
      expressions, whose meaning [Regex] defines.
    - [WasmMemory]: the allocations that a zome and the host share in linear
      memory ([wasm_utils/src/memory], [core/src/nucleus/ribosome/memory.rs]).
      [JsonString]: the cleaning of JSON texts ([core_types/src/json.rs]) and the
      reading of bytes that may not be UTF-8.
    - [Eav], [Cas] and [Files]: the storage of triples and of content
      ([core_types/src/eav], [core_types/src/cas], [cas_implementations]).  The
      traits are classes with laws; the memory and the pickle storages are
      instances; the storages on files, which keep the laws only for plain names
      and indexes of their own, are functions on a file system.
    - [Entries], [Protocol], [Actions]: entries, headers, links, capability
      tokens, the DNA, the network messages and the actions.
    - [MemoryNet], [MemoryWorker]: the in-memory network ([net/src/in_memory]), the
      server as a function from a message to a state with inboxes, the workers with
      the locks they share and poison; [MemoryHistory]: every history of it.
    - [Transport], [IpcWorker]: the network of another process: a pool of web socket
      connections ([net/src/ipc/transport_wss]), the worker that talks to the process
      over one of them ([net/src/ipc_net_worker.rs]), the thread a worker runs in and
      the handler around it ([net/src/connection], [net/src/p2p_network.rs]).
    - Redux state, as pure functions from an action and a state to a state: [Dht]
      (the shard), [Chain] (the source chain and the agent slice), [Network],
      [Nucleus], and [State] with the root reducer [state_reduce].  The slices hold
      references to shared storages, so the storages live in a [World] that the
      reducers thread: a write stays even when the reducer gives up.
    - The programs that run beside the reducers ([Workflow]): a [Prog] reads the
      state, draws unique ids, sends actions, runs wasm, spawns threads and waits.
      [Lookup], [Validation], [Workflows], [Handler], [Capabilities] and
      [Initialize] are the workflows, action creators, message handler, zome calls
      and start-up of [core/src] as such programs.
    - [Api]: the functions of the host that zome code calls
      ([core/src/nucleus/ribosome/api]), which read their arguments from linear
      memory, run a workflow and write the answer back.  [Ribosome]: running wasm
      code ([run_dna.rs], [factories.rs]); a wasm module is any transition system
      that computes on its memory and calls the host.
    - [Machine]: the running node ([core/src/instance.rs]): world, state, bounded
      channel, action loop and a pool of threads, with a step relation for every
      interleaving, and an executable scheduler for it.
    - [SecBuf]: the buffers of keys and the protection of their memory
      ([sodium/src/secbuf.rs]); [Sodium], [Keys]: the wrappers of libsodium
      ([sodium/src]) and the keys, seeds and their blobs ([dpki/src]); buffers are
      in a heap, because the wrappers write into the buffers of their callers.
      [Keystore]: the keystore of an agent and the passphrase manager
      ([conductor_api/src/keystore.rs]), its cache sharing buffers with whoever
      asked for a secret.
    - [Config]: the configuration of a conductor, its check and the order of its
      instances ([conductor_api/src/config.rs]).  [Conductor], [ConductorAdmin]: what
      a conductor holds, booting and every operation of the administration
      ([conductor_api/src/conductor]); what it asks of files, threads and the core
      of an instance is a [Call] that the class [Outside] answers.
    - [Rpc]: the JSON-RPC methods ([conductor_api/src/interface.rs]): the reading of
      parameters, the dispatch, and the locks of the conductor, of instances and of
      keystores, which panics poison.
    - [Waiter]: what the conductor for tests waits for before it fulfils the promise
      of a call ([nodejs_waiter/src/waiter.rs], [nodejs_conductor]).  [MakeConfig]: the
      configurations that tests run with ([nodejs_conductor/native/src/config.rs]).
    - [Package]: bundling a project into one JSON object and unpacking it
      ([cli/src/cli/package.rs]), on trees of files.

    ** What the theorems show

    - Storages ([Eav], [Cas], [FilesFacts]): adding terminates and loses nothing,
      queries return exactly what their filters say, and any two storages with the
      same contents stay indistinguishable, the one on files included as long as
      indexes do not collide; where they do, it hides triples.
    - Time ([Time], [PeriodFacts], [IsoFacts]): a period is read back from its text,
      and timeouts stay within their width; a timestamp is read as the same date
      however it is written, reading never panics and arithmetic is exact or an
      error; and letters pass for the sign of a zone.
    - The in-memory network ([MemoryFacts], [MemoryHistory]): in histories where the
      addresses of DNAs have no colon the servers stay consistent and no id of a
      request is given out twice; what is sent to a tracked cell arrives, what is
      published reaches every cell up to the first one that is gone, and a node that
      joins publishes what it has.
    - The network of a process ([TransportFacts], [IpcFacts], [IpcDemo]): the pool of
      connections stays well-formed, waiting for a connection ends, messages survive
      the wire but for the space around their JSON text, and reach the handler in
      order with one announcement that the network is ready, and the thread keeps
      listening; and how connections get lost: silent
      peers are never closed, a heartbeat that cannot be written cuts the worker off,
      a second announcement ends the thread.
    - The shard ([DhtFacts]): what is held can be read, an entry's status only moves
      forward, links appear and disappear as asked, failures change nothing, and
      the reducer is total on the memory storage; two updates of one entry make a
      later query panic.
    - The chain ([ChainFacts]): it only grows at the top by signed headers; the
      iterators, queries and lookups return what a list of headers would give.
    - Network and nucleus ([NetworkFacts], [Nucleus]): requests are decided, answers
      reach their requests, publishing sends the right messages, and the exact
      cases in which a reducer panics.
    - The state ([StateFacts]): a commit reaches chain and shard in one step, and
      a state restored from its snapshots has the chain, the status, the pending
      validations and the first DNA of the chain.
    - The node ([ValidationFacts], [Guarantees], [Machine]): a program logic [wp]
      gives each workflow its guarantee; the invariant of the machine lifts the
      guarantees to every interleaving: no thread changes the chain or the shard
      without the validation that the change needs, and none publishes, gives to a
      node that asks, or packs into a validation package an entry that the DNA keeps
      private.
    - Lookups, calls and messages ([LookupFacts], [CallFacts], [HandlerFacts]): what
      a lookup returns, who may call a zome function, and which messages stop the
      handler.
    - Zome code ([Guarantees], [ApiFacts]): whatever wasm code does, the functions
      it calls keep to the guarantees of the node; answers are read back from
      memory; names resolve to functions; and what the guards of calls miss.
    - Keys ([SecBuf], [KeysFacts], [KeystoreFacts]): no use of a buffer other than
      copying or printing it touches protected memory or memory beyond it, as long as
      the ends of writes fit 64 bits, and what the other uses do; what
      is encrypted under a passphrase is read back with it and the blobs of keys
      round trip; and where the code loses or gives away secrets: the derivation of
      encrypting keys, and a passphrase that is changed.
    - The conductor ([ConfigFacts], [ConductorFacts], [ConductorBoot],
      [ConductorErrors]): the check of a configuration decides its specification; a
      consistent configuration boots where the outside complies, except with a DPKI
      instance; every sequence of administrative operations keeps the conductor in
      step with a consistent configuration; and the operations that fail or panic
      half way.
    - The interface ([RpcFacts]): a table says which operation or view each method
      with its parameters means, and requests do that and nothing else; interfaces
      without administration only look on, but for a panic that poisons an instance's
      lock; and which requests poison a lock for good.
    - The tools ([WaiterFacts], [MakeConfig], [PackageFacts], [PackageErrors]): the
      promise of a call is fulfilled exactly when what the call owes has been seen,
      and no promise is forgotten; which configurations for tests the conductor
      accepts; what is packaged as a DNA is unpacked again, except compiled code; and a
      package may write outside of the directory it is unpacked into.

    Each group closes with a module ([Demo], [RpcDemo] and the like) that runs the
    definitions on concrete input and applies the theorems there.

    ** Code that is not under [src/]

    It is a class with the laws that the source relies on: serde and multihash
    ([Wire], [JsonPayloads], [CallbackText], [JsonValues], [MessageText],
    [EaviText], [BlobText], [KeystoreText], [RpcText], [ApiText]), wasmi
    ([WasmiMemory], [Wasmi]), the pickle database ([PickleDb], [ContentDb]), globs
    ([GlobSet], [Glob]), regular expressions and Unicode ([RegexEngine], [Unicode]),
    the graph library ([Petgraph]), the network connection ([P2pNetwork]), base64,
    hcid and libsodium ([Crypto], [Hcid], [Sodium]), dates ([Chrono], [ChronoLaws]),
    the user's passphrase ([PassphraseService]), the disk ([Disk]), the world
    outside of a conductor ([Outside]), streams and their clock ([Sockets],
    [SocketLaws]), MessagePack ([Packing], [PackingLaws]), the process of the
    network module ([Machine] of [IpcWorker]) and what a build of a project runs
    ([Toolbox], [ToolboxLaws]).  Clocks, signatures and texts of ids are
    parameters.  The wasm of the DNA may answer anything.

    ** Bounds

    Walks along the chain use the number of stored items as fuel, and a walk that
    needs more never ends ([out_of_steps_never_returns]).  The search for a free
    index in a triple storage uses the size of the storage.  The loop of a lookup
    along update links, and wasm code, take a number of steps; [get_entry_returns]
    shows how many are enough for a lookup, and [update_cycle_never_returns] that
    none are for a cycle.  Unpacking a package takes as many steps as its values are
    nested ([unpack_ends]).  Waiting for a connection takes at most 1668 turns of 3
    ms, more than its 5000 ms ([wait_connect_returns]).  A [u64] is written in at
    most 20 digits.  Integers have their width where it matters: [u32] and [u64] in
    the encodings, [i64] in the index of triples and in JSON numbers, [usize] in
    timeouts and in the sizes of buffers.

    ** Not modelled

    Log output and observers; saving the state to disk (what is saved is modelled);
    the locks of the storages, whose operations are single steps; downloading and
    running the process of the network module; the text of TOML and of JSON-RPC and
    the servers that carry it; the requests that add test agents and that ask a
    signing service; mnemonic phrases; the commands of the command line other than
    packaging; the bindings to node.js; the development kit for zomes, which runs
    inside wasm. *)
From Stdlib Require Import ZArith Lia.
From stdpp Require Export base tactics option list numbers strings gmap sets pretty.

Open Scope Z_scope.

(** ** Rust results

    [result E A] is Rust's [Result<A, E>]; the error type comes first so that
    [result E] is a monad in stdpp's sense and the [x ← e; k] notation is
    Rust's [let x = e?; k]. *)
Inductive result (E A : Type) : Type :=
| Ok (a : A)
| Err (e : E).
Arguments Ok {E A} a.
Arguments Err {E A} e.

#[global] Instance result_ret {E} : MRet (result E) := λ A a, Ok a.
#[global] Instance result_bind {E} : MBind (result E) := λ A B f m,
  match m with Ok a => f a | Err e => Err e end.
#[global] Instance result_fmap {E} : FMap (result E) := λ A B f m,
  match m with Ok a => Ok (f a) | Err e => Err e end.
#[global] Instance result_eq_dec `{EqDecision E, EqDecision A} :
  EqDecision (result E A).
Proof. solve_decision. Defined.

(** [Result::map_err], [Option::ok_or] and [Result::ok]. *)
Definition map_err {E F A} (f : E → F) (r : result E A) : result F A :=
  match r with Ok a => Ok a | Err e => Err (f e) end.

Definition ok_or {E A} (o : option A) (e : E) : result E A :=
  match o with Some a => Ok a | None => Err e end.

Definition ok {E A} (r : result E A) : option A :=
  match r with Ok a => Some a | Err _ => None end.

Definition is_ok {E A} (r : result E A) : bool :=
  match r with Ok _ => true | Err _ => false end.

(** [iter.map(f).collect::<Result<Vec<_>, _>>()]: the first error wins. *)
Fixpoint collect_results {E A B} (f : A → result E B) (l : list A) :
    result E (list B) :=
  match l with
  | [] => Ok []
  | x :: xs => y ← f x; ys ← collect_results f xs; Ok (y :: ys)
  end.

(** ** Panics

    Code that can panic ([unwrap], [expect], [assert!], [unreachable!], slice
    indexing, arithmetic overflow in a checked build) returns an [outcome]. *)
Inductive outcome (A : Type) : Type :=
| Done (a : A)
| Panicked (why : string).
Arguments Done {A} a.
Arguments Panicked {A} why.

#[global] Instance outcome_ret : MRet outcome := λ A a, Done a.
#[global] Instance outcome_bind : MBind outcome := λ A B f m,
  match m with Done a => f a | Panicked w => Panicked w end.
#[global] Instance outcome_fmap : FMap outcome := λ A B f m,
  match m with Done a => Done (f a) | Panicked w => Panicked w end.
#[global] Instance outcome_eq_dec `{EqDecision A} : EqDecision (outcome A).
Proof. solve_decision. Defined.

(** [Option::expect] / [Result::expect]. *)
Definition expect {A} (o : option A) (why : string) : outcome A :=
  match o with Some a => Done a | None => Panicked why end.

Definition panics {A} (o : outcome A) : bool :=
  match o with Done _ => false | Panicked _ => true end.

(** ** Machine integers

    A [w]-bit unsigned value is a [Z] in [[0, 2^w)]; [as_uN] is Rust's
    truncating [as] cast and [as_i64] the two's complement reinterpretation. *)
Definition fits (w : Z) (x : Z) : Prop := 0 ≤ x < 2 ^ w.
#[global] Instance fits_dec w x : Decision (fits w x).
Proof. unfold fits. apply _. Defined.

Definition as_u16 (x : Z) : Z := x `mod` 2 ^ 16.
Definition as_u32 (x : Z) : Z := x `mod` 2 ^ 32.
Definition as_u64 (x : Z) : Z := x `mod` 2 ^ 64.
Definition as_i64 (x : Z) : Z :=
  let y := x `mod` 2 ^ 64 in if decide (y < 2 ^ 63) then y else y - 2 ^ 64.

#[global] Arguments as_u16 : simpl never.
#[global] Arguments as_u32 : simpl never.
#[global] Arguments as_u64 : simpl never.
#[global] Arguments as_i64 : simpl never.

(** ** Effects

    A handler that mutates a state [S], may fail with [E] and may panic.  The
    state reached before a [?] returns early is kept: Rust does not roll back. *)
Definition stateful (S E A : Type) : Type := S → outcome (S * result E A).

#[global] Instance stateful_ret {S E} : MRet (stateful S E) := λ A a s,
  Done (s, Ok a).
#[global] Instance stateful_bind {S E} : MBind (stateful S E) := λ A B f m s,
  match m s with
  | Panicked w => Panicked w
  | Done (s', Ok a) => f a s'
  | Done (s', Err e) => Done (s', Err e)
  end.

Definition gets {S E A} (f : S → A) : stateful S E A := λ s, Done (s, Ok (f s)).
Definition modify {S E} (f : S → S) : stateful S E unit := λ s, Done (f s, Ok tt).
Definition throw {S E A} (e : E) : stateful S E A := λ s, Done (s, Err e).
Definition panic {S E A} (why : string) : stateful S E A := λ _, Panicked why.
Definition lift {S E A} (r : result E A) : stateful S E A := λ s, Done (s, r).

(** [for x in xs { body }], the body threading the state. *)
Fixpoint for_each {S E A} (body : A → stateful S E unit) (xs : list A) :
    stateful S E unit :=
  match xs with
  | [] => mret tt
  | x :: xs => body x ;; for_each body xs
  end.

(** ** Tactics *)

(** Case analysis on the scrutinee of a [match] or [if] in the goal. *)
Ltac case_match_goal :=
  match goal with |- context [match ?x with _ => _ end] => destruct x eqn:? end.

(** Decide a closed proposition by evaluating its decision procedure. *)
Ltac by_decide := apply (bool_decide_unpack _); vm_compute; exact I.

(** Invert the monadic binds of a hypothesis. *)
Ltac inv_bind H :=
  repeat (unfold mbind, result_bind, outcome_bind, stateful_bind in H; simpl in H;
          case_match; simplify_eq).

(** ** Lemmas on results and outcomes *)
Create HintDb holo.

Lemma result_bind_ok {E A B} (m : result E A) (f : A → result E B) b :
  m ≫= f = Ok b ↔ ∃ a, m = Ok a ∧ f a = Ok b.
Proof.
  destruct m as [a|e]; simpl; split.
  - eauto.
  - by intros (? & [= ->] & ?).
  - done.
  - by intros (? & ? & ?).
Qed.

Lemma outcome_bind_done {A B} (m : outcome A) (f : A → outcome B) b :
  m ≫= f = Done b ↔ ∃ a, m = Done a ∧ f a = Done b.
Proof.
  destruct m as [a|e]; simpl; split.
  - eauto.
  - by intros (? & [= ->] & ?).
  - done.
  - by intros (? & ? & ?).
Qed.

Lemma stateful_bind_ok {S E A B} (m : stateful S E A) (f : A → stateful S E B)
    s s' b :
  (m ≫= f) s = Done (s', Ok b) ↔
  ∃ s1 a, m s = Done (s1, Ok a) ∧ f a s1 = Done (s', Ok b).
Proof.
  unfold mbind, stateful_bind. split.
  - intros H. case_match; [|done]. case_match. case_match; [|done]. naive_solver.
  - by intros (s1 & a & -> & ?).
Qed.

(** What a sequence does once the result of its first part is known. *)
Lemma stateful_bind_eq {S E A B} (m : stateful S E A) (f : A → stateful S E B) s s1 a :
  m s = Done (s1, Ok a) → (m ≫= f) s = f a s1.
Proof. intros H. unfold mbind, stateful_bind. by rewrite H. Qed.

Lemma stateful_bind_err {S E A B} (m : stateful S E A) (f : A → stateful S E B) s s1 e :
  m s = Done (s1, Err e) → (m ≫= f) s = Done (s1, Err e).
Proof. intros H. unfold mbind, stateful_bind. by rewrite H. Qed.

Lemma collect_results_ok {E A B} (f : A → result E B) l ys :
  collect_results f l = Ok ys ↔ Forall2 (λ x y, f x = Ok y) l ys.
Proof.
  revert ys. induction l as [|x l IH]; intros ys; simpl.
  - split; [intros [= <-]; constructor|]. inversion 1; done.
  - rewrite result_bind_ok. setoid_rewrite result_bind_ok. split.
    + intros (y & Hy & ys' & Hys & [= <-]). constructor; naive_solver.
    + inversion 1; simplify_eq. eexists; split; [done|]. naive_solver.
Qed.

Lemma collect_results_total {E A B} (f : A → result E B) l :
  (∀ x, x ∈ l → ∃ y, f x = Ok y) → ∃ ys, collect_results f l = Ok ys.
Proof.
  induction l as [|x l IH]; intros H; simpl; [by eexists|].
  destruct (H x) as [y Hy]; [by left|]. rewrite Hy.
  destruct IH as [ys Hys]; [intros z Hz; apply H; by right|].
  exists (y :: ys). simpl. by rewrite Hys.
Qed.

Lemma collect_results_elem {E A B} (f : A → result E B) l ys x y :
  collect_results f l = Ok ys → x ∈ l → f x = Ok y → y ∈ ys.
Proof.
  intros H%collect_results_ok Hx Hy.
  apply list_elem_of_lookup in Hx as [i Hi].
  destruct (Forall2_lookup_l _ _ _ _ _ H Hi) as (y' & Hi' & Hf).
  simplify_eq. rewrite Hf in Hy. simplify_eq. by eapply list_elem_of_lookup_2.
Qed.

(** ** Lemmas on lists *)
Lemma omap_length_le {A B} (f : A → option B) l : (length (omap f l) ≤ length l)%nat.
Proof.
  induction l as [|x l IH]; [done|]. cbn.
  destruct (f x); [by apply le_n_S, IH|by apply le_S, IH].
Qed.

(** ** Lemmas on machine integers *)
Lemma fits_mod w x : 0 ≤ w → fits w (x `mod` 2 ^ w).
Proof. intros. apply Z.mod_pos_bound. apply Z.pow_pos_nonneg; lia. Qed.

Lemma mod_fits w x : fits w x → x `mod` 2 ^ w = x.
Proof. apply Z.mod_small. Qed.

#[export] Hint Resolve fits_mod : holo.
#[export] Hint Rewrite mod_fits using done : holo.

Definition fits_i64 (x : Z) : Prop := - 2 ^ 63 ≤ x < 2 ^ 63.
#[global] Instance fits_i64_dec x : Decision (fits_i64 x).
Proof. unfold fits_i64. apply _. Defined.

Lemma as_i64_mod x : as_i64 x `mod` 2 ^ 64 = x `mod` 2 ^ 64.
Proof.
  unfold as_i64. case_decide; [by rewrite Z.mod_mod|].
  rewrite <-(Z_mod_plus_full _ 1), Z.mul_1_l, Z.sub_add. by rewrite Z.mod_mod.
Qed.

Lemma as_i64_cong x y : x `mod` 2 ^ 64 = y `mod` 2 ^ 64 → as_i64 x = as_i64 y.
Proof. unfold as_i64. by intros ->. Qed.

Lemma as_i64_inj x y : as_i64 x = as_i64 y → x `mod` 2 ^ 64 = y `mod` 2 ^ 64.
Proof. intros H. by rewrite <-(as_i64_mod x), <-(as_i64_mod y), H. Qed.

Lemma as_i64_add x y : as_i64 (as_i64 x + y) = as_i64 (x + y).
Proof.
  apply as_i64_cong. by rewrite <-Zplus_mod_idemp_l, as_i64_mod, Zplus_mod_idemp_l.
Qed.

Lemma as_i64_small x : fits_i64 x → as_i64 x = x.
Proof.
  unfold fits_i64, as_i64. intros Hx. destruct (decide (0 ≤ x)).
  - rewrite Z.mod_small by lia. rewrite decide_True; lia.
  - rewrite <-(Z_mod_plus_full _ 1), Z.mul_1_l, Z.mod_small by lia.
    rewrite decide_False; lia.
Qed.

Lemma as_i64_fits x : fits_i64 (as_i64 x).
Proof.
  unfold fits_i64, as_i64. pose proof (Z.mod_pos_bound x (2 ^ 64) ltac:(lia)).
  case_decide; lia.
Qed.

#[export] Hint Resolve as_i64_fits : holo.

(** Fewer than [2^64] successive values do not wrap onto each other. *)
Lemma as_i64_shift_inj x j k :
  0 ≤ j < 2 ^ 64 → 0 ≤ k < 2 ^ 64 → as_i64 (x + j) = as_i64 (x + k) → j = k.
Proof.
  intros Hj Hk H%as_i64_inj.
  assert (((x + j) - (x + k)) `mod` 2 ^ 64 = 0) as Hm.
  { by rewrite Zminus_mod, H, Z.sub_diag. }
  apply Z.mod_divide in Hm as [c Hc]; [|lia]. nia.
Qed.
