(* ===== verification/Bits.v ===== *)
(** * Bit packing

    [core_types/src/bits_n_pieces.rs]: splitting a [u32] (a [u64]) into its two
    halves and merging them back.  The ribosome encodes wasm allocations and
    error codes with these functions (file WasmMemory). *)
From S2P Require Import Prelude.

Definition U16_MAX : Z := 2 ^ 16 - 1.
Definition U32_MAX : Z := 2 ^ 32 - 1.

Definition u32_high_bits (i : Z) : Z := as_u16 (Z.shiftr i 16).
Definition u32_low_bits (i : Z) : Z := as_u16 i.
Definition u32_split_bits (i : Z) : Z * Z := (u32_high_bits i, u32_low_bits i).
Definition u32_merge_bits (high low : Z) : Z :=
  Z.lor (as_u32 (Z.shiftl high 16)) low.

Definition u64_high_bits (i : Z) : Z := as_u32 (Z.shiftr i 32).
Definition u64_low_bits (i : Z) : Z := as_u32 i.
Definition u64_split_bits (i : Z) : Z * Z := (u64_high_bits i, u64_low_bits i).
Definition u64_merge_bits (high low : Z) : Z :=
  Z.lor (as_u64 (Z.shiftl high 32)) low.

#[global] Arguments u32_high_bits : simpl never.
#[global] Arguments u32_low_bits : simpl never.
#[global] Arguments u32_merge_bits : simpl never.
#[global] Arguments u64_high_bits : simpl never.
#[global] Arguments u64_low_bits : simpl never.
#[global] Arguments u64_merge_bits : simpl never.

(** ** The two halves of a [2*w]-bit word, for any half width [w] *)
Section halves.
Context (w : Z) (Hw : 0 < w).

Lemma pow_half : 2 ^ (2 * w) = 2 ^ w * 2 ^ w.
Proof. rewrite <-Z.pow_add_r by lia. f_equal. lia. Qed.

Lemma pow_half_pos : 0 < 2 ^ w.
Proof. apply Z.pow_pos_nonneg; lia. Qed.

(** A low half has no bit at or above [w]. *)
Lemma land_half high low : fits w low → Z.land (Z.shiftl high w) low = 0.
Proof.
  intros Hl. unfold fits in *. apply Z.bits_inj'. intros n Hn.
  rewrite Z.land_spec, Z.bits_0, Z.shiftl_spec by lia.
  destruct (decide (n < w)); [by rewrite (Z.testbit_neg_r high) by lia|].
  apply andb_false_intro2. rewrite <-(Z.mod_small low (2 ^ w)) by lia.
  apply Z.mod_pow2_bits_high; lia.
Qed.

(** Merging is positional: no carry, no overlap. *)
Lemma merge_half high low :
  fits w high → fits w low →
  Z.lor ((Z.shiftl high w) `mod` 2 ^ (2 * w)) low = high * 2 ^ w + low.
Proof.
  intros Hh Hl. pose proof pow_half. pose proof pow_half_pos.
  rewrite Z.mod_small by (unfold fits in *; rewrite Z.shiftl_mul_pow2; nia).
  rewrite <-Z.add_nocarry_lor by by apply land_half.
  by rewrite Z.shiftl_mul_pow2 by lia.
Qed.

Lemma high_half high low :
  fits w high → fits w low →
  (Z.shiftr (high * 2 ^ w + low) w) `mod` 2 ^ w = high.
Proof.
  intros Hh Hl. pose proof pow_half_pos. unfold fits in *.
  rewrite Z.shiftr_div_pow2, Z.div_add_l, (Z.div_small low), Z.add_0_r by lia.
  by apply Z.mod_small.
Qed.

Lemma low_half high low :
  fits w low → (high * 2 ^ w + low) `mod` 2 ^ w = low.
Proof.
  intros Hl. rewrite Z.add_comm, Z_mod_plus_full. by apply Z.mod_small.
Qed.

Lemma halves_sum i :
  fits (2 * w) i →
  (Z.shiftr i w) `mod` 2 ^ w * 2 ^ w + i `mod` 2 ^ w = i.
Proof.
  intros Hi. pose proof pow_half. pose proof pow_half_pos. unfold fits in *.
  rewrite Z.shiftr_div_pow2 by lia. rewrite (Z.mod_small (i / 2 ^ w)).
  - rewrite (Z.div_mod i (2 ^ w)) at 3; lia.
  - split; [apply Z.div_pos; lia|]. apply Z.div_lt_upper_bound; nia.
Qed.
End halves.

(** ** Round trips at the widths of the source *)
Lemma u32_merge_val high low :
  fits 16 high → fits 16 low → u32_merge_bits high low = high * 2 ^ 16 + low.
Proof. unfold u32_merge_bits, as_u32. apply (merge_half 16). lia. Qed.

Lemma u64_merge_val high low :
  fits 32 high → fits 32 low → u64_merge_bits high low = high * 2 ^ 32 + low.
Proof. unfold u64_merge_bits, as_u64. apply (merge_half 32). lia. Qed.

Lemma u32_split_merge high low :
  fits 16 high → fits 16 low →
  u32_split_bits (u32_merge_bits high low) = (high, low).
Proof.
  intros. rewrite u32_merge_val by done. 
  unfold u32_split_bits, u32_high_bits, u32_low_bits, as_u16. f_equal.
  - by apply (high_half 16).
  - by apply (low_half 16).
Qed.

Lemma u64_split_merge high low :
  fits 32 high → fits 32 low →
  u64_split_bits (u64_merge_bits high low) = (high, low).
Proof.
  intros. rewrite u64_merge_val by done. 
  unfold u64_split_bits, u64_high_bits, u64_low_bits, as_u32. f_equal.
  - by apply (high_half 32).
  - by apply (low_half 32).
Qed.

Lemma u64_high_bits_fits i : fits 32 (u64_high_bits i).
Proof. by apply fits_mod. Qed.
Lemma u64_low_bits_fits i : fits 32 (u64_low_bits i).
Proof. by apply fits_mod. Qed.
Lemma u32_high_bits_fits i : fits 16 (u32_high_bits i).
Proof. by apply fits_mod. Qed.
Lemma u32_low_bits_fits i : fits 16 (u32_low_bits i).
Proof. by apply fits_mod. Qed.

#[export] Hint Resolve u64_high_bits_fits u64_low_bits_fits
  u32_high_bits_fits u32_low_bits_fits : holo.

Lemma u32_merge_split i :
  fits 32 i → u32_merge_bits (u32_high_bits i) (u32_low_bits i) = i.
Proof.
  intros. rewrite u32_merge_val by auto with holo.
  unfold u32_high_bits, u32_low_bits, as_u16. by apply (halves_sum 16).
Qed.

Lemma u64_merge_split i :
  fits 64 i → u64_merge_bits (u64_high_bits i) (u64_low_bits i) = i.
Proof.
  intros. rewrite u64_merge_val by auto with holo.
  unfold u64_high_bits, u64_low_bits, as_u32. by apply (halves_sum 32).
Qed.

Lemma u64_merge_fits high low :
  fits 32 high → fits 32 low → fits 64 (u64_merge_bits high low).
Proof. intros. rewrite u64_merge_val by done. unfold fits in *. lia. Qed.

#[export] Hint Resolve u64_merge_fits : holo.

(** From here on the tactics treat the packing as opaque: unfolding it under
    symbolic arguments makes unification enumerate powers of two.  Evaluation
    by [vm_compute] is unaffected. *)
#[global] Opaque u32_high_bits u32_low_bits u32_merge_bits
  u64_high_bits u64_low_bits u64_merge_bits.

(** At both widths of the source, splitting a word into halves and
    merging them back is the identity, and so is merging two halves and
    splitting the word: the packing of two integers in one loses nothing. *)
Theorem bits_roundtrip (i32 i64 h16 l16 h32 l32 : Z) :
  fits 32 i32 → fits 64 i64 →
  fits 16 h16 → fits 16 l16 → fits 32 h32 → fits 32 l32 →
  (let '(h, l) := u32_split_bits i32 in u32_merge_bits h l = i32) ∧
  (let '(h, l) := u64_split_bits i64 in u64_merge_bits h l = i64) ∧
  u32_split_bits (u32_merge_bits h16 l16) = (h16, l16) ∧
  u64_split_bits (u64_merge_bits h32 l32) = (h32, l32).
Proof.
  intros. simpl. auto using u32_merge_split, u64_merge_split,
    u32_split_merge, u64_split_merge.
Qed.

Lemma bits_roundtrip_witness :
  u64_split_bits (u64_merge_bits 12 345) = (12, 345).
Proof.
  apply (bits_roundtrip 0 0 0 0 12 345); unfold fits; lia.
Defined.
