(* ===== verification/Errors.v ===== *)
(** * Errors

    [core_types/src/error/]: the error enums of the core, the error codes the
    ribosome hands to wasm, and the encoding of every value that crosses the
    wasm boundary as one 64-bit integer: zero is success, a non-zero low half
    is an allocation, a zero low half with a non-zero high half is a failure
    code. *)
From S2P Require Import Prelude Bits.
Open Scope Z_scope.

Inductive DnaError :=
| ZomeNotFound (err_msg : string)
| TraitNotFound (err_msg : string)
| ZomeFunctionNotFound (err_msg : string).

(** [#[repr(u64)] enum RibosomeErrorCode]. *)
Inductive RibosomeErrorCode :=
| Unspecified
| ArgumentDeserializationFailed
| OutOfMemory
| ReceivedWrongActionResult
| CallbackFailed
| RecursiveCallForbidden
| ResponseSerializationFailed
| NotAnAllocation
| ZeroSizedAllocation
| UnknownEntryType
| MismatchWasmCallDataType
| EntryNotFound
| WorkflowFailed.

Inductive HolochainError :=
| ErrorGeneric (err_msg : string)
| NotImplemented (description : string)
| LoggingError
| DnaMissing
| Dna (e : DnaError)
| IoError (err_msg : string)
| SerializationError (err_msg : string)
| InvalidOperationOnSysEntry
| CapabilityCheckFailed
| ValidationFailed (fail_msg : string)
| ValidationPending
| Ribosome (err_code : RibosomeErrorCode)
| RibosomeFailed (fail_msg : string)
| ConfigError (err_msg : string)
| Timeout
| InitializationFailed (err_msg : string)
| DnaHashMismatch (hash1 hash2 : string).

#[global] Instance DnaError_eq_dec : EqDecision DnaError.
Proof. solve_decision. Defined.
#[global] Instance RibosomeErrorCode_eq_dec : EqDecision RibosomeErrorCode.
Proof. solve_decision. Defined.
#[global] Instance HolochainError_eq_dec : EqDecision HolochainError.
Proof. solve_decision. Defined.

Abbreviation HcResult := (result HolochainError).

Definition DnaError_fmt (e : DnaError) : string :=
  match e with
  | ZomeNotFound err_msg => err_msg
  | TraitNotFound err_msg => err_msg
  | ZomeFunctionNotFound err_msg => err_msg
  end.

Definition as_str (code : RibosomeErrorCode) : string :=
  match code with
  | Unspecified => "Unspecified"
  | ArgumentDeserializationFailed => "Argument deserialization failed"
  | OutOfMemory => "Out of memory"
  | ReceivedWrongActionResult => "Received wrong action result"
  | CallbackFailed => "Callback failed"
  | RecursiveCallForbidden => "Recursive call forbidden"
  | ResponseSerializationFailed => "Response serialization failed"
  | NotAnAllocation => "Not an allocation"
  | ZeroSizedAllocation => "Zero-sized allocation"
  | UnknownEntryType => "Unknown entry type"
  | MismatchWasmCallDataType => "Mismatched WasmCallData type"
  | EntryNotFound => "Entry Could Not Be Found"
  | WorkflowFailed => "Workflow failed"
  end.

Definition HolochainError_fmt (e : HolochainError) : string :=
  match e with
  | ErrorGeneric err_msg => err_msg
  | NotImplemented description => "not implemented: " +:+ description
  | LoggingError => "logging failed"
  | DnaMissing => "DNA is missing"
  | Dna dna_err => DnaError_fmt dna_err
  | IoError err_msg => err_msg
  | SerializationError err_msg => err_msg
  | InvalidOperationOnSysEntry => "operation cannot be done on a system entry type"
  | CapabilityCheckFailed => "Caller does not have Capability to make that call"
  | ValidationFailed fail_msg => fail_msg
  | ValidationPending => "Entry validation could not be completed"
  | Ribosome err_code => as_str err_code
  | RibosomeFailed fail_msg => fail_msg
  | ConfigError err_msg => err_msg
  | Timeout => "timeout"
  | InitializationFailed err_msg => err_msg
  | DnaHashMismatch hash1 hash2 =>
      "Provided DNA hash does not match actual DNA hash! " +:+ hash1 +:+ " != " +:+ hash2
  end.

(** The discriminants of the enum. *)
Definition code_discriminant (code : RibosomeErrorCode) : Z :=
  Z.shiftl
    match code with
    | Unspecified => 1
    | ArgumentDeserializationFailed => 2
    | OutOfMemory => 3
    | ReceivedWrongActionResult => 4
    | CallbackFailed => 5
    | RecursiveCallForbidden => 6
    | ResponseSerializationFailed => 7
    | NotAnAllocation => 8
    | ZeroSizedAllocation => 9
    | UnknownEntryType => 10
    | MismatchWasmCallDataType => 11
    | EntryNotFound => 12
    | WorkflowFailed => 13
    end 32.

Definition code_of_error (error : HolochainError) : RibosomeErrorCode :=
  match error with
  | ErrorGeneric _ => Unspecified
  | NotImplemented _ => CallbackFailed
  | LoggingError => Unspecified
  | DnaMissing => Unspecified
  | Dna _ => Unspecified
  | IoError _ => Unspecified
  | SerializationError _ => ArgumentDeserializationFailed
  | InvalidOperationOnSysEntry => UnknownEntryType
  | CapabilityCheckFailed => Unspecified
  | ValidationFailed _ => CallbackFailed
  | ValidationPending => Unspecified
  | Ribosome e => e
  | RibosomeFailed _ => CallbackFailed
  | ConfigError _ => Unspecified
  | Timeout => Unspecified
  | InitializationFailed _ => Unspecified
  | DnaHashMismatch _ _ => Unspecified
  end.

(** [RibosomeErrorCode::from_code_int], which panics on zero. *)
Definition from_code_int (code : Z) : outcome RibosomeErrorCode :=
  match code with
  | 0 => Panicked "RibosomeErrorCode == 0 encountered"
  | 2 => Done ArgumentDeserializationFailed
  | 3 => Done OutOfMemory
  | 4 => Done ReceivedWrongActionResult
  | 5 => Done CallbackFailed
  | 6 => Done RecursiveCallForbidden
  | 7 => Done ResponseSerializationFailed
  | 8 => Done NotAnAllocation
  | 9 => Done ZeroSizedAllocation
  | 10 => Done UnknownEntryType
  | 12 => Done EntryNotFound
  | 13 => Done WorkflowFailed
  | _ => Done Unspecified
  end.

(** [FromStr for RibosomeErrorCode]. *)
Definition code_from_str (s : string) : HcResult RibosomeErrorCode :=
  if decide (s = "Unspecified") then Ok Unspecified
  else if decide (s = "Argument deserialization failed") then
    Ok ArgumentDeserializationFailed
  else if decide (s = "Out of memory") then Ok OutOfMemory
  else if decide (s = "Received wrong action result") then Ok ReceivedWrongActionResult
  else if decide (s = "Callback failed") then Ok CallbackFailed
  else if decide (s = "Recursive call forbidden") then Ok RecursiveCallForbidden
  else if decide (s = "Response serialization failed") then Ok ResponseSerializationFailed
  else if decide (s = "Not an allocation") then Ok NotAnAllocation
  else if decide (s = "Zero-sized allocation") then Ok ZeroSizedAllocation
  else if decide (s = "Unknown entry type") then Ok UnknownEntryType
  else if decide (s = "Entry Could Not Be Found") then Ok EntryNotFound
  else if decide (s = "Workflow failed") then Ok WorkflowFailed
  else Err (ErrorGeneric "Unknown RibosomeErrorCode").

(** ** Values crossing the wasm boundary *)
Inductive RibosomeEncodedValue :=
| Success
| Allocation (bits : Z)
| Failure (code : RibosomeErrorCode).

#[global] Instance RibosomeEncodedValue_eq_dec : EqDecision RibosomeEncodedValue.
Proof. solve_decision. Defined.

(** [From<RibosomeEncodedValue> for RibosomeEncodingBits]: an error code goes
    through [i64]. *)
Definition encode_value (v : RibosomeEncodedValue) : Z :=
  match v with
  | Success => 0
  | Allocation bits => bits
  | Failure code => as_u64 (as_i64 (code_discriminant code))
  end.

(** [From<RibosomeEncodedValue> for RibosomeRuntimeBits]. *)
Definition runtime_bits (v : RibosomeEncodedValue) : Z := as_i64 (encode_value v).

(** [From<RibosomeEncodingBits> for RibosomeEncodedValue]. *)
Definition decode_value (i : Z) : outcome RibosomeEncodedValue :=
  if decide (i = 0) then Done Success
  else
    let '(code_int, maybe_allocation_length) := u64_split_bits i in
    if decide (maybe_allocation_length = 0)
    then Failure <$> from_code_int code_int
    else Done (Allocation i).

(** [RibosomeErrorCode::from_return_code]. *)
Definition from_return_code (v : RibosomeEncodedValue) : outcome RibosomeErrorCode :=
  match v with
  | Failure rib_err => Done rib_err
  | _ => Panicked "RibosomeEncodedValue encountered"
  end.

(** [ToString for RibosomeEncodedValue]; [pretty] prints in decimal. *)
Definition value_to_string (v : RibosomeEncodedValue) : string :=
  match v with
  | Success => "Success"
  | Allocation bits => pretty bits
  | Failure code => as_str code
  end.

(** [FromStr for RibosomeEncodedValue]. *)
Definition value_from_str (s : string) : HcResult RibosomeEncodedValue :=
  if decide (s = "Success") then Ok Success
  else Failure <$> code_from_str s.

Definition value_of_error (error : HolochainError) : RibosomeEncodedValue :=
  Failure (code_of_error error).

(** ** Lemmas *)

(** Values that the encoding can represent: an allocation is a 64-bit word with
    a non-zero length half. *)
Definition well_encoded (v : RibosomeEncodedValue) : Prop :=
  match v with
  | Allocation bits => fits 64 bits ∧ u64_low_bits bits ≠ 0
  | _ => True
  end.

Lemma code_discriminant_bits code :
  u64_low_bits (encode_value (Failure code)) = 0 ∧
  0 < u64_high_bits (encode_value (Failure code)) < 14.
Proof. by destruct code; vm_compute. Qed.

(** An error code is unchanged by its trip through the signed type. *)
Lemma encode_failure code : encode_value (Failure code) = code_discriminant code.
Proof. by destruct code; vm_compute. Qed.

Lemma encode_value_fits v : well_encoded v → fits 64 (encode_value v).
Proof.
  destruct v as [|bits|code]; simpl; [done|by intros []|].
  intros _. by apply fits_mod.
Qed.

Lemma as_u64_i64 x : fits 64 x → as_u64 (as_i64 x) = x.
Proof.
  unfold fits, as_u64, as_i64. intros Hx. rewrite (Z.mod_small x) by done.
  case_decide; [by apply Z.mod_small|].
  rewrite <-(Z_mod_plus_full _ 1), Z.mul_1_l, Z.sub_add. by apply Z.mod_small.
Qed.

Lemma from_code_int_total code : code ≠ 0 → ∃ c, from_code_int code = Done c.
Proof. intros. unfold from_code_int. repeat case_match; eauto. done. Qed.

Lemma u64_bits_zero i : fits 64 i → u64_high_bits i = 0 → u64_low_bits i = 0 → i = 0.
Proof. intros Hi Hh Hl. rewrite <-(u64_merge_split i Hi), Hh, Hl. done. Qed.

Lemma decode_failure code :
  decode_value (encode_value (Failure code)) =
  Done (Failure (if decide (code = MismatchWasmCallDataType)
                 then Unspecified else code)).
Proof. by destruct code; vm_compute. Qed.

Lemma decode_value_unfold i :
  decode_value i =
  if decide (i = 0) then Done Success
  else if decide (u64_low_bits i = 0)
  then Failure <$> from_code_int (u64_high_bits i)
  else Done (Allocation i).
Proof. reflexivity. Qed.

Lemma decode_allocation bits :
  u64_low_bits bits ≠ 0 → decode_value bits = Done (Allocation bits).
Proof.
  intros Hl. rewrite decode_value_unfold.
  case_decide as Hz; [by subst|]. by rewrite decide_False.
Qed.

(** ** Properties *)

(** No 64-bit word received from wasm makes the decoder panic, and the
    decoded value says what the word was: zero is success, a word with a
    non-zero low half is that same allocation, and any other word a failure. *)
Theorem decode_value_total (i : Z) :
  fits 64 i →
  ∃ v, decode_value i = Done v ∧
    (v = Success ↔ i = 0) ∧
    (∀ bits, v = Allocation bits ↔ bits = i ∧ u64_low_bits i ≠ 0) ∧
    ((∃ code, v = Failure code) ↔ i ≠ 0 ∧ u64_low_bits i = 0).
Proof.
  intros Hi. rewrite decode_value_unfold. case_decide as Hz.
  { subst. exists Success. change (u64_low_bits 0) with 0.
    split_and!; [done|done| |].
    - intros bits. split; [done|]. by intros [_ []].
    - split; [by intros [? [=]]|]. by intros [[] _]. }
  case_decide as Hl.
  - destruct (from_code_int_total (u64_high_bits i)) as [c Hc].
    { intros Hh. by apply Hz, u64_bits_zero. }
    rewrite Hc. exists (Failure c). split_and!; [done|done| |by split; eauto].
    intros bits. split; [done|]. by intros [_ []].
  - exists (Allocation i). split_and!; [done|done| |].
    + intros bits. split; [by intros [= ->]|]. by intros [-> _].
    + split; [by intros [? [=]]|]. by intros [_ ?].
Qed.

Lemma decode_value_total_witness :
  ∃ v, decode_value (3 * 2 ^ 32) = Done v ∧ v ≠ Success.
Proof.
  destruct (decode_value_total (3 * 2 ^ 32)) as (v & Hv & [Hs _] & _).
  { unfold fits. lia. }
  exists v. split; [exact Hv|]. intros H. specialize (Hs H). discriminate Hs.
Defined.

(** encoding a value for wasm, passing it through the signed integer
    wasm sees, and decoding it gives the value back, for every representable
    value but one: [MismatchWasmCallDataType] comes back as [Unspecified]. *)
Theorem encode_decode_value (v : RibosomeEncodedValue) :
  well_encoded v →
  decode_value (as_u64 (runtime_bits v)) =
    Done (if decide (v = Failure MismatchWasmCallDataType)
          then Failure Unspecified else v).
Proof.
  intros Hv. unfold runtime_bits. rewrite as_u64_i64 by by apply encode_value_fits.
  destruct v as [|bits|code].
  - done.
  - simpl in *. rewrite decode_allocation by tauto. done.
  - rewrite decode_failure. by destruct code.
Qed.

Lemma encode_decode_value_witness :
  decode_value (as_u64 (runtime_bits (Allocation (2 ^ 63 + 7)))) =
  Done (Allocation (2 ^ 63 + 7)).
Proof.
  rewrite (encode_decode_value (Allocation (2 ^ 63 + 7))); [reflexivity|].
  split; [unfold fits; lia|by vm_compute].
Defined.

(** Printing an error code and parsing it back gives the code, for
    every code but [MismatchWasmCallDataType], whose text the parser rejects. *)
Theorem code_str_roundtrip (code : RibosomeErrorCode) :
  code_from_str (as_str code) = Ok code ↔ code ≠ MismatchWasmCallDataType.
Proof. by destruct code; vm_compute; split. Qed.
