(* ===== verification/Regex.v ===== *)
(** * Regular expressions with captures

    What [core_types/src/time.rs] uses of the [regex] crate.  The crate is an interface,
    [RegexEngine], whose law is the documented meaning of the patterns in use: characters
    and classes (case-insensitive and Unicode-aware), greedy repetition of a class,
    options, alternatives and named groups, anchored at both ends; the match is the
    first one in the order of preference (greedy, leftmost alternative first).

    Text is a list of code points. *)
From S2P Require Import Prelude.

Abbreviation text := (list Z).

(** The code points of an ASCII string. *)
Definition lit (s : string) : text := Z.of_nat ∘ Ascii.nat_of_ascii <$> String.list_ascii_of_string s.

(** The Unicode classes for white space and decimal digits, which are known here only
    for ASCII and for the minus sign U+2212, which is in neither. *)
Class Unicode := {
  is_white : Z → bool;
  is_digit : Z → bool;
  is_white_ascii c : 0 ≤ c < 128 → is_white c = bool_decide (9 ≤ c ≤ 13 ∨ c = 32);
  is_digit_ascii c : 0 ≤ c < 128 → is_digit c = bool_decide (48 ≤ c ≤ 57);
  is_white_minus : is_white 8722 = false;
  is_digit_minus : is_digit 8722 = false;
}.

Inductive re :=
| Eps
| Chr (p : Z → bool)
| Many (p : Z → bool)
| Cat (r1 r2 : re)
| Alt (r1 r2 : re)
| Opt (r : re)
| Cap (name : string) (r : re).

(** Captures: the text of the named groups that took part in the match. *)
Abbreviation captures := (gmap string text).

Section matching.
Context {A : Type}.

(** Greedy repetition: as many characters as possible, then fewer. *)
Fixpoint many (p : Z → bool) (s : text) (k : text → option A) : option A :=
  match s with
  | c :: s' =>
      if p c then match many p s' k with Some x => Some x | None => k s end else k s
  | [] => k []
  end.

Fixpoint search (r : re) (s : text) (caps : captures) (k : text → captures → option A) :
    option A :=
  match r with
  | Eps => k s caps
  | Chr p => match s with c :: s' => if p c then k s' caps else None | [] => None end
  | Many p => many p s (λ s', k s' caps)
  | Cat r1 r2 => search r1 s caps (λ s' caps', search r2 s' caps' k)
  | Alt r1 r2 =>
      match search r1 s caps k with Some x => Some x | None => search r2 s caps k end
  | Opt r => match search r s caps k with Some x => Some x | None => k s caps end
  | Cap name r =>
      search r s caps (λ s' caps', k s' (<[name := take (length s - length s') s]> caps'))
  end.
End matching.

(** [Regex::captures] of [^r$]. *)
Definition captures_of (r : re) (s : text) : option captures :=
  search r s ∅ (λ s' caps, match s' with [] => Some caps | _ => None end).

(** The crate: it finds the preferred match. *)
Class RegexEngine := {
  regex_captures : re → text → option captures;
  regex_captures_documented r s : regex_captures r s = captures_of r s;
}.

(** ** Notation of the patterns *)

(** A character under [(?i)], with what Unicode folds to it. *)
Definition folded (c d : Z) : bool :=
  bool_decide (d = c) ||
  (bool_decide (97 ≤ c ≤ 122) && bool_decide (d = c - 32)) ||
  (bool_decide (c = 115) && bool_decide (d = 383)) ||
  (bool_decide (c = 107) && bool_decide (d = 8490)) ||
  (bool_decide (c = 956) && (bool_decide (d = 924) || bool_decide (d = 181))).

Fixpoint word_of (s : text) : re :=
  match s with
  | [] => Eps
  | [c] => Chr (folded c)
  | c :: s => Cat (Chr (folded c)) (word_of s)
  end.
Definition word (s : string) : re := word_of (lit s).

Definition spaces `{Unicode} : re := Many is_white.
Definition digits1 `{Unicode} : re := Cat (Chr is_digit) (Many is_digit).

(** ** Lemmas *)
Section lemmas.
Context {A : Type}.

(** A repetition that the rest of the pattern accepts takes everything it can. *)
Lemma many_all p (s s' : text) (k : text → option A) x :
  forallb p s = true → match s' with c :: _ => p c = false | [] => True end →
  k s' = Some x → many p (s ++ s') k = Some x.
Proof.
  intros Hs Hs' Hk. induction s as [|c s IH]; simpl in *.
  - destruct s' as [|c s']; simpl; [done|]. by rewrite Hs'.
  - apply andb_true_iff in Hs as [-> Hs]. by rewrite IH.
Qed.

(** It fails when the rest of the pattern accepts none of the suffixes. *)
Lemma many_none p (s s' : text) (k : text → option A) :
  forallb p s = true → match s' with c :: _ => p c = false | [] => True end →
  (∀ s1 s2, s = s1 ++ s2 → k (s2 ++ s') = None) → many p (s ++ s') k = None.
Proof.
  intros Hs Hs' Hk. induction s as [|c s IH]; simpl in *.
  - pose proof (Hk [] [] eq_refl) as Hk0. destruct s' as [|c s']; simpl in *; [done|]. by rewrite Hs'.
  - apply andb_true_iff in Hs as [-> Hs]. rewrite IH; [|done|].
    + exact (Hk [] (c :: s) eq_refl).
    + intros s1 s2 ->. exact (Hk (c :: s1) s2 eq_refl).
Qed.
End lemmas.
