(* ===== verification/Time.v ===== *)
(** * Timeouts and periods

    [core_types/src/time.rs]: [Timeout], [Period] (a [std::time::Duration] with a
    text form) and the conversions between them. *)
From S2P Require Import Prelude Errors.

(** [std::time::Duration]: whole seconds and nanoseconds below a second. *)
Record Duration := MkDuration { as_secs : Z; subsec_nanos : Z }.

Definition duration_wf (d : Duration) : Prop :=
  fits 64 (as_secs d) ∧ 0 ≤ subsec_nanos d < 1000000000.

#[global] Instance Duration_eq_dec : EqDecision Duration.
Proof. solve_decision. Defined.

(** [Duration::new] carries nanoseconds over a second into the seconds and panics
    when these overflow. *)
Definition duration_new (secs nanos : Z) : outcome Duration :=
  if decide (secs + nanos `div` 1000000000 < 2 ^ 64)
  then Done (MkDuration (secs + nanos `div` 1000000000) (nanos `mod` 1000000000))
  else Panicked "overflow in Duration::new".

(** [Duration::from_millis] and [Duration::subsec_millis]. *)
Definition from_millis (ms : Z) : Duration :=
  MkDuration (ms `div` 1000) (ms `mod` 1000 * 1000000).
Definition subsec_millis (d : Duration) : Z := subsec_nanos d `div` 1000000.

(** ** Timeouts, in milliseconds; [usize] has 64 bits. *)
Record Timeout := MkTimeout { timeout_ms : Z }.

Definition timeout_new (ms : Z) : Timeout := MkTimeout ms.
Definition timeout_default : Timeout := MkTimeout 60000.

(** [From<Timeout> for Duration]. *)
Definition duration_of_timeout (t : Timeout) : Duration := from_millis (as_u64 (timeout_ms t)).

(** ** Periods

    [Period] wraps a [Duration].  [usize] has 64 bits on the hosts and 32 bits in
    zome code, which is compiled to wasm32. *)
Definition usize_max (bits : Z) : Z := 2 ^ bits - 1.
Definition as_usize (bits z : Z) : Z := z `mod` 2 ^ bits.

(** Arithmetic on [usize], which panics on overflow in checked builds. *)
Definition usize_op (bits z : Z) : outcome Z :=
  if decide (0 ≤ z ≤ usize_max bits) then Done z else Panicked "attempt to add with overflow".

(** [From<Period> for Timeout]. *)
Definition timeout_of_period (bits : Z) (d : Duration) : outcome Timeout :=
  if decide (usize_max bits `div` 1000 ≤ as_usize bits (as_secs d))
  then Done (MkTimeout (usize_max bits))
  else
    ms ← usize_op bits (as_usize bits (as_secs d) * 1000);
    total ← usize_op bits (ms + as_usize bits (subsec_millis d));
    Done (MkTimeout total).

(** The milliseconds of a duration, as a number. *)
Definition total_millis (d : Duration) : Z := as_secs d * 1000 + subsec_nanos d `div` 1000000.

Lemma as_usize_small bits z : 0 ≤ z < 2 ^ bits → as_usize bits z = z.
Proof. apply Z.mod_small. Qed.

(** C24: on 64 bits a period becomes a timeout without overflow: exactly its
    milliseconds as long as these are below the capacity rounded down to seconds,
    and the largest timeout from there on. *)
Theorem timeout_of_period_bounds d :
  duration_wf d →
  timeout_of_period 64 d = Done (MkTimeout
    (if decide (as_secs d < usize_max 64 `div` 1000) then total_millis d else usize_max 64)) ∧
  (as_secs d < usize_max 64 `div` 1000 → 0 ≤ total_millis d < usize_max 64).
Proof.
  intros [[Hs1 Hs2] Hn]. unfold timeout_of_period, total_millis, subsec_millis.
  assert (0 ≤ subsec_nanos d `div` 1000000 < 1000) as Hm.
  { split; [apply Z.div_pos; lia|apply Z.div_lt_upper_bound; lia]. }
  assert (usize_max 64 = 18446744073709551615 ∧ usize_max 64 `div` 1000 = 18446744073709551)
    as [Em Ed] by (split; vm_compute; reflexivity).
  rewrite !as_usize_small by (unfold usize_max in *; lia). unfold usize_op. rewrite !Ed, !Em.
  split; [|lia]. repeat (case_decide; simpl; try lia); done.
Qed.

(** In zome code, where [usize] has 32 bits, the conversion truncates the
    seconds before it compares them: a period of a hundred and thirty-six years is
    turned into a timeout of nothing instead of the longest one. *)
Theorem timeout_of_period_truncates :
  duration_wf (MkDuration (2 ^ 32) 0) ∧
  timeout_of_period 32 (MkDuration (2 ^ 32) 0) = Done (MkTimeout 0).
Proof. split; [|vm_compute; reflexivity]. split; simpl; [split|]; lia. Qed.

Module Demo.
Lemma timeout_of_period_bounds_witness :
  timeout_of_period 64 (MkDuration 90 250000000) = Done (MkTimeout 90250).
Proof.
  destruct (timeout_of_period_bounds (MkDuration 90 250000000)) as [H _].
  - split; simpl; [split|]; lia.
  - rewrite H. vm_compute. reflexivity.
Defined.
End Demo.
