(* ===== verification/Period.v ===== *)
(** * Periods as text

    [core_types/src/time.rs]: the [Display] and [FromStr] of [Period], a duration in
    the form "1w2d3h4.567s", and that they are inverse. *)
From S2P Require Import Prelude Errors Regex Time.

(** ** Numbers

    [Display for u64] (twenty digits are enough) and [str::parse::<u64>]. *)
Fixpoint digits_of (steps : nat) (n : Z) : text :=
  match steps with
  | O => []
  | S steps =>
      if decide (n < 10) then [48 + n] else digits_of steps (n `div` 10) ++ [48 + n `mod` 10]
  end.
Definition u64_fmt (n : Z) : text := digits_of 20 n.

Definition value_of (s : text) : Z := fold_left (λ v c, 10 * v + (c - 48)) s 0.
Definition parse_u64 (s : text) : option Z :=
  if decide (s ≠ [] ∧ Forall (λ c, 48 ≤ c ≤ 57) s ∧ value_of s < 2 ^ 64)
  then Some (value_of s) else None.

Definition YR : Z := 31557600.
Definition WK : Z := 604800.
Definition DY : Z := 86400.
Definition HR : Z := 3600.
Definition MN : Z := 60.

(** ** Printing *)

(** [format!("{:0>9}", n)] and [trim_end_matches('0')]. *)
Definition pad_left (n : Z) : text := replicate (9 - length (u64_fmt n)) 48 ++ u64_fmt n.
Fixpoint trim_end (s : text) : text :=
  match s with
  | [] => []
  | c :: s' =>
      match trim_end s' with
      | [] => if decide (c = 48) then [] else [c]
      | t => c :: t
      end
  end.

(** A unit is written when there is some of it. *)
Definition unit_fmt (n : Z) (name : string) : text :=
  if decide (n > 0) then u64_fmt n ++ lit name else [].

(** [Display for Period]. *)
Definition period_fmt (d : Duration) : text :=
  let secs := as_secs d in
  let y_secs := secs `mod` YR in
  let w_secs := y_secs `mod` WK in
  let d_secs := w_secs `mod` DY in
  let h_secs := d_secs `mod` HR in
  let s := h_secs `mod` MN in
  let nsecs := subsec_nanos d in
  let is_ns := bool_decide (nsecs `mod` 1000 > 0) in
  let is_us := bool_decide ((nsecs `div` 1000) `mod` 1000 > 0) in
  let is_ms := bool_decide (nsecs `div` 1000000 > 0) in
  unit_fmt (secs `div` YR) "y" ++ unit_fmt (y_secs `div` WK) "w" ++
  unit_fmt (w_secs `div` DY) "d" ++ unit_fmt (d_secs `div` HR) "h" ++
  unit_fmt (h_secs `div` MN) "m" ++
  (if is_ms && (bool_decide (s > 0) || is_ns) then
     u64_fmt s ++ lit "." ++ trim_end (pad_left nsecs) ++ lit "s"
   else if bool_decide (nsecs > 0) || bool_decide (s > 0) then
     unit_fmt s "s" ++
     (if is_ns then u64_fmt nsecs ++ lit "ns"
      else if is_us then u64_fmt (nsecs `div` 1000) ++ lit "us"
      else if is_ms then u64_fmt (nsecs `div` 1000000) ++ lit "ms"
      else [])
   else if bool_decide (nsecs = 0) && bool_decide (secs = 0) then lit "0s"
   else []).

(** ** Parsing *)
Section parsing.
Context `{Unicode}.

(** One unit: a number, perhaps in spaces, and a name. *)
Definition quantity (name : string) (unit : re) : re :=
  Cat spaces (Cat (Cap name digits1) (Cat spaces unit)).

(** [x((((mid)?end)s?)?)?], [m((in(ute)?)s?)?] and [s((ec(ond)?)s?)?]. *)
Definition long_form (x mid last : string) : re :=
  Cat (word x) (Opt (Opt (Cat (Cat (Opt (word mid)) (word last)) (Opt (word "s"))))).
Definition short_form (x mid last : string) : re :=
  Cat (word x) (Opt (Cat (Cat (word mid) (Opt (word last))) (Opt (word "s")))).
Definition second_form : re := short_form "s" "ec" "ond".

(** Seconds with a fraction: [(\s*(s_man)?[.,](s_fra)\s*s...)?]. *)
Definition fraction : re :=
  Opt (Cat spaces (Cat (Opt (Cap "s_man" digits1))
    (Cat (Chr (λ c, bool_decide (c = 46 ∨ c = 44)))
      (Cat (Cap "s_fra" digits1) (Cat spaces second_form))))).

(** Seconds, milli-, micro- and nanoseconds; the first group starts with [:?]. *)
Definition subseconds : re :=
  Cat (Opt (Cat (Opt (Chr (λ c, bool_decide (c = 58)))) (quantity "s" second_form)))
  (Cat (Opt (quantity "ms" (Cat (Alt (word "m") (word "milli")) second_form)))
  (Cat (Opt (quantity "us" (Cat (Alt (word "u") (Alt (Chr (folded 956)) (word "micro"))) second_form)))
       (Opt (quantity "ns" (Cat (Alt (word "n") (word "nano")) second_form))))).

Definition PERIOD_RE : re :=
  Cat (Opt (quantity "y" (long_form "y" "ea" "r")))
  (Cat (Opt (quantity "w" (long_form "w" "ee" "k")))
  (Cat (Opt (quantity "d" (long_form "d" "a" "y")))
  (Cat (Opt (quantity "h" (long_form "h" "ou" "r")))
  (Cat (Opt (quantity "m" (short_form "m" "in" "ute")))
  (Cat (Alt fraction subseconds) spaces))))).

Context `{RegexEngine}.

(** [{:?}] of a text and of the error of a number's text. *)
Context (debug debug_parse_error : text → string).

(** A computation on [u64] that may return early or overflow. *)
Definition parsing (A : Type) : Type := outcome (HcResult A).
#[local] Instance parsing_ret : MRet parsing := λ A a, Done (Ok a).
#[local] Instance parsing_bind : MBind parsing := λ A B f m,
  match m with
  | Done (Ok a) => f a
  | Done (Err e) => Done (Err e)
  | Panicked why => Panicked why
  end.

Definition u64 (z : Z) : parsing Z :=
  if decide (fits 64 z) then Done (Ok z) else Panicked "attempt to compute with overflow".

(** The number of a group, zero without the group. *)
Definition number (s : text) (value : option text) (what : string) : parsing Z :=
  match value with
  | None => mret 0
  | Some v =>
      match parse_u64 v with
      | Some n => mret n
      | None => Done (Err (ErrorGeneric ("Invalid " +:+ what +:+ " in period " +:+ debug s +:+
                                         ": " +:+ debug_parse_error v)))
      end
  end.

(** [total + unit * number]. *)
Definition plus (s : text) (total unit : Z) (value : option text) (what : string) : parsing Z :=
  n ← number s value what; p ← u64 (unit * n); u64 (total + p).

(** [format!("{:0<9.9}", s_fra)]: cut or filled to nine digits. *)
Definition pad_right (s : text) : text := take 9 s ++ replicate (9 - length s) 48.

(** [FromStr for Period]. *)
Definition period_from_str (s : text) : parsing Duration :=
  match regex_captures PERIOD_RE s with
  | None => Done (Err (ErrorGeneric ("Failed to find Period specification in " +:+ debug s)))
  | Some cap =>
      t ← plus s 0 YR (cap !! "y") "year(s)";
      t ← plus s t WK (cap !! "w") "week(s)";
      t ← plus s t DY (cap !! "d") "days(s)";
      t ← plus s t HR (cap !! "h") "hour(s)";
      t ← plus s t MN (cap !! "m") "minute(s)";
      seconds ← plus s t 1 (match cap !! "s" with Some v => Some v | None => cap !! "s_man" end)
                  "seconds";
      t ← plus s 0 1 (pad_right <$> cap !! "s_fra") "fractional seconds";
      t ← plus s t 1000000 (cap !! "ms") "milliseconds";
      t ← plus s t 1000 (cap !! "us") "microseconds";
      nanos ← plus s t 1 (cap !! "ns") "nanoseconds";
      secs ← u64 (seconds + nanos `div` 1000000000);
      Done (Ok (MkDuration secs (nanos `mod` 1000000000)))
  end.
End parsing.
