(* ===== verification/PeriodFacts.v ===== *)
(** * Periods survive their text

    The text that [Display] writes for a duration is read back as that duration. *)
From S2P Require Import Prelude Errors Regex Time Period.

(** ** Numbers *)
Definition digit (c : Z) : Prop := 48 ≤ c ≤ 57.

Lemma digits_of_digits k n : 0 ≤ n → Forall digit (digits_of k n).
Proof.
  revert n. induction k as [|k IH]; intros n Hn; simpl; [constructor|]. case_decide.
  - repeat constructor; unfold digit; lia.
  - apply Forall_app. split; [apply IH, Z.div_pos; lia|].
    repeat constructor; unfold digit; pose proof (Z.mod_pos_bound n 10); lia.
Qed.

Lemma value_of_snoc s c : value_of (s ++ [c]) = 10 * value_of s + (c - 48).
Proof. unfold value_of. by rewrite fold_left_app. Qed.

Lemma value_of_digits_of k n : 0 ≤ n < 10 ^ Z.of_nat k → value_of (digits_of k n) = n.
Proof.
  revert n. induction k as [|k IH]; intros n Hn; [simpl in *; unfold value_of; simpl; lia|].
  cbn [digits_of]. case_decide; [unfold value_of; simpl; lia|].
  rewrite value_of_snoc, IH.
  - pose proof (Z.div_mod n 10). lia.
  - rewrite Nat2Z.inj_succ, Z.pow_succ_r in Hn by lia.
    split; [apply Z.div_pos; lia|apply Z.div_lt_upper_bound; lia].
Qed.

Lemma length_digits_of k j n :
  0 ≤ n < 10 ^ Z.of_nat j → (1 ≤ j)%nat → (length (digits_of k n) ≤ j)%nat.
Proof.
  revert j n. induction k as [|k IH]; intros j n Hn Hj; [simpl; lia|]. cbn [digits_of].
  case_decide; [simpl; lia|]. rewrite length_app. simpl.
  destruct j as [|[|j]]; [lia|change (10 ^ Z.of_nat 1) with 10 in Hn; lia|].
  rewrite (Nat2Z.inj_succ (S j)), Z.pow_succ_r in Hn by lia.
  assert (length (digits_of k (n `div` 10)) ≤ S j)%nat; [|lia].
  apply IH; [|lia]. split; [apply Z.div_pos; lia|apply Z.div_lt_upper_bound; lia].
Qed.

Lemma u64_fmt_cons n : ∃ c s, u64_fmt n = c :: s.
Proof.
  unfold u64_fmt. cbn [digits_of]. case_decide; [eauto|].
  destruct (_ ++ [_]) eqn:E; [by apply app_nil in E as [_ ?]|eauto].
Qed.

Lemma u64_bound n : fits 64 n → 0 ≤ n < 10 ^ Z.of_nat 20.
Proof. intros [H1 H2]. split; [done|]. etrans; [exact H2|]. by vm_compute. Qed.

Lemma u64_fmt_digits n : fits 64 n → Forall digit (u64_fmt n).
Proof. intros [H _]. by apply digits_of_digits. Qed.

Lemma parse_digits s :
  s ≠ [] → Forall digit s → value_of s < 2 ^ 64 → parse_u64 s = Some (value_of s).
Proof. intros H1 H2 H3. unfold parse_u64. by rewrite decide_True. Qed.

Lemma parse_u64_fmt n : fits 64 n → parse_u64 (u64_fmt n) = Some n.
Proof.
  intros Hn. pose proof (value_of_digits_of 20 n (u64_bound n Hn)) as Hv.
  rewrite parse_digits.
  - unfold u64_fmt. by rewrite Hv.
  - destruct (u64_fmt_cons n) as (c & s & ->). done.
  - by apply u64_fmt_digits.
  - unfold u64_fmt. rewrite Hv. apply Hn.
Qed.

(** *** Fractions *)
Lemma pad_right_trim s : length s = 9%nat → pad_right (trim_end s) = s.
Proof.
  assert (∀ s, trim_end s ++ replicate (length s - length (trim_end s)) 48 = s) as Ht.
  { clear s. induction s as [|c s IH]; [done|]. simpl. destruct (trim_end s) as [|d t] eqn:E.
    - case_decide as Hc; simpl in *; rewrite Nat.sub_0_r in IH; subst; simpl; by rewrite ?IH, ?Nat.sub_0_r, ?IH.
    - simpl in *. by rewrite IH. }
  intros Hl. unfold pad_right. pose proof (Ht s) as Hs. rewrite Hl in Hs.
  assert (length (trim_end s) ≤ 9)%nat as Hle.
  { apply (f_equal length) in Hs. rewrite length_app, Hl in Hs. lia. }
  by rewrite take_ge by lia.
Qed.

Lemma value_of_zeros k s : value_of (replicate k 48 ++ s) = value_of s.
Proof. unfold value_of. rewrite fold_left_app. f_equal. by induction k. Qed.

Lemma pad_left_facts n :
  0 ≤ n < 1000000000 →
  length (pad_left n) = 9%nat ∧ Forall digit (pad_left n) ∧ value_of (pad_left n) = n.
Proof.
  intros Hn. assert (fits 64 n) as Hf by (split; [lia|]; etrans; [apply Hn|by vm_compute]).
  assert (length (u64_fmt n) ≤ 9)%nat as Hl by (apply (length_digits_of 20 9); [simpl; lia|lia]).
  unfold pad_left. split_and!.
  - rewrite length_app, length_replicate. lia.
  - apply Forall_app. split; [|by apply u64_fmt_digits]. apply Forall_replicate. unfold digit. lia.
  - rewrite value_of_zeros. apply value_of_digits_of. by apply u64_bound.
Qed.

Lemma trim_end_digits s : Forall digit s → Forall digit (trim_end s).
Proof.
  induction 1 as [|c s Hc Hs IH]; simpl; [constructor|].
  destruct (trim_end s); [case_decide|]; auto.
Qed.

Lemma trim_end_cons s : value_of s ≠ 0 → ∃ c t, trim_end s = c :: t.
Proof.
  intros Hv. destruct (trim_end s) as [|c t] eqn:E; [|eauto]. exfalso. apply Hv. clear Hv.
  revert E. unfold value_of. induction s as [|c s IH]; [done|]. simpl.
  destruct (trim_end s); [|done]. case_decide; [|done]. subst. intros _. by apply IH.
Qed.

(** ** Matching *)
Definition letter (c : Z) : Prop := 97 ≤ c ≤ 122.
Ltac is_letter := unfold letter; lia.

Section matching.
Context `{Unicode}.
Context {A : Type}.
Implicit Type k : text → captures → option A.

Lemma digit_class c : digit c → is_digit c = true ∧ is_white c = false.
Proof.
  intros Hc. unfold digit in Hc.
  rewrite is_digit_ascii, is_white_ascii by lia. split; [apply bool_decide_true|apply bool_decide_false]; lia.
Qed.

(** The characters that can follow a number: neither digits nor spaces. *)
Definition plain (c : Z) : Prop := 33 ≤ c < 48 ∨ 58 ≤ c < 128.

Lemma plain_class c : plain c → is_digit c = false ∧ is_white c = false.
Proof.
  intros Hc. unfold plain in Hc.
  rewrite is_digit_ascii, is_white_ascii by lia. split; apply bool_decide_false; lia.
Qed.

Lemma folded_digit c d : 97 ≤ c ≤ 122 ∨ c = 956 → digit d → folded c d = false.
Proof.
  unfold digit, folded. intros Hc Hd.
  repeat match goal with |- context [bool_decide ?P] =>
    first [rewrite (bool_decide_false P) by lia|rewrite (bool_decide_true P) by lia|
           destruct (bool_decide P)] end; done.
Qed.

(** The text starts with a number, or is empty. *)
Definition at_number (s : text) : Prop := match s with c :: _ => digit c | [] => True end.
Definition at_plain (s : text) : Prop := match s with c :: _ => plain c | [] => True end.

Lemma digits_class ds : Forall digit ds → forallb is_digit ds = true.
Proof.
  induction 1 as [|c ds Hc _ IH]; [done|]. simpl. by destruct (digit_class c Hc) as [-> _].
Qed.

Lemma many_digits ds s (k : text → option A) x :
  Forall digit ds → at_plain s → k s = Some x → many is_digit (ds ++ s) k = Some x.
Proof.
  intros Hd Hs. apply many_all.
  - by apply digits_class.
  - destruct s; [done|]. by destruct (plain_class _ Hs).
Qed.

Lemma many_white s (k : text → option A) :
  at_number s ∨ at_plain s → many is_white s k = k s.
Proof.
  intros Hs. destruct s as [|c s]; simpl; [done|].
  destruct Hs as [Hs|Hs]; [destruct (digit_class _ Hs) as [_ ->]|destruct (plain_class _ Hs) as [_ ->]];
    done.
Qed.

Lemma take_app_minus (s t : text) : take (length (s ++ t) - length t) (s ++ t) = s.
Proof. rewrite length_app. replace (length s + length t - length t)%nat with (length s) by lia. apply take_app_length. Qed.

(** A number and its unit are taken when the rest accepts what follows. *)
Lemma number_taken name ds s caps k x :
  Forall digit ds → ds ≠ [] → at_plain s →
  k s (<[name := ds]> caps) = Some x → search (Cap name digits1) (ds ++ s) caps k = Some x.
Proof.
  intros Hd Hne Hs Hk. destruct ds as [|c ds]; [done|]. inversion Hd as [|? ? Hc Hd']; subst.
  cbn [search digits1 app]. destruct (digit_class c Hc) as [-> _].
  apply many_digits; [done..|]. change (c :: ds ++ s) with ((c :: ds) ++ s).
  by rewrite take_app_minus.
Qed.

Lemma quantity_taken name u ds s caps k x :
  Forall digit ds → ds ≠ [] → at_plain s →
  search u s (<[name := ds]> caps) k = Some x →
  search (quantity name u) (ds ++ s) caps k = Some x.
Proof.
  intros Hd Hne Hs Hu. unfold quantity, spaces. cbn [search].
  rewrite many_white by (left; destruct ds; [done|by inversion Hd]).
  change (search (Cap name digits1) (ds ++ s) caps
    (λ s' caps', many is_white s' (λ s', search u s' caps' k)) = Some x).
  apply number_taken; [done..|]. by rewrite many_white by (by right).
Qed.

(** Without a continuation after the number or inside it, it is not taken. *)
Lemma number_absent name ds s caps k :
  Forall digit ds → at_plain s →
  (∀ caps, k s caps = None) → (∀ c t caps, digit c → k (c :: t) caps = None) →
  search (Cap name digits1) (ds ++ s) caps k = None.
Proof.
  intros Hd Hs Hk Hkd. destruct ds as [|c ds].
  - simpl. destruct s as [|c s]; [done|]. by destruct (plain_class _ Hs) as [-> _].
  - inversion Hd as [|? ? Hc Hd']; subst. cbn [digits1 search app].
    destruct (digit_class c Hc) as [-> _]. apply many_none.
    + by apply digits_class.
    + destruct s; [done|]. by destruct (plain_class _ Hs).
    + intros s1 s2 ->. destruct s2 as [|d s2]; [apply Hk|]. apply Hkd.
      apply Forall_app in Hd' as [_ Hd']. by inversion Hd'.
Qed.

(** A unit that matches neither what follows a number nor a digit is not there. *)
Lemma quantity_absent name u ds s caps k :
  Forall digit ds → at_plain s →
  (∀ caps, search u s caps k = None) →
  (∀ c t caps, digit c → search u (c :: t) caps k = None) →
  search (quantity name u) (ds ++ s) caps k = None.
Proof.
  intros Hd Hs Hu Hud. unfold quantity, spaces. cbn [search].
  rewrite many_white by (destruct ds; [by right|left; by inversion Hd]).
  apply (number_absent name ds s caps (λ s' caps', many is_white s' (λ s', search u s' caps' k)));
    [done|done| |].
  - intros caps'. by rewrite many_white by (by right).
  - intros c t caps' Hc. rewrite many_white by (by left). by apply Hud.
Qed.

Lemma cat_taken r1 r2 s caps k x :
  search r1 s caps (λ s' caps', search r2 s' caps' k) = Some x →
  search (Cat r1 r2) s caps k = Some x.
Proof. done. Qed.

Lemma chr_taken p c s caps k x :
  p c = true → k s caps = Some x → search (Chr p) (c :: s) caps k = Some x.
Proof. intros Hp Hk. simpl. by rewrite Hp. Qed.

Lemma alt_taken r1 r2 s caps k x :
  search r1 s caps k = Some x → search (Alt r1 r2) s caps k = Some x.
Proof. intros Hr. simpl. by rewrite Hr. Qed.

Lemma alt_skipped r1 r2 s caps k :
  search r1 s caps k = None → search (Alt r1 r2) s caps k = search r2 s caps k.
Proof. intros Hr. simpl. by rewrite Hr. Qed.

Lemma spaces_skipped s caps k :
  at_number s ∨ at_plain s → search spaces s caps k = k s caps.
Proof. apply (many_white s (λ s', k s' caps)). Qed.

Lemma opt_taken r s caps k x :
  search r s caps k = Some x → search (Opt r) s caps k = Some x.
Proof. intros Hr. simpl. by rewrite Hr. Qed.

Lemma opt_skipped r s caps k :
  search r s caps k = None → search (Opt r) s caps k = k s caps.
Proof. intros Hr. simpl. by rewrite Hr. Qed.

(** *** Names of units *)
Lemma folded_refl c : folded c c = true.
Proof. unfold folded. by rewrite bool_decide_true. Qed.

Lemma letter_plain c : letter c → plain c.
Proof. unfold letter, plain. lia. Qed.

Lemma word_none c w s caps k : letter c → at_number s → search (word_of (c :: w)) s caps k = None.
Proof.
  intros Hc Hs. destruct s as [|d s]; [by destruct w|].
  destruct w; simpl; by rewrite (folded_digit c d) by (auto; by left).
Qed.

(** A unit's name [c :: w]: taken before a number or the end, absent before what cannot
    start it. *)
Record unit_form (u : re) (first : Z → bool) (c : Z) (w : text) : Prop := {
  unit_taken s caps k x : at_number s → k s caps = Some x → search u (c :: w ++ s) caps k = Some x;
  unit_other d s caps k : first d = false → search u (d :: s) caps k = None;
  unit_nil caps k : search u [] caps k = None;
  unit_no_digit d : digit d → first d = false
}.

Lemma long_unit x mid last c cm wm cl wl :
  lit x = [c] → lit mid = cm :: wm → lit last = cl :: wl → letter c → letter cm → letter cl →
  unit_form (long_form x mid last) (folded c) c [].
Proof.
  intros Hx Hm Hl Lc Lm Ll. unfold long_form, word. rewrite Hx, Hm, Hl.
  change (word_of [c]) with (Chr (folded c)). split.
  - intros s caps k y Hs Hk. cbn [search app]. rewrite folded_refl.
    rewrite !(word_none cm), !(word_none cl) by done. simpl. by rewrite Hk.
  - intros d s caps k Hd. cbn [search]. by rewrite Hd.
  - done.
  - intros d Hd. apply folded_digit; [by left|done].
Qed.

Lemma short_unit x mid last c cm wm :
  lit x = [c] → lit mid = cm :: wm → letter c → letter cm →
  unit_form (short_form x mid last) (folded c) c [].
Proof.
  intros Hx Hm Lc Lm. unfold short_form, word. rewrite Hx, Hm.
  change (word_of [c]) with (Chr (folded c)). split.
  - intros s caps k y Hs Hk. cbn [search app]. rewrite folded_refl.
    by rewrite (word_none cm) by done.
  - intros d s caps k Hd. cbn [search]. by rewrite Hd.
  - done.
  - intros d Hd. apply folded_digit; [by left|done].
Qed.

Lemma second_unit : unit_form second_form (folded 115) 115 [].
Proof. apply (short_unit "s" "ec" "ond" 115 101 [99]); [done..|is_letter|is_letter]. Qed.

Lemma minute_unit : unit_form (short_form "m" "in" "ute") (folded 109) 109 [].
Proof. apply (short_unit "m" "in" "ute" 109 105 [110]); [done..|is_letter|is_letter]. Qed.

(** The names of the parts of a second: a letter, or a word, before the second's name. *)
Lemma part_unit c r first :
  letter c →
  (∀ d s caps k, first d = false → search r (d :: s) caps k = None) →
  (∀ caps k, search r [] caps k = None) → (∀ d, digit d → first d = false) →
  unit_form (Cat (Alt (Chr (folded c)) r) second_form) (λ d, folded c d || first d) c [115].
Proof.
  intros Hc Hr Hnil Hd. split.
  - intros s caps k y Hs Hk. cbn [search app]. rewrite folded_refl.
    pose proof (unit_taken _ _ _ _ second_unit s caps k y Hs Hk) as E. cbn [app] in E. by rewrite E.
  - intros d s caps k [Hd1 Hd2]%orb_false_iff. cbn [search]. by rewrite Hd1, Hr.
  - intros caps k. cbn [search]. apply Hnil.
  - intros d Hdigit. rewrite (Hd d Hdigit), folded_digit; [done|by left|done].
Qed.

Lemma word_other c w d s caps k : folded c d = false → search (word_of (c :: w)) (d :: s) caps k = None.
Proof. intros Hd. destruct w; cbn [word_of search]; by rewrite Hd. Qed.

Lemma milli_unit :
  unit_form (Cat (Alt (word "m") (word "milli")) second_form) (λ d, folded 109 d || folded 109 d) 109 [115].
Proof.
  apply (part_unit 109 (word "milli")); [is_letter| |done|].
  - intros. by apply word_other.
  - intros. apply folded_digit; [by left|done].
Qed.

Lemma micro_unit :
  unit_form (Cat (Alt (word "u") (Alt (Chr (folded 956)) (word "micro"))) second_form)
    (λ d, folded 117 d || (folded 956 d || folded 109 d)) 117 [115].
Proof.
  apply (part_unit 117 (Alt (Chr (folded 956)) (word "micro"))); [is_letter| |done|].
  - intros d s caps k [H1 H2]%orb_false_iff. rewrite alt_skipped; [by apply word_other|].
    cbn [search]. by rewrite H1.
  - intros d Hd. rewrite !folded_digit; [done|by left|done|by right|done].
Qed.

Lemma nano_unit :
  unit_form (Cat (Alt (word "n") (word "nano")) second_form) (λ d, folded 110 d || folded 110 d) 110 [115].
Proof.
  apply (part_unit 110 (word "nano")); [is_letter| |done|].
  - intros. by apply word_other.
  - intros. apply folded_digit; [by left|done].
Qed.

(** The text is empty or goes on with a number and one of these characters. *)
Definition next_in (cs : list Z) (s : text) : Prop :=
  s = [] ∨ ∃ ds c t, s = ds ++ c :: t ∧ ds ≠ [] ∧ Forall digit ds ∧ plain c ∧ c ∈ cs.

Lemma next_at_number cs s : next_in cs s → at_number s.
Proof.
  intros [->|(ds & c & t & -> & Hne & Hd & _)]; [done|]. destruct ds; [done|]. by inversion Hd.
Qed.

Lemma u64_fmt_ne n : u64_fmt n ≠ [].
Proof. by destruct (u64_fmt_cons n) as (c & s & ->). Qed.

Lemma next_unit n x c w cs s :
  lit x = c :: w → letter c → fits 64 n → next_in cs s → next_in (c :: cs) (unit_fmt n x ++ s).
Proof.
  intros Hx Hc Hn Hs. unfold unit_fmt. case_decide.
  - right. exists (u64_fmt n), c, (w ++ s). rewrite Hx, <-app_assoc.
    split_and!; [done|apply u64_fmt_ne|by apply u64_fmt_digits|by apply letter_plain|by left].
  - destruct Hs as [->|(ds & d & t & -> & H1 & H2 & H3 & H4)]; [by left|right].
    exists ds, d, t. split_and!; [done..|]. by right.
Qed.

(** The capture of a unit that is written when there is some of it. *)
Definition captured (name : string) (n : Z) (caps : captures) : captures :=
  if decide (n > 0) then <[name := u64_fmt n]> caps else caps.

Section unit.
Context (name x : string) (u : re) (first : Z → bool) (c : Z) (w : text) (n : Z).
Context (Hu : unit_form u first c w) (Hx : lit x = c :: w) (Hc : letter c) (Hn : fits 64 n).

Lemma unit_digit d t caps k : digit d → search u (d :: t) caps k = None.
Proof. intros Hd. eapply unit_other; [exact Hu|]. by eapply unit_no_digit. Qed.

(** A written unit is read by its group; without one the group is skipped. *)
Lemma unit_read_or s caps k r :
  at_number s →
  (¬ n > 0 → search (quantity name u) s caps k = None) →
  k s (captured name n caps) = Some r →
  search (Opt (quantity name u)) (unit_fmt n x ++ s) caps k = Some r.
Proof.
  intros Hs Hskip. unfold captured, unit_fmt. case_decide; intros Hk.
  - rewrite Hx, <-app_assoc. apply opt_taken, quantity_taken.
    + by apply u64_fmt_digits.
    + apply u64_fmt_ne.
    + by apply letter_plain.
    + by apply (unit_taken _ _ _ _ Hu).
  - by rewrite app_nil_l, opt_skipped by auto.
Qed.

Lemma unit_absent cs s caps k :
  next_in cs s → forallb (λ d, negb (first d)) cs = true →
  search (quantity name u) s caps k = None.
Proof.
  intros Hs Hcs. destruct Hs as [->|(ds & d & t & -> & _ & H2 & H3 & H4)].
  - apply (quantity_absent name u []); [done..| |intros; by apply unit_digit]. intros caps'. apply (unit_nil _ _ _ _ Hu).
  - apply quantity_absent; [done..| |intros; by apply unit_digit]. intros caps'.
    apply (unit_other _ _ _ _ Hu).
    rewrite forallb_forall in Hcs. apply negb_true_iff, Hcs. by apply list_elem_of_In.
Qed.

Lemma unit_read cs s caps k r :
  next_in cs s → forallb (λ d, negb (first d)) cs = true →
  k s (captured name n caps) = Some r →
  search (Opt (quantity name u)) (unit_fmt n x ++ s) caps k = Some r.
Proof.
  intros Hs Hcs. apply unit_read_or; [by eapply next_at_number|]. intros _. by eapply unit_absent.
Qed.
End unit.
End matching.

(** ** The end of the text: seconds and their parts *)
Section ending.
Context `{Unicode}.
Implicit Type k : text → captures → option captures.

Definition whole (s : text) (caps : captures) : option captures :=
  match s with [] => Some caps | _ => None end.

Definition ending (s : text) (caps : captures) : option captures :=
  search (Cat (Alt fraction subseconds) spaces) s caps whole.

Lemma digits_at_number ds s : Forall digit ds → ds ≠ [] → at_number (ds ++ s).
Proof. intros Hd Hne. destruct ds; [done|]. by inversion Hd. Qed.

Lemma fraction_taken m f caps :
  Forall digit m → m ≠ [] → Forall digit f → f ≠ [] →
  ending (m ++ 46 :: f ++ [115]) caps = Some (<["s_fra" := f]> (<["s_man" := m]> caps)).
Proof.
  intros Hm Hm' Hf Hf'.
  apply cat_taken, alt_taken, opt_taken, cat_taken.
  rewrite spaces_skipped by (left; by apply digits_at_number).
  apply cat_taken, opt_taken, number_taken; [done..|unfold at_plain, plain; lia|].
  apply cat_taken, chr_taken; [by apply bool_decide_true; left|].
  apply cat_taken, number_taken; [done..|unfold at_plain, plain; lia|].
  apply cat_taken. rewrite spaces_skipped by (right; unfold at_plain, plain; lia).
  by apply (unit_taken _ _ _ _ second_unit []).
Qed.

(** A text that goes on with a unit has no fraction. *)
Lemma fraction_absent ds c t caps k :
  Forall digit ds → ds ≠ [] → letter c →
  search fraction (ds ++ c :: t) caps k = k (ds ++ c :: t) caps.
Proof.
  intros Hd Hne Hc. apply opt_skipped.
  change (search (Cat ?r ?q) ?s ?c ?k) with (search r s c (λ s' c', search q s' c' k)).
  rewrite spaces_skipped by (left; by apply digits_at_number).
  change (search (Cat ?r ?q) ?s ?c ?k) with (search r s c (λ s' c', search q s' c' k)).
  assert (∀ d t caps k q, digit d ∨ letter d →
    search (Cat (Chr (λ c, bool_decide (c = 46 ∨ c = 44))) q) (d :: t) caps k = None) as Hdot.
  { intros d t' caps' k' q Hl. simpl. rewrite bool_decide_false; [done|].
    unfold digit, letter in Hl. lia. }
  rewrite opt_skipped.
  - destruct ds as [|d ds]; [done|]. inversion Hd; subst. apply Hdot. by left.
  - apply number_absent; [done|by apply letter_plain|..]; intros; apply Hdot; auto.
Qed.

Lemma colon_skipped r s caps k :
  at_number s →
  search (Opt (Cat (Opt (Chr (λ c, bool_decide (c = 58)))) r)) s caps k = search (Opt r) s caps k.
Proof.
  intros Hs. cbn [search]. destruct s as [|c s]; [done|]. unfold at_number, digit in Hs.
  by rewrite bool_decide_false by lia.
Qed.

Lemma ending_nil caps : ending [] caps = Some caps.
Proof. reflexivity. Qed.

(** After the letter of the minutes, the rest of [ms] is no end. *)
Lemma ending_second caps : ending [115] caps = None.
Proof.
  assert (is_digit 115 = false ∧ is_white 115 = false) as [Ed Ew] by (apply plain_class; unfold plain; lia).
  unfold ending, fraction, subseconds, quantity, spaces, digits1. cbn [search many app whole].
  rewrite !Ew. cbn [search many]. rewrite !Ed. reflexivity.
Qed.

Lemma zero_taken caps : ending [48; 115] caps = Some (<["s" := [48]]> caps).
Proof.
  assert (Forall digit [48]) as Hd by (repeat constructor; unfold digit; lia).
  apply cat_taken. rewrite alt_skipped.
  - apply cat_taken. rewrite colon_skipped by (unfold at_number, digit; lia).
    apply opt_taken, (quantity_taken "s" second_form [48] [115]); [done..| |].
    2: by apply (unit_taken _ _ _ _ second_unit []).
    unfold at_plain, plain. lia.
  - rewrite (fraction_absent [48] 115 []) by (done || unfold letter; lia).
    apply (spaces_skipped [48; 115]). left. unfold at_number, digit. lia.
Qed.

Lemma captured_absent name x n caps :
  lit x ≠ [] → unit_fmt n x = [] → captured name n caps = caps.
Proof.
  unfold captured, unit_fmt. case_decide; [|done]. by intros ? [? _]%app_nil; destruct (u64_fmt_ne n).
Qed.

Section parts.
Context (s ms us ns : Z).
Context (Hs : fits 64 s) (Hms : fits 64 ms) (Hus : fits 64 us) (Hns : fits 64 ns).

Lemma next_parts :
  next_in [110] (unit_fmt ns "ns" ++ []) ∧
  next_in [117; 110] (unit_fmt us "us" ++ unit_fmt ns "ns" ++ []) ∧
  next_in [109; 117; 110] (unit_fmt ms "ms" ++ unit_fmt us "us" ++ unit_fmt ns "ns" ++ []) ∧
  next_in [115; 109; 117; 110]
    (unit_fmt s "s" ++ unit_fmt ms "ms" ++ unit_fmt us "us" ++ unit_fmt ns "ns" ++ []).
Proof.
  pose proof (next_unit ns "ns" 110 [115] [] [] eq_refl ltac:(is_letter) Hns ltac:(by left)) as N1.
  pose proof (next_unit us "us" 117 [115] _ _ eq_refl ltac:(is_letter) Hus N1) as N2.
  pose proof (next_unit ms "ms" 109 [115] _ _ eq_refl ltac:(is_letter) Hms N2) as N3.
  by pose proof (next_unit s "s" 115 [] _ _ eq_refl ltac:(is_letter) Hs N3).
Qed.

(** The units from the seconds on. *)
Lemma subseconds_taken caps :
  search subseconds (unit_fmt s "s" ++ unit_fmt ms "ms" ++ unit_fmt us "us" ++ unit_fmt ns "ns" ++ [])
    caps (λ s' caps', search spaces s' caps' whole) =
  Some (captured "ns" ns (captured "us" us (captured "ms" ms (captured "s" s caps)))).
Proof.
  destruct next_parts as (N1 & N2 & N3 & N4).
  apply cat_taken. rewrite colon_skipped by (by eapply next_at_number).
  eapply (unit_read _ "s" _ _ _ _ s second_unit eq_refl); [is_letter|done|exact N3|done|].
  apply cat_taken, (unit_read _ "ms" _ _ _ _ ms milli_unit eq_refl ltac:(is_letter) Hms _ _ _ _ _ N2); [done|].
  apply cat_taken, (unit_read _ "us" _ _ _ _ us micro_unit eq_refl ltac:(is_letter) Hus _ _ _ _ _ N1); [done|].
  apply (unit_read _ "ns" _ _ _ _ ns nano_unit eq_refl ltac:(is_letter) Hns [] []); [by left|done|].
  done.
Qed.

Lemma ending_parts caps :
  ending (unit_fmt s "s" ++ unit_fmt ms "ms" ++ unit_fmt us "us" ++ unit_fmt ns "ns" ++ []) caps =
  Some (captured "ns" ns (captured "us" us (captured "ms" ms (captured "s" s caps)))).
Proof.
  destruct next_parts as (_ & _ & _ & [E|(ds & c & t & E & Hne & Hd & Hp & Hc)]).
  - rewrite E, ending_nil. apply app_nil in E as [E1 [E2 [E3 [E4 _]%app_nil]%app_nil]%app_nil].
    by rewrite (captured_absent "s" "s"), (captured_absent "ms" "ms"), (captured_absent "us" "us"),
      (captured_absent "ns" "ns") by done.
  - apply cat_taken. rewrite alt_skipped; [apply subseconds_taken|].
    rewrite E, fraction_absent; [|done|done|set_unfold in Hc; unfold letter; lia].
    rewrite spaces_skipped by (left; by apply digits_at_number). by destruct ds.
Qed.
End parts.

(** The number of the milliseconds is not read as minutes: what remains is no end. *)
Lemma minute_absent_ms ds caps :
  Forall digit ds →
  search (quantity "m" (short_form "m" "in" "ute")) (ds ++ [109; 115]) caps ending = None.
Proof.
  intros Hd. apply quantity_absent; [done|unfold at_plain, plain; lia| |].
  - intros caps'. unfold short_form. change (word "m") with (Chr (folded 109)).
    change (word "in") with (word_of [105; 110]). cbn [search]. rewrite folded_refl.
    rewrite word_other by reflexivity. apply ending_second.
  - intros. eapply unit_digit; [apply minute_unit|done].
Qed.

Definition no_minutes (s : text) : Prop :=
  ∀ caps, search (quantity "m" (short_form "m" "in" "ute")) s caps ending = None.

Lemma next_no_minutes cs s :
  next_in cs s → forallb (λ d, negb (folded 109 d)) cs = true → no_minutes s.
Proof. intros Hs Hcs caps. eapply unit_absent; [apply minute_unit|done..]. Qed.

(** The units down to the minutes, before an end. *)
Section head.
Context (y w d h m : Z).
Context (Hy : fits 64 y) (Hw : fits 64 w) (Hd : fits 64 d) (Hh : fits 64 h) (Hm : fits 64 m).

Definition head_captures : captures :=
  captured "m" m (captured "h" h (captured "d" d (captured "w" w (captured "y" y ∅)))).

Lemma head_read s r :
  next_in [46; 115; 109; 117; 110] s → no_minutes s → ending s head_captures = Some r →
  captures_of PERIOD_RE
    (unit_fmt y "y" ++ unit_fmt w "w" ++ unit_fmt d "d" ++ unit_fmt h "h" ++ unit_fmt m "m" ++ s) = Some r.
Proof.
  intros N Hskip Hs.
  pose proof (next_unit m "m" 109 [] _ _ eq_refl ltac:(is_letter) Hm N) as N1.
  pose proof (next_unit h "h" 104 [] _ _ eq_refl ltac:(is_letter) Hh N1) as N2.
  pose proof (next_unit d "d" 100 [] _ _ eq_refl ltac:(is_letter) Hd N2) as N3.
  pose proof (next_unit w "w" 119 [] _ _ eq_refl ltac:(is_letter) Hw N3) as N4.
  apply cat_taken, (unit_read _ "y" _ _ _ _ y (long_unit "y" "ea" "r" 121 101 [97] 114 []
    eq_refl eq_refl eq_refl ltac:(is_letter) ltac:(is_letter) ltac:(is_letter))
    eq_refl ltac:(is_letter) Hy _ _ _ _ _ N4); [done|].
  apply cat_taken, (unit_read _ "w" _ _ _ _ w (long_unit "w" "ee" "k" 119 101 [101] 107 []
    eq_refl eq_refl eq_refl ltac:(is_letter) ltac:(is_letter) ltac:(is_letter))
    eq_refl ltac:(is_letter) Hw _ _ _ _ _ N3); [done|].
  apply cat_taken, (unit_read _ "d" _ _ _ _ d (long_unit "d" "a" "y" 100 97 [] 121 []
    eq_refl eq_refl eq_refl ltac:(is_letter) ltac:(is_letter) ltac:(is_letter))
    eq_refl ltac:(is_letter) Hd _ _ _ _ _ N2); [done|].
  apply cat_taken, (unit_read _ "h" _ _ _ _ h (long_unit "h" "ou" "r" 104 111 [117] 114 []
    eq_refl eq_refl eq_refl ltac:(is_letter) ltac:(is_letter) ltac:(is_letter))
    eq_refl ltac:(is_letter) Hh _ _ _ _ _ N1); [done|].
  apply cat_taken, (unit_read_or _ "m" _ _ _ _ m minute_unit eq_refl ltac:(is_letter) Hm);
    [by eapply next_at_number|intros _; apply Hskip|exact Hs].
Qed.
End head.
End ending.

(** ** Values *)
Section values.
Context `{Unicode} `{RegexEngine}.
Context (debug debug_parse_error : text → string).

Abbreviation number := (number debug debug_parse_error).
Abbreviation plus := (plus debug debug_parse_error).

Lemma captured_lookup name n caps t what :
  fits 64 n → caps !! name = None → number t (captured name n caps !! name) what = Done (Ok n).
Proof.
  intros Hn Hc. unfold captured. case_decide.
  - rewrite lookup_insert. case_decide; [|done]. simpl. by rewrite parse_u64_fmt.
  - rewrite Hc. assert (n = 0) as -> by (destruct Hn; lia). done.
Qed.

Lemma captured_lookup_ne name name' n caps :
  name ≠ name' → captured name n caps !! name' = caps !! name'.
Proof. intros Hn. unfold captured. case_decide; [|done]. by rewrite lookup_insert_ne. Qed.

Lemma plus_then {A} t total unit v what n (f : Z → parsing A) r :
  number t v what = Done (Ok n) → fits 64 (unit * n) → fits 64 (total + unit * n) →
  f (total + unit * n) = r → parsing_bind Z A f (plus t total unit v what) = r.
Proof.
  intros Hv H1 H2 <-. unfold Period.plus. rewrite Hv. simpl. unfold u64.
  rewrite decide_True by done. simpl. by rewrite decide_True.
Qed.

Definition seconds_of (caps : captures) : option text :=
  match caps !! "s" with Some v => Some v | None => caps !! "s_man" end.

(** What an end gives to the captures of the head. *)
Record end_values (t : text) (s nsecs : Z) (caps caps' : captures) : Prop := {
  head_kept name : name ∈ ["y"; "w"; "d"; "h"; "m"] → caps' !! name = caps !! name;
  value_s : number t (seconds_of caps') "seconds" = Done (Ok s);
  value_parts : ∃ f ms us ns,
    number t (pad_right <$> caps' !! "s_fra") "fractional seconds" = Done (Ok f) ∧
    number t (caps' !! "ms") "milliseconds" = Done (Ok ms) ∧
    number t (caps' !! "us") "microseconds" = Done (Ok us) ∧
    number t (caps' !! "ns") "nanoseconds" = Done (Ok ns) ∧
    0 ≤ f ∧ 0 ≤ ms ∧ 0 ≤ us ∧ 0 ≤ ns ∧ f + 1000000 * ms + 1000 * us + ns = nsecs
}.

Definition no_end (caps : captures) : Prop :=
  ∀ name, name ∈ ["s"; "s_man"; "s_fra"; "ms"; "us"; "ns"] → caps !! name = None.

Lemma parts_values t s ms us ns caps :
  fits 64 s → fits 64 ms → fits 64 us → fits 64 ns → no_end caps →
  end_values t s (1000000 * ms + 1000 * us + ns) caps
    (captured "ns" ns (captured "us" us (captured "ms" ms (captured "s" s caps)))).
Proof.
  intros Hs Hms Hus Hns Hc. split.
  - intros name Hn. rewrite !captured_lookup_ne; [done|..]; set_solver.
  - assert (captured "s" s caps !! "s_man" = None) as Em.
    { rewrite captured_lookup_ne by done. apply Hc. set_solver. }
    unfold seconds_of. rewrite !(captured_lookup_ne _ "s"), !(captured_lookup_ne _ "s_man") by done.
    pose proof (captured_lookup "s" s caps t "seconds" Hs) as E.
    rewrite Hc in E by set_solver. specialize (E eq_refl).
    destruct (captured "s" s caps !! "s"); [done|]. rewrite Hc by set_solver. exact E.
  - exists 0, ms, us, ns. rewrite !(captured_lookup_ne _ "s_fra") by done. split_and!.
    + by rewrite Hc by set_solver.
    + rewrite !(captured_lookup_ne _ "ms") by done. apply captured_lookup; [done|].
      rewrite captured_lookup_ne by done. apply Hc. set_solver.
    + rewrite !(captured_lookup_ne "ns" "us") by done. apply captured_lookup; [done|].
      rewrite !captured_lookup_ne by done. apply Hc. set_solver.
    + apply captured_lookup; [done|]. rewrite !captured_lookup_ne by done. apply Hc. set_solver.
    + lia.
    + apply Hms.
    + apply Hus.
    + apply Hns.
    + lia.
Qed.

Lemma fraction_values t s nsecs caps :
  fits 64 s → 0 < nsecs < 1000000000 → no_end caps →
  end_values t s nsecs caps
    (<["s_fra" := trim_end (pad_left nsecs)]> (<["s_man" := u64_fmt s]> caps)).
Proof.
  intros Hs Hn Hc. destruct (pad_left_facts nsecs) as (Hl & Hd & Hv); [lia|]. split.
  - intros name Hin. rewrite !lookup_insert_ne; [done|..]; set_solver.
  - unfold seconds_of. rewrite !(lookup_insert_ne _ _ "s") by done. rewrite Hc by set_solver.
    rewrite lookup_insert_ne by done. rewrite lookup_insert. case_decide; [|done].
    simpl. by rewrite parse_u64_fmt.
  - exists nsecs, 0, 0, 0. rewrite lookup_insert. case_decide; [|done]. simpl.
    rewrite pad_right_trim by done. rewrite parse_digits; [|by destruct (pad_left nsecs)|done|].
    + rewrite Hv. split_and!; try lia; [done|..]; rewrite !lookup_insert_ne by done;
        (rewrite Hc by set_solver; done).
    + rewrite Hv. change (2 ^ 64) with 18446744073709551616. lia.
Qed.

Lemma zero_values t caps :
  no_end caps → end_values t 0 0 caps (<["s" := [48]]> caps).
Proof.
  intros Hc. split.
  - intros name Hin. rewrite lookup_insert_ne; [done|]. set_solver.
  - unfold seconds_of. rewrite lookup_insert. by case_decide.
  - exists 0, 0, 0, 0. rewrite !lookup_insert_ne by done. rewrite !Hc by set_solver. done.
Qed.

(** *** The end that is written *)
Lemma unit_none n x : ¬ n > 0 → unit_fmt n x = [].
Proof. intros Hn. unfold unit_fmt. by case_decide. Qed.

Definition parts_fmt (s ms us ns : Z) : text :=
  unit_fmt s "s" ++ unit_fmt ms "ms" ++ unit_fmt us "us" ++ unit_fmt ns "ns" ++ [].

Lemma parts_no_minutes s ms us ns :
  fits 64 s → fits 64 ms → fits 64 us → fits 64 ns →
  (ms > 0 → ¬ us > 0 ∧ ¬ ns > 0) → no_minutes (parts_fmt s ms us ns).
Proof.
  intros Hs Hms Hus Hns Hone. unfold parts_fmt.
  pose proof (next_unit ns "ns" 110 [115] [] [] eq_refl ltac:(is_letter) Hns ltac:(by left)) as N1.
  pose proof (next_unit us "us" 117 [115] _ _ eq_refl ltac:(is_letter) Hus N1) as N2.
  destruct (decide (ms > 0)) as [Hm|Hm].
  - destruct (Hone Hm) as [H1 H2]. rewrite (unit_none us), (unit_none ns) by done.
    destruct (decide (s > 0)).
    + eapply (next_no_minutes [115]); [|done]. unfold unit_fmt. rewrite decide_True by done.
      right. exists (u64_fmt s), 115. eexists. rewrite <-app_assoc. split_and!; [done|apply u64_fmt_ne|..].
      * by apply u64_fmt_digits.
      * apply letter_plain. is_letter.
      * by left.
    + rewrite (unit_none s) by done. intros caps. unfold unit_fmt. rewrite decide_True by done.
      simpl app. rewrite !app_nil_r. apply minute_absent_ms. by apply u64_fmt_digits.
  - rewrite (unit_none ms) by done.
    pose proof (next_unit s "s" 115 [] _ _ eq_refl ltac:(is_letter) Hs N2) as N3.
    by apply (next_no_minutes _ _ N3).
Qed.

Definition end_fmt (secs s nsecs : Z) : text :=
  let is_ns := bool_decide (nsecs `mod` 1000 > 0) in
  let is_us := bool_decide ((nsecs `div` 1000) `mod` 1000 > 0) in
  let is_ms := bool_decide (nsecs `div` 1000000 > 0) in
  if is_ms && (bool_decide (s > 0) || is_ns) then
    u64_fmt s ++ lit "." ++ trim_end (pad_left nsecs) ++ lit "s"
  else if bool_decide (nsecs > 0) || bool_decide (s > 0) then
    unit_fmt s "s" ++
    (if is_ns then u64_fmt nsecs ++ lit "ns"
     else if is_us then u64_fmt (nsecs `div` 1000) ++ lit "us"
     else if is_ms then u64_fmt (nsecs `div` 1000000) ++ lit "ms"
     else [])
  else if bool_decide (nsecs = 0) && bool_decide (secs = 0) then lit "0s"
  else [].

Lemma nanos_split n :
  0 ≤ n →
  n = 1000 * (n `div` 1000) + n `mod` 1000 ∧
  n `div` 1000 = 1000 * (n `div` 1000000) + (n `div` 1000) `mod` 1000 ∧
  0 ≤ n `mod` 1000 ∧ 0 ≤ (n `div` 1000) `mod` 1000 ∧ 0 ≤ n `div` 1000 ∧ 0 ≤ n `div` 1000000.
Proof.
  intros Hn. split_and!; try apply Z.mod_pos_bound; try apply Z.div_pos; try lia.
  - apply Z.div_mod. lia.
  - replace (n `div` 1000000) with ((n `div` 1000) `div` 1000); [apply Z.div_mod; lia|].
    by rewrite Z.div_div by lia.
Qed.

Lemma unit_some n x : n > 0 → unit_fmt n x = u64_fmt n ++ lit x.
Proof. intros Hn. unfold unit_fmt. by case_decide. Qed.

(** The finest unit that holds the nanoseconds. *)
Lemma finest_unit nsecs :
  0 ≤ nsecs → (nsecs `div` 1000000 > 0 → ¬ nsecs `mod` 1000 > 0) →
  ∃ ms us ns,
    (if bool_decide (nsecs `mod` 1000 > 0) then u64_fmt nsecs ++ lit "ns"
     else if bool_decide ((nsecs `div` 1000) `mod` 1000 > 0) then u64_fmt (nsecs `div` 1000) ++ lit "us"
     else if bool_decide (nsecs `div` 1000000 > 0) then u64_fmt (nsecs `div` 1000000) ++ lit "ms"
     else []) = unit_fmt ms "ms" ++ unit_fmt us "us" ++ unit_fmt ns "ns" ++ [] ∧
    0 ≤ ms ∧ 0 ≤ us ∧ 0 ≤ ns ∧ 1000000 * ms + 1000 * us + ns = nsecs ∧
    (ms > 0 → ¬ us > 0 ∧ ¬ ns > 0).
Proof.
  intros Hn Hfrac. destruct (nanos_split nsecs Hn) as (E1 & E2 & B1 & B2 & B3 & B4).
  assert (∀ x, unit_fmt 0 x = []) as E0 by done.
  case_bool_decide; [|case_bool_decide; [|case_bool_decide]].
  - exists 0, 0, nsecs. rewrite !E0, (unit_some nsecs) by lia. rewrite app_nil_r. split_and!; (done || lia).
  - exists 0, (nsecs `div` 1000), 0. rewrite !E0, (unit_some (_ `div` _)) by lia.
    rewrite !app_nil_r. split_and!; (done || lia).
  - exists (nsecs `div` 1000000), 0, 0. rewrite !E0, (unit_some (_ `div` _)) by lia.
    rewrite !app_nil_r. split_and!; (done || lia).
  - exists 0, 0, 0. split_and!; (done || lia).
Qed.

(** Three forms: a fraction, units, and the zero. *)
Lemma end_fmt_forms secs s nsecs :
  0 ≤ s → 0 ≤ nsecs → (secs = 0 → s = 0) →
  (0 < nsecs ∧ end_fmt secs s nsecs = u64_fmt s ++ 46 :: trim_end (pad_left nsecs) ++ [115]) ∨
  (∃ ms us ns, end_fmt secs s nsecs = parts_fmt s ms us ns ∧ 0 ≤ ms ∧ 0 ≤ us ∧ 0 ≤ ns ∧
     1000000 * ms + 1000 * us + ns = nsecs ∧ (ms > 0 → ¬ us > 0 ∧ ¬ ns > 0)) ∨
  (s = 0 ∧ nsecs = 0 ∧ end_fmt secs s nsecs = [48; 115]).
Proof.
  intros Hs Hn Hz. unfold end_fmt, parts_fmt.
  destruct (nanos_split nsecs Hn) as (E1 & E2 & B1 & B2 & B3 & B4).
  destruct (_ && _) eqn:Hf; [left|].
  { apply andb_true_iff in Hf as [Hf _]. apply bool_decide_eq_true in Hf. split; [lia|done]. }
  right. destruct (finest_unit nsecs Hn) as (ms & us & ns & -> & Hparts).
  { intros H1 H2. rewrite (bool_decide_true _ H1), (bool_decide_true _ H2), orb_true_r in Hf. done. }
  destruct (bool_decide (nsecs > 0) || bool_decide (s > 0)) eqn:Hp; [left; by exists ms, us, ns|].
  apply orb_false_iff in Hp as [Hp1%bool_decide_eq_false Hp2%bool_decide_eq_false].
  assert (s = 0 ∧ nsecs = 0) as [-> ->] by lia. rewrite (bool_decide_true (0 = 0)) by done. simpl.
  destruct (bool_decide (secs = 0)); [by right|left]. exists 0, 0, 0. split_and!; (done || lia).
Qed.

Lemma next_weaken cs cs' s : cs ⊆ cs' → next_in cs s → next_in cs' s.
Proof.
  intros Hcs [->|(ds & c & t & H1 & H2 & H3 & H4 & H5)]; [by left|right].
  exists ds, c, t. split_and!; [done..|by apply Hcs].
Qed.

Lemma end_read t secs s nsecs caps :
  0 ≤ s < 60 → 0 ≤ nsecs < 1000000000 → (secs = 0 → s = 0) → no_end caps →
  next_in [46; 115; 109; 117; 110] (end_fmt secs s nsecs) ∧ no_minutes (end_fmt secs s nsecs) ∧
  ∃ caps', ending (end_fmt secs s nsecs) caps = Some caps' ∧ end_values t s nsecs caps caps'.
Proof.
  intros Hs Hn Hz Hc. assert (∀ n, 0 ≤ n < 1000000000 → fits 64 n) as Hfit.
  { intros n [? ?]. split; [done|]. change (2 ^ 64) with 18446744073709551616. lia. }
  assert (Forall digit (u64_fmt s)) as Hsd by (apply u64_fmt_digits, Hfit; lia).
  destruct (end_fmt_forms secs s nsecs) as
    [(Hp & ->)|[(ms & us & ns & -> & H1 & H2 & H3 & <- & Hone)|(-> & -> & ->)]]; [lia..|done| | |].
  - destruct (pad_left_facts nsecs Hn) as (_ & Hd & Hv).
    assert (next_in [46] (u64_fmt s ++ 46 :: trim_end (pad_left nsecs) ++ [115])) as N.
    { right. do 3 eexists. split_and!; [done|apply u64_fmt_ne|done|unfold plain; lia|by left]. }
    split_and!; [|by apply (next_no_minutes _ _ N)|].
    + revert N. apply next_weaken. set_solver.
    + eexists. split; [apply fraction_taken; [done|apply u64_fmt_ne|by apply trim_end_digits|]|].
      * destruct (trim_end_cons (pad_left nsecs)) as (c & u & ->); [lia|done].
      * apply fraction_values; [apply Hfit; lia|lia|done].
  - destruct (next_parts s ms us ns) as (_ & _ & _ & N); [apply Hfit; lia..|].
    split_and!.
    + revert N. apply next_weaken. set_solver.
    + apply parts_no_minutes; [apply Hfit; lia..|done].
    + eexists. split; [apply ending_parts; apply Hfit; lia|apply parts_values; try apply Hfit; (done || lia)].
  - assert (next_in [115] [48; 115]) as N.
    { right. exists [48], 115, []. split_and!; [done..|repeat constructor; unfold digit; lia|unfold plain; lia|by left]. }
    split_and!; [|by apply (next_no_minutes _ _ N)|].
    + revert N. apply next_weaken. set_solver.
    + eexists. split; [apply zero_taken|by apply zero_values].
Qed.

(** ** The round trip *)

(** The units of a number of seconds. *)
Lemma units_sum secs :
  0 ≤ secs →
  let y := secs `div` YR in let y_secs := secs `mod` YR in
  let w := y_secs `div` WK in let w_secs := y_secs `mod` WK in
  let d := w_secs `div` DY in let d_secs := w_secs `mod` DY in
  let h := d_secs `div` HR in let h_secs := d_secs `mod` HR in
  let m := h_secs `div` MN in let s := h_secs `mod` MN in
  (0 ≤ y ≤ secs ∧ 0 ≤ w ≤ secs ∧ 0 ≤ d ≤ secs ∧ 0 ≤ h ≤ secs ∧ 0 ≤ m ≤ secs ∧ 0 ≤ s < 60) ∧
  secs = YR * y + WK * w + DY * d + HR * h + MN * m + s.
Proof.
  intros Hs. unfold YR, WK, DY, HR, MN. simpl.
  assert (∀ n k, 0 ≤ n → 0 < k → n = k * (n `div` k) + n `mod` k ∧ 0 ≤ n `div` k ∧ 0 ≤ n `mod` k < k) as Hk.
  { intros n k Hn Hk. split_and!; [apply Z.div_mod; lia|by apply Z.div_pos|by apply Z.mod_pos_bound..]. }
  destruct (Hk secs 31557600) as (E1 & ? & ?); [lia..|].
  destruct (Hk (secs `mod` 31557600) 604800) as (E2 & ? & ?); [lia..|].
  destruct (Hk ((secs `mod` 31557600) `mod` 604800) 86400) as (E3 & ? & ?); [lia..|].
  destruct (Hk (((secs `mod` 31557600) `mod` 604800) `mod` 86400) 3600) as (E4 & ? & ?); [lia..|].
  destruct (Hk ((((secs `mod` 31557600) `mod` 604800) `mod` 86400) `mod` 3600) 60) as (E5 & ? & ?); [lia..|].
  split; [split_and!; lia|]. lia.
Qed.

Lemma head_no_end y w d h m : no_end (head_captures y w d h m).
Proof.
  intros name Hn. unfold head_captures. rewrite !captured_lookup_ne; [done|..]; set_solver.
Qed.

Lemma head_values t y w d h m :
  fits 64 y → fits 64 w → fits 64 d → fits 64 h → fits 64 m →
  ∀ what, number t (head_captures y w d h m !! "y") what = Done (Ok y) ∧
    number t (head_captures y w d h m !! "w") what = Done (Ok w) ∧
    number t (head_captures y w d h m !! "d") what = Done (Ok d) ∧
    number t (head_captures y w d h m !! "h") what = Done (Ok h) ∧
    number t (head_captures y w d h m !! "m") what = Done (Ok m).
Proof.
  intros Hy Hw Hd Hh Hm what. unfold head_captures. split_and!;
    repeat rewrite captured_lookup_ne by done; (apply captured_lookup; [done|]);
    repeat rewrite captured_lookup_ne by done; done.
Qed.

(** The captures of a text decide its period. *)
Lemma values_read t y w d h m s nsecs caps :
  captures_of PERIOD_RE t = Some caps → end_values t s nsecs (head_captures y w d h m) caps →
  0 ≤ y → 0 ≤ w → 0 ≤ d → 0 ≤ h → 0 ≤ m → 0 ≤ s → 0 ≤ nsecs < 1000000000 →
  YR * y + WK * w + DY * d + HR * h + MN * m + s < 2 ^ 64 →
  period_from_str debug debug_parse_error t =
  Done (Ok (MkDuration (YR * y + WK * w + DY * d + HR * h + MN * m + s) nsecs)).
Proof.
  intros Ec [Hk Hvs (f & ms & us & ns & Ef & Ems & Eus & Ens & Bf & Bms & Bus & Bns & Esum)].
  change (2 ^ 64) with 18446744073709551616. unfold YR, WK, DY, HR, MN. intros Hy Hw Hd Hh Hm Hs Hn Hb.
  assert (∀ n, 0 ≤ n < 18446744073709551616 → fits 64 n) as Hfit by done.
  pose proof (head_values t y w d h m ltac:(apply Hfit; lia) ltac:(apply Hfit; lia)
    ltac:(apply Hfit; lia) ltac:(apply Hfit; lia) ltac:(apply Hfit; lia)) as Hhead.
  unfold period_from_str. rewrite regex_captures_documented, Ec. fold (seconds_of caps).
  rewrite (Hk "y"), (Hk "w"), (Hk "d"), (Hk "h"), (Hk "m") by set_solver.
  do 5 (eapply plus_then; [apply Hhead|apply Hfit; unfold YR, WK, DY, HR, MN; lia..|]).
  eapply plus_then; [exact Hvs|apply Hfit; unfold YR, WK, DY, HR, MN; lia..|].
  eapply plus_then; [exact Ef|apply Hfit; lia..|].
  eapply plus_then; [exact Ems|apply Hfit; lia..|].
  eapply plus_then; [exact Eus|apply Hfit; lia..|].
  eapply plus_then; [exact Ens|apply Hfit; lia..|].
  assert (0 + 1 * f + 1000000 * ms + 1000 * us + 1 * ns = nsecs) as -> by lia.
  rewrite Z.div_small, Z.mod_small by lia. unfold u64, YR, WK, DY, HR, MN.
  rewrite decide_True by (apply Hfit; lia).
  simpl. do 3 f_equal. lia.
Qed.

Lemma read_fmt d :
  duration_wf d → period_from_str debug debug_parse_error (period_fmt d) = Done (Ok d).
Proof.
  destruct d as [secs nsecs]. intros [[Hs1 Hs2] Hn]. simpl in *.
  set (t := period_fmt (MkDuration secs nsecs)).
  destruct (units_sum secs Hs1) as ((Hy & Hw & Hd & Hh & Hm & Hs) & Hsum).
  assert (∀ n, 0 ≤ n ≤ secs → fits 64 n) as Hfit by (intros n ?; split; lia).
  edestruct (end_read t secs) as (N & Hskip & caps & Hend & Hval);
    [exact Hs|exact Hn|by intros ->|apply head_no_end|].
  etrans; [eapply values_read; [|exact Hval|..|exact Hn|by rewrite <-Hsum]|by rewrite <-Hsum].
  2-7: apply Hy || apply Hw || apply Hd || apply Hh || apply Hm || apply Hs.
  eapply head_read; [..|exact N|exact Hskip|exact Hend]; apply Hfit;
    (exact Hy || exact Hw || exact Hd || exact Hh || exact Hm).
Qed.

Lemma parsing_ok {A B} (f : A → parsing B) m b :
  parsing_bind A B f m = Done (Ok b) → ∃ a, m = Done (Ok a) ∧ f a = Done (Ok b).
Proof. destruct m as [[a|e]|why]; simpl; [by exists a|done..]. Qed.

Lemma read_wf t d : period_from_str debug debug_parse_error t = Done (Ok d) → duration_wf d.
Proof.
  unfold period_from_str. destruct (regex_captures PERIOD_RE t) as [caps|]; [|done]. intros Hr.
  repeat (apply parsing_ok in Hr as (? & ? & Hr)). injection Hr as <-.
  match goal with Hu : u64 _ = Done (Ok ?n) |- _ =>
    assert (fits 64 n) as Hn by (unfold u64 in Hu; case_decide; [by injection Hu as <-|done]) end.
  split; [done|]. simpl. apply Z.mod_pos_bound. lia.
Qed.

(** C27: the text that is written for a period is read back as that period, whatever the
    period: years down to nanoseconds, fractions of seconds and zero. *)
Theorem period_roundtrip d :
  duration_wf d → period_from_str debug debug_parse_error (period_fmt d) = Done (Ok d).
Proof. apply read_fmt. Qed.

(** Years whose seconds do not fit in 64 bits overflow the multiplication, so reading the
    period panics (where overflow is checked) and gives no error. *)
Theorem period_years_overflow y :
  fits 64 y → 2 ^ 64 ≤ YR * y →
  period_from_str debug debug_parse_error (u64_fmt y ++ lit "y") =
  Panicked "attempt to compute with overflow".
Proof.
  intros Hy Hover. assert (fits 64 0) as Hz by done.
  pose proof (head_read y 0 0 0 0 Hy Hz Hz Hz Hz [] (head_captures y 0 0 0 0) ltac:(by left)
    (next_no_minutes [] [] ltac:(by left) eq_refl) (ending_nil _)) as Ec.
  rewrite (unit_some y) in Ec by (unfold YR in Hover; lia). simpl app in Ec. rewrite app_nil_r in Ec.
  unfold period_from_str. rewrite regex_captures_documented, Ec. unfold Period.plus.
  destruct (head_values (u64_fmt y ++ lit "y") y 0 0 0 0 Hy Hz Hz Hz Hz "year(s)") as (-> & _).
  simpl. unfold u64. rewrite decide_False; [done|]. intros [_ ?]. lia.
Qed.
End values.

(** ** Witnesses *)
Module Demo.
#[local] Instance ascii_only : Unicode.
Proof.
  refine {| is_white c := bool_decide (9 ≤ c ≤ 13 ∨ c = 32); is_digit c := bool_decide (48 ≤ c ≤ 57) |};
    done.
Defined.

#[local] Instance backtracking : RegexEngine := {| regex_captures := captures_of; regex_captures_documented _ _ := eq_refl |}.

Definition no_text (t : text) : string := "".

Lemma period_roundtrip_witness :
  period_from_str no_text no_text (period_fmt (MkDuration 34567890 120000000)) =
    Done (Ok (MkDuration 34567890 120000000)) ∧
  period_fmt (MkDuration 34567890 120000000) = lit "1y4w6d20h11m30.12s".
Proof.
  split; [apply period_roundtrip; repeat split; by vm_compute|by vm_compute].
Defined.

Lemma period_years_overflow_witness :
  period_from_str no_text no_text (lit "999999999999y") = Panicked "attempt to compute with overflow".
Proof.
  change (lit "999999999999y") with (u64_fmt 999999999999 ++ lit "y").
  apply (period_years_overflow no_text no_text 999999999999); [split|]; by vm_compute.
Defined.

(** The group of the seconds starts with an optional colon. *)
Lemma colon_accepted :
  period_from_str no_text no_text (lit ":5s") = Done (Ok (MkDuration 5 0)).
Proof. by vm_compute. Qed.
End Demo.
