(* ===== verification/Iso.v ===== *)
(** * Timestamps

    [core_types/src/time.rs]: [Iso8601], a date and time with an offset, its reading from text
    and its arithmetic.  The dates themselves are [chrono]'s. *)
From S2P Require Import Prelude Errors Regex Time Period.

(** [DateTime<FixedOffset>] and what the source uses of it.  [instant] counts nanoseconds since
    1970; a [chrono::Duration] is its number of nanoseconds. *)
Class Chrono := {
  DateTime : Type;
  instant : DateTime → Z;
  parse_from_rfc3339 : text → option DateTime;
  to_rfc3339 : DateTime → text;
  timestamp : Z → Z → outcome DateTime;
  from_std : Duration → result string Z;
  checked_add_signed : DateTime → Z → option DateTime;
  checked_sub_signed : DateTime → Z → option DateTime;
}.

Definition nanos (d : Duration) : Z := as_secs d * 1000000000 + subsec_nanos d.

(** What [chrono] documents.  [timestamp] panics outside of the years it can represent, and so
    the checked operations fail there; they are exact for dates that are not inside of a leap
    second, and what they give is not inside of one either; the text of a date is its RFC 3339
    form, which is read back for years of four digits. *)
Class ChronoLaws (C : Chrono) := {
  representable : Z → Prop;
  four_digit_year : DateTime → Prop;
  leap_second : DateTime → Prop;
  timestamp_instant secs nsecs :
    representable (secs * 1000000000 + nsecs) → 0 ≤ nsecs < 1000000000 →
    ∃ dt, timestamp secs nsecs = Done dt ∧ instant dt = secs * 1000000000 + nsecs;
  timestamp_range secs nsecs :
    ¬ representable (secs * 1000000000 + nsecs) → panics (timestamp secs nsecs) = true;
  instant_representable dt : representable (instant dt);
  from_std_nanos d z : from_std d = Ok z → z = nanos d;
  checked_add_exact dt z dt' :
    ¬ leap_second dt → checked_add_signed dt z = Some dt' → instant dt' = instant dt + z ∧ ¬ leap_second dt';
  checked_add_total dt z : ¬ leap_second dt → representable (instant dt + z) → is_Some (checked_add_signed dt z);
  checked_sub_exact dt z dt' :
    ¬ leap_second dt → checked_sub_signed dt z = Some dt' → instant dt' = instant dt - z ∧ ¬ leap_second dt';
  checked_sub_total dt z : ¬ leap_second dt → representable (instant dt - z) → is_Some (checked_sub_signed dt z);
  parse_printed dt : four_digit_year dt → parse_from_rfc3339 (to_rfc3339 dt) = Some dt;
}.

(** ** The pattern *)
Section pattern.
Context `{Unicode}.

Definition one (c : Z) : re := Chr (λ d, bool_decide (d = c)).
Definition one_of (s : string) : re := Chr (λ d, bool_decide (d ∈ lit s)).
Definition range (a b : Z) : re := Chr (λ d, bool_decide (a ≤ d ≤ b)).
Definition digit_re : re := Chr is_digit.
Definition two_digits : re := Cat digit_re digit_re.

Definition month_re : re := Alt (Cat (one 48) (range 49 57)) (Cat (one 49) (one_of "012")).
Definition day_re : re :=
  Alt (Cat (one 48) (range 49 57)) (Alt (Cat (one_of "12") (range 48 57)) (Cat (one 51) (one_of "01"))).
Definition hour_re : re := Alt (Cat (one_of "01") (range 48 57)) (Cat (one 50) (range 48 51)).
Definition sixty_re : re := Cat (range 48 53) (range 48 57).
Definition second_re : re := Alt sixty_re (Cat (one 54) (one 48)).

(** [YYYY[[-]MM[[-]DD]]], [hh[[:]mm[[:]ss[.,ssss]]]] after a T or spaces. *)
Definition date_re : re :=
  Cat (Cap "neg" (Opt (one 45)))
  (Cat (Cap "Y" (Cat digit_re (Cat digit_re two_digits)))
  (Opt (Cat (Opt (one 45)) (Cat (Opt (Cap "M" month_re))
    (Opt (Cat (Opt (one 45)) (Opt (Cap "D" day_re)))))))).
Definition time_re : re :=
  Opt (Cat (Alt (one_of "Tt") (Cat (Chr is_white) (Many is_white)))
    (Cat (Cap "h" hour_re)
    (Opt (Cat (Opt (one 58)) (Cat (Cap "m" sixty_re)
    (Opt (Cat (Opt (one 58)) (Cat (Cap "s" second_re)
    (Opt (Cat (one_of ".,") (Cap "ss" digits1))))))))))).

(** The class [[+-−]] of the zone's sign is a range, from U+002B to U+2212. *)
Definition zone_sign_re : re := range 43 8722.
Definition zone_re : re :=
  Opt (Cap "Z" (Alt (one_of "Zz")
    (Cat (Cap "Zsgn" zone_sign_re) (Cat (Cap "Zhrs" two_digits)
    (Opt (Cat (Opt (one 58)) (Cap "Zmin" two_digits))))))).

Definition ISO8601_RE : re :=
  Cat spaces (Cat date_re (Cat time_re (Cat spaces (Cat zone_re spaces)))).
End pattern.

(** ** Reading *)
Section iso.
Context `{Unicode} `{RegexEngine} `{C : Chrono}.
Context (debug show : text → string).

(** [format!("{:0>n}", s)]. *)
Definition zero_fill (n : nat) (s : text) : text := replicate (n - length s) 48 ++ s.

(** [&cap[name]] panics without the group. *)
Definition cap_index (cap : captures) (name : string) : outcome text :=
  expect (cap !! name) ("no group named '" +:+ name +:+ "'").

Definition zone_text (cap : captures) : outcome text :=
  match cap !! "Z" with
  | None => mret (lit "Z")
  | Some z =>
      if decide (z = lit "Z" ∨ z = lit "z") then mret (lit "Z")
      else
        sgn ← cap_index cap "Zsgn";
        hrs ← cap_index cap "Zhrs";
        mret ((if decide (sgn = lit "+") then lit "+" else lit "-") ++ hrs ++ lit ":" ++
              default (lit "00") (cap !! "Zmin"))
  end.

Definition rfc3339_text (cap : captures) : outcome text :=
  neg ← cap_index cap "neg";
  y ← cap_index cap "Y";
  zone ← zone_text cap;
  mret (neg ++ zero_fill 4 y ++ lit "-" ++ zero_fill 2 (default (lit "1") (cap !! "M")) ++ lit "-" ++
        zero_fill 2 (default (lit "1") (cap !! "D")) ++ lit "T" ++
        zero_fill 2 (default (lit "0") (cap !! "h")) ++ lit ":" ++
        zero_fill 2 (default (lit "0") (cap !! "m")) ++ lit ":" ++
        zero_fill 2 (default (lit "0") (cap !! "s")) ++
        match cap !! "ss" with Some ss => lit "." ++ ss | None => [] end ++ zone).

(** [FromStr for Iso8601]. *)
Definition iso_from_str (s : text) : outcome (HcResult DateTime) :=
  match parse_from_rfc3339 s with
  | Some dt => Done (Ok dt)
  | None =>
      match regex_captures ISO8601_RE s with
      | None => Done (Err (ErrorGeneric
          ("Failed to find ISO 3339 or RFC 8601 timestamp in " +:+ debug s)))
      | Some cap =>
          timestamp ← rfc3339_text cap;
          mret (ok_or (parse_from_rfc3339 timestamp)
            (ErrorGeneric ("Attempting to convert RFC 3339 timestamp " +:+ debug timestamp +:+
                           " from ISO 8601 " +:+ debug s +:+ " to a DateTime")))
      end
  end.

(** [Display]. *)
Definition iso_fmt (dt : DateTime) : text := to_rfc3339 dt.

(** [Iso8601::new] and the conversions from integers. *)
Definition iso_new (secs nsecs : Z) : outcome DateTime := timestamp secs nsecs.
Definition iso_from_i64 (secs : Z) : outcome DateTime := iso_new secs 0.
Definition iso_from_u64 (secs : Z) : outcome DateTime := iso_new (as_i64 secs) 0.

(** [Add] and [Sub]. *)
Definition to_chrono (dur : Duration) : HcResult Z :=
  map_err (λ e, ErrorGeneric ("Overflow computing chrono::Duration from " +:+ show (period_fmt dur) +:+
                              ": " +:+ e)) (from_std dur).
Definition iso_add (dt : DateTime) (dur : Duration) : HcResult DateTime :=
  d ← to_chrono dur;
  ok_or (checked_add_signed dt d)
    (ErrorGeneric ("Overflow computing " +:+ show (iso_fmt dt) +:+ " + " +:+ show (period_fmt dur))).
Definition iso_sub (dt : DateTime) (dur : Duration) : HcResult DateTime :=
  d ← to_chrono dur;
  ok_or (checked_sub_signed dt d)
    (ErrorGeneric ("Overflow computing " +:+ show (iso_fmt dt) +:+ " - " +:+ show (period_fmt dur))).
End iso.
