(* ===== verification/IsoFacts.v ===== *)
(** * Properties of timestamps

    The ways of writing a timestamp that the comments and tests allow are read as the same date,
    reading never panics, letters pass for the sign of a zone, and arithmetic outside of leap
    seconds is exact or an error. *)
From S2P Require Import Prelude Errors Regex Time Period PeriodFacts Iso.

(** ** Matching without a choice *)
Section takes.
Context {A : Type}.
Implicit Type k : text → captures → option A.

(** The pattern takes [w] when the rest of the match accepts what follows, which is [P]. *)
Definition takes (r : re) (w : text) (P : text → Prop) : Prop := ∀ s caps k x,
  P s → k s caps = Some x → search r (w ++ s) caps k = Some x.

Definition refuses (r : re) (s : text) : Prop := ∀ caps k, search r s caps k = None.

Definition stops (p : Z → bool) (s : text) : Prop := match s with c :: _ => p c = false | [] => True end.

Lemma takes_chr p c P : p c = true → takes (Chr p) [c] P.
Proof. intros Hp s caps k x _ Hk. simpl. by rewrite Hp. Qed.

Lemma takes_cat r1 r2 w1 w2 (P Q : text → Prop) :
  takes r1 w1 P → takes r2 w2 Q → (∀ s, Q s → P (w2 ++ s)) → takes (Cat r1 r2) (w1 ++ w2) Q.
Proof. intros H1 H2 HPQ s caps k x Hs Hk. rewrite <- (assoc_L (++)). apply H1; auto. Qed.

Lemma takes_opt r w P : takes r w P → takes (Opt r) w P.
Proof. intros Hr s caps k x Hs Hk. simpl. by rewrite (Hr s caps k x). Qed.

Lemma takes_opt_not r (P : text → Prop) : (∀ s, P s → refuses r s) → takes (Opt r) [] P.
Proof. intros Hr s caps k x Hs Hk. simpl. by rewrite Hr. Qed.

Lemma takes_many p w : forallb p w = true → takes (Many p) w (stops p).
Proof. intros Hw s caps k x Hs Hk. simpl. by apply (many_all p w s). Qed.

Lemma search_cap name r w P s caps k x :
  takes r w P → P s → k s (<[name := w]> caps) = Some x → search (Cap name r) (w ++ s) caps k = Some x.
Proof.
  intros Hr Hs Hk. simpl. apply (Hr s caps _ x Hs). by rewrite take_app_minus.
Qed.

Lemma refuses_chr p s : stops p s → refuses (Chr p) s.
Proof. intros Hs caps k. destruct s as [|c s]; simpl in *; [done|]. by rewrite Hs. Qed.

Lemma refuses_cat r1 r2 s : refuses r1 s → refuses (Cat r1 r2) s.
Proof. intros Hr caps k. apply Hr. Qed.
End takes.

(** ** Numbers of two and four digits *)
Definition two (n : Z) : text := [48 + n `div` 10; 48 + n `mod` 10].
Definition four (n : Z) : text := two (n `div` 100) ++ two (n `mod` 100).

Ltac euclid := Z.to_euclidean_division_equations; lia.

Lemma two_digit n : 0 ≤ n < 100 → Forall digit (two n).
Proof. intros ?. unfold two. repeat apply Forall_cons_2; [unfold digit; euclid..|done]. Qed.

(** All numbers up to a bound, one by one. *)
Lemma up_to (P : Z → Prop) n : Forall P (seqZ 0 n) → ∀ z, 0 ≤ z < n → P z.
Proof. intros HP z Hz. rewrite Forall_forall in HP. apply HP, elem_of_seqZ. lia. Qed.

Section fields.
Context `{Unicode} {A : Type}.
Abbreviation takes := (takes (A := A)).

Lemma takes_two n P : 0 ≤ n < 100 → takes two_digits (two n) P.
Proof.
  intros Hn. pose proof (two_digit n Hn) as Hd. unfold two in *.
  apply Forall_cons in Hd as [H1 Hd]. apply Forall_cons in Hd as [H2 _].
  apply (takes_cat _ _ [_] [_] (λ _, True)); [..|done]; apply takes_chr; by apply digit_class.
Qed.

Lemma takes_four n P : 0 ≤ n < 10000 → takes (Cat digit_re (Cat digit_re two_digits)) (four n) P.
Proof.
  intros Hn. assert (0 ≤ n `div` 100 < 100) by euclid. pose proof (two_digit (n `div` 100) ltac:(done)) as Hd.
  unfold four. unfold two at 1 in Hd. unfold two at 1.
  apply Forall_cons in Hd as [H1 Hd]. apply Forall_cons in Hd as [H2 _].
  apply (takes_cat _ _ [_] (_ :: _) (λ _, True)); [|apply (takes_cat _ _ [_] _ (λ _, True))|done];
    [apply takes_chr; by apply digit_class..|apply takes_two; euclid|done].
Qed.

(** The other fields have a text for every number in their range. *)
Definition field_ok (r : re) (n : Z) : Prop := ∀ P, takes r (two n) P.

(** Checks every number from zero, which the pattern may exclude. *)
Ltac field_by_number :=
  repeat (constructor; [(by left) || (right; intros P s caps k x _ Hk; cbn; by rewrite Hk)|]); constructor.

Lemma month_ok n : 1 ≤ n ≤ 12 → field_ok month_re n.
Proof.
  intros Hn. assert (Hall : Forall (λ n, n = 0 ∨ field_ok month_re n) (seqZ 0 13)) by field_by_number.
  destruct (up_to _ 13 Hall n); [lia..|done].
Qed.

Lemma day_ok n : 1 ≤ n ≤ 31 → field_ok day_re n.
Proof.
  intros Hn. assert (Hall : Forall (λ n, n = 0 ∨ field_ok day_re n) (seqZ 0 32)) by field_by_number.
  destruct (up_to _ 32 Hall n); [lia..|done].
Qed.

Lemma hour_ok n : 0 ≤ n ≤ 23 → field_ok hour_re n.
Proof.
  intros Hn. assert (Hall : Forall (λ n, n = -1 ∨ field_ok hour_re n) (seqZ 0 24)) by field_by_number.
  destruct (up_to _ 24 Hall n); [lia..|done].
Qed.

Lemma minute_ok n : 0 ≤ n ≤ 59 → field_ok sixty_re n.
Proof.
  intros Hn. assert (Hall : Forall (λ n, n = -1 ∨ field_ok sixty_re n) (seqZ 0 60)) by field_by_number.
  destruct (up_to _ 60 Hall n); [lia..|done].
Qed.

Lemma second_ok n : 0 ≤ n ≤ 60 → field_ok second_re n.
Proof.
  intros Hn. assert (Hall : Forall (λ n, n = -1 ∨ field_ok second_re n) (seqZ 0 61)) by field_by_number.
  destruct (up_to _ 61 Hall n); [lia..|done].
Qed.
End fields.

(** ** The ways to write a timestamp *)

(** A plus, a hyphen, or the minus sign U+2212. *)
Inductive Sign := East | West | WestMinus.
Inductive Zone :=
| NoZone
| Zulu (small : bool)
| Offset (sign : Sign) (hours : Z) (minutes : option Z) (colon : bool).

(** Only the year is always there. *)
Record Stamp := MkStamp {
  year : Z; month : option Z; day : option Z; hour : option Z; minute : option Z; second : option Z;
  subsecond : option text;
  zone : Zone;
}.

(** Spaces at the beginning, before the zone and at the end, separators that may be left out,
    a T or spaces between date and time, a point or a comma. *)
Record Style := MkStyle {
  lead : text; gap : text; trail : text;
  dash1 : bool; dash2 : bool; between : text; colon1 : bool; colon2 : bool; comma : bool;
}.

Definition white (s : text) : Prop := Forall (λ c, 9 ≤ c ≤ 13 ∨ c = 32) s.

(** A number that may be missing is in its range. *)
Definition within (o : option Z) (a b : Z) : Prop := match o with Some n => a ≤ n ≤ b | None => True end.

Definition zone_wf (z : Zone) : Prop :=
  match z with
  | Offset _ hours minutes _ => 0 ≤ hours < 100 ∧ within minutes 0 99
  | _ => True
  end.

(** A time is cut off from its end: seconds need minutes and those need the hour. *)
Record stamp_wf (st : Stamp) : Prop := {
  wf_year : 0 ≤ year st < 10000; wf_month : within (month st) 1 12; wf_day : within (day st) 1 31;
  wf_hour : within (hour st) 0 23; wf_minute : within (minute st) 0 59; wf_second : within (second st) 0 60;
  wf_hour_minute : hour st = None → minute st = None;
  wf_minute_second : minute st = None → second st = None;
  wf_second_fraction : second st = None → subsecond st = None;
  wf_fraction : match subsecond st with Some ds => Forall digit ds ∧ ds ≠ [] | None => True end;
  wf_zone : zone_wf (zone st);
}.

(** What the separators have to tell apart: a day without a month has both dashes before it, and
    a hyphen that starts the zone right after a date without its day is not one of the date. *)
Record style_wf (sty : Style) (st : Stamp) : Prop := {
  wf_lead : white (lead sty); wf_gap : white (gap sty); wf_trail : white (trail sty);
  wf_between : between sty = lit "T" ∨ between sty = lit "t" ∨ (white (between sty) ∧ between sty ≠ []);
  wf_dashes : month st = None → dash2 sty = true → dash1 sty = true;
  wf_day_dashes : month st = None → day st ≠ None → dash2 sty = true;
  wf_zone_dash : day st = None → dash2 sty = false → hour st = None → gap sty = [] →
    match zone st with Offset West _ _ _ => False | _ => True end;
}.

Definition sep (b : bool) (s : string) : text := if b then lit s else [].
Definition two_if (o : option Z) : text := match o with Some n => two n | None => [] end.

Definition sign_char (g : Sign) : Z := match g with East => 43 | West => 45 | WestMinus => 8722 end.

Definition zone_written (z : Zone) : text :=
  match z with
  | NoZone => []
  | Zulu small => lit (if small then "z" else "Z")
  | Offset sign hours minutes colon =>
      [sign_char sign] ++ two hours ++ match minutes with Some m => sep colon ":" ++ two m | None => [] end
  end.

Definition date_written (sty : Style) (st : Stamp) : text :=
  four (year st) ++ sep (dash1 sty) "-" ++ two_if (month st) ++ sep (dash2 sty) "-" ++ two_if (day st).

Definition point (sty : Style) : text := lit (if comma sty then "," else ".").
Definition subsecond_written (sty : Style) (st : Stamp) : text :=
  match subsecond st with Some ds => point sty ++ ds | None => [] end.
Definition second_written (sty : Style) (st : Stamp) : text :=
  match second st with
  | Some n => sep (colon2 sty) ":" ++ two n ++ subsecond_written sty st
  | None => []
  end.
Definition minute_written (sty : Style) (st : Stamp) : text :=
  match minute st with
  | Some n => sep (colon1 sty) ":" ++ two n ++ second_written sty st
  | None => []
  end.
Definition time_written (sty : Style) (st : Stamp) : text :=
  match hour st with
  | Some n => between sty ++ two n ++ minute_written sty st
  | None => []
  end.

Definition written (sty : Style) (st : Stamp) : text :=
  lead sty ++ date_written sty st ++ time_written sty st ++
  gap sty ++ zone_written (zone st) ++ trail sty.

(** The form of RFC 3339, in which January, the first and zeros stand for what is missing. *)
Definition zone_canonical (z : Zone) : text :=
  match z with
  | NoZone | Zulu _ => lit "Z"
  | Offset sign hours minutes _ =>
      lit (match sign with East => "+" | _ => "-" end) ++ two hours ++ lit ":" ++ two (default 0 minutes)
  end.

Definition canonical (st : Stamp) : text :=
  four (year st) ++ lit "-" ++ two (default 1 (month st)) ++ lit "-" ++ two (default 1 (day st)) ++ lit "T" ++
  two (default 0 (hour st)) ++ lit ":" ++ two (default 0 (minute st)) ++ lit ":" ++
  two (default 0 (second st)) ++
  match subsecond st with Some ds => lit "." ++ ds | None => [] end ++ zone_canonical (zone st).

(** ** Reading them *)
Section reading.
Context `{Unicode}.
Implicit Types (caps : captures) (k : text → captures → option captures).

Lemma white_class w : white w → forallb is_white w = true.
Proof.
  induction 1 as [|c w Hc _ IH]; [done|]. simpl. rewrite is_white_ascii by lia.
  by rewrite bool_decide_true by lia.
Qed.

Lemma spaces_taken w s caps k x :
  white w → stops is_white s → k s caps = Some x → search spaces (w ++ s) caps k = Some x.
Proof. intros Hw. apply (takes_many (A := captures) is_white w). by apply white_class. Qed.

Lemma sep_taken b str c s caps k x :
  lit str = [c] → (b = false → stops (λ d, bool_decide (d = c)) s) → k s caps = Some x →
  search (Opt (one c)) (sep b str ++ s) caps k = Some x.
Proof.
  intros Hstr Hs Hk. unfold sep. destruct b; [rewrite Hstr|]; simpl.
  - rewrite bool_decide_true by done. by rewrite Hk.
  - specialize (Hs eq_refl). destruct s as [|d s]; [done|]. simpl in Hs. by rewrite Hs.
Qed.

Lemma two_stops c n s : 0 ≤ n < 100 → ¬ digit c → stops (λ d, bool_decide (d = c)) (two n ++ s).
Proof.
  intros Hn Hc. pose proof (two_digit n Hn) as Hd. simpl. apply bool_decide_false.
  intros <-. by apply Forall_cons in Hd as [? _].
Qed.

Lemma field_taken name r n s caps k x :
  field_ok (A := captures) r n → k s (<[name := two n]> caps) = Some x →
  search (Cap name r) (two n ++ s) caps k = Some x.
Proof. intros Hr Hk. by apply (search_cap name r (two n) (λ _, True)). Qed.

(** *** Where a field is missing *)

(** Text that does not start with a digit, and the fields that refuse it. *)
Definition soft : text → Prop := stops (λ c, bool_decide (48 ≤ c ≤ 57)).

Ltac refuse_soft :=
  intros [|c s]; simpl; [done|]; intros Hc%bool_decide_eq_false caps k; simpl;
  repeat (rewrite bool_decide_false by (change (lit "12") with [49; 50] || change (lit "01") with [48; 49] || idtac;
    rewrite ?elem_of_cons, ?elem_of_nil; lia)); done.

Lemma soft_month s : soft s → refuses (A := captures) month_re s.
Proof. revert s. refuse_soft. Qed.
Lemma soft_day s : soft s → refuses (A := captures) day_re s.
Proof. revert s. refuse_soft. Qed.
Lemma soft_hour s : soft s → refuses (A := captures) hour_re s.
Proof. revert s. refuse_soft. Qed.
Lemma soft_sixty s : soft s → refuses (A := captures) sixty_re s.
Proof. revert s. refuse_soft. Qed.
Lemma soft_second s : soft s → refuses (A := captures) second_re s.
Proof. revert s. refuse_soft. Qed.

Lemma refuses_cap name r s : (∀ caps k, search r s caps k = None) → refuses (A := captures) (Cap name r) s.
Proof. intros Hr caps k. simpl. apply Hr. Qed.

(** A field after an optional colon. *)
Lemma refuses_colon name r rest s :
  soft s → stops (λ d, bool_decide (d = 58)) s → (∀ s, soft s → refuses (A := captures) r s) →
  refuses (A := captures) (Cat (Opt (one 58)) (Cat (Cap name r) rest)) s.
Proof.
  intros Hs Hc Hr caps k. destruct s as [|c s]; simpl in *.
  - by apply Hr.
  - rewrite Hc. by apply Hr.
Qed.

Lemma opt_field_taken name r o s caps k x a b :
  within o a b → (∀ n, a ≤ n ≤ b → field_ok (A := captures) r n) →
  (o = None → refuses (A := captures) r s) →
  k s (match o with Some n => <[name := two n]> caps | None => caps end) = Some x →
  search (Opt (Cap name r)) (two_if o ++ s) caps k = Some x.
Proof.
  intros Ho Hr Hs Hk. destruct o as [n|]; simpl two_if.
  - apply opt_taken, field_taken; [by apply Hr|done].
  - simpl app. rewrite opt_skipped; [done|]. by apply refuses_cap, Hs.
Qed.

Definition opt_cap (name : string) (o : option Z) (caps : captures) : captures :=
  match o with Some n => <[name := two n]> caps | None => caps end.
Definition date_caps (st : Stamp) : captures :=
  opt_cap "D" (day st) (opt_cap "M" (month st) (<["Y" := four (year st)]> (<["neg" := []]> ∅))).

Lemma two_if_stops c o s a b :
  within o a b → 0 ≤ a → b < 100 → ¬ digit c → (o = None → stops (λ d, bool_decide (d = c)) s) →
  stops (λ d, bool_decide (d = c)) (two_if o ++ s).
Proof. intros Ho Ha Hb Hc Hs. destruct o as [n|]; [apply two_stops; [simpl in Ho; lia|done]|by apply Hs]. Qed.

Lemma date_read sty st s k x :
  style_wf sty st → stamp_wf st → soft s →
  (day st = None → dash2 sty = false → stops (λ d, bool_decide (d = 45)) s) →
  k s (date_caps st) = Some x →
  search date_re (date_written sty st ++ s) ∅ k = Some x.
Proof.
  intros Hsty Hst Hsoft Hdash Hk. destruct Hst, Hsty. unfold date_re, date_written. rewrite <- !(assoc_L (++)).
  assert (¬ digit 45) by (unfold digit; lia).
  set (rest := sep (dash1 sty) "-" ++ _). apply cat_taken.
  apply (search_cap "neg" (Opt (one 45)) [] (λ s, refuses (A := captures) (one 45) s) (four (year st) ++ rest)).
  { intros s' caps' k' x' Hs' Hk'. simpl app. rewrite opt_skipped; [done|apply Hs']. }
  { apply refuses_chr. simpl. apply bool_decide_false. euclid. }
  apply cat_taken, (search_cap "Y" _ (four (year st)) (λ _, True) rest); subst rest; [by apply takes_four|done|].
  apply opt_taken, cat_taken, sep_taken; [done| |].
  { intros H1. eapply two_if_stops; [done..|]. intros Hm. destruct (dash2 sty) eqn:H2.
    - specialize (wf_dashes0 Hm eq_refl). congruence.
    - eapply two_if_stops; [done..|]. by intros Hd; apply Hdash. }
  apply cat_taken, (opt_field_taken _ _ _ _ _ _ _ 1 12); [done|apply month_ok| |].
  { intros Hm. apply soft_month. destruct (dash2 sty) eqn:H2; [done|].
    destruct (day st) eqn:Hd; [by specialize (wf_day_dashes0 Hm ltac:(done))|done]. }
  apply opt_taken, cat_taken, sep_taken; [done| |].
  { intros H2. eapply two_if_stops; [done..|]. by intros Hd; apply Hdash. }
  apply (opt_field_taken _ _ _ _ _ _ _ 1 31); [done|apply day_ok|by intros _; apply soft_day|done].
Qed.

(** *** What follows date and time: spaces and a zone *)
Definition zone_start (s : text) : Prop :=
  match s with c :: _ => c ∈ [90; 122; 43; 45; 8722] | [] => True end.

Lemma zone_start_class c t :
  zone_start (c :: t) → is_white c = false ∧ is_digit c = false.
Proof.
  intros Hc. simpl in Hc.
  assert (c = 90 ∨ c = 122 ∨ c = 43 ∨ c = 45 ∨ c = 8722) as Hor by set_solver.
  destruct Hor as [->|[->|[->|[->| ->]]]]; rewrite ?is_white_minus, ?is_digit_minus, ?is_white_ascii, ?is_digit_ascii by lia;
    by rewrite ?bool_decide_false by lia.
Qed.

(** Spaces and then a zone or the end. *)
Definition zone_tail (s : text) : Prop := ∃ w z, s = w ++ z ∧ white w ∧ zone_start z.

(** Text that continues no field of a time. *)
Record tail_ok (s : text) : Prop := {
  tail_soft : soft s;
  tail_not_colon : stops (λ d, bool_decide (d = 58)) s;
  tail_not_point : stops (λ d, bool_decide (d ∈ lit ".,")) s;
  tail_not_digit : stops is_digit s;
}.

Lemma tail_stops s (p : Z → bool) :
  zone_tail s → (∀ c, 9 ≤ c ≤ 13 ∨ c = 32 ∨ c ∈ [90; 122; 43; 45; 8722] → p c = false) → stops p s.
Proof.
  intros (w & z & -> & Hw & Hz) Hp. destruct w as [|c w].
  - destruct z as [|c z]; simpl; [done|]. apply Hp. auto.
  - apply Forall_cons in Hw as [Hc _]. simpl. apply Hp. tauto.
Qed.

Ltac stops_by_cases :=
  intros c Hc; apply bool_decide_false;
  assert (9 ≤ c ≤ 13 ∨ c = 32 ∨ c = 90 ∨ c = 122 ∨ c = 43 ∨ c = 45 ∨ c = 8722) by set_solver;
  rewrite ?elem_of_cons, ?elem_of_nil; lia.

Lemma zone_tail_ok s : zone_tail s → tail_ok s.
Proof.
  intros Hs. split; (apply tail_stops; [done|]); [stops_by_cases..| |].
  - change (lit ".,") with [46; 44]. stops_by_cases.
  - intros c [Hc|[->|Hc]].
    + rewrite is_digit_ascii by lia. apply bool_decide_false. lia.
    + rewrite is_digit_ascii by lia. apply bool_decide_false. lia.
    + by apply (zone_start_class c []).
Qed.

Lemma between_taken w s caps k x :
  w = lit "T" ∨ w = lit "t" ∨ (white w ∧ w ≠ []) → stops is_white s → k s caps = Some x →
  search (Alt (one_of "Tt") (Cat (Chr is_white) (Many is_white))) (w ++ s) caps k = Some x.
Proof.
  intros Hw Hs Hk. destruct Hw as [->|[->|[Hw Hne]]].
  - apply alt_taken, chr_taken; [by_decide|done].
  - apply alt_taken, chr_taken; [by_decide|done].
  - destruct w as [|c w]; [done|]. pose proof (white_class _ Hw) as Hc.
    simpl in Hc. apply andb_true_iff in Hc as [Hc Hw']. apply Forall_cons in Hw as [Hc' Hw].
    rewrite alt_skipped.
    + apply cat_taken, chr_taken; [done|]. by apply (takes_many (A := captures) is_white w Hw').
    + simpl. rewrite bool_decide_false; [done|]. change (lit "Tt") with [84; 116].
      rewrite !elem_of_cons, elem_of_nil. lia.
Qed.

Definition subsecond_caps (st : Stamp) (caps : captures) : captures :=
  match subsecond st with Some ds => <["ss" := ds]> caps | None => caps end.
Definition time_caps (st : Stamp) (caps : captures) : captures :=
  subsecond_caps st (opt_cap "s" (second st) (opt_cap "m" (minute st) (opt_cap "h" (hour st) caps))).

Lemma subsecond_read sty st s caps k x :
  stamp_wf st → tail_ok s → k s (subsecond_caps st caps) = Some x →
  search (Opt (Cat (one_of ".,") (Cap "ss" digits1))) (subsecond_written sty st ++ s) caps k = Some x.
Proof.
  intros Hst Hs Hk. unfold subsecond_written, subsecond_caps in *.
  pose proof (wf_fraction st Hst) as Hf. destruct (subsecond st) as [ds|].
  - destruct Hf as [Hds Hne]. apply opt_taken, cat_taken. unfold point.
    assert (Hnum : search (Cap "ss" digits1) (ds ++ s) caps k = Some x).
    { destruct ds as [|c ds]; [done|].
      apply (search_cap "ss" digits1 (c :: ds) (stops is_digit)); [|by apply tail_not_digit|done].
      apply (takes_cat _ _ [c] ds (λ _, True)); [|by apply takes_many, digits_class; inversion Hds|done].
      apply takes_chr. by apply digit_class; inversion Hds. }
    destruct (comma sty); (apply chr_taken; [by_decide|done]).
  - rewrite opt_skipped; [done|]. by apply refuses_cat, refuses_chr, tail_not_point.
Qed.

Lemma second_read sty st s caps k x :
  stamp_wf st → tail_ok s → k s (subsecond_caps st (opt_cap "s" (second st) caps)) = Some x →
  search (Opt (Cat (Opt (one 58)) (Cat (Cap "s" second_re) (Opt (Cat (one_of ".,") (Cap "ss" digits1))))))
    (second_written sty st ++ s) caps k = Some x.
Proof.
  intros Hst Hs Hk. pose proof Hst as Hst'. destruct Hst'. unfold second_written, opt_cap in *.
  destruct (second st) as [n|] eqn:Hn.
  - rewrite <- !(assoc_L (++)). simpl in wf_second0.
    apply opt_taken, cat_taken, sep_taken; [done|intros _; apply two_stops; [lia|unfold digit; lia]|].
    apply cat_taken, field_taken; [by apply second_ok|]. by apply subsecond_read.
  - unfold subsecond_caps in Hk. rewrite (wf_second_fraction0 eq_refl) in Hk.
    rewrite opt_skipped; [done|]. apply refuses_colon; [by apply tail_soft|by apply tail_not_colon|apply soft_second].
Qed.

Lemma minute_read sty st s caps k x :
  stamp_wf st → tail_ok s →
  k s (subsecond_caps st (opt_cap "s" (second st) (opt_cap "m" (minute st) caps))) = Some x →
  search (Opt (Cat (Opt (one 58)) (Cat (Cap "m" sixty_re)
    (Opt (Cat (Opt (one 58)) (Cat (Cap "s" second_re) (Opt (Cat (one_of ".,") (Cap "ss" digits1)))))))))
    (minute_written sty st ++ s) caps k = Some x.
Proof.
  intros Hst Hs Hk. pose proof Hst as Hst'. destruct Hst'. unfold minute_written in *.
  destruct (minute st) as [n|] eqn:Hn; simpl in wf_minute0.
  - rewrite <- !(assoc_L (++)).
    apply opt_taken, cat_taken, sep_taken; [done|intros _; apply two_stops; [lia|unfold digit; lia]|].
    apply cat_taken, field_taken; [by apply minute_ok|]. by apply second_read.
  - specialize (wf_minute_second0 eq_refl). unfold subsecond_caps in Hk.
    rewrite wf_minute_second0, (wf_second_fraction0 wf_minute_second0) in Hk.
    rewrite opt_skipped; [done|]. apply refuses_colon; [by apply tail_soft|by apply tail_not_colon|apply soft_sixty].
Qed.

(** Spaces without an hour after them are left to the zone. *)
Lemma no_time_refused s rest :
  zone_tail s →
  refuses (A := captures) (Cat (Alt (one_of "Tt") (Cat (Chr is_white) (Many is_white)))
    (Cat (Cap "h" hour_re) rest)) s.
Proof.
  intros Hs caps k. assert (Htt : stops (λ d, bool_decide (d ∈ lit "Tt")) s).
  { apply tail_stops; [done|]. change (lit "Tt") with [84; 116]. stops_by_cases. }
  change (search (Alt (one_of "Tt") (Cat (Chr is_white) (Many is_white))) s caps
    (λ s' caps', search (Cat (Cap "h" hour_re) rest) s' caps' k) = None).
  rewrite alt_skipped by (by apply refuses_chr).
  destruct Hs as (w & z & -> & Hw & Hz). clear Htt. destruct w as [|c w].
  - apply refuses_cat, refuses_chr. destruct z as [|c z]; [done|]. by apply zone_start_class in Hz as [? _].
  - pose proof (white_class _ Hw) as Hcw. simpl in Hcw. apply andb_true_iff in Hcw as [Hc Hcw].
    apply Forall_cons in Hw as [_ Hw]. simpl. rewrite Hc.
    apply (many_none (A := captures)); [done| |].
    + destruct z as [|d z]; [done|]. by apply zone_start_class in Hz as [? _].
    + intros s1 s2 ->. change (search hour_re (s2 ++ z) caps (λ s' caps', search rest s'
        (<["h" := take (length (s2 ++ z) - length s') (s2 ++ z)]> caps') k) = None).
      apply soft_hour, tail_soft, zone_tail_ok. exists s2, z. split_and!; [done| |done].
      by apply Forall_app in Hw as [_ ?].
Qed.

Lemma time_read sty st s caps k x :
  style_wf sty st → stamp_wf st → tail_ok s → (hour st = None → zone_tail s) →
  k s (time_caps st caps) = Some x →
  search time_re (time_written sty st ++ s) caps k = Some x.
Proof.
  intros Hsty Hst Hs Hzone Hk. pose proof (wf_between sty st Hsty) as Hbet. pose proof Hst as Hst'. destruct Hst'.
  unfold time_re, time_written, time_caps in *. destruct (hour st) as [n|]; simpl in wf_hour0.
  - rewrite <- !(assoc_L (++)). apply opt_taken, cat_taken, between_taken; [done| |].
    { simpl. assert (Hh : digit (48 + n `div` 10)) by (unfold digit; euclid).
      by apply digit_class in Hh as [_ ->]. }
    apply cat_taken, field_taken; [by apply hour_ok|]. by apply minute_read.
  - specialize (wf_hour_minute0 eq_refl). specialize (wf_minute_second0 wf_hour_minute0).
    unfold subsecond_caps in Hk. rewrite wf_hour_minute0, wf_minute_second0, (wf_second_fraction0 wf_minute_second0) in Hk.
    rewrite opt_skipped; [done|]. by apply no_time_refused, Hzone.
Qed.

(** *** The zone *)
Definition offset_text (c : Z) (hours : Z) (minutes : option Z) (colon : bool) : text :=
  [c] ++ two hours ++ match minutes with Some m => sep colon ":" ++ two m | None => [] end.

Definition offset_caps (c : Z) (hours : Z) (minutes : option Z) (colon : bool) (caps : captures) : captures :=
  <["Z" := offset_text c hours minutes colon]>
    (opt_cap "Zmin" minutes (<["Zhrs" := two hours]> (<["Zsgn" := [c]]> caps))).

Definition zone_caps (z : Zone) (caps : captures) : captures :=
  match z with
  | NoZone => caps
  | Zulu _ => <["Z" := zone_written z]> caps
  | Offset sign hours minutes colon => offset_caps (sign_char sign) hours minutes colon caps
  end.

(** The group of a zone and of what is inside it. *)
Lemma search_zone w s caps k x (inside : re) :
  search inside (w ++ s) caps (λ s' caps', k s' (<["Z" := take (length (w ++ s) - length s') (w ++ s)]> caps'))
    = Some x → search (Opt (Cap "Z" inside)) (w ++ s) caps k = Some x.
Proof. intros Hi. by apply opt_taken. Qed.

Lemma white_tail w : white w → zone_tail w.
Proof. intros Hw. exists w, []. by rewrite app_nil_r. Qed.

Lemma trail_read w caps : white w → search spaces w caps whole = Some caps.
Proof. intros Hw. rewrite <- (app_nil_r w). by apply spaces_taken. Qed.

Lemma minutes_read m c trail caps x k :
  within m 0 99 → white trail → k trail (opt_cap "Zmin" m caps) = Some x →
  search (Opt (Cat (Opt (one 58)) (Cap "Zmin" two_digits)))
    (match m with Some m => sep c ":" ++ two m | None => [] end ++ trail) caps k = Some x.
Proof.
  intros Hm Ht Hk. destruct m as [m|]; simpl in Hm.
  - rewrite <- (assoc_L (++)). apply opt_taken, cat_taken, sep_taken;
      [done|intros _; apply two_stops; [lia|unfold digit; lia]|].
    apply (search_cap "Zmin" two_digits (two m) (λ _, True)); [apply takes_two; lia|done..].
  - apply white_tail, zone_tail_ok in Ht. pose proof (tail_not_colon _ Ht) as Hc. pose proof (tail_not_digit _ Ht) as Hd.
    rewrite opt_skipped; [done|]. simpl. destruct trail as [|d trail]; [done|]. simpl in *. by rewrite Hc, Hd.
Qed.

(** Any character of the range passes for a sign. *)
Lemma offset_read c hours minutes colon trail caps :
  43 ≤ c ≤ 8722 → c ≠ 90 → c ≠ 122 → 0 ≤ hours < 100 → within minutes 0 99 → white trail →
  search (Cat zone_re spaces) (offset_text c hours minutes colon ++ trail) caps whole
    = Some (offset_caps c hours minutes colon caps).
Proof.
  intros Hc Hz1 Hz2 Hh Hm Ht. apply cat_taken. unfold zone_re. apply search_zone.
  set (w := offset_text c hours minutes colon).
  assert (Hw : w ++ trail = [c] ++ two hours ++
      match minutes with Some m => sep colon ":" ++ two m | None => [] end ++ trail).
  { unfold w, offset_text. by rewrite <- !(assoc_L (++)). }
  rewrite alt_skipped.
  - rewrite Hw at 1. apply cat_taken.
    apply (search_cap "Zsgn" _ [c] (λ _, True)); [by apply takes_chr, bool_decide_true|done|].
    apply cat_taken, (search_cap "Zhrs" two_digits (two hours) (λ _, True)); [by apply takes_two|done|].
    apply minutes_read; [done..|]. rewrite take_app_minus. by apply trail_read.
  - rewrite Hw. simpl. rewrite bool_decide_false; [done|]. change (lit "Zz") with [90; 122].
    rewrite !elem_of_cons, elem_of_nil. lia.
Qed.

Lemma zone_read z trail caps :
  zone_wf z → z ≠ NoZone → white trail →
  search (Cat zone_re spaces) (zone_written z ++ trail) caps whole = Some (zone_caps z caps).
Proof.
  intros Hz Hne Ht. destruct z as [|small|sign hours minutes colon]; [done| |].
  - apply cat_taken. unfold zone_re. apply search_zone, alt_taken.
    assert (Hend : ∀ w, search spaces trail
        (<["Z" := take (length (w ++ trail) - length trail) (w ++ trail)]> caps) whole
        = Some (<["Z" := w]> caps)) by (intros w; rewrite take_app_minus; by apply trail_read).
    destruct small; (apply chr_taken; [by_decide|apply Hend]).
  - destruct Hz. destruct sign; by apply offset_read.
Qed.

Lemma zone_first z trail : z ≠ NoZone → zone_start (zone_written z ++ trail).
Proof. intros Hz. destruct z as [|[]|[] hours minutes colon]; [done|..]; simpl; set_solver. Qed.

Lemma tail_shape gap z trail : white gap → white trail → zone_tail (gap ++ zone_written z ++ trail).
Proof.
  intros Hg Ht. destruct (decide (zone_written z = [])) as [Hn|Hn].
  - rewrite Hn. by apply white_tail, Forall_app.
  - exists gap, (zone_written z ++ trail). split_and!; [done..|]. apply zone_first. by intros ->.
Qed.

Lemma tail_read z gap trail caps :
  zone_wf z → white gap → white trail →
  search (Cat spaces (Cat zone_re spaces)) (gap ++ zone_written z ++ trail) caps whole = Some (zone_caps z caps).
Proof.
  intros Hz Hg Ht. apply cat_taken. destruct (decide (zone_written z = [])) as [Hn|Hn].
  - destruct z as [|[]|[]]; [|done..]. change (zone_written NoZone ++ trail) with trail.
    rewrite <- (app_nil_r (gap ++ trail)). by apply spaces_taken; [apply Forall_app|..].
  - assert (Hne : z ≠ NoZone) by (by intros ->). apply spaces_taken; [done| |by apply zone_read].
    pose proof (zone_first z trail Hne) as Hs. destruct (zone_written z ++ trail); [done|].
    by apply zone_start_class in Hs as [? _].
Qed.

(** What the pattern finds in a timestamp, however it is written; the tail is the zone with
    the spaces around it. *)
Lemma tail_captures sty st tail caps :
  style_wf sty st → stamp_wf st → tail_ok tail → (hour st = None → zone_tail tail) →
  (day st = None → dash2 sty = false → hour st = None → stops (λ d, bool_decide (d = 45)) tail) →
  search (Cat spaces (Cat zone_re spaces)) tail (time_caps st (date_caps st)) whole = Some caps →
  captures_of ISO8601_RE (lead sty ++ date_written sty st ++ time_written sty st ++ tail) = Some caps.
Proof.
  intros Hsty Hst Hok Hzone Hdash Htail. unfold captures_of. change (λ s' caps, _) with whole.
  unfold ISO8601_RE. apply cat_taken, spaces_taken; [by eapply wf_lead| |].
  { simpl. assert (Hy : digit (48 + (year st `div` 100) `div` 10)) by (destruct Hst; unfold digit; euclid).
    by apply digit_class in Hy as [_ ->]. }
  assert (Hfirst : ∀ p : Z → bool, p 84 = false → p 116 = false →
    (∀ c, 9 ≤ c ≤ 13 ∨ c = 32 → p c = false) →
    (hour st = None → stops p tail) → stops p (time_written sty st ++ tail)).
  { intros p H1 H2 Hw Hp. unfold time_written. destruct (hour st); [|by apply Hp].
    destruct (wf_between sty st Hsty) as [->|[->|[Hb Hne]]]; [done..|].
    destruct (between sty) as [|c w]; [done|]. apply Forall_cons in Hb as [Hc _]. by apply Hw. }
  apply cat_taken, date_read; [done..| | |by apply cat_taken, time_read].
  - apply Hfirst; [done..| |by intros _; apply tail_soft]. intros c Hc. apply bool_decide_false. lia.
  - intros Hd H2. apply Hfirst; [done..| |by intros Hh; apply Hdash].
    intros c Hc. apply bool_decide_false. lia.
Qed.

Lemma written_captures sty st :
  style_wf sty st → stamp_wf st →
  captures_of ISO8601_RE (written sty st) = Some (zone_caps (zone st) (time_caps st (date_caps st))).
Proof.
  intros Hsty Hst. pose proof (wf_gap sty st Hsty) as Hg. pose proof (wf_trail sty st Hsty) as Ht.
  apply tail_captures; [done..|by apply zone_tail_ok, tail_shape|by intros _; apply tail_shape| |apply tail_read; [by apply wf_zone|done..]].
  intros Hd H2 Hh. pose proof (wf_zone_dash sty st Hsty Hd H2 Hh) as Hz.
  destruct (gap sty) as [|c g].
  - specialize (Hz eq_refl). destruct (zone st) as [|[]|[] hours m colon]; [|done..].
    destruct (trail sty) as [|c t]; [done|]. apply Forall_cons in Ht as [Hc _]. simpl. apply bool_decide_false. lia.
  - apply Forall_cons in Hg as [Hc _]. simpl. apply bool_decide_false. lia.
Qed.
End reading.

(** ** From text to dates *)
Section dates.
Context `{Unicode} `{RegexEngine} `{C : Chrono}.
Context (debug show : text → string).

Definition with_zone (z : Zone) (st : Stamp) : Stamp :=
  MkStamp (year st) (month st) (day st) (hour st) (minute st) (second st) (subsecond st) z.

Lemma date_time_caps st name :
  time_caps st (date_caps st) !! name =
  if decide (name = "ss") then subsecond st
  else if decide (name = "s") then two <$> second st
  else if decide (name = "m") then two <$> minute st
  else if decide (name = "h") then two <$> hour st
  else if decide (name = "D") then two <$> day st
  else if decide (name = "M") then two <$> month st
  else if decide (name = "Y") then Some (four (year st))
  else if decide (name = "neg") then Some [] else None.
Proof.
  unfold time_caps, subsecond_caps, date_caps, opt_cap.
  repeat case_decide; subst; destruct (subsecond st), (second st), (minute st), (hour st), (day st), (month st);
    by simplify_map_eq.
Qed.

Lemma zero_fill_field d n o : zero_fill 2 (default d (two <$> o)) = default (zero_fill 2 d) (two <$> o) ∧
  (zero_fill 2 d = two n → zero_fill 2 (default d (two <$> o)) = two (default n o)).
Proof. by destruct o. Qed.

(** The text that is made of the captures, given that of the zone. *)
Lemma rfc3339_of_fields st z zone_caps :
  zone_text zone_caps = Done (zone_canonical z) →
  (∀ name, name ∉ ["Z"; "Zsgn"; "Zhrs"; "Zmin"] → zone_caps !! name = time_caps st (date_caps st) !! name) →
  rfc3339_text zone_caps = Done (canonical (with_zone z st)).
Proof.
  intros Hz Hcaps. unfold rfc3339_text, cap_index.
  rewrite !Hcaps by by_decide. rewrite Hz, !date_time_caps. unfold canonical. simpl.
  destruct (month st), (day st), (hour st), (minute st), (second st), (subsecond st); reflexivity.
Qed.

Lemma zone_caps_text st :
  zone_text (zone_caps (zone st) (time_caps st (date_caps st))) = Done (zone_canonical (zone st)).
Proof.
  unfold zone_text, zone_caps, offset_caps, opt_cap, cap_index.
  destruct (zone st) as [|[]|[] hours [m|] colon]; simplify_map_eq; try done; by rewrite date_time_caps.
Qed.

Lemma zone_caps_other z caps name :
  name ∉ ["Z"; "Zsgn"; "Zhrs"; "Zmin"] → zone_caps z caps !! name = caps !! name.
Proof.
  rewrite !not_elem_of_cons. intros (? & ? & ? & ? & _).
  unfold zone_caps, offset_caps, opt_cap. destruct z as [|[]|[] hours [m|] colon]; by simplify_map_eq.
Qed.

(** Once the pattern has found its groups, the canonical text decides. *)
Lemma read_canonical s caps text dt :
  captures_of ISO8601_RE s = Some caps → rfc3339_text caps = Done text →
  parse_from_rfc3339 text = Some dt →
  parse_from_rfc3339 s = None ∨ parse_from_rfc3339 s = Some dt →
  iso_from_str debug s = Done (Ok dt).
Proof.
  intros Hc Ht Hp Hs. unfold iso_from_str. destruct Hs as [->| ->]; [|done].
  rewrite regex_captures_documented, Hc, Ht. simpl. by rewrite Hp.
Qed.


(** A letter passes for the sign of a zone.  The sign is meant to be a plus or one of two
    kinds of minus, but the class of the pattern is a range that contains all letters: a time
    that is followed by a letter and two digits is read as that time with so many hours to the
    west. *)
Theorem letter_is_a_zone_sign sty st c hours dt :
  stamp_wf st → style_wf sty st → is_Some (hour st) → 0 ≤ hours < 100 →
  65 ≤ c < 90 ∨ 97 ≤ c < 122 →
  let s := lead sty ++ date_written sty st ++ time_written sty st ++ [c] ++ two hours in
  parse_from_rfc3339 s = None →
  parse_from_rfc3339 (canonical (with_zone (Offset West hours None false) st)) = Some dt →
  iso_from_str debug s = Done (Ok dt).
Proof.
  intros Hst Hsty [h Hhour] Hh Hc s Hnone Hdt.
  assert (Hcl : is_white c = false ∧ is_digit c = false).
  { rewrite is_white_ascii, is_digit_ascii by lia. split; apply bool_decide_false; lia. }
  assert (Hcap : captures_of ISO8601_RE s =
    Some (offset_caps c hours None false (time_caps st (date_caps st)))).
  { apply tail_captures; [done|done| |by rewrite Hhour..|].
    - split; simpl; [apply bool_decide_false; lia..| |by apply Hcl].
      apply bool_decide_false. change (lit ".,") with [46; 44]. rewrite !elem_of_cons, elem_of_nil. lia.
    - apply cat_taken, (spaces_taken [] (offset_text c hours None false ++ [])); [constructor|by apply Hcl|].
      apply offset_read; [lia..|done|constructor]. }
  eapply read_canonical; [exact Hcap| |exact Hdt|by left].
  apply (rfc3339_of_fields st).
  - unfold zone_text, offset_caps, opt_cap, cap_index.
    simplify_map_eq; rewrite decide_False by (by intros [|]); simpl;
      (rewrite decide_False by (change (lit "+") with [43]; intros [= ?]; lia)); by rewrite date_time_caps.
  - intros name Hn. rewrite !not_elem_of_cons in Hn. destruct Hn as (? & ? & ? & ? & _).
    unfold offset_caps, opt_cap. by simplify_map_eq.
Qed.
End dates.

(** ** Reading never panics *)
Section total.

(** The captures of any match. *)
Fixpoint names (r : re) : list string :=
  match r with
  | Eps | Chr _ | Many _ => []
  | Cat r1 r2 | Alt r1 r2 => names r1 ++ names r2
  | Opt r => names r
  | Cap name r => name :: names r
  end.

Inductive parses : re → text → captures → text → captures → Prop :=
| ParsesEps s caps : parses Eps s caps s caps
| ParsesChr p c s caps : p c = true → parses (Chr p) (c :: s) caps s caps
| ParsesMany p s1 s2 caps : parses (Many p) (s1 ++ s2) caps s2 caps
| ParsesCat r1 r2 s caps s1 caps1 s2 caps2 :
    parses r1 s caps s1 caps1 → parses r2 s1 caps1 s2 caps2 → parses (Cat r1 r2) s caps s2 caps2
| ParsesAlt1 r1 r2 s caps s1 caps1 : parses r1 s caps s1 caps1 → parses (Alt r1 r2) s caps s1 caps1
| ParsesAlt2 r1 r2 s caps s1 caps1 : parses r2 s caps s1 caps1 → parses (Alt r1 r2) s caps s1 caps1
| ParsesNot r s caps : parses (Opt r) s caps s caps
| ParsesOpt r s caps s1 caps1 : parses r s caps s1 caps1 → parses (Opt r) s caps s1 caps1
| ParsesCap name r s caps s1 caps1 :
    parses r s caps s1 caps1 → parses (Cap name r) s caps s1 (<[name := take (length s - length s1) s]> caps1).
#[local] Hint Constructors parses : core.

Lemma many_sound {A} p s (k : text → option A) x :
  many p s k = Some x → ∃ s1 s2, s = s1 ++ s2 ∧ k s2 = Some x.
Proof.
  induction s as [|c s IH]; simpl; [by exists [], []|].
  destruct (p c); [|by exists [], (c :: s)].
  destruct (many p s k); [|by exists [], (c :: s)].
  intros [= <-]. destruct (IH eq_refl) as (s1 & s2 & -> & ?). by exists (c :: s1), s2.
Qed.

Lemma search_sound {A} r s caps (k : text → captures → option A) x :
  search r s caps k = Some x → ∃ s' caps', parses r s caps s' caps' ∧ k s' caps' = Some x.
Proof.
  revert s caps k. induction r as [| | |r1 IH1 r2 IH2|r1 IH1 r2 IH2|r IH|name r IH]; intros s caps k Hs; simpl in Hs.
  - eauto.
  - destruct s as [|c s]; [done|]. destruct (p c) eqn:Hp; [|done]. eauto.
  - apply many_sound in Hs as (s1 & s2 & -> & Hs). eauto.
  - apply IH1 in Hs as (s1 & caps1 & H1 & Hs). apply IH2 in Hs as (s2 & caps2 & H2 & Hs). eauto.
  - destruct (search r1 s caps k) eqn:H1.
    + injection Hs as ->. apply IH1 in H1 as (s1 & caps1 & ? & ?). eauto.
    + apply IH2 in Hs as (s2 & caps2 & ? & ?). eauto.
  - destruct (search r s caps k) eqn:H1; [|eauto].
    injection Hs as ->. apply IH in H1 as (s1 & caps1 & ? & ?). eauto.
  - apply IH in Hs as (s1 & caps1 & ? & ?). eauto.
Qed.

(** Captured groups stay captured, and a pattern captures its own names only. *)
Lemma parses_kept r s caps s' caps' name :
  parses r s caps s' caps' → is_Some (caps !! name) → is_Some (caps' !! name).
Proof. rewrite <- !elem_of_dom. induction 1; set_solver. Qed.

Lemma parses_other r s caps s' caps' name :
  parses r s caps s' caps' → name ∉ names r → caps' !! name = caps !! name.
Proof.
  induction 1; simpl; rewrite ?not_elem_of_app, ?not_elem_of_cons; try done; intros Hn.
  - destruct Hn as [H1 H2]. rewrite IHparses2, IHparses1; done.
  - apply IHparses, Hn.
  - apply IHparses, Hn.
  - destruct Hn as [H1 H2]. rewrite lookup_insert_ne by done. by apply IHparses.
Qed.

Lemma parses_cap name r s caps s' caps' : parses (Cap name r) s caps s' caps' → is_Some (caps' !! name).
Proof. inversion 1; subst. rewrite lookup_insert_eq. eauto. Qed.

Lemma parses_cat r1 r2 s caps s' caps' :
  parses (Cat r1 r2) s caps s' caps' →
  ∃ s1 caps1, parses r1 s caps s1 caps1 ∧ parses r2 s1 caps1 s' caps'.
Proof. inversion 1; subst; eauto. Qed.

Context `{Unicode} `{RegexEngine} `{C : Chrono}.
Context (debug : text → string).

(** A match has the groups that are not optional, and the zone, if any, is a Z or has its
    sign and hours. *)
Lemma zone_groups s caps s' caps' :
  caps !! "Z" = None → parses zone_re s caps s' caps' →
  caps' !! "Z" = None ∨ caps' !! "Z" = Some (lit "Z") ∨ caps' !! "Z" = Some (lit "z") ∨
  (is_Some (caps' !! "Zsgn") ∧ is_Some (caps' !! "Zhrs")).
Proof.
  intros Hn Hp. unfold zone_re in Hp. inversion Hp as [| | | | | | |? ? ? ? ? Hz|]; subst; [by left|].
  inversion Hz as [| | | | | | | |? ? ? ? ? ? Hin]; subst.
  inversion Hin as [| | | |? ? ? ? ? ? H1|? ? ? ? ? ? H2| | |]; subst.
  - inversion H1 as [|? c ? ? Hc| | | | | | |]; subst. apply bool_decide_eq_true in Hc.
    change (lit "Zz") with [90; 122] in Hc. rewrite lookup_insert_eq.
    replace (length (c :: s') - length s')%nat with 1%nat by (simpl; lia).
    assert (c = 90 ∨ c = 122) as [-> | ->] by set_solver; auto.
  - apply parses_cat in H2 as (s2 & caps2 & Hs & H2). apply parses_cat in H2 as (s3 & caps3 & Hh & H2).
    right; right; right. rewrite !lookup_insert_ne by done. split.
    + eapply parses_kept; [exact H2|]. eapply parses_kept; [exact Hh|]. by eapply parses_cap.
    + eapply parses_kept; [exact H2|]. by eapply parses_cap.
Qed.

(** C38: reading a timestamp never panics, whatever the text and whatever [chrono] accepts.  The
    groups that the conversion indexes, the sign of the year, the year and the sign and hours of
    a zone that is not a Z, are there whenever the pattern matches, so every text gives a date or
    an error. *)
Theorem timestamp_read_total s : ∃ r, iso_from_str debug s = Done r.
Proof.
  unfold iso_from_str. destruct (parse_from_rfc3339 s); [eauto|].
  rewrite regex_captures_documented. destruct (captures_of ISO8601_RE s) as [caps|] eqn:Hc; [|eauto].
  apply search_sound in Hc as (s' & caps' & Hp & Hk). destruct s'; [|done]. injection Hk as ->.
  apply parses_cat in Hp as (s1 & c1 & H1 & Hp). apply parses_cat in Hp as (s2 & c2 & H2 & Hp).
  apply parses_cat in Hp as (s3 & c3 & H3 & Hp). apply parses_cat in Hp as (s4 & c4 & H4 & Hp).
  apply parses_cat in Hp as (s5 & c5 & H5 & H6).
  assert (Hz : c4 !! "Z" = None).
  { rewrite (parses_other _ _ _ _ _ "Z" H4), (parses_other _ _ _ _ _ "Z" H3),
      (parses_other _ _ _ _ _ "Z" H2), (parses_other _ _ _ _ _ "Z" H1) by (simpl; set_solver).
    apply lookup_empty. }
  apply parses_cat in H2 as (t1 & d1 & Hneg & H2). apply parses_cat in H2 as (t2 & d2 & Hy & H2).
  assert (Hkeep : ∀ name, is_Some (d2 !! name) → is_Some (caps !! name)).
  { intros name Hd. eapply parses_kept, parses_kept, parses_kept, parses_kept, parses_kept; [..|exact Hd]; eauto. }
  destruct (Hkeep "neg") as [neg Hn]; [eapply parses_kept; [exact Hy|by eapply parses_cap]|].
  destruct (Hkeep "Y") as [y HY]; [by eapply parses_cap|].
  unfold rfc3339_text, cap_index. rewrite Hn, HY. cbn [expect mbind outcome_bind].
  assert (Hzone : ∃ z, zone_text caps = Done z).
  { unfold zone_text. assert (Heq : ∀ name, caps !! name = c5 !! name).
    { intros name. apply (parses_other _ _ _ _ _ name H6). simpl. set_solver. }
    unfold cap_index. rewrite !Heq. destruct (zone_groups _ _ _ _ Hz H5) as [-> |[-> |[-> |[[sg ->] [hr ->]]]]]; eauto.
    destruct (c5 !! "Z"); [|eauto]. case_decide; eauto. }
  destruct Hzone as [z ->]. simpl. eauto.
Qed.
End total.

(** ** Arithmetic and conversions *)
Section arithmetic.
Context `{C : Chrono} `{!ChronoLaws C}.
Context (show : text → string).

(** Adding a period to a date that is not inside of a leap second is exact or an error.  When it
    succeeds the new date is later by exactly that period and taking the period off again gives
    the instant back; it fails only when the period or the new date is out of the range of
    [chrono]. *)
Theorem timestamp_arithmetic dt dur :
  ¬ leap_second dt →
  match iso_add show dt dur with
  | Ok dt' => instant dt' = instant dt + nanos dur ∧
      ∃ dt'', iso_sub show dt' dur = Ok dt'' ∧ instant dt'' = instant dt
  | Err _ => is_ok (from_std dur) = false ∨ ¬ representable (instant dt + nanos dur)
  end.
Proof.
  intros Hleap. unfold iso_add, to_chrono. destruct (from_std dur) as [z|e] eqn:Hd; simpl; [|by left].
  pose proof (from_std_nanos _ _ Hd) as ->.
  destruct (checked_add_signed dt (nanos dur)) as [dt'|] eqn:Ha; simpl.
  - destruct (checked_add_exact _ _ _ Hleap Ha) as [Hi Hleap']. split; [done|].
    unfold iso_sub, to_chrono. rewrite Hd. simpl.
    destruct (checked_sub_total dt' (nanos dur)) as [dt'' Hs]; [done| |].
    { rewrite Hi. replace (instant dt + nanos dur - nanos dur) with (instant dt) by lia.
      apply instant_representable. }
    rewrite Hs. exists dt''. split; [done|]. destruct (checked_sub_exact _ _ _ Hleap' Hs). lia.
  - right. intros Hrep. destruct (checked_add_total dt _ Hleap Hrep). congruence.
Qed.

(** The text of a date with a year of four digits is read back. *)
Theorem timestamp_printed `{Unicode} `{RegexEngine} (debug : text → string) dt :
  four_digit_year dt → iso_from_str debug (iso_fmt dt) = Done (Ok dt).
Proof. intros Hy. unfold iso_from_str, iso_fmt. by rewrite parse_printed. Qed.

(** The conversions from integers are documented as infallible.  A [u64] from 2^63 on becomes
    a date before 1970, and integers outside of the years of [chrono] panic. *)
Theorem timestamp_of_u64_wraps secs :
  2 ^ 63 ≤ secs < 2 ^ 64 → representable ((secs - 2 ^ 64) * 1000000000) →
  ∃ dt, iso_from_u64 secs = Done dt ∧ instant dt < 0.
Proof.
  intros Hs Hr. unfold iso_from_u64, iso_new.
  assert (as_i64 secs = secs - 2 ^ 64) as ->.
  { rewrite (as_i64_cong secs (secs - 2 ^ 64)); [apply as_i64_small; unfold fits_i64; lia|].
    rewrite <- (Z.mod_add secs (-1) (2 ^ 64)) by lia. f_equal. }
  destruct (timestamp_instant (secs - 2 ^ 64) 0) as (dt & Ht & Hi); [by rewrite Z.add_0_r|lia|].
  exists dt. split; [done|]. lia.
Qed.

Theorem timestamp_out_of_range_panics secs :
  ¬ representable (secs * 1000000000) → panics (iso_from_i64 secs) = true.
Proof. intros Hr. apply timestamp_range. by rewrite Z.add_0_r. Qed.
End arithmetic.

(** ** A calendar with two dates in it *)
Module IsoDemo.
#[local] Instance ascii_text : Unicode.
Proof.
  refine {| is_white c := bool_decide (9 ≤ c ≤ 13 ∨ c = 32); is_digit c := bool_decide (48 ≤ c ≤ 57) |};
    by intros.
Defined.
#[local] Instance backtracker : RegexEngine :=
  {| regex_captures := captures_of; regex_captures_documented _ _ := eq_refl |}.

Definition noon : Z := 1539228218000000000.
Definition new_year : Z := 1514776980000000000.

#[local] Instance calendar : Chrono := {|
  DateTime := Z;
  instant dt := dt;
  parse_from_rfc3339 s :=
    if decide (s = lit "2018-10-11T03:23:38Z") then Some noon
    else if decide (s = lit "2018-10-11T03:23:38-05:00") then Some (noon + 18000000000000)
    else if decide (s = lit "2018-01-01T03:23:00Z") then Some new_year
    else None;
  to_rfc3339 dt := lit "2018-10-11T03:23:38Z";
  timestamp secs nsecs := Done (secs * 1000000000 + nsecs);
  from_std d := if decide (as_secs d < 2 ^ 53) then Ok (nanos d) else Err "out of range";
  checked_add_signed dt z := Some (dt + z);
  checked_sub_signed dt z := Some (dt - z);
|}.

#[local] Instance calendar_laws : ChronoLaws calendar.
Proof.
  refine {| representable _ := True; four_digit_year dt := dt = noon; leap_second _ := False |}; simpl; intros;
    first [done|by eexists|by subst|by simplify_eq|case_decide; by simplify_eq].
Defined.

Definition in_words (s : text) : string := String.string_of_list_ascii (Ascii.ascii_of_nat ∘ Z.to_nat <$> s).

(** "  20181011 0323:38 −05" with U+2212, " 2018-- 0323" and "2018-10-11T03:23:38A05". *)
Definition loose : Style := MkStyle (lit "  ") (lit " ") [] false false (lit " ") false true false.
Definition short : Style := MkStyle (lit " ") [] [] true true (lit " ") false false false.
Definition strict : Style := MkStyle [] [] [] true true (lit "T") true true false.
Definition stamp : Stamp :=
  MkStamp 2018 (Some 10) (Some 11) (Some 3) (Some 23) (Some 38) None (Offset WestMinus 5 None false).
Definition short_stamp : Stamp := MkStamp 2018 None None (Some 3) (Some 23) None None NoZone.

Lemma loose_wf : style_wf loose stamp.
Proof. split; try done; [by_decide..|]. right; right. split; by_decide. Qed.
Lemma short_wf : style_wf short short_stamp.
Proof. split; try done; [by_decide..|]. right; right. split; by_decide. Qed.
Lemma strict_wf : style_wf strict stamp.
Proof. split; try done; [by_decide..|]. by left. Qed.
Lemma stamp_is_wf : stamp_wf stamp.
Proof. split; simpl; first [done|lia]. Qed.
Lemma short_stamp_wf : stamp_wf short_stamp.
Proof. split; simpl; first [done|lia]. Qed.


Example letter_is_read_as_zone :
  iso_from_str (C := calendar) in_words (lit "2018-10-11T03:23:38A05") = Done (Ok (noon + 18000000000000)).
Proof.
  apply (letter_is_a_zone_sign (C := calendar) in_words strict stamp 65 5 (noon + 18000000000000));
    [apply stamp_is_wf|apply strict_wf|by eexists|lia|lia|reflexivity|reflexivity].
Qed.

Lemma timestamp_read_total_witness :
  ∃ r, iso_from_str (C := calendar) in_words (lit "2018-13-45 +0") = Done r.
Proof. apply (timestamp_read_total (C := calendar) in_words). Defined.

Example next_minute :
  iso_add (C := calendar) in_words noon (MkDuration 60 0) = Ok (noon + 60000000000).
Proof. reflexivity. Qed.
End IsoDemo.
