(* ===== verification/WasmMemory.v ===== *)
(** * The memory shared with wasm

    [wasm_utils/src/memory/]: allocations, the allocation stack, their encoding
    for the ribosome, and the reads and writes a zome makes in its own linear
    memory.  [core/src/nucleus/ribosome/memory.rs]: the page manager with which
    the host reads and writes the same memory through wasmi, whose memory is an
    interface here ([WasmiMemory]) with the linear memory as its model. *)
From S2P Require Import Prelude Bits Errors.
Open Scope Z_scope.

(** [MemoryInt] is [u32] and [MemoryBits] is [u64]. *)
Definition MEMORY_INT_MAX : Z := U32_MAX.

Inductive AllocationError :=
| OutOfBounds
| ZeroLength
| BadStackAlignment
| Serialization.

#[global] Instance AllocationError_eq_dec : EqDecision AllocationError.
Proof. solve_decision. Defined.

Definition AllocationError_str (e : AllocationError) : string :=
  match e with
  | OutOfBounds => "Allocation out of bounds"
  | ZeroLength => "Allocation is zero length"
  | BadStackAlignment => "Allocation not aligned with stack"
  | Serialization => "Allocation could not serialize data"
  end.

Definition error_of_allocation_error (e : AllocationError) : HolochainError :=
  ErrorGeneric (AllocationError_str e).

Record WasmAllocation := MkAllocation { offset : Z; length_ : Z }.

#[global] Instance WasmAllocation_eq_dec : EqDecision WasmAllocation.
Proof. solve_decision. Defined.

Abbreviation AllocationResult := (result AllocationError WasmAllocation).

(** [WasmAllocation::new]. *)
Definition allocation_new (off len : Z) : AllocationResult :=
  if decide (off + len > MEMORY_INT_MAX) then Err OutOfBounds
  else if decide (len = 0) then Err ZeroLength
  else Ok (MkAllocation off len).

(** ** The allocation stack *)
Record WasmStack := MkStack { top : Z }.

#[global] Instance WasmStack_eq_dec : EqDecision WasmStack.
Proof. solve_decision. Defined.

Definition stack_max : Z := MEMORY_INT_MAX.
Definition stack_min : Z := 0.
Definition stack_new : WasmStack := MkStack stack_min.

Definition next_allocation (s : WasmStack) (len : Z) : AllocationResult :=
  allocation_new (top s) len.

(** [WasmStack::allocate(&mut self, ..)]: the sums are [u64] in the guard and
    [u32] in the update. *)
Definition stack_allocate (s : WasmStack) (a : WasmAllocation) :
    WasmStack * result AllocationError Z :=
  if decide (top s ≠ offset a) then (s, Err BadStackAlignment)
  else if decide (top s + length_ a > stack_max) then (s, Err OutOfBounds)
  else (MkStack (as_u32 (offset a + length_ a)), Ok (top s)).

(** [WasmStack::deallocate(&mut self, ..)]: the sum is [u32]. *)
Definition stack_deallocate (s : WasmStack) (a : WasmAllocation) :
    WasmStack * result AllocationError Z :=
  if decide (top s ≠ as_u32 (offset a + length_ a)) then (s, Err BadStackAlignment)
  else if decide (offset a < stack_min) then (s, Err OutOfBounds)
  else (MkStack (offset a), Ok (top s)).

(** [TryFrom<WasmAllocation> for WasmStack]. *)
Definition stack_try_from (a : WasmAllocation) : result AllocationError WasmStack :=
  match stack_allocate (MkStack (offset a)) a with
  | (s, Ok _) => Ok s
  | (_, Err e) => Err e
  end.

(** ** Ribosome encodings of allocations *)
Definition allocation_try_from (bits : Z) : AllocationResult :=
  let '(off, len) := u64_split_bits bits in allocation_new off len.

Definition encoded_allocation (a : WasmAllocation) : Z :=
  u64_merge_bits (offset a) (length_ a).

Definition value_of_allocation (a : WasmAllocation) : RibosomeEncodedValue :=
  Allocation (encoded_allocation a).

Definition code_of_allocation_error (e : AllocationError) : RibosomeErrorCode :=
  match e with
  | OutOfBounds => OutOfMemory
  | ZeroLength => ZeroSizedAllocation
  | BadStackAlignment => NotAnAllocation
  | Serialization => NotAnAllocation
  end.

Definition value_of_allocation_error (e : AllocationError) : RibosomeEncodedValue :=
  Failure (code_of_allocation_error e).

(** [AllocationError::as_ribosome_encoding]. *)
Definition error_as_ribosome_encoding (e : AllocationError) : Z :=
  encode_value (value_of_allocation_error e).

(** [WasmAllocation::try_from_ribosome_encoding]. *)
Definition try_from_ribosome_encoding (i : Z) : outcome AllocationResult :=
  v ← decode_value i;
  Done match v with
       | Success => Err ZeroLength
       | Failure _ => Err OutOfBounds
       | Allocation bits => allocation_try_from bits
       end.

(** [WasmAllocation::as_ribosome_encoding]. *)
Definition as_ribosome_encoding (a : WasmAllocation) : Z :=
  encode_value (value_of_allocation a).

(** [WasmStack::try_from_ribosome_encoding]: the error travels as its encoding
    and is decoded again. *)
Definition stack_try_from_ribosome_encoding (i : Z) :
    outcome (result RibosomeEncodedValue WasmStack) :=
  r ← try_from_ribosome_encoding i;
  match a ← r; stack_try_from a with
  | Ok s => Done (Ok s)
  | Err e => Err <$> decode_value (error_as_ribosome_encoding e)
  end.

Definition return_code_for_allocation_result (r : AllocationResult) :
    RibosomeEncodedValue :=
  match r with
  | Ok a => value_of_allocation a
  | Err e => value_of_allocation_error e
  end.

(** ** Linear memory

    A wasm linear memory is a sequence of bytes; an access outside traps. *)
Abbreviation byte := Ascii.ascii.
Abbreviation linear_memory := (list byte).

Definition NUL : byte := Ascii.Ascii false false false false false false false false.

Definition in_range (mem : linear_memory) (off len : Z) : Prop :=
  0 ≤ off ∧ 0 ≤ len ∧ off + len ≤ Z.of_nat (length mem).
#[global] Instance in_range_dec mem off len : Decision (in_range mem off len).
Proof. unfold in_range. apply _. Defined.

Definition mem_read (mem : linear_memory) (off len : Z) : list byte :=
  take (Z.to_nat len) (drop (Z.to_nat off) mem).

Definition mem_write (mem : linear_memory) (off : Z) (data : list byte) :
    linear_memory :=
  take (Z.to_nat off) mem ++ data ++ drop (Z.to_nat off + length data) mem.

(** *** The zome's side: [write.rs] and [read.rs] *)

(** A zome's stack together with the memory it allocates in. *)
Record zome_memory := MkZomeMemory { zm_stack : WasmStack; zm_mem : linear_memory }.

(** A stack operation of a zome: the memory is untouched. *)
Definition on_stack {A} (f : WasmStack → WasmStack * result AllocationError A) :
    stateful zome_memory AllocationError A := λ z,
  let '(s, r) := f (zm_stack z) in Done (MkZomeMemory s (zm_mem z), r).

(** The bytes stored through a raw slice of [len] cells at [ptr]: a byte past
    the slice panics, a cell outside the memory traps. *)
Definition store_bytes (ptr len : Z) (bytes : list byte) :
    stateful zome_memory AllocationError unit := λ z,
  if decide (Z.of_nat (length bytes) > len) then Panicked "index out of bounds"
  else if decide (in_range (zm_mem z) ptr (Z.of_nat (length bytes))) then
    Done (MkZomeMemory (zm_stack z) (mem_write (zm_mem z) ptr bytes), Ok tt)
  else Panicked "out of bounds memory access".

(** [WasmStack::write_in_wasm_memory]. *)
Definition write_in_wasm_memory (bytes : list byte) (len : Z) :
    stateful zome_memory AllocationError WasmAllocation :=
  a ← on_stack (λ s, (s, next_allocation s len));
  ptr ← on_stack (λ s, stack_allocate s a);
  store_bytes ptr len bytes ;;
  lift (allocation_new ptr len).

(** [WasmStack::write_string]. *)
Definition write_string (s : string) :
    stateful zome_memory AllocationError WasmAllocation :=
  let bytes := String.list_ascii_of_string s in
  let len := as_u32 (Z.of_nat (length bytes)) in
  if decide (len > stack_max) then throw OutOfBounds
  else write_in_wasm_memory bytes len.

(** [WasmStack::write_json]: [try_into] is the conversion of the value to a
    [JsonString]. *)
Definition write_json {J} (try_into : J → option string) (jsonable : J) :
    stateful zome_memory AllocationError WasmAllocation :=
  match try_into jsonable with
  | None => throw Serialization
  | Some j =>
      let json_bytes := String.list_ascii_of_string j in
      let json_bytes_len := as_u32 (Z.of_nat (length json_bytes)) in
      if decide (json_bytes_len > stack_max) then throw OutOfBounds
      else write_in_wasm_memory json_bytes json_bytes_len
  end.

(** [CStr::from_ptr]: the bytes up to the first NUL; running off the memory
    traps. *)
Fixpoint c_str (l : list byte) : outcome (list byte) :=
  match l with
  | [] => Panicked "out of bounds memory access"
  | b :: l => if decide (b = NUL) then Done [] else cons b <$> c_str l
  end.

(** [str::from_utf8]: well-formed UTF-8, with the ranges of the Unicode
    standard (no overlong forms, no surrogates, nothing above U+10FFFF). *)
Definition code (b : byte) : Z := Z.of_N (Ascii.N_of_ascii b).
Definition between (lo hi : Z) (b : byte) : bool :=
  bool_decide (lo ≤ code b) && bool_decide (code b ≤ hi).

Fixpoint from_utf8 (l : list byte) : bool :=
  match l with
  | [] => true
  | b :: l =>
      if between 0 127 b then from_utf8 l
      else match l with
      | [] => false
      | b1 :: l =>
          if between 194 223 b then between 128 191 b1 && from_utf8 l
          else match l with
          | [] => false
          | b2 :: l =>
              if between 224 239 b then
                between (if decide (code b = 224) then 160 else 128)
                        (if decide (code b = 237) then 159 else 191) b1 &&
                between 128 191 b2 && from_utf8 l
              else match l with
              | [] => false
              | b3 :: l =>
                  between 240 244 b &&
                  between (if decide (code b = 240) then 144 else 128)
                          (if decide (code b = 244) then 143 else 191) b1 &&
                  between 128 191 b2 && between 128 191 b3 && from_utf8 l
              end
          end
      end
  end.

(** [WasmAllocation::read_str_raw] and [read_to_string]. *)
Definition read_str_raw (mem : linear_memory) (ptr : Z) : outcome string :=
  bytes ← c_str (drop (Z.to_nat ptr) mem);
  if from_utf8 bytes then Done (String.string_of_list_ascii bytes)
  else Panicked "called `Result::unwrap()` on an `Err` value: Utf8Error".

Definition read_to_string (mem : linear_memory) (a : WasmAllocation) : outcome string :=
  read_str_raw mem (offset a).

(** [load_ribosome_encoded_string]. *)
Definition load_ribosome_encoded_string (mem : linear_memory) (i : Z) :
    outcome (HcResult string) :=
  v ← decode_value i;
  match v with
  | Success => Done (Err (Ribosome ZeroSizedAllocation))
  | Failure err_code => Done (Err (Ribosome err_code))
  | Allocation bits =>
      match map_err error_of_allocation_error (allocation_try_from bits) with
      | Ok a => Ok <$> read_to_string mem a
      | Err e => Done (Err e)
      end
  end.

(** ** The host's side: wasmi memory behind an interface

    [wasmi::MemoryRef::set] and [get], with their documented behaviour: both
    succeed exactly on ranges inside the memory, [set] changes those bytes only,
    [get] returns them. *)
Class WasmiMemory (M : Type) := {
  wasmi_bytes : M → linear_memory;
  wasmi_set : M → Z → list byte → option M;
  wasmi_get : M → Z → Z → option (list byte);
  wasmi_set_spec m off data :
    match wasmi_set m off data with
    | Some m' => in_range (wasmi_bytes m) off (Z.of_nat (length data)) ∧
                 wasmi_bytes m' = mem_write (wasmi_bytes m) off data
    | None => ¬ in_range (wasmi_bytes m) off (Z.of_nat (length data))
    end;
  wasmi_get_spec m off len :
    wasmi_get m off len =
    if decide (in_range (wasmi_bytes m) off len)
    then Some (mem_read (wasmi_bytes m) off len) else None;
}.

(** The linear memory is a model of that interface. *)
#[global, refine] Instance linear_wasmi : WasmiMemory linear_memory := {|
  wasmi_bytes m := m;
  wasmi_set m off data :=
    if decide (in_range m off (Z.of_nat (length data)))
    then Some (mem_write m off data) else None;
  wasmi_get m off len :=
    if decide (in_range m off len) then Some (mem_read m off len) else None;
|}.
Proof.
  - intros. by case_decide.
  - done.
Defined.

Section page_manager.
Context {M : Type} `{!WasmiMemory M}.

Record WasmPageManager := MkPageManager { stack : WasmStack; wasm_memory : M }.

(** [WasmPageManager::new]: [exported] is the module's export "memory". *)
Definition page_manager_new (exported : option M) : outcome WasmPageManager :=
  MkPageManager stack_new <$>
    expect exported "all modules compiled with rustc should have an export named 'memory'; qed".

Definition on_page_stack {A} (f : WasmStack → WasmStack * result AllocationError A) :
    stateful WasmPageManager AllocationError A := λ p,
  let '(s, r) := f (stack p) in Done (MkPageManager s (wasm_memory p), r).

(** [WasmPageManager::allocate]. *)
Definition page_allocate (len : Z) :
    stateful WasmPageManager AllocationError WasmAllocation :=
  a ← on_page_stack (λ s, (s, next_allocation s len));
  t ← on_page_stack (λ s, stack_allocate s a);
  lift (allocation_new t len).

Definition page_set (off : Z) (data : list byte) :
    stateful WasmPageManager AllocationError unit := λ p,
  m ← expect (wasmi_set (wasm_memory p) off data) "memory should be writable";
  Done (MkPageManager (stack p) m, Ok tt).

(** [WasmPageManager::write]. *)
Definition page_write (data : list byte) :
    stateful WasmPageManager AllocationError WasmAllocation :=
  if decide (as_u64 (Z.of_nat (length data)) > MEMORY_INT_MAX) then throw OutOfBounds
  else if decide (data = []) then throw ZeroLength
  else
    mem_buf ← page_allocate (as_u32 (Z.of_nat (length data)));
    page_set (offset mem_buf) data ;;
    mret mem_buf.

(** [WasmPageManager::read]. *)
Definition page_read (p : WasmPageManager) (a : WasmAllocation) : outcome (list byte) :=
  expect (wasmi_get (wasm_memory p) (offset a) (length_ a))
         "Successfully retrieve the result".
End page_manager.
Arguments WasmPageManager M : clear implicits.

(** ** Invariants *)

(** What [WasmAllocation::new] establishes on [u32] arguments. *)
Definition allocation_wf (a : WasmAllocation) : Prop :=
  0 ≤ offset a ∧ 0 < length_ a ∧ offset a + length_ a ≤ MEMORY_INT_MAX.

Definition stack_wf (s : WasmStack) : Prop := 0 ≤ top s ≤ MEMORY_INT_MAX.

#[global] Instance allocation_wf_dec a : Decision (allocation_wf a).
Proof. unfold allocation_wf. apply _. Defined.
#[global] Instance stack_wf_dec s : Decision (stack_wf s).
Proof. unfold stack_wf. apply _. Defined.

(** Two allocations share no byte. *)
Definition disjoint_allocations (a b : WasmAllocation) : Prop :=
  offset a + length_ a ≤ offset b ∨ offset b + length_ b ≤ offset a.

Ltac unfold_mem :=
  unfold allocation_wf, stack_wf, fits, stack_max, stack_min, MEMORY_INT_MAX,
    U32_MAX in *; simpl in *.

(** ** Lemmas on allocations and the stack *)
Lemma allocation_new_ok off len a :
  allocation_new off len = Ok a ↔
  a = MkAllocation off len ∧ off + len ≤ MEMORY_INT_MAX ∧ len ≠ 0.
Proof. unfold allocation_new. repeat case_decide; naive_solver lia. Qed.

Lemma allocation_new_self a :
  allocation_wf a → allocation_new (offset a) (length_ a) = Ok a.
Proof.
  destruct a. intros. apply allocation_new_ok. unfold_mem. split_and!; [done|lia..].
Qed.

Lemma allocation_new_wf off len a :
  fits 32 off → fits 32 len → allocation_new off len = Ok a → allocation_wf a.
Proof. intros ?? (-> & ? & ?)%allocation_new_ok. unfold_mem. lia. Qed.

Lemma as_u32_small x : 0 ≤ x ≤ MEMORY_INT_MAX → as_u32 x = x.
Proof. intros. apply Z.mod_small. unfold_mem. lia. Qed.

Lemma stack_allocate_ok s a t s' :
  allocation_wf a →
  stack_allocate s a = (s', Ok t) ↔
  top s = offset a ∧ t = top s ∧ s' = MkStack (offset a + length_ a).
Proof.
  intros Ha. unfold stack_allocate.
  rewrite as_u32_small by (unfold_mem; lia).
  repeat case_decide; unfold_mem; naive_solver lia.
Qed.

Lemma stack_allocate_err s a e s' :
  stack_allocate s a = (s', Err e) → s' = s.
Proof. unfold stack_allocate. repeat case_decide; naive_solver. Qed.

Lemma stack_deallocate_ok s a t s' :
  allocation_wf a →
  stack_deallocate s a = (s', Ok t) ↔
  top s = offset a + length_ a ∧ t = top s ∧ s' = MkStack (offset a).
Proof.
  intros Ha. unfold stack_deallocate.
  rewrite as_u32_small by (unfold_mem; lia).
  repeat case_decide; unfold_mem; naive_solver lia.
Qed.

(** Allocating the next allocation: it starts at the old top and ends at the
    new one. *)
Lemma next_allocation_allocate s len a :
  stack_wf s → fits 32 len → next_allocation s len = Ok a →
  allocation_wf a ∧ offset a = top s ∧ length_ a = len ∧
  stack_allocate s a = (MkStack (top s + len), Ok (top s)).
Proof.
  intros Hs Hl Ha. unfold next_allocation in Ha.
  assert (Hwf : allocation_wf a)
    by (eapply allocation_new_wf; [|done..]; unfold_mem; lia).
  apply allocation_new_ok in Ha as (-> & ? & ?). split_and!; [done..|].
  by apply stack_allocate_ok.
Qed.

(** ** Sequences of allocations *)

(** Allocating lengths one after the other on a stack. *)
Fixpoint allocate_all (s : WasmStack) (lens : list Z) :
    result AllocationError (WasmStack * list WasmAllocation) :=
  match lens with
  | [] => Ok (s, [])
  | len :: lens =>
      a ← next_allocation s len;
      match stack_allocate s a with
      | (s', Ok _) => '(s'', l) ← allocate_all s' lens; Ok (s'', a :: l)
      | (_, Err e) => Err e
      end
  end.

(** Deallocating them, the last one first. *)
Fixpoint deallocate_all (s : WasmStack) (l : list WasmAllocation) :
    result AllocationError WasmStack :=
  match l with
  | [] => Ok s
  | a :: l =>
      s' ← deallocate_all s l;
      match stack_deallocate s' a with
      | (s'', Ok _) => Ok s''
      | (_, Err e) => Err e
      end
  end.

Lemma allocate_all_cons s len lens s' l :
  stack_wf s → fits 32 len →
  allocate_all s (len :: lens) = Ok (s', l) →
  ∃ a l', l = a :: l' ∧ allocation_wf a ∧ offset a = top s ∧ length_ a = len ∧
    stack_wf (MkStack (top s + len)) ∧
    allocate_all (MkStack (top s + len)) lens = Ok (s', l').
Proof.
  intros Hs Hl H. simpl in H. apply result_bind_ok in H as (a & Ha & H).
  destruct (next_allocation_allocate s len a Hs Hl Ha) as (Hwf & Ho & Hlen & E).
  rewrite E in H. apply result_bind_ok in H as ([s1 l1] & H1 & [= -> <-]).
  exists a, l1. unfold_mem. split_and!; [done|lia|lia|lia|done|done|lia|lia|done].
Qed.

(** Every allocation of the sequence lies between the tops before and after. *)
Lemma allocate_all_bounds s lens s' l :
  stack_wf s → Forall (fits 32) lens → allocate_all s lens = Ok (s', l) →
  stack_wf s' ∧ top s ≤ top s' ∧
  Forall (λ a, allocation_wf a ∧ top s ≤ offset a ∧
               offset a + length_ a ≤ top s') l.
Proof.
  intros Hs Hl. revert s l Hs. induction Hl as [|len lens Hlen Hl IH];
    intros s l Hs H; [by simplify_eq/=; auto|].
  destruct (allocate_all_cons s len lens s' l Hs Hlen H)
    as (a & l' & -> & Ha & Ho & Hla & Hs1 & H1).
  destruct (IH _ _ Hs1 H1) as (Hs' & Hle & Hf). simpl in *.
  split_and!; [done|unfold_mem; lia|]. constructor; [split_and!; [done|lia|lia]|].
  eapply Forall_impl; [exact Hf|]. intros b (? & ? & ?). unfold_mem.
  split_and!; [lia..].
Qed.

(** ** Lemmas on memory *)
Lemma length_mem_write mem off data :
  in_range mem off (Z.of_nat (length data)) →
  length (mem_write mem off data) = length mem.
Proof.
  intros (? & ? & ?). unfold mem_write.
  rewrite !length_app, length_take, length_drop. lia.
Qed.

Lemma mem_read_write mem off data :
  in_range mem off (Z.of_nat (length data)) →
  mem_read (mem_write mem off data) off (Z.of_nat (length data)) = data.
Proof.
  intros (? & ? & ?). unfold mem_read, mem_write.
  rewrite drop_app_length' by (rewrite length_take; lia).
  by rewrite Nat2Z.id, take_app_length.
Qed.

(** A write leaves the bytes below it alone. *)
Lemma mem_read_below mem off data o l :
  in_range mem off (Z.of_nat (length data)) → 0 ≤ o → o + l ≤ off →
  mem_read (mem_write mem off data) o l = mem_read mem o l.
Proof.
  intros (? & ? & ?) ??. unfold mem_read, mem_write.
  destruct (decide (l ≤ 0)) as [|Hl].
  { replace (Z.to_nat l) with 0%nat by lia. done. }
  rewrite drop_app_le, take_app_le.
  - rewrite !take_drop_commute, take_take. do 2 f_equal. lia.
  - rewrite length_drop, length_take. lia.
  - rewrite length_take. lia.
Qed.

(** ** Lemmas on the page manager *)
Section page_manager_lemmas.
Context {M : Type} `{!WasmiMemory M}.
Implicit Types (p : WasmPageManager M).

Lemma page_allocate_eq len p :
  stack_wf (stack p) → fits 32 len →
  page_allocate len p =
  match next_allocation (stack p) len with
  | Ok a => Done (MkPageManager (MkStack (top (stack p) + len)) (wasm_memory p), Ok a)
  | Err e => Done (p, Err e)
  end.
Proof.
  intros Hs Hl. unfold page_allocate, on_page_stack, mbind, stateful_bind.
  destruct (next_allocation (stack p) len) as [a|e] eqn:Ha; simpl.
  - destruct (next_allocation_allocate _ _ _ Hs Hl Ha) as (Hwf & Ho & Hlen & E).
    rewrite E. unfold lift. unfold next_allocation in Ha. by rewrite Ha.
  - by destruct p.
Qed.

(** One page allocation per write, then one [set] of exactly those bytes. *)
Lemma page_write_eq data p :
  stack_wf (stack p) → Z.of_nat (length data) ≤ MEMORY_INT_MAX → data ≠ [] →
  page_write data p =
  match next_allocation (stack p) (Z.of_nat (length data)) with
  | Ok a =>
      match wasmi_set (wasm_memory p) (offset a) data with
      | Some m => Done (MkPageManager
                   (MkStack (top (stack p) + Z.of_nat (length data))) m, Ok a)
      | None => Panicked "memory should be writable"
      end
  | Err e => Done (p, Err e)
  end.
Proof.
  intros Hs Hl Hd. unfold page_write.
  assert (as_u64 (Z.of_nat (length data)) = Z.of_nat (length data)) as ->.
  { apply Z.mod_small. unfold_mem. lia. }
  rewrite decide_False, decide_False by (unfold_mem; first [done|lia]).
  unfold mbind at 1, stateful_bind at 1.
  rewrite page_allocate_eq, as_u32_small by (unfold_mem; try apply fits_mod; lia || done).
  destruct (next_allocation _ _) as [a|e] eqn:Ha; [|done].
  unfold mbind, stateful_bind, page_set, mbind, outcome_bind, expect. simpl.
  by destruct (wasmi_set _ _ _).
Qed.
End page_manager_lemmas.

Lemma deallocate_all_inverse s lens s' l :
  stack_wf s → Forall (fits 32) lens → allocate_all s lens = Ok (s', l) →
  deallocate_all s' l = Ok s.
Proof.
  intros Hs Hl. revert s l Hs. induction Hl as [|len lens Hlen Hl IH];
    intros s l Hs H; [by simplify_eq/=|].
  destruct (allocate_all_cons s len lens s' l Hs Hlen H)
    as (a & l' & -> & Ha & Ho & Hla & Hs1 & H1).
  simpl. rewrite (IH _ _ Hs1 H1). simpl.
  rewrite (proj2 (stack_deallocate_ok (MkStack (top s + len)) a (top s + len) s Ha));
    [done|].
  destruct s. unfold_mem. subst. split_and!; [lia|done|done].
Qed.

Lemma allocate_all_disjoint s lens s' l i j a b :
  stack_wf s → Forall (fits 32) lens → allocate_all s lens = Ok (s', l) →
  (i < j)%nat → l !! i = Some a → l !! j = Some b →
  offset a + length_ a ≤ offset b.
Proof.
  intros Hs Hl. revert s l i j Hs. induction Hl as [|len lens Hlen Hl IH];
    intros s l i j Hs H Hij Hi Hj; [by simplify_eq/=|].
  destruct (allocate_all_cons s len lens s' l Hs Hlen H)
    as (a' & l' & -> & Ha & Ho & Hla & Hs1 & H1).
  destruct j as [|j]; [lia|]. destruct i as [|i]; simplify_eq/=.
  - destruct (allocate_all_bounds _ _ _ _ Hs1 Hl H1) as (_ & _ & Hf).
    apply (Forall_lookup_1 _ _ j b) in Hf as (_ & ? & _); [|done]. simpl in *. lia.
  - eapply (IH _ _ i j); eauto with lia.
Qed.

(** ** Lemmas on encodings *)
Lemma allocation_halves a :
  allocation_wf a → fits 32 (offset a) ∧ fits 32 (length_ a).
Proof. unfold_mem. lia. Qed.

Lemma encoded_allocation_split a :
  allocation_wf a →
  u64_split_bits (encoded_allocation a) = (offset a, length_ a).
Proof.
  intros [??]%allocation_halves. unfold encoded_allocation.
  by rewrite u64_split_merge.
Qed.

Lemma decode_encoded_allocation a :
  allocation_wf a →
  decode_value (as_ribosome_encoding a) = Done (Allocation (encoded_allocation a)).
Proof.
  intros Ha. apply decode_allocation.
  pose proof (encoded_allocation_split a Ha) as [= _ ->]. unfold_mem. lia.
Qed.

Lemma try_from_encoding_self a :
  allocation_wf a →
  try_from_ribosome_encoding (as_ribosome_encoding a) = Done (Ok a).
Proof.
  intros Ha. unfold try_from_ribosome_encoding.
  rewrite decode_encoded_allocation by done. simpl.
  unfold allocation_try_from. rewrite encoded_allocation_split by done.
  by rewrite allocation_new_self.
Qed.

Lemma allocation_try_from_ok bits a :
  fits 64 bits → allocation_try_from bits = Ok a →
  allocation_wf a ∧ encoded_allocation a = bits.
Proof.
  intros Hb Ha. unfold allocation_try_from, u64_split_bits in Ha.
  split; [by eapply allocation_new_wf; [..|exact Ha]; auto with holo|].
  apply allocation_new_ok in Ha as (-> & _).
  unfold encoded_allocation. simpl. by rewrite u64_merge_split.
Qed.

Lemma try_from_encoding_ok i a :
  fits 64 i → try_from_ribosome_encoding i = Done (Ok a) →
  allocation_wf a ∧ as_ribosome_encoding a = i.
Proof.
  intros Hi H. unfold try_from_ribosome_encoding in H.
  apply outcome_bind_done in H as (v & Hv & [= H]).
  rewrite decode_value_unfold in Hv. repeat case_decide; simplify_eq/=.
  - by destruct (from_code_int _); simplify_eq/=.
  - by apply allocation_try_from_ok.
Qed.

Lemma stack_try_from_wf a :
  allocation_wf a → stack_try_from a = Ok (MkStack (offset a + length_ a)).
Proof.
  intros Ha. unfold stack_try_from.
  by rewrite (proj2 (stack_allocate_ok (MkStack (offset a)) a (offset a)
                (MkStack (offset a + length_ a)) Ha)).
Qed.

(** ** Lemmas on strings in memory *)
Lemma c_str_app_done l rest t :
  NUL ∉ l → c_str rest = Done t → c_str (l ++ rest) = Done (l ++ t).
Proof.
  induction l as [|b l IH]; intros Hn Ht; simpl; [done|].
  apply not_elem_of_cons in Hn as [? ?].
  rewrite decide_False by done. by rewrite IH.
Qed.

Lemma string_of_list_ascii_app l1 l2 :
  String.string_of_list_ascii (l1 ++ l2) =
  String.string_of_list_ascii l1 +:+ String.string_of_list_ascii l2.
Proof. induction l1 as [|b l1 IH]; simpl; [done|]. by rewrite IH. Qed.

Lemma write_in_wasm_memory_eq bytes len z :
  stack_wf (zm_stack z) → fits 32 len →
  Z.of_nat (length bytes) = len →
  write_in_wasm_memory bytes len z =
  match next_allocation (zm_stack z) len with
  | Err e => Done (z, Err e)
  | Ok a =>
      if decide (in_range (zm_mem z) (offset a) len) then
        Done (MkZomeMemory (MkStack (top (zm_stack z) + len))
                (mem_write (zm_mem z) (offset a) bytes), Ok a)
      else Panicked "out of bounds memory access"
  end.
Proof.
  intros Hs Hl Hb. unfold write_in_wasm_memory, on_stack, mbind, stateful_bind.
  destruct (next_allocation (zm_stack z) len) as [a|e] eqn:Ha; simpl.
  - destruct (next_allocation_allocate _ _ _ Hs Hl Ha) as (Hwf & Ho & Hlen & E).
    rewrite E. unfold store_bytes. rewrite decide_False by lia. simpl.
    rewrite Hb, Ho. case_decide; [|done]. unfold lift.
    unfold next_allocation in Ha. by rewrite Ha.
  - by destruct z.
Qed.

Lemma drop_mem_write mem off data :
  in_range mem off (Z.of_nat (length data)) →
  drop (Z.to_nat off) (mem_write mem off data) =
  data ++ drop (Z.to_nat off + length data) mem.
Proof.
  intros (? & ? & ?). unfold mem_write.
  by rewrite drop_app_length' by (rewrite length_take; lia).
Qed.

(** ** Properties *)

(** C17: lengths allocated one after the other on a stack give well-formed
    allocations that share no byte with each other nor with what lay below the
    old top, leave the top inside the 32-bit address space, and deallocating
    them in reverse order restores the stack exactly. *)
Theorem stack_discipline (s s' : WasmStack) (lens : list Z) (l : list WasmAllocation) :
  stack_wf s → Forall (fits 32) lens → allocate_all s lens = Ok (s', l) →
  stack_wf s' ∧
  Forall (λ a, allocation_wf a ∧ top s ≤ offset a) l ∧
  (∀ i j a b, i ≠ j → l !! i = Some a → l !! j = Some b → disjoint_allocations a b) ∧
  deallocate_all s' l = Ok s.
Proof.
  intros Hs Hl H. destruct (allocate_all_bounds _ _ _ _ Hs Hl H) as (Hs' & _ & Hf).
  split_and!; [done| | |by eapply deallocate_all_inverse].
  - eapply Forall_impl; [exact Hf|]. naive_solver.
  - intros i j a b Hij Ha Hb. unfold disjoint_allocations.
    destruct (decide (i < j)%nat).
    + left. by eapply (allocate_all_disjoint s lens s' l i j).
    + right. eapply (allocate_all_disjoint s lens s' l j i); eauto with lia.
Qed.

Lemma stack_discipline_witness :
  deallocate_all (MkStack 20) [MkAllocation 7 5; MkAllocation 12 8] = Ok (MkStack 7).
Proof.
  apply (stack_discipline (MkStack 7) (MkStack 20) [5; 8]).
  - by_decide.
  - repeat constructor; lia.
  - by vm_compute.
Defined.

(** A well-formed allocation survives its encoding as a ribosome
    value, both as an allocation and as the stack whose top is its end; and a
    64-bit word that decodes to an allocation is the encoding of that
    allocation and of no other. *)
Theorem allocation_encoding_roundtrip (a : WasmAllocation) :
  allocation_wf a →
  try_from_ribosome_encoding (as_ribosome_encoding a) = Done (Ok a) ∧
  stack_try_from_ribosome_encoding (as_ribosome_encoding a) =
    Done (Ok (MkStack (offset a + length_ a))) ∧
  ∀ i, fits 64 i →
    try_from_ribosome_encoding i = Done (Ok a) ↔ i = as_ribosome_encoding a.
Proof.
  intros Ha. pose proof (try_from_encoding_self a Ha) as H. split_and!; [done| |].
  - unfold stack_try_from_ribosome_encoding. rewrite H. simpl.
    by rewrite stack_try_from_wf.
  - intros i Hi. split; [|by intros ->].
    intros [_ <-]%try_from_encoding_ok; done.
Qed.

Lemma allocation_encoding_roundtrip_witness :
  try_from_ribosome_encoding (as_ribosome_encoding (MkAllocation 65536 12)) =
  Done (Ok (MkAllocation 65536 12)).
Proof.
  refine (proj1 (allocation_encoding_roundtrip (MkAllocation 65536 12) _)).
  by_decide.
Defined.

(** a host write of non-empty data that fits below the end of the wasm
    memory succeeds; reading the returned allocation gives the data back, every
    allocation entirely below the old top still reads the same, and the stack
    has grown by the length of the data. *)
Theorem page_write_read {M} `{!WasmiMemory M} (p : WasmPageManager M) (data : list byte) :
  stack_wf (stack p) → data ≠ [] →
  top (stack p) + Z.of_nat (length data) ≤ MEMORY_INT_MAX →
  top (stack p) + Z.of_nat (length data) ≤ Z.of_nat (length (wasmi_bytes (wasm_memory p))) →
  ∃ p' a, page_write data p = Done (p', Ok a) ∧
    page_read p' a = Done data ∧
    (∀ b, allocation_wf b → offset b + length_ b ≤ top (stack p) →
       page_read p' b = page_read p b) ∧
    offset a = top (stack p) ∧
    top (stack p') = top (stack p) + Z.of_nat (length data).
Proof.
  intros Hs Hd Hmax Hmem.
  assert (Hlen : length data ≠ 0%nat) by by destruct data.
  set (a := MkAllocation (top (stack p)) (Z.of_nat (length data))).
  assert (Ha : next_allocation (stack p) (Z.of_nat (length data)) = Ok a)
    by (apply allocation_new_ok; split_and!; [done|done|lia]).
  assert (Hr : in_range (wasmi_bytes (wasm_memory p)) (offset a) (Z.of_nat (length data)))
    by (unfold in_range; unfold_mem; lia).
  rewrite page_write_eq, Ha by (unfold_mem; done || lia).
  pose proof (wasmi_set_spec (wasm_memory p) (offset a) data) as Hset.
  destruct (wasmi_set _ _ _) as [m|]; [|done]. destruct Hset as [_ Hm].
  eexists _, a. split_and!; [done| | |done|done].
  - unfold page_read. rewrite wasmi_get_spec. simpl. rewrite Hm.
    rewrite decide_True by (unfold in_range; rewrite length_mem_write; done).
    simpl. by rewrite (mem_read_write _ (offset a)).
  - intros b Hb Hbt. unfold page_read. rewrite !wasmi_get_spec. simpl. rewrite Hm.
    rewrite !decide_True by (unfold in_range; rewrite ?length_mem_write by done; unfold_mem; lia).
    rewrite mem_read_below; [done|done|unfold_mem; lia..].
Qed.

Lemma page_write_read_witness :
  ∃ p' a, page_write (M := linear_memory) [NUL; NUL]
            (MkPageManager (MkStack 3) (replicate 8 NUL)) = Done (p', Ok a) ∧
    page_read p' a = Done [NUL; NUL].
Proof.
  destruct (page_write_read (M := linear_memory)
    (MkPageManager (MkStack 3) (replicate 8 NUL)) [NUL; NUL]) as (p' & a & H1 & H2 & _).
  - by_decide.
  - discriminate.
  - by vm_compute.
  - by vm_compute.
  - exists p', a. exact (conj H1 H2).
Defined.

(** a string a zome writes is read back through its allocation followed
    by whatever bytes [t] the memory holds from the end of the allocation up to
    the next NUL: reading stops at a NUL and not at the length, so the string
    itself comes back exactly when the next byte is NUL. *)
Theorem write_string_read (z : zome_memory) (s : string) (t : list byte) :
  let bytes := String.list_ascii_of_string s in
  let off := top (zm_stack z) in
  stack_wf (zm_stack z) → bytes ≠ [] → NUL ∉ bytes →
  off + Z.of_nat (length bytes) ≤ MEMORY_INT_MAX →
  in_range (zm_mem z) off (Z.of_nat (length bytes)) →
  c_str (drop (Z.to_nat off + length bytes) (zm_mem z)) = Done t →
  from_utf8 (bytes ++ t) = true →
  ∃ z' a, write_string s z = Done (z', Ok a) ∧
    read_to_string (zm_mem z') a =
      Done (s +:+ String.string_of_list_ascii t).
Proof.
  intros bytes off Hs Hne Hnul Hmax Hr Ht Hu.
  assert (Hlen : length bytes ≠ 0%nat) by by destruct bytes.
  set (len := Z.of_nat (length bytes)).
  assert (Ha : next_allocation (zm_stack z) len = Ok (MkAllocation off len))
    by (apply allocation_new_ok; split_and!; [done|done|lia]).
  unfold write_string. fold bytes.
  rewrite as_u32_small by (unfold_mem; lia).
  rewrite decide_False by (unfold_mem; lia).
  rewrite write_in_wasm_memory_eq by (unfold_mem; done || lia).
  fold len. rewrite Ha. simpl. rewrite decide_True by done.
  eexists _, _. split; [done|]. unfold read_to_string, read_str_raw. simpl.
  rewrite drop_mem_write by done.
  rewrite (c_str_app_done _ _ _ Hnul Ht). simpl. rewrite Hu.
  subst bytes. by rewrite string_of_list_ascii_app, String.string_of_list_ascii_of_string.
Qed.

Lemma write_string_read_witness :
  let mem := String.list_ascii_of_string "old" ++ [NUL] in
  ∃ z' a, write_string "n" (MkZomeMemory stack_new mem) = Done (z', Ok a) ∧
    read_to_string (zm_mem z') a = Done "nld".
Proof.
  intros mem.
  destruct (write_string_read (MkZomeMemory stack_new mem) "n"
    (String.list_ascii_of_string "ld")) as (z' & a & H).
  - by_decide.
  - discriminate.
  - by_decide.
  - by vm_compute.
  - by_decide.
  - by vm_compute.
  - by vm_compute.
  - exists z', a. exact H.
Defined.
