(* ===== verification/JsonString.v ===== *)
(** * JSON texts

    [core_types/src/json.rs]: a [JsonString] is UTF-8 text, here its bytes, and
    [JsonString::from_json] cleans the text it is made from.  With what the sources use of the
    standard library's strings: trimming and the replacement of what is not UTF-8. *)
From S2P Require Import Prelude WasmMemory.

Definition white_space : list (list byte) :=
  List.map (List.map Ascii.ascii_of_nat)
    [[9]; [10]; [11]; [12]; [13]; [32]; [194; 133]; [194; 160]; [225; 154; 128];
     [226; 128; 128]; [226; 128; 129]; [226; 128; 130]; [226; 128; 131]; [226; 128; 132];
     [226; 128; 133]; [226; 128; 134]; [226; 128; 135]; [226; 128; 136]; [226; 128; 137];
     [226; 128; 138]; [226; 128; 168]; [226; 128; 169]; [226; 128; 175]; [226; 129; 159];
     [227; 128; 128]]%nat.

Fixpoint drop_prefixes (steps : nat) (ws : list (list byte)) (l : list byte) : list byte :=
  match steps with
  | O => l
  | S steps =>
      match List.find (λ w, bool_decide (take (length w) l = w)) ws with
      | Some w => drop_prefixes steps ws (drop (length w) l)
      | None => l
      end
  end.

(** [str::trim_matches] for the characters with these encodings. *)
Definition trim_matches (ws : list (list byte)) (l : list byte) : list byte :=
  reverse (drop_prefixes (length l) (reverse <$> ws) (reverse (drop_prefixes (length l) ws l))).

(** [JsonString::from_json]. *)
Definition from_json (s : string) : string :=
  String.string_of_list_ascii (trim_matches [[NUL]] (trim_matches white_space (String.list_ascii_of_string s))).

(** [String::from_utf8_lossy]: every longest part that starts a character and does not end it is
    replaced by U+FFFD. *)
Definition replacement : list byte := List.map Ascii.ascii_of_nat [239; 191; 189]%nat.

Definition second_of_three (b : byte) : byte → bool :=
  between (if decide (code b = 224) then 160 else 128) (if decide (code b = 237) then 159 else 191).
Definition second_of_four (b : byte) : byte → bool :=
  between (if decide (code b = 240) then 144 else 128) (if decide (code b = 244) then 143 else 191).

Fixpoint from_utf8_lossy (l : list byte) : list byte :=
  match l with
  | [] => []
  | b :: l =>
      if between 0 127 b then b :: from_utf8_lossy l
      else match l with
      | [] => replacement
      | b1 :: l1 =>
          if between 194 223 b then
            if between 128 191 b1 then b :: b1 :: from_utf8_lossy l1 else replacement ++ from_utf8_lossy l
          else if between 224 239 b then
            if second_of_three b b1 then
              match l1 with
              | [] => replacement
              | b2 :: l2 =>
                  if between 128 191 b2 then b :: b1 :: b2 :: from_utf8_lossy l2
                  else replacement ++ from_utf8_lossy l1
              end
            else replacement ++ from_utf8_lossy l
          else if between 240 244 b then
            if second_of_four b b1 then
              match l1 with
              | [] => replacement
              | b2 :: l2 =>
                  if between 128 191 b2 then
                    match l2 with
                    | [] => replacement
                    | b3 :: l3 =>
                        if between 128 191 b3 then b :: b1 :: b2 :: b3 :: from_utf8_lossy l3
                        else replacement ++ from_utf8_lossy l2
                    end
                  else replacement ++ from_utf8_lossy l1
              end
            else replacement ++ from_utf8_lossy l
          else replacement ++ from_utf8_lossy l
      end
  end.

(** ** Lemmas *)
Lemma drop_prefixes_stop n ws b l :
  Forall (λ w, w ≠ [] ∧ head w ≠ Some b) ws → drop_prefixes n ws (b :: l) = b :: l.
Proof.
  intros Hw. destruct n; [done|]. simpl. destruct (List.find _ ws) as [w|] eqn:Hf; [|done].
  apply find_some in Hf as [Hin Ht%bool_decide_eq_true]. rewrite Forall_forall in Hw.
  apply list_elem_of_In, Hw in Hin as [Hne Hh]. destruct w as [|c w]; [done|]. simpl in *. by injection Ht as ->.
Qed.

Lemma from_utf8_app l l' : from_utf8 l = true → from_utf8 l' = true → from_utf8 (l ++ l') = true.
Proof.
  intros Hl Hl'. revert l Hl. fix IH 1. intros [|b l]; [done|]. simpl. destruct (between 0 127 b); [apply IH|].
  destruct l as [|b1 l]; [done|]. simpl. destruct (between 194 223 b).
  { rewrite !andb_true_iff. intros [? ?]. split; [done|by apply IH]. }
  destruct l as [|b2 l]; [done|]. simpl. destruct (between 224 239 b).
  { rewrite !andb_true_iff. intros [? ?]. split; [done|by apply IH]. }
  destruct l as [|b3 l]; [done|]. simpl. rewrite !andb_true_iff. intros [? ?]. split; [done|by apply IH].
Qed.

Lemma trim_none ws a l b :
  Forall (λ w, w ≠ [] ∧ head w ≠ Some a) ws → Forall (λ w, w ≠ [] ∧ head w ≠ Some b) (reverse <$> ws) →
  trim_matches ws (a :: l ++ [b]) = a :: l ++ [b].
Proof.
  intros Ha Hb. unfold trim_matches. rewrite drop_prefixes_stop by done.
  rewrite app_comm_cons, reverse_snoc, drop_prefixes_stop by done. by rewrite <-reverse_snoc, reverse_involutive.
Qed.

Lemma trim_terminator a l b : a ≠ NUL → b ≠ NUL → trim_matches [[NUL]] (a :: l ++ [b; NUL]) = a :: l ++ [b].
Proof.
  intros Ha Hb. unfold trim_matches. rewrite drop_prefixes_stop by (repeat constructor; simpl; congruence).
  replace (a :: l ++ [b; NUL]) with ((a :: l ++ [b]) ++ [NUL]) by (simpl; by rewrite <-app_assoc).
  rewrite reverse_snoc. destruct (length _) as [|n] eqn:Hn; [by rewrite length_app in Hn; simpl in Hn; lia|].
  change (reverse <$> [[NUL]]) with [[NUL]]. rewrite app_comm_cons, reverse_snoc.
  change (drop_prefixes (Datatypes.S n) [[NUL]] (NUL :: b :: reverse (a :: l))) with
    (drop_prefixes n [[NUL]] (b :: reverse (a :: l))).
  rewrite drop_prefixes_stop by (repeat constructor; simpl; congruence).
  by rewrite <-reverse_snoc, reverse_involutive.
Qed.

Lemma bytes_app a b :
  String.list_ascii_of_string (a +:+ b) = String.list_ascii_of_string a ++ String.list_ascii_of_string b.
Proof. induction a as [|c a IH]; [done|]. change (String c a +:+ b) with (String c (a +:+ b)). simpl. congruence. Qed.

Lemma bytes_length s : String.length s = length (String.list_ascii_of_string s).
Proof. induction s; simpl; congruence. Qed.

(** The text of an object keeps its bytes when the terminator after it is stripped. *)
Lemma from_json_object j body :
  j = "{" +:+ body +:+ "}" →
  from_json (String.string_of_list_ascii (String.list_ascii_of_string j ++ [NUL])) = j.
Proof.
  intros Hj. unfold from_json. rewrite String.list_ascii_of_string_of_list_ascii.
  assert (String.list_ascii_of_string j =
    Ascii.ascii_of_nat 123 :: String.list_ascii_of_string body ++ [Ascii.ascii_of_nat 125]) as Hb.
  { subst. by rewrite !bytes_app. }
  rewrite Hb, <-app_comm_cons, trim_none by by_decide. rewrite <-app_assoc. simpl.
  rewrite trim_terminator by done. rewrite <-Hb. apply String.string_of_list_ascii_of_string.
Qed.

(** What is UTF-8 is kept. *)
Lemma lossy_utf8 l : from_utf8 l = true → from_utf8_lossy l = l.
Proof.
  revert l. fix IH 1. intros [|b l]; [done|]. simpl. destruct (between 0 127 b); [intros Hl; f_equal; by apply IH|].
  destruct l as [|b1 l]; [done|]. simpl. destruct (between 194 223 b).
  { intros [-> ?]%andb_true_iff. by do 2 f_equal; apply IH. }
  destruct l as [|b2 l]; [done|]. simpl. unfold second_of_three, second_of_four. destruct (between 224 239 b).
  { intros [[-> ->]%andb_true_iff ?]%andb_true_iff. by do 3 f_equal; apply IH. }
  destruct l as [|b3 l]; [done|]. intros Hl.
  apply andb_true_iff in Hl as [[[[-> ->]%andb_true_iff ->]%andb_true_iff ->]%andb_true_iff Hl].
  by do 4 f_equal; apply IH.
Qed.

(** A text that starts and ends with these brackets or quotes is as clean as it can be. *)
Lemma from_json_clean s a l b :
  String.list_ascii_of_string s = a :: l ++ [b] →
  a ∈ List.map Ascii.ascii_of_nat [123; 91; 34]%nat → b ∈ List.map Ascii.ascii_of_nat [125; 93; 34]%nat →
  from_json s = s.
Proof.
  intros Hs Ha%list_elem_of_In Hb%list_elem_of_In. unfold from_json. rewrite Hs.
  assert (Hok : ∀ ws, ws = white_space ∨ ws = [[NUL]] → trim_matches ws (a :: l ++ [b]) = a :: l ++ [b]).
  { intros ws Hws. apply trim_none;
      [destruct Ha as [<-|[<-|[<-|[]]]], Hws as [->| ->]|destruct Hb as [<-|[<-|[<-|[]]]], Hws as [->| ->]];
      by_decide. }
  rewrite !Hok by auto. rewrite <- Hs. apply String.string_of_list_ascii_of_string.
Qed.
