(* ===== verification/Strings.v ===== *)
(** * Strings

    What the source uses of Rust's [str] and of the [regex] crate on the fixed
    patterns of the core: substring tests, character classes, and the greedy
    split at the last occurrence of a two-character separator. *)
From S2P Require Import Prelude.
#[local] Open Scope string_scope.

#[global] Arguments String.append !_ _ / : simpl nomatch.

Fixpoint string_elem (c : Ascii.ascii) (s : string) : bool :=
  match s with
  | EmptyString => false
  | String d s => bool_decide (c = d) || string_elem c s
  end.

(** Any character of [s] in the class [cs] (an unanchored [[...]] match). *)
Fixpoint matches_class (cs s : string) : bool :=
  match s with
  | EmptyString => false
  | String c s => string_elem c cs || matches_class cs s
  end.

(** [s] without the prefix [p]. *)
Fixpoint strip_prefix (p s : string) : option string :=
  match p, s with
  | EmptyString, _ => Some s
  | String c p, String d s => if decide (c = d) then strip_prefix p s else None
  | String _ _, EmptyString => None
  end.

Definition starts_with (p s : string) : bool :=
  match strip_prefix p s with Some _ => true | None => false end.

(** [str::contains]. *)
Fixpoint contains (p s : string) : bool :=
  starts_with p s ||
  match s with EmptyString => false | String _ s => contains p s end.

(** The two groups of a pattern "anything, separator, anything" anchored at both
    ends: the first group is greedy, so the split is at the last occurrence of
    the separator. *)
Fixpoint split_last (sep s : string) : option (string * string) :=
  match s with
  | EmptyString => None
  | String c s' =>
      match split_last sep s' with
      | Some (a, b) => Some (String c a, b)
      | None => (λ b, (EmptyString, b)) <$> strip_prefix sep s
      end
  end.

Definition underscore : Ascii.ascii := Ascii.ascii_of_nat 95.
Definition newline : Ascii.ascii := Ascii.ascii_of_nat 10.

(** ** Lemmas *)
Lemma app_nil_r_s s : s +:+ "" = s.
Proof. induction s as [|c s IH]; simpl; [done|]. by rewrite IH. Qed.

Lemma app_assoc_s s1 s2 s3 : (s1 +:+ s2) +:+ s3 = s1 +:+ s2 +:+ s3.
Proof. induction s1 as [|c s IH]; simpl; [done|]. by rewrite IH. Qed.

Lemma app_inj_l s s1 s2 : s +:+ s1 = s +:+ s2 → s1 = s2.
Proof. induction s; simpl; naive_solver. Qed.

Lemma length_app_s s1 s2 :
  String.length (s1 +:+ s2) = (String.length s1 + String.length s2)%nat.
Proof. induction s1 as [|c s IH]; simpl; [done|]. by rewrite IH. Qed.

Lemma app_inj_same_length a1 a2 b1 b2 :
  String.length a1 = String.length a2 →
  a1 +:+ b1 = a2 +:+ b2 → a1 = a2 ∧ b1 = b2.
Proof.
  revert a2. induction a1 as [|c a1 IH]; intros [|d a2]; simpl; try done.
  intros [= Hl] [= -> Ha]. destruct (IH _ Hl Ha). by subst.
Qed.

Lemma strip_prefix_app p s : strip_prefix p (p +:+ s) = Some s.
Proof.
  induction p as [|c p IH]; simpl; [done|]. by rewrite decide_True.
Qed.

Lemma strip_prefix_Some p s r : strip_prefix p s = Some r ↔ s = p +:+ r.
Proof.
  split; [|intros ->; apply strip_prefix_app].
  revert s. induction p as [|c p IH]; intros [|d s] H; simplify_eq/=; try done.
  case_decide; [|done]. subst. f_equal. by apply IH.
Qed.

Lemma string_elem_app c s1 s2 :
  string_elem c (s1 +:+ s2) = string_elem c s1 || string_elem c s2.
Proof. induction s1 as [|d s IH]; simpl; [done|]. rewrite IH. by destruct (bool_decide _). Qed.

Lemma split_last_Some sep s a b :
  split_last sep s = Some (a, b) → s = a +:+ sep +:+ b.
Proof.
  revert a b. induction s as [|c s IH]; intros a b H; simpl in H; [done|].
  destruct (split_last sep s) as [[a' b']|] eqn:E.
  - simplify_eq/=. f_equal. by apply IH.
  - destruct (strip_prefix sep (String c s)) as [r|] eqn:E'; simplify_eq/=.
    by apply strip_prefix_Some in E'.
Qed.

(** A greedy split exists exactly when the separator occurs. *)
Lemma split_last_None sep s :
  sep ≠ "" → split_last sep s = None ↔ contains sep s = false.
Proof.
  intros Hsep. induction s as [|c s IH]; simpl.
  - unfold starts_with. by destruct sep.
  - unfold starts_with in *. destruct (split_last sep s) as [[a b]|] eqn:E; simpl.
    + split; [done|]. intros [_ H]%orb_false_iff. by apply IH in H.
    + rewrite (proj1 IH eq_refl), orb_false_r.
      by destruct (strip_prefix sep (String c s)).
Qed.

Lemma split_last_app sep t s a b :
  split_last sep s = Some (a, b) → split_last sep (t +:+ s) = Some (t +:+ a, b).
Proof. intros H. induction t as [|c t IH]; simpl; [done|]. by rewrite IH. Qed.

(** Splitting [t __ g] gives [t] and [g] back exactly when no separator starts
    after the one written there; it may overlap its second character. *)
Lemma split_last_underscores t g :
  split_last "__" (t +:+ "__" +:+ g) = Some (t, g) ↔
  contains "__" ("_" +:+ g) = false.
Proof.
  rewrite <-split_last_None by done.
  destruct (split_last "__" ("_" +:+ g)) as [[a b]|] eqn:E.
  - assert (split_last "__" ("__" +:+ g) = Some ("_" +:+ a, b)) as H.
    { change ("__" +:+ g) with (String underscore ("_" +:+ g)).
      cbn [split_last]. by rewrite E. }
    rewrite (split_last_app _ t _ _ _ H). split; [|done].
    intros [= Ha _]. rewrite <-(app_nil_r_s t) in Ha at 2. by apply app_inj_l in Ha.
  - assert (split_last "__" ("__" +:+ g) = Some ("", g)) as H.
    { change ("__" +:+ g) with (String underscore ("_" +:+ g)).
      cbn [split_last]. rewrite E.
      change (String underscore ("_" +:+ g)) with ("__" +:+ g). by rewrite strip_prefix_app. }
    rewrite (split_last_app _ t _ _ _ H), app_nil_r_s. done.
Qed.
