(* ===== verification/Eav.v ===== *)
(** * Entity-attribute-value storage

    [core_types/src/eav/]: attributes, indexed triples, queries and the storage
    trait; [cas_implementations/src/eav/]: the memory and pickle storages.  The
    trait is the class [EavStorage], whose laws its clients use; the two
    storages are instances of it. *)
From stdpp Require Import sorting.
From S2P Require Import Prelude Errors Strings.
Open Scope Z_scope.

(** [Address], [Entity] and [Value] are hash strings. *)
Abbreviation Address := string.

Inductive Attribute :=
| CrudStatusAttr
| CrudLink
| EntryHeader
| LinkAttr
| LinkRemoveAttr
| LinkTag (link_type tag : string)
| RemovedLink (link_type tag : string)
| PendingEntry.

#[global] Instance Attribute_eq_dec : EqDecision Attribute.
Proof. solve_decision. Defined.

Inductive AttributeError :=
| Unrecognized (a : string)
| ParseError.

#[global] Instance AttributeError_eq_dec : EqDecision AttributeError.
Proof. solve_decision. Defined.

Definition error_of_attribute_error (err : AttributeError) : HolochainError :=
  ErrorGeneric
    match err with
    | Unrecognized a => "Unknown attribute: " +:+ a
    | ParseError => "Could not parse attribute, bad regex match"
    end.

(** [Display for Attribute]. *)
Definition Attribute_fmt (a : Attribute) : string :=
  match a with
  | CrudStatusAttr => "crud-status"
  | CrudLink => "crud-link"
  | EntryHeader => "entry-header"
  | LinkAttr => "link"
  | LinkRemoveAttr => "link_remove"
  | LinkTag link_type tag => "link__" +:+ link_type +:+ "__" +:+ tag
  | RemovedLink link_type tag => "removed_link__" +:+ link_type +:+ "__" +:+ tag
  | PendingEntry => "pending-entry"
  end.

(** The captures of [LINK_REGEX] and [REMOVED_LINK_REGEX]: the literal prefix,
    then two groups around a double underscore, the first one greedy; the dot of
    a group does not match a newline. *)
Definition regex_captures (prefix s : string) : option (string * string) :=
  rest ← strip_prefix prefix s;
  if string_elem newline rest then None else split_last "__" rest.

Definition LINK_REGEX : string → option (string * string) := regex_captures "link__".
Definition REMOVED_LINK_REGEX : string → option (string * string) :=
  regex_captures "removed_link__".

(** [TryFrom<&str> for Attribute]. *)
Definition Attribute_try_from (s : string) : result AttributeError Attribute :=
  match LINK_REGEX s with
  | Some (link_type, link_tag) => Ok (LinkTag link_type link_tag)
  | None =>
      match REMOVED_LINK_REGEX s with
      | Some (link_type, link_tag) => Ok (RemovedLink link_type link_tag)
      | None =>
          if decide (s = "crud-status") then Ok CrudStatusAttr
          else if decide (s = "crud-link") then Ok CrudLink
          else if decide (s = "entry-header") then Ok EntryHeader
          else if decide (s = "link") then Ok LinkAttr
          else if decide (s = "link_remove") then Ok LinkRemoveAttr
          else if decide (s = "pending-entry") then Ok PendingEntry
          else Err (Unrecognized s)
      end
  end.

(** [EntityAttributeValueIndex]; the index is an [i64]. *)
Record Eavi := MkEavi {
  entity : Address;
  attribute : Attribute;
  value : Address;
  index : Z;
}.

#[global] Instance Eavi_eq_dec : EqDecision Eavi.
Proof. solve_decision. Defined.

(** [validate_attribute]: the link type holds none of the characters of the
    class; 34 is the double quote. *)
Definition forbidden_chars : string :=
  String (Ascii.ascii_of_nat 34) "/:*?<>'\|+".

Definition validate_attribute (a : Attribute) : HcResult unit :=
  match a with
  | LinkTag name _ | RemovedLink name _ =>
      if negb (matches_class forbidden_chars name) then Ok tt
      else Err (ErrorGeneric "Attribute name invalid")
  | _ => Ok tt
  end.

(** [EntityAttributeValueIndex::new]; [now] is the clock's reading in
    nanoseconds. *)
Definition eavi_new (now : Z) (e : Address) (a : Attribute) (v : Address) :
    HcResult Eavi :=
  validate_attribute a ;; Ok (MkEavi e a v now).

Definition new_with_index (e : Address) (a : Attribute) (v : Address) (timestamp : Z) :
    HcResult Eavi :=
  validate_attribute a ;; Ok (MkEavi e a v timestamp).

Definition set_index (e : Eavi) (new_index : Z) : Eavi :=
  MkEavi (entity e) (attribute e) (value e) new_index.

(** ** [BTreeSet<EntityAttributeValueIndex>]

    Ordered by index alone, so two triples with the same index are one element
    of the set; [insert] keeps the element already there. *)
Fixpoint btree_insert (e : Eavi) (s : list Eavi) : list Eavi :=
  match s with
  | [] => [e]
  | x :: s' =>
      if decide (index e < index x) then e :: s
      else if decide (index e = index x) then s
      else x :: btree_insert e s'
  end.

(** [iter.collect::<BTreeSet<_>>()]. *)
Definition btree_collect (l : list Eavi) : list Eavi :=
  foldl (λ s e, btree_insert e s) [] l.

(** ** Queries *)

(** [EavFilter<T>] is a boxed predicate. *)
Abbreviation EavFilter T := (T → bool).

Definition filter_single {T} `{EqDecision T} (val : T) : EavFilter T :=
  λ v, bool_decide (v = val).
Definition filter_multiple {T} `{EqDecision T} (vals : list T) : EavFilter T :=
  λ val, existsb (λ v, bool_decide (v = val)) vals.
Definition filter_default {T} : EavFilter T := λ _, true.
Definition filter_from_option {T} `{EqDecision T} (val : option T) : EavFilter T :=
  match val with Some v => filter_single v | None => filter_default end.

Inductive IndexFilter :=
| LatestByAttribute
| Range (start stop : option Z).

Record EaviQuery := MkQuery {
  q_entity : EavFilter Address;
  q_attribute : EavFilter Attribute;
  q_value : EavFilter Address;
  q_index : IndexFilter;
}.

Definition EaviQuery_default : EaviQuery :=
  MkQuery filter_default filter_default filter_default LatestByAttribute.

Definition eav_check (e : Eavi) (ef : EavFilter Address) (af : EavFilter Attribute)
    (vf : EavFilter Address) : bool :=
  ef (entity e) && af (attribute e) && vf (value e).

(** [EaviQuery::run]. *)
Definition is_latest (q : EaviQuery) (iter : list Eavi) (e : Eavi) : bool :=
  match last (List.filter (λ e', eav_check e' (filter_from_option (Some (entity e)))
                                 (q_attribute q)
                                 (filter_from_option (Some (value e)))) iter) with
  | Some latest => bool_decide (index latest = index e)
  | None => false
  end.

Definition in_bounds (start stop : option Z) (e : Eavi) : bool :=
  match start with Some lo => bool_decide (lo ≤ index e) | None => true end &&
  match stop with Some hi => bool_decide (index e ≤ hi) | None => true end.

Definition run (q : EaviQuery) (iter : list Eavi) : list Eavi :=
  let filtered := List.filter (λ e, eav_check e (q_entity q) (q_attribute q) (q_value q)) iter in
  btree_collect
    match q_index q with
    | LatestByAttribute => List.filter (is_latest q iter) filtered
    | Range start stop => List.filter (in_bounds start stop) filtered
    end.

(** ** Adding with collision avoidance

    [increment_key_till_no_collision] recurses until the index is free; the
    addition wraps at [i64], as it does in a build without overflow checks; with them the
    one at the largest index panics.  After [length map + 1] tries the recursion has seen
    every occupied index, so that bound on the recursion loses no result. *)
Fixpoint increment_key (fuel : nat) (e : Eavi) (map : list Eavi) : outcome Eavi :=
  if existsb (λ x, bool_decide (index x = index e)) map then
    match fuel with
    | O => Panicked "stack overflow"
    | S fuel => increment_key fuel (set_index e (as_i64 (index e + 1))) map
    end
  else Done e.

Definition increment_key_till_no_collision (e : Eavi) (map : list Eavi) : outcome Eavi :=
  increment_key (length map) e map.

(** ** Lemmas on sets ordered by index *)
Definition index_lt (a b : Eavi) : Prop := index a < index b.
Definition sorted_eavis (s : list Eavi) : Prop := StronglySorted index_lt s.
Definition index_free (i : Z) (s : list Eavi) : Prop := ∀ x, x ∈ s → index x ≠ i.

(** The triple without its index. *)
Definition triple (e : Eavi) : Address * Attribute * Address :=
  (entity e, attribute e, value e).

Lemma sorted_cons x s :
  sorted_eavis (x :: s) ↔ sorted_eavis s ∧ ∀ y, y ∈ s → index x < index y.
Proof.
  unfold sorted_eavis. split.
  - intros [Hs Hf]%StronglySorted_inv. split; [done|]. by apply Forall_forall.
  - intros [Hs Hf]. constructor; [done|]. by apply Forall_forall.
Qed.

Lemma sorted_inj s x y :
  sorted_eavis s → x ∈ s → y ∈ s → index x = index y → x = y.
Proof.
  induction s as [|z s IH]; [by intros ? ?%elem_of_nil|].
  intros [Hs Hz]%sorted_cons [->|Hx]%elem_of_cons [->|Hy]%elem_of_cons Hi; [done| | |by auto].
  - specialize (Hz _ Hy). lia.
  - specialize (Hz _ Hx). lia.
Qed.

Lemma existsb_index i s :
  existsb (λ x, bool_decide (index x = i)) s = false ↔ index_free i s.
Proof.
  unfold index_free. induction s as [|x s IH]; simpl.
  - split; [by intros _ ? ?%elem_of_nil|done].
  - rewrite orb_false_iff, IH, bool_decide_eq_false. set_solver.
Qed.

Lemma btree_insert_elem e s x :
  sorted_eavis s →
  x ∈ btree_insert e s ↔ x ∈ s ∨ x = e ∧ index_free (index e) s.
Proof.
  unfold index_free. induction s as [|y s IH]; simpl.
  { intros _. set_solver. }
  intros [Hs Hy]%sorted_cons. repeat case_decide.
  - split; [|set_solver]. rewrite elem_of_cons. intros [->|?]; [|by left].
    right. split; [done|]. intros z [->|Hz]%elem_of_cons; [lia|].
    specialize (Hy _ Hz). lia.
  - split; [by left|]. intros [?|[-> Hf]]; [done|].
    exfalso. eapply (Hf y); [by left|done].
  - rewrite !elem_of_cons, IH by done. split.
    + intros [->|[?|[-> Hf]]]; [by left; left|by left; right|].
      right. split; [done|]. intros z [->|Hz]%elem_of_cons; [lia|auto].
    + intros [[->|?]|[-> Hf]]; [by left|by right; left|].
      right. right. split; [done|]. intros z Hz. apply Hf. by right.
Qed.

Lemma btree_insert_sorted e s : sorted_eavis s → sorted_eavis (btree_insert e s).
Proof.
  induction s as [|y s IH]; intros Hs; simpl.
  { apply sorted_cons. split; [constructor|]. by intros ? ?%elem_of_nil. }
  pose proof Hs as [Hs' Hy]%sorted_cons. repeat case_decide; [|done|].
  - apply sorted_cons. split; [done|].
    intros z [->|Hz]%elem_of_cons; [lia|]. specialize (Hy _ Hz). lia.
  - apply sorted_cons. split; [by apply IH|].
    intros z [?|[-> _]]%btree_insert_elem; [by apply Hy|lia|done].
Qed.

Lemma btree_insert_length e s :
  sorted_eavis s → index_free (index e) s → length (btree_insert e s) = S (length s).
Proof.
  induction s as [|y s IH]; intros Hs Hf; simpl; [done|].
  apply sorted_cons in Hs as [Hs Hy]. repeat case_decide; simpl; [done| |].
  - exfalso. eapply (Hf y); [by left|done].
  - f_equal. apply IH; [done|]. intros z Hz. apply Hf. by right.
Qed.

Lemma btree_insert_snoc e s :
  (∀ x, x ∈ s → index x < index e) → btree_insert e s = s ++ [e].
Proof.
  induction s as [|y s IH]; intros H; simpl; [done|].
  pose proof (H y ltac:(by left)). rewrite !decide_False by lia.
  f_equal. apply IH. intros x Hx. apply H. by right.
Qed.

Lemma sorted_snoc s e :
  sorted_eavis (s ++ [e]) ↔ sorted_eavis s ∧ ∀ x, x ∈ s → index x < index e.
Proof.
  induction s as [|y s IH]; simpl.
  - split; [split; [constructor|by intros ? ?%elem_of_nil]|].
    intros _. apply sorted_cons. split; [constructor|by intros ? ?%elem_of_nil].
  - rewrite !sorted_cons, IH. set_solver.
Qed.

(** Collecting a list already in order is the identity. *)
Lemma btree_collect_sorted s : sorted_eavis s → btree_collect s = s.
Proof.
  unfold btree_collect. induction s as [|e s IH] using rev_ind; [done|].
  intros [Hs Hlt]%sorted_snoc. rewrite foldl_app, IH by done. simpl.
  by apply btree_insert_snoc.
Qed.

Lemma elem_of_filter_b {A} (f : A → bool) l x :
  x ∈ List.filter f l ↔ x ∈ l ∧ f x = true.
Proof. rewrite !list_elem_of_In. apply filter_In. Qed.

Lemma sorted_filter f s : sorted_eavis s → sorted_eavis (List.filter f s).
Proof.
  induction s as [|x s IH]; simpl; [done|]. intros [Hs Hx]%sorted_cons.
  case_match; [|by apply IH]. apply sorted_cons. split; [by apply IH|].
  intros y [Hy _]%elem_of_filter_b. by apply Hx.
Qed.

(** The last element of an ordered set has the greatest index. *)
Lemma sorted_last s l x :
  sorted_eavis s → last s = Some l → x ∈ s → index x ≤ index l.
Proof.
  intros Hs Hl Hx. apply last_Some in Hl as [s' ->].
  apply sorted_snoc in Hs as [_ Hlt].
  apply elem_of_app in Hx as [Hx|Hx]; [|apply list_elem_of_singleton in Hx; subst; done].
  specialize (Hlt _ Hx). lia.
Qed.

(** ** Lemmas on queries *)
Definition matches (q : EaviQuery) (e : Eavi) : Prop :=
  q_entity q (entity e) = true ∧ q_attribute q (attribute e) = true ∧
  q_value q (value e) = true.

Lemma eav_check_true q e :
  eav_check e (q_entity q) (q_attribute q) (q_value q) = true ↔ matches q e.
Proof. unfold eav_check, matches. rewrite !andb_true_iff. tauto. Qed.

(** Triples of the same entity and value that pass the attribute filter. *)
Definition same_group (q : EaviQuery) (e e' : Eavi) : Prop :=
  entity e' = entity e ∧ value e' = value e ∧ q_attribute q (attribute e') = true.

Lemma eav_check_group q e e' :
  eav_check e' (filter_from_option (Some (entity e))) (q_attribute q)
    (filter_from_option (Some (value e))) = true ↔ same_group q e e'.
Proof.
  unfold eav_check, same_group, filter_from_option, filter_single.
  rewrite !andb_true_iff, !bool_decide_eq_true. tauto.
Qed.

Lemma is_latest_true q s e :
  sorted_eavis s → e ∈ s → q_attribute q (attribute e) = true →
  is_latest q s e = true ↔ ∀ e', e' ∈ s → same_group q e e' → index e' ≤ index e.
Proof.
  intros Hs He Ha. unfold is_latest.
  set (f := λ e', eav_check e' _ _ _).
  assert (Hf : ∀ x, x ∈ List.filter f s ↔ x ∈ s ∧ same_group q e x)
    by (intros x; rewrite elem_of_filter_b; unfold f; by rewrite eav_check_group).
  assert (Hee : e ∈ List.filter f s) by (apply Hf; done).
  destruct (last (List.filter f s)) as [l|] eqn:El.
  - pose proof (sorted_last _ _ _ (sorted_filter f s Hs) El Hee) as Hle.
    assert (l ∈ List.filter f s) as [Hl1 Hl2]%Hf
      by (apply last_Some in El as [s' ->]; set_solver).
    rewrite bool_decide_eq_true. split.
    + intros <- e' He' Hg.
      eapply (sorted_last _ _ _ (sorted_filter f s Hs) El). by apply Hf.
    + intros Hall. specialize (Hall l Hl1 Hl2). lia.
  - apply last_None in El. rewrite El in Hee. by apply elem_of_nil in Hee.
Qed.

Lemma run_sorted q s : sorted_eavis s → sorted_eavis (run q s).
Proof.
  intros Hs. unfold run. case_match; rewrite btree_collect_sorted;
    repeat apply sorted_filter; done.
Qed.

Lemma elem_of_run_latest q s e :
  sorted_eavis s → q_index q = LatestByAttribute →
  e ∈ run q s ↔ e ∈ s ∧ matches q e ∧
    ∀ e', e' ∈ s → same_group q e e' → index e' ≤ index e.
Proof.
  intros Hs Hq. unfold run. rewrite Hq.
  rewrite btree_collect_sorted by (repeat apply sorted_filter; done).
  rewrite !elem_of_filter_b, eav_check_true. split.
  - intros [[He Hm] Hl]. split_and!; [done..|]. apply is_latest_true; try done. apply Hm.
  - intros (He & Hm & Hl). split; [done|]. apply is_latest_true; try done. apply Hm.
Qed.

Lemma elem_of_run_range q s e lo hi :
  sorted_eavis s → q_index q = Range lo hi →
  e ∈ run q s ↔ e ∈ s ∧ matches q e ∧
    (∀ l, lo = Some l → l ≤ index e) ∧ (∀ h, hi = Some h → index e ≤ h).
Proof.
  intros Hs Hq. unfold run. rewrite Hq.
  rewrite btree_collect_sorted by (repeat apply sorted_filter; done).
  rewrite !elem_of_filter_b, eav_check_true. unfold in_bounds.
  rewrite andb_true_iff. destruct lo, hi; rewrite ?bool_decide_eq_true; naive_solver.
Qed.

(** ** Lemmas on adding *)

(** The recursion stops at the first free index at or after the given one. *)
Lemma increment_key_done fuel e s e' :
  fits_i64 (index e) → increment_key fuel e s = Done e' →
  triple e' = triple e ∧ index_free (index e') s ∧
  ∃ k : nat, index e' = as_i64 (index e + Z.of_nat k) ∧
    ∀ j : nat, (j < k)%nat → ¬ index_free (as_i64 (index e + Z.of_nat j)) s.
Proof.
  revert e. induction fuel as [|fuel IH]; intros e He H; simpl in H;
    destruct (existsb _ s) eqn:E; simplify_eq.
  2: destruct (IH (set_index e (as_i64 (index e + 1))) (as_i64_fits _) H) as (Ht & Hf & k & Hi & Hall);
    split_and!; [done|done|]; exists (S k); simpl in *.
  1,3: apply existsb_index in E; split_and!; [done|done|]; exists 0%nat;
    split; [by rewrite Z.add_0_r, as_i64_small|lia].
  split.
  - rewrite Hi, as_i64_add. f_equal. lia.
  - intros [|j] Hj.
    + rewrite Z.add_0_r, as_i64_small by done.
      intros Hfree%existsb_index. congruence.
    + specialize (Hall j). rewrite as_i64_add in Hall.
      replace (index e + Z.of_nat (S j)) with (index e + 1 + Z.of_nat j) by lia.
      apply Hall. lia.
Qed.

Lemma increment_key_stuck fuel e s w :
  fits_i64 (index e) → increment_key fuel e s = Panicked w →
  ∀ j : nat, (j ≤ fuel)%nat → ¬ index_free (as_i64 (index e + Z.of_nat j)) s.
Proof.
  revert e. induction fuel as [|fuel IH]; intros e He H j Hj; simpl in H;
    destruct (existsb _ s) eqn:E; simplify_eq.
  - replace (Z.of_nat j) with 0 by lia. rewrite Z.add_0_r, as_i64_small by done.
    intros Hfree%existsb_index. congruence.
  - destruct j as [|j].
    + rewrite Z.add_0_r, as_i64_small by done.
      intros Hfree%existsb_index. congruence.
    + specialize (IH (set_index e (as_i64 (index e + 1))) (as_i64_fits _) H j). simpl in IH. rewrite as_i64_add in IH.
      replace (index e + Z.of_nat (S j)) with (index e + 1 + Z.of_nat j) by lia.
      apply IH. lia.
Qed.

(** Among [length s + 1] successive indices one is free (pigeonhole). *)
Lemma increment_key_total e s :
  fits_i64 (index e) → Z.of_nat (length s) < 2 ^ 64 →
  ∃ e', increment_key_till_no_collision e s = Done e'.
Proof.
  intros He Hl. unfold increment_key_till_no_collision.
  destruct (increment_key _ e s) as [e'|w] eqn:E; [by eauto|exfalso].
  pose proof (increment_key_stuck _ _ _ _ He E) as Hno.
  set (cands := (λ j : nat, as_i64 (index e + Z.of_nat j)) <$> seq 0 (S (length s))).
  assert (Hnd : NoDup cands).
  { apply NoDup_fmap_2_strong; [|apply NoDup_seq].
    intros x y Hx%elem_of_seq Hy%elem_of_seq Hxy%as_i64_shift_inj; lia. }
  assert (Hsub : cands ⊆+ (index <$> s)).
  { apply NoDup_submseteq; [done|]. intros i (j & -> & Hj%elem_of_seq)%list_elem_of_fmap.
    destruct (decide (as_i64 (index e + Z.of_nat j) ∈ index <$> s)) as [?|Hn]; [done|].
    destruct (Hno j ltac:(lia)). intros x Hx Hix. apply Hn.
    apply list_elem_of_fmap. eauto. }
  apply submseteq_length in Hsub. unfold cands in Hsub.
  rewrite !length_fmap, length_seq in Hsub. lia.
Qed.

(** ** The storage trait

    [EntityAttributeValueStorage], with what it promises: the storage holds a
    set of triples ordered by index; fetching runs the query on that set; adding
    is append only and never overwrites.  [clock] is the sequence of the
    readings of [Utc::now()] and the [nat] the number of them consumed so far. *)
Class EavStorage (S : Type) := {
  eavs : S → list Eavi;
  storage_wf : S → Prop;
  add_eavi : (nat → Z) → S * nat → Eavi → outcome (S * nat * HcResult (option Eavi));
  fetch_eavi : S → EaviQuery → HcResult (list Eavi);
  (** the storage and the coming clock readings leave a free index *)
  room_for : (nat → Z) → S * nat → Eavi → Prop;
  eavs_sorted s : storage_wf s → sorted_eavis (eavs s);
  fetch_eavi_spec s q : fetch_eavi s q = Ok (run q (eavs s));
  add_eavi_spec clock s t e s' t' r :
    storage_wf s → fits_i64 (index e) →
    add_eavi clock (s, t) e = Done (s', t', r) →
    storage_wf s' ∧
    match r with
    | Ok (Some e') =>
        triple e' = triple e ∧ index_free (index e') (eavs s) ∧
        (index_free (index e) (eavs s) → e' = e) ∧
        eavs s' = btree_insert e' (eavs s)
    | Ok None => False
    | Err _ => eavs s' = eavs s
    end;
  add_eavi_total clock s t e :
    storage_wf s → fits_i64 (index e) → validate_attribute (attribute e) = Ok tt →
    room_for clock (s, t) e →
    ∃ s' t' e', add_eavi clock (s, t) e = Done (s', t', Ok (Some e'));
}.

(** ** The memory storage

    Its state is the [BTreeSet] behind the lock. *)
Module EavMemoryStorage.
Record t := Mk { storage : list Eavi }.

Definition new : t := Mk [].

Definition add_eavi (s : t) (e : Eavi) : outcome (t * HcResult (option Eavi)) :=
  new_eav ← increment_key_till_no_collision e (storage s);
  Done (Mk (btree_insert new_eav (storage s)), Ok (Some new_eav)).

Definition fetch_eavi (s : t) (q : EaviQuery) : HcResult (list Eavi) :=
  Ok (run q (storage s)).
End EavMemoryStorage.

Lemma increment_key_free fuel e s :
  index_free (index e) s → increment_key fuel e s = Done e.
Proof. intros H%existsb_index. destruct fuel; simpl; by rewrite H. Qed.

#[global, refine] Instance memory_storage : EavStorage EavMemoryStorage.t := {|
  eavs := EavMemoryStorage.storage;
  storage_wf s := sorted_eavis (EavMemoryStorage.storage s);
  add_eavi clock st e :=
    '(s', r) ← EavMemoryStorage.add_eavi st.1 e; Done (s', st.2, r);
  fetch_eavi := EavMemoryStorage.fetch_eavi;
  room_for clock st e := Z.of_nat (length (EavMemoryStorage.storage st.1)) < 2 ^ 64;
|}.
Proof.
  - done.
  - done.
  - intros clock s t e s' t' r Hs He H. unfold EavMemoryStorage.add_eavi in H.
    apply outcome_bind_done in H as ([s1 r1] & H & [= <- <- <-]).
    apply outcome_bind_done in H as (e' & H & [= <- <-]).
    destruct (increment_key_done _ _ _ _ He H) as (Ht & Hf & _).
    split; [by apply btree_insert_sorted|]. split_and!; [done|done| |done]. intros Hfree.
    unfold increment_key_till_no_collision in H. simpl in H.
    rewrite increment_key_free in H by done. by simplify_eq.
  - intros clock s t e _ He _ Hroom.
    destruct (increment_key_total e (EavMemoryStorage.storage s) He Hroom) as [e' H].
    eexists _, _, e'. unfold EavMemoryStorage.add_eavi. simpl. by rewrite H.
Defined.

(** ** The pickle storage

    [pickledb] is a key-value store; what the storage relies on is that a key
    set is the key got, other keys are kept, and iteration visits every pair. *)
Class PickleDb (DB : Type) := {
  pickle_map : DB → gmap string Eavi;
  pickle_set : DB → string → Eavi → result string DB;
  pickle_get : DB → string → option Eavi;
  pickle_iter : DB → list (option Eavi);
  pickle_set_spec db k v db' :
    pickle_set db k v = Ok db' → pickle_map db' = <[k := v]> (pickle_map db);
  pickle_get_spec db k : pickle_get db k = pickle_map db !! k;
  pickle_iter_spec db v :
    Some v ∈ pickle_iter db ↔ ∃ k, pickle_map db !! k = Some v;
}.

Section pickle.
Context {DB : Type} `{!PickleDb DB} (clock : nat → Z).

(** The [while value.is_some()] loop of [add_eavi]: a fresh reading of the clock
    per turn.  [fuel] bounds the turns. *)
Fixpoint pickle_loop (fuel : nat) (db : DB) (t : nat) (e new_eav : Eavi) :
    outcome (nat * HcResult Eavi) :=
  match pickle_get db (pretty (index new_eav)) with
  | None => Done (t, Ok new_eav)
  | Some _ =>
      match fuel with
      | O => Panicked "still looping"
      | S fuel =>
          match eavi_new (clock t) (entity e) (attribute e) (value e) with
          | Ok new_eav => pickle_loop fuel db (S t) e new_eav
          | Err err => Done (S t, Err err)
          end
      end
  end.

(** [EavPickleStorage::add_eavi]; the database is left as it was on an error. *)
Definition pickle_add_eavi (db : DB) (t : nat) (e : Eavi) :
    outcome (DB * nat * HcResult (option Eavi)) :=
  '(t', r) ← pickle_loop (S (size (pickle_map db))) db t e e;
  match r with
  | Err err => Done (db, t', Err err)
  | Ok new_eav =>
      match pickle_set db (pretty (index new_eav)) new_eav with
      | Ok db' => Done (db', t', Ok (Some new_eav))
      | Err msg => Done (db, t', Err (ErrorGeneric msg))
      end
  end.

Definition pickle_entries (db : DB) : list Eavi :=
  btree_collect (omap id (pickle_iter db)).

Definition pickle_fetch_eavi (db : DB) (q : EaviQuery) : HcResult (list Eavi) :=
  Ok (run q (pickle_entries db)).
End pickle.

(** ** The pickle storage implements the trait *)
Lemma sorted_ext s1 s2 :
  sorted_eavis s1 → sorted_eavis s2 → (∀ x, x ∈ s1 ↔ x ∈ s2) → s1 = s2.
Proof.
  revert s2. induction s1 as [|x s1 IH]; intros [|y s2] H1 H2 Hx.
  - done.
  - exfalso. apply (elem_of_nil y), Hx. by left.
  - exfalso. apply (elem_of_nil x), Hx. by left.
  - apply sorted_cons in H1 as [H1 Hx1], H2 as [H2 Hy2].
    assert (x = y) as <-.
    { assert (Hxy : x ∈ y :: s2) by (apply Hx; by left).
      assert (Hyx : y ∈ x :: s1) by (apply Hx; by left).
      apply elem_of_cons in Hxy as [->|Hxy]; [done|].
      apply elem_of_cons in Hyx as [->|Hyx]; [done|].
      specialize (Hx1 _ Hyx). specialize (Hy2 _ Hxy). lia. }
    f_equal. apply IH; [done..|]. intros z. specialize (Hx z).
    rewrite !elem_of_cons in Hx. split; intros Hz.
    + destruct (proj1 Hx (or_intror Hz)) as [->|]; [|done].
      specialize (Hx1 _ Hz). lia.
    + destruct (proj2 Hx (or_intror Hz)) as [->|]; [|done].
      specialize (Hy2 _ Hz). lia.
Qed.

Lemma foldl_btree_sorted l s :
  sorted_eavis s → sorted_eavis (foldl (λ s e, btree_insert e s) s l).
Proof.
  revert s. induction l as [|e l IH]; intros s Hs; simpl; [done|].
  by apply IH, btree_insert_sorted.
Qed.

Lemma elem_of_foldl_btree l s x :
  sorted_eavis s →
  (∀ a b, a ∈ s ++ l → b ∈ s ++ l → index a = index b → a = b) →
  x ∈ foldl (λ s e, btree_insert e s) s l ↔ x ∈ s ++ l.
Proof.
  revert s. induction l as [|e l IH]; intros s Hs Hinj; simpl.
  { by rewrite app_nil_r. }
  assert (Hins : ∀ y, y ∈ btree_insert e s ↔ y ∈ s ∨ y = e).
  { intros y. rewrite btree_insert_elem by done. split; [tauto|].
    intros [?| ->]; [by left|].
    destruct (existsb (λ x, bool_decide (index x = index e)) s) eqn:E;
      [|apply existsb_index in E; by right].
    apply existsb_exists in E as (z & Hz%list_elem_of_In & Hi%bool_decide_eq_true).
    left. rewrite (Hinj e z); [done| | |done]; set_solver. }
  rewrite IH; [|by apply btree_insert_sorted|].
  - rewrite !elem_of_app, elem_of_cons, Hins. tauto.
  - intros a b. rewrite !elem_of_app, !Hins. intros Ha Hb.
    apply Hinj; rewrite elem_of_app, elem_of_cons; tauto.
Qed.

Lemma btree_collect_sorted' l : sorted_eavis (btree_collect l).
Proof. apply foldl_btree_sorted. constructor. Qed.

Section pickle_lemmas.
Context {DB : Type} `{!PickleDb DB}.

(** Every triple is stored under its index. *)
Definition pickle_wf (db : DB) : Prop :=
  ∀ k v, pickle_map db !! k = Some v → k = pretty (index v).

Lemma elem_of_pickle_entries db x :
  pickle_wf db →
  x ∈ pickle_entries db ↔ pickle_map db !! pretty (index x) = Some x.
Proof.
  intros Hwf.
  assert (Hom : ∀ y, y ∈ omap id (pickle_iter db) ↔ pickle_map db !! pretty (index y) = Some y).
  { intros y. rewrite list_elem_of_omap. split.
    - intros ([?|] & H & [= ->]). apply pickle_iter_spec in H as [k Hk].
      by rewrite <-(Hwf _ _ Hk).
    - intros H. exists (Some y). split; [|done]. apply pickle_iter_spec. eauto. }
  unfold pickle_entries, btree_collect. rewrite elem_of_foldl_btree.
  - simpl. apply Hom.
  - constructor.
  - simpl. intros a b Ha%Hom Hb%Hom Hi. rewrite Hi in Ha. congruence.
Qed.

Lemma pickle_key_free db i :
  pickle_wf db → pickle_map db !! pretty i = None ↔ index_free i (pickle_entries db).
Proof.
  intros Hwf. split.
  - intros Hn x Hx%elem_of_pickle_entries Hi; [|done]. subst. congruence.
  - intros Hf. destruct (pickle_map db !! pretty i) as [v|] eqn:E; [|done].
    pose proof (Hwf _ _ E) as Hk%(inj pretty). subst i.
    exfalso. eapply (Hf v); [by apply elem_of_pickle_entries|done].
Qed.

Lemma pickle_loop_ok clock fuel db t e new t' e' :
  triple new = triple e →
  pickle_loop clock fuel db t e new = Done (t', Ok e') →
  triple e' = triple e ∧ pickle_map db !! pretty (index e') = None ∧
  (pickle_map db !! pretty (index new) = None → e' = new).
Proof.
  revert t new. induction fuel as [|fuel IH]; intros t new Hn H; simpl in H;
    rewrite pickle_get_spec in H;
    destruct (_ !! pretty (index new)) eqn:E; simplify_eq;
    try by split_and!; [unfold triple; congruence|..].
  unfold eavi_new in H. destruct (validate_attribute _); simplify_eq/=.
  apply IH in H as (? & ? & _); [|done]. by split_and!.
Qed.

(** If the index, or one of the next [fuel] readings, is free then the loop ends. *)
Lemma pickle_loop_total clock fuel db t e new :
  validate_attribute (attribute e) = Ok tt →
  (pickle_map db !! pretty (index new) = None ∨
   ∃ k, (k < fuel)%nat ∧ pickle_map db !! pretty (clock (t + k)%nat) = None) →
  ∃ t' e', pickle_loop clock fuel db t e new = Done (t', Ok e').
Proof.
  intros Hv. revert t new. induction fuel as [|fuel IH]; intros t new Hk; simpl;
    rewrite pickle_get_spec; destruct (_ !! pretty (index new)) eqn:E; [|by eauto| |by eauto].
  { destruct Hk as [?|(k & ? & _)]; [done|lia]. }
  unfold eavi_new. rewrite Hv. simpl. apply IH.
  destruct Hk as [?|([|k] & ? & Hc)]; [done| |].
  - left. by rewrite Nat.add_0_r in Hc.
  - right. exists k. split; [lia|]. by rewrite Nat.add_succ_r in Hc.
Qed.

Lemma pickle_set_entries db db' e :
  pickle_wf db → pickle_map db !! pretty (index e) = None →
  pickle_set db (pretty (index e)) e = Ok db' →
  pickle_wf db' ∧ pickle_entries db' = btree_insert e (pickle_entries db).
Proof.
  intros Hwf Hfree Hset%pickle_set_spec.
  assert (Hwf' : pickle_wf db').
  { intros k v. rewrite Hset, lookup_insert_Some. intros [[<- <-]|[_ ?]]; eauto. }
  split; [done|]. apply sorted_ext.
  - apply btree_collect_sorted'.
  - apply btree_insert_sorted, btree_collect_sorted'.
  - intros x. rewrite btree_insert_elem, !elem_of_pickle_entries
      by (done || apply btree_collect_sorted').
    rewrite Hset, lookup_insert_Some. split.
    + intros [[_ <-]|[_ ?]]; [right; split; [done|by apply pickle_key_free]|by left].
    + intros [Hx|[-> _]]; [right; split; [congruence|done]|by left].
Qed.
End pickle_lemmas.

#[global, refine] Instance pickle_storage {DB} `{!PickleDb DB} : EavStorage DB := {|
  eavs := pickle_entries;
  storage_wf := pickle_wf;
  add_eavi clock st := pickle_add_eavi clock st.1 st.2;
  fetch_eavi := pickle_fetch_eavi;
  room_for clock st e :=
    (pickle_map st.1 !! pretty (index e) = None ∨
     ∃ k, (k < S (size (pickle_map st.1)))%nat ∧
          pickle_map st.1 !! pretty (clock (st.2 + k)%nat) = None) ∧
    (∀ k v, ∃ db', pickle_set st.1 k v = Ok db');
|}.
Proof.
  - intros s _. apply btree_collect_sorted'.
  - done.
  - intros clock db t e db' t' r Hwf _ H. simpl in H. unfold pickle_add_eavi in H.
    apply outcome_bind_done in H as ([t1 [new|err]] & Hl & H); [|by simplify_eq].
    apply pickle_loop_ok in Hl as (Ht & Hfree & Hsame); [|done].
    destruct (pickle_set _ _ new) as [db1|msg] eqn:Hset; [|by simplify_eq].
    assert (r = Ok (Some new) ∧ db1 = db') as [-> ->] by by simplify_eq.
    destruct (pickle_set_entries _ _ _ Hwf Hfree Hset).
    split_and!; [done|done|by apply pickle_key_free| |done].
    intros Hf. apply Hsame. by apply pickle_key_free.
  - intros clock db t e _ _ Hv [Hk Hset]. simpl in *.
    destruct (pickle_loop_total clock _ _ t e e Hv Hk) as (t' & e' & Hl).
    destruct (Hset (pretty (index e')) e') as [db' Hdb'].
    exists db', t', e'. unfold pickle_add_eavi. rewrite Hl. simpl. by rewrite Hdb'.
Defined.

(** A finite map is a model of the database. *)
#[global, refine] Instance gmap_pickle : PickleDb (gmap string Eavi) := {|
  pickle_map m := m;
  pickle_set m k v := Ok (<[k := v]> m);
  pickle_get m k := m !! k;
  pickle_iter m := (λ kv, Some kv.2) <$> map_to_list m;
|}.
Proof.
  - by intros ???? [= <-].
  - done.
  - intros m v. rewrite list_elem_of_fmap. split.
    + intros ([k w] & [= ->] & Hk%elem_of_map_to_list). eauto.
    + intros [k Hk]. exists (k, v). by rewrite elem_of_map_to_list.
Defined.

(** ** Lemmas on attributes *)

(** A link type and tag that the text form keeps apart. *)
Definition tag_unambiguous (link_type tag : string) : Prop :=
  string_elem newline link_type = false ∧ string_elem newline tag = false ∧
  contains "__" ("_" +:+ tag) = false.

Lemma regex_captures_prefix prefix t g :
  regex_captures prefix (prefix +:+ t +:+ "__" +:+ g) = Some (t, g) ↔
  tag_unambiguous t g.
Proof.
  unfold regex_captures, tag_unambiguous.
  rewrite <-(split_last_underscores t), strip_prefix_app. cbn [mbind option_bind].
  rewrite (string_elem_app _ t), (string_elem_app _ "__" g).
  change (string_elem newline "__") with false.
  destruct (string_elem newline t), (string_elem newline g); simpl; naive_solver.
Qed.

Lemma link_regex_removed t g :
  LINK_REGEX ("removed_link__" +:+ t +:+ "__" +:+ g) = None.
Proof. reflexivity. Qed.

Lemma removed_regex_link t g :
  REMOVED_LINK_REGEX ("link__" +:+ t +:+ "__" +:+ g) = None.
Proof. reflexivity. Qed.

Lemma try_from_link t g :
  Attribute_try_from (Attribute_fmt (LinkTag t g)) = Ok (LinkTag t g) ↔
  tag_unambiguous t g.
Proof.
  rewrite <-(regex_captures_prefix "link__"). unfold Attribute_try_from.
  cbn [Attribute_fmt]. fold LINK_REGEX.
  rewrite removed_regex_link. destruct (LINK_REGEX _) as [[t' g']|].
  - split; by intros [= -> ->].
  - split; [|done]. repeat case_decide; by intros [=].
Qed.

Lemma try_from_removed t g :
  Attribute_try_from (Attribute_fmt (RemovedLink t g)) = Ok (RemovedLink t g) ↔
  tag_unambiguous t g.
Proof.
  rewrite <-(regex_captures_prefix "removed_link__"). unfold Attribute_try_from.
  cbn [Attribute_fmt]. fold REMOVED_LINK_REGEX.
  rewrite link_regex_removed. destruct (REMOVED_LINK_REGEX _) as [[t' g']|].
  - split; by intros [= -> ->].
  - split; [|done]. repeat case_decide; by intros [=].
Qed.

(** ** Properties *)

(** parsing the text of an attribute gives the attribute back exactly
    when it is not a link, or its type and tag hold no newline and the tag
    neither starts with an underscore nor holds two in a row: the greedy pattern
    moves such a tag's beginning into the type. *)
Theorem attribute_roundtrip (a : Attribute) :
  Attribute_try_from (Attribute_fmt a) = Ok a ↔
  match a with
  | LinkTag t g | RemovedLink t g => tag_unambiguous t g
  | _ => True
  end.
Proof.
  destruct a; try (split; done); [apply try_from_link|apply try_from_removed].
Qed.

(** C14: adding a triple to the memory storage always returns when the set has
    fewer than 2^64 elements; the set stays ordered, keeps every triple it had,
    and gains exactly the given triple at the first free index at or after the
    requested one. *)
Theorem memory_add_spec (s : EavMemoryStorage.t) (e : Eavi) :
  storage_wf s → fits_i64 (index e) →
  Z.of_nat (length (EavMemoryStorage.storage s)) < 2 ^ 64 →
  ∃ s' e', EavMemoryStorage.add_eavi s e = Done (s', Ok (Some e')) ∧
    triple e' = triple e ∧
    (∃ k : nat, index e' = as_i64 (index e + Z.of_nat k) ∧
       index_free (index e') (EavMemoryStorage.storage s) ∧
       ∀ j : nat, (j < k)%nat →
         ¬ index_free (as_i64 (index e + Z.of_nat j)) (EavMemoryStorage.storage s)) ∧
    storage_wf s' ∧
    (∀ x, x ∈ EavMemoryStorage.storage s' ↔ x ∈ EavMemoryStorage.storage s ∨ x = e').
Proof.
  intros Hs He Hl. destruct (increment_key_total e _ He Hl) as [e' H].
  pose proof H as (Ht & Hf & k & Hk & Hno)%increment_key_done; [|done].
  eexists _, e'. unfold EavMemoryStorage.add_eavi. rewrite H.
  split_and!; [done|done|by eauto|by apply btree_insert_sorted|].
  intros x. simpl. rewrite btree_insert_elem by done. naive_solver.
Qed.

Lemma memory_add_spec_witness :
  ∃ s' e', EavMemoryStorage.add_eavi
      (EavMemoryStorage.Mk [MkEavi "a" CrudLink "b" 7]) (MkEavi "a" CrudLink "c" 7) =
    Done (s', Ok (Some e')) ∧ triple e' = ("a", CrudLink, "c").
Proof.
  destruct (memory_add_spec (EavMemoryStorage.Mk [MkEavi "a" CrudLink "b" 7])
    (MkEavi "a" CrudLink "c" 7)) as (s' & e' & H1 & H2 & _).
  - repeat constructor.
  - by_decide.
  - reflexivity.
  - exists s', e'. exact (conj H1 H2).
Defined.

(** C15: a query over a storage returns, in index order, exactly the stored
    triples its filters accept and which, for a range, lie within the bounds, or
    which, for the latest, have the greatest index among the stored triples of
    the same entity and value that the attribute filter accepts. *)
Theorem fetch_characterisation {S} `{!EavStorage S} (s : S) (q : EaviQuery) :
  storage_wf s →
  ∃ l, fetch_eavi s q = Ok l ∧ sorted_eavis l ∧
    ∀ e, e ∈ l ↔ e ∈ eavs s ∧ matches q e ∧
      match q_index q with
      | LatestByAttribute =>
          ∀ e', e' ∈ eavs s → same_group q e e' → index e' ≤ index e
      | Range lo hi =>
          (∀ l, lo = Some l → l ≤ index e) ∧ (∀ h, hi = Some h → index e ≤ h)
      end.
Proof.
  intros Hs%eavs_sorted. eexists. rewrite fetch_eavi_spec.
  split_and!; [done|by apply run_sorted|]. intros e.
  destruct (q_index q) eqn:Hq; [by apply elem_of_run_latest|by apply elem_of_run_range].
Qed.

Lemma fetch_characterisation_witness :
  ∃ l, fetch_eavi (EavMemoryStorage.Mk [MkEavi "a" CrudLink "b" 7]) EaviQuery_default = Ok l ∧
    sorted_eavis l.
Proof.
  destruct (fetch_characterisation (EavMemoryStorage.Mk [MkEavi "a" CrudLink "b" 7])
    EaviQuery_default) as (l & H1 & H2 & _).
  - repeat constructor.
  - exists l. exact (conj H1 H2).
Defined.

(** two storages of any kind that hold the same triples answer every
    query alike, and still do after both accept a triple whose index is free. *)
Theorem storages_agree {S1 S2} `{!EavStorage S1} `{!EavStorage S2} clock
    (s1 s1' : S1) (s2 s2' : S2) (t1 t1' t2 t2' : nat) (e : Eavi) r1 r2 :
  storage_wf s1 → storage_wf s2 → fits_i64 (index e) →
  eavs s1 = eavs s2 → index_free (index e) (eavs s1) →
  add_eavi clock (s1, t1) e = Done (s1', t1', Ok r1) →
  add_eavi clock (s2, t2) e = Done (s2', t2', Ok r2) →
  r1 = r2 ∧ eavs s1' = eavs s2' ∧ ∀ q, fetch_eavi s1' q = fetch_eavi s2' q.
Proof.
  intros W1 W2 He Heq Hf [_ H1]%add_eavi_spec [_ H2]%add_eavi_spec; [|done..].
  destruct r1 as [e1|]; [|done]. destruct r2 as [e2|]; [|done].
  destruct H1 as (_ & _ & E1 & H1). destruct H2 as (_ & _ & E2 & H2).
  rewrite Heq in *. rewrite (E1 Hf) in *. rewrite (E2 Hf) in *.
  split_and!; [done|congruence|]. intros q. rewrite !fetch_eavi_spec. congruence.
Qed.

Lemma storages_agree_witness :
  eavs (EavMemoryStorage.Mk [MkEavi "a" CrudLink "b" 7]) =
    eavs (S := gmap string Eavi) (<[pretty 7 := MkEavi "a" CrudLink "b" 7]> ∅) ∧
  ∀ q, fetch_eavi (EavMemoryStorage.Mk [MkEavi "a" CrudLink "b" 7]) q =
       fetch_eavi (S := gmap string Eavi)
         (<[pretty 7 := MkEavi "a" CrudLink "b" 7]> ∅) q.
Proof.
  refine (proj2 (storages_agree (S2 := gmap string Eavi) (λ _, 0) EavMemoryStorage.new
    (EavMemoryStorage.Mk [MkEavi "a" CrudLink "b" 7]) ∅
    (<[pretty 7 := MkEavi "a" CrudLink "b" 7]> ∅) 0 0 0 0
    (MkEavi "a" CrudLink "b" 7) (Some (MkEavi "a" CrudLink "b" 7))
    (Some (MkEavi "a" CrudLink "b" 7)) _ _ _ _ _ _ _)).
  - constructor.
  - intros k v H. discriminate H.
  - by_decide.
  - reflexivity.
  - intros x H. inversion H.
  - vm_compute. reflexivity.
  - vm_compute. reflexivity.
Defined.
