(* ===== verification/Entries.v ===== *)
(** * Entries, headers, links and the DNA

    [core_types/src/entry/], [chain_header.rs], [link/], [agent.rs],
    [signature.rs], [crud_status.rs] and [dna/]: the data the core stores and
    exchanges, with the operations on it.  How a value becomes [Content] (serde)
    and how content is hashed (multihash) is the interface [Wire]. *)
From S2P Require Import Prelude Errors Strings Eav.
Open Scope Z_scope.

(** ** Entry types *)
Module EntryType.
Inductive t :=
| App (app_entry_type : string)
| Dna
| AgentId
| Deletion
| LinkAdd
| LinkRemove
| LinkList
| ChainHeader
| ChainMigrate
| CapTokenGrant
| CapTokenClaim.

#[global] Instance t_eq_dec : EqDecision t.
Proof. solve_decision. Defined.

Definition is_app (e : t) : bool := match e with App _ => true | _ => false end.
Definition is_sys (e : t) : bool := negb (is_app e).

Definition to_string (e : t) : string :=
  match e with
  | App app_entry_type => app_entry_type
  | AgentId => "%agent_id"
  | Deletion => "%deletion"
  | Dna => "%dna"
  | ChainHeader => "%chain_header"
  | LinkAdd => "%link_add"
  | LinkRemove => "%link_remove"
  | LinkList => "%link_list"
  | ChainMigrate => "%chain_migrate"
  | CapTokenClaim => "%cap_token_claim"
  | CapTokenGrant => "%cap_token_grant"
  end.

Definition from_str (s : string) : t :=
  if decide (s = "%agent_id") then AgentId
  else if decide (s = "%deletion") then Deletion
  else if decide (s = "%dna") then Dna
  else if decide (s = "%chain_header") then ChainHeader
  else if decide (s = "%link_add") then LinkAdd
  else if decide (s = "%link_remove") then LinkRemove
  else if decide (s = "%link_list") then LinkList
  else if decide (s = "%chain_migrate") then ChainMigrate
  else if decide (s = "%cap_token_claim") then CapTokenClaim
  else if decide (s = "%cap_token_grant") then CapTokenGrant
  else App s.

(** [EntryType::has_valid_app_name]: slicing the first byte off panics when it
    is not a whole character, that is when a continuation byte follows it. *)
Definition has_valid_app_name (entry_type_name : string) : outcome bool :=
  match entry_type_name with
  | EmptyString => Done false
  | String c rest =>
      match rest with
      | String d _ =>
          if decide (128 ≤ Z.of_N (Ascii.N_of_ascii d) ≤ 191)
          then Panicked "byte index 1 is not a char boundary"
          else Done (negb (starts_with "%" entry_type_name))
      | EmptyString => Done (negb (starts_with "%" entry_type_name))
      end
  end.

(** [TryFrom<EntryType> for AppEntryType]; [dbg] is the derived [Debug] text. *)
Definition try_app (dbg : t → string) (e : t) : HcResult string :=
  match e with
  | App app_entry_type => Ok app_entry_type
  | _ => Err (ErrorGeneric ("Attempted to convert " +:+ dbg e +:+
                            " EntryType to an AppEntryType"))
  end.
End EntryType.

(** ** CRUD status *)
Module CrudStatus.
Inductive t := Live | Rejected | Deleted | Modified | Locked.

#[global] Instance t_eq_dec : EqDecision t.
Proof. solve_decision. Defined.

Definition default : t := Live.

(** [From<CrudStatus> for String]: the lowercase name serde gives it. *)
Definition to_string (s : t) : string :=
  match s with
  | Live => "live"
  | Rejected => "rejected"
  | Deleted => "deleted"
  | Modified => "modified"
  | Locked => "locked"
  end.

Definition from_str (s : string) : result string t :=
  if decide (s = "live") then Ok Live
  else if decide (s = "rejected") then Ok Rejected
  else if decide (s = "deleted") then Ok Deleted
  else if decide (s = "modified") then Ok Modified
  else if decide (s = "locked") then Ok Locked
  else Err "failed to deserialize CrudStatus enum".
End CrudStatus.

Definition create_crud_status_eav (now : Z) (addr : Address) (status : CrudStatus.t) :
    HcResult Eavi :=
  eavi_new now addr CrudStatusAttr (CrudStatus.to_string status).

Definition create_crud_link_eav (now : Z) (from to : Address) : HcResult Eavi :=
  eavi_new now from CrudLink to.

(** ** Signatures and agents *)
Record Provenance := MkProvenance { source : Address; signature : string }.

#[global] Instance Provenance_eq_dec : EqDecision Provenance.
Proof. solve_decision. Defined.

Record AgentId := MkAgentId { nick : string; pub_sign_key : string }.

#[global] Instance AgentId_eq_dec : EqDecision AgentId.
Proof. solve_decision. Defined.

(** [AddressableContent::address for AgentId]. *)
Definition agent_address (a : AgentId) : Address := pub_sign_key a.

(** ** Links *)
Record Link := MkLink {
  base : Address;
  target : Address;
  link_type : string;
  tag : string;
}.

Inductive LinkActionKind := ADD | REMOVE.

Record LinkData := MkLinkData { action_kind : LinkActionKind; link : Link }.

#[global] Instance Link_eq_dec : EqDecision Link.
Proof. solve_decision. Defined.
#[global] Instance LinkActionKind_eq_dec : EqDecision LinkActionKind.
Proof. solve_decision. Defined.
#[global] Instance LinkData_eq_dec : EqDecision LinkData.
Proof. solve_decision. Defined.

Definition new_add (b t : Address) (ty tg : string) : LinkData :=
  MkLinkData ADD (MkLink b t ty tg).
Definition new_delete (b t : Address) (ty tg : string) : LinkData :=
  MkLinkData REMOVE (MkLink b t ty tg).
Definition add_from_link (l : Link) : LinkData := MkLinkData ADD l.
Definition remove_from_link (l : Link) : LinkData := MkLinkData REMOVE l.

(** ** Capability tokens *)
Inductive CapabilityType := Public | Transferable | Assigned.

#[global] Instance CapabilityType_eq_dec : EqDecision CapabilityType.
Proof. solve_decision. Defined.

(** [CapFunctions]: function names by zome name, in key order. *)
Abbreviation CapFunctions := (list (string * list string)).

Record CapTokenClaim := MkClaim {
  claim_id : string;
  grantor : Address;
  claim_token : Address;
}.

Record CapTokenGrant := MkGrant {
  grant_id : string;
  assignees : option (list Address);
  functions : CapFunctions;
}.

#[global] Instance CapTokenClaim_eq_dec : EqDecision CapTokenClaim.
Proof. solve_decision. Defined.
#[global] Instance CapTokenGrant_eq_dec : EqDecision CapTokenGrant.
Proof. solve_decision. Defined.

(** [CapTokenGrant::valid]. *)
Definition valid (cap_type : CapabilityType) (assignees : option (list Address)) :
    HcResult (option (list Address)) :=
  if bool_decide (cap_type = Public ∨ cap_type = Transferable) &&
     match assignees with Some (_ :: _) => true | _ => false end
  then Err (ErrorGeneric "there must be no assignees for public or transferable grants")
  else
    match cap_type with
    | Assigned =>
        match assignees with
        | None | Some [] => Err (ErrorGeneric "Assigned grant must have 1 or more assignees")
        | Some _ => Ok assignees
        end
    | Public => Ok None
    | Transferable => Ok (Some [])
    end.

(** [CapTokenGrant::create]. *)
Definition create (id : string) (cap_type : CapabilityType)
    (a : option (list Address)) (fns : CapFunctions) : HcResult CapTokenGrant :=
  a' ← valid cap_type a; Ok (MkGrant id a' fns).

(** [CapTokenGrant::cap_type]. *)
Definition cap_type (g : CapTokenGrant) : CapabilityType :=
  match assignees g with
  | None => Public
  | Some [] => Transferable
  | Some (_ :: _) => Assigned
  end.

(** ** Headers *)
Record ChainHeader := MkHeader {
  h_entry_type : EntryType.t;
  h_entry_address : Address;
  h_provenances : list Provenance;
  h_link : option Address;
  h_link_same_type : option Address;
  h_link_update_delete : option Address;
  h_timestamp : string;
}.

#[global] Instance ChainHeader_eq_dec : EqDecision ChainHeader.
Proof. solve_decision. Defined.

(** ** The DNA

    A [BTreeMap] is the list of its pairs in key order, which is the order in
    which the code walks it. *)
Inductive Sharing := SharingPublic | SharingPrivate | SharingEncrypted.

(** [Sharing::can_publish]. *)
Definition sharing_can_publish (s : Sharing) : bool :=
  match s with
  | SharingPublic => true
  | SharingPrivate => false
  | SharingEncrypted => true
  end.

Record LinksTo := MkLinksTo { lt_target_type : string; lt_link_type : string }.
Record LinkedFrom := MkLinkedFrom { lf_base_type : string; lf_link_type : string }.

Record EntryTypeDef := MkEntryTypeDef {
  etd_description : string;
  etd_sharing : Sharing;
  etd_links_to : list LinksTo;
  etd_linked_from : list LinkedFrom;
}.

Record FnParameter := MkFnParameter { parameter_type : string; parameter_name : string }.
Record FnDeclaration := MkFnDeclaration {
  fn_decl_name : string;
  inputs : list FnParameter;
  outputs : list FnParameter;
}.

(** [TraitFns] (function names) and [Trait] (function declarations). *)
Abbreviation TraitFns := (list string).
Abbreviation Trait := (list FnDeclaration).

Inductive BridgePresence := BridgeRequired | BridgeOptional.
Inductive BridgeReference :=
| BridgeAddress (dna_address : Address)
| BridgeTrait (traits : list (string * Trait)).
Record Bridge := MkBridge {
  presence : BridgePresence;
  handle : string;
  reference : BridgeReference;
}.

#[global] Instance Sharing_eq_dec : EqDecision Sharing.
Proof. solve_decision. Defined.
#[global] Instance LinksTo_eq_dec : EqDecision LinksTo.
Proof. solve_decision. Defined.
#[global] Instance LinkedFrom_eq_dec : EqDecision LinkedFrom.
Proof. solve_decision. Defined.
#[global] Instance EntryTypeDef_eq_dec : EqDecision EntryTypeDef.
Proof. solve_decision. Defined.
#[global] Instance FnParameter_eq_dec : EqDecision FnParameter.
Proof. solve_decision. Defined.
#[global] Instance FnDeclaration_eq_dec : EqDecision FnDeclaration.
Proof. solve_decision. Defined.
#[global] Instance BridgePresence_eq_dec : EqDecision BridgePresence.
Proof. solve_decision. Defined.
#[global] Instance BridgeReference_eq_dec : EqDecision BridgeReference.
Proof. solve_decision. Defined.
#[global] Instance Bridge_eq_dec : EqDecision Bridge.
Proof. solve_decision. Defined.

(** [code] is the wasm bytecode; the cached parsed module is not part of the
    value. *)
Record Zome := MkZome {
  z_description : string;
  z_entry_types : list (EntryType.t * EntryTypeDef);
  z_traits : list (string * TraitFns);
  z_fn_declarations : list FnDeclaration;
  z_code : list Ascii.ascii;
  z_bridges : list Bridge;
}.

#[global] Instance Zome_eq_dec : EqDecision Zome.
Proof. solve_decision. Defined.

(** [properties] is the text of the JSON value. *)
Record Dna := MkDna {
  dna_name : string;
  dna_description : string;
  dna_version : string;
  dna_uuid : string;
  dna_spec_version : string;
  dna_properties : string;
  dna_zomes : list (string * Zome);
}.

#[global] Instance Dna_eq_dec : EqDecision Dna.
Proof. solve_decision. Defined.

(** [Dna::new]. *)
Definition dna_new : Dna :=
  MkDna "" "" "" "00000000-0000-0000-0000-000000000000" "2.0" "{}" [].

(** [BTreeMap::get]. *)
Fixpoint map_get {A} (k : string) (m : list (string * A)) : option A :=
  match m with
  | [] => None
  | (k', v) :: m => if decide (k' = k) then Some v else map_get k m
  end.

(** [Dna::get_zome]. *)
Definition get_zome (d : Dna) (zome_name : string) : result DnaError Zome :=
  ok_or (map_get zome_name (dna_zomes d))
        (ZomeNotFound ("Zome '" +:+ zome_name +:+ "' not found")).

(** [Dna::get_trait]. *)
Definition get_trait (z : Zome) (trait_name : string) : option TraitFns :=
  map_get trait_name (z_traits z).

(** [Zome::get_function]. *)
Definition get_function (z : Zome) (fn_name : string) : option FnDeclaration :=
  List.find (λ f, bool_decide (fn_decl_name f = fn_name)) (z_fn_declarations z).

(** [Dna::get_function_with_zome_name]. *)
Definition get_function_with_zome_name (d : Dna) (zome_name fn_name : string) :
    result DnaError FnDeclaration :=
  z ← get_zome d zome_name;
  ok_or (get_function z fn_name)
        (ZomeFunctionNotFound ("Zome function '" +:+ fn_name +:+
           "' not found in Zome '" +:+ zome_name +:+ "'")).

(** [Dna::get_wasm_from_zome_name]. *)
Definition get_wasm_from_zome_name (d : Dna) (zome_name : string) :
    option (list Ascii.ascii) :=
  z_code <$> ok (get_zome d zome_name).

(** [Dna::get_trait_fns_with_zome_name]. *)
Definition get_trait_fns_with_zome_name (d : Dna) (zome_name trait_name : string) :
    result DnaError TraitFns :=
  z ← get_zome d zome_name;
  ok_or (get_trait z trait_name)
        (TraitNotFound ("Trait '" +:+ trait_name +:+
           "' not found in Zome '" +:+ zome_name +:+ "'")).

(** The first definition of an entry type in a zome. *)
Fixpoint find_def (name : string) (l : list (EntryType.t * EntryTypeDef)) :
    option EntryTypeDef :=
  match l with
  | [] => None
  | (t, d) :: l => if decide (t = EntryType.App name) then Some d else find_def name l
  end.

(** [Dna::get_zome_name_for_app_entry_type]: the assertion on the name comes
    first. *)
Definition get_zome_name_for_app_entry_type (d : Dna) (entry_type_name : string) :
    outcome (option string) :=
  b ← EntryType.has_valid_app_name entry_type_name;
  if (b : bool) then
    Done ((λ nz, nz.1) <$> List.find
            (λ nz, bool_decide (is_Some (find_def entry_type_name (z_entry_types nz.2))))
            (dna_zomes d))
  else Panicked "assertion failed: EntryType::has_valid_app_name(&entry_type_name)".

(** [Dna::get_entry_type_def]. *)
Definition get_entry_type_def (d : Dna) (entry_type_name : string) :
    outcome (option EntryTypeDef) :=
  b ← EntryType.has_valid_app_name entry_type_name;
  if (b : bool) then
    Done (head (omap (λ nz, find_def entry_type_name (z_entry_types nz.2)) (dna_zomes d)))
  else Panicked "assertion failed: EntryType::has_valid_app_name(entry_type_name)".

(** [Zome::get_required_bridges] and [Dna::get_required_bridges]. *)
Definition zome_required_bridges (z : Zome) : list Bridge :=
  List.filter (λ b, bool_decide (presence b = BridgeRequired)) (z_bridges z).
Definition get_required_bridges (d : Dna) : list Bridge :=
  concat ((λ nz, zome_required_bridges nz.2) <$> dna_zomes d).

(** [Zome::is_fn_public]; "hc_public" is [ReservedTraitNames::Public]. *)
Definition is_fn_public (z : Zome) (fn_name : string) : bool :=
  existsb (λ nt, bool_decide (nt.1 = "hc_public") &&
                 existsb (λ f, bool_decide (f = fn_name)) nt.2)
          (z_traits z).

(** [Zome::add_fn_declaration]. *)
Definition add_fn_declaration (z : Zome) (name : string) (i o : list FnParameter) : Zome :=
  MkZome (z_description z) (z_entry_types z) (z_traits z)
         (z_fn_declarations z ++ [MkFnDeclaration name i o]) (z_code z) (z_bridges z).

(** ** Entries *)
Module Entry.
Inductive t :=
| App (app_entry_type : string) (value : string)
| Dna (dna : Dna)
| AgentId (agent_id : AgentId)
| Deletion (deleted_entry_address : Address)
| LinkAdd (data : LinkData)
| LinkRemove (data : LinkData)
| LinkList (links : list Link)
| ChainHeader (header : ChainHeader)
| ChainMigrate
| CapTokenClaim (claim : CapTokenClaim)
| CapTokenGrant (grant : CapTokenGrant).

#[global] Instance t_eq_dec : EqDecision t.
Proof. solve_decision. Defined.

Definition entry_type (e : t) : EntryType.t :=
  match e with
  | App app_entry_type _ => EntryType.App app_entry_type
  | Dna _ => EntryType.Dna
  | AgentId _ => EntryType.AgentId
  | Deletion _ => EntryType.Deletion
  | LinkAdd _ => EntryType.LinkAdd
  | LinkRemove _ => EntryType.LinkRemove
  | LinkList _ => EntryType.LinkList
  | ChainHeader _ => EntryType.ChainHeader
  | ChainMigrate => EntryType.ChainMigrate
  | CapTokenClaim _ => EntryType.CapTokenClaim
  | CapTokenGrant _ => EntryType.CapTokenGrant
  end.
End Entry.

(** [Link::add_entry] and [Link::remove_entry]; the latter wraps the removal in
    a [LinkAdd] entry. *)
Definition add_entry (l : Link) : Entry.t := Entry.LinkAdd (add_from_link l).
Definition remove_entry (l : Link) : Entry.t := Entry.LinkAdd (remove_from_link l).

Record EntryWithMeta := MkEntryWithMeta {
  ewm_entry : Entry.t;
  ewm_crud_status : CrudStatus.t;
  ewm_maybe_link_update_delete : option Address;
}.

Record EntryWithMetaAndHeader := MkEntryWithMetaAndHeader {
  ewmh_entry_with_meta : EntryWithMeta;
  ewmh_headers : list ChainHeader;
}.

Record ValidationPackage := MkValidationPackage {
  vp_chain_header : ChainHeader;
  vp_source_chain_entries : option (list Entry.t);
  vp_source_chain_headers : option (list ChainHeader);
  vp_custom : option string;
}.

Definition only_header (h : ChainHeader) : ValidationPackage :=
  MkValidationPackage h None None None.

Inductive ValidationPackageDefinition :=
| VpdEntry
| VpdChainEntries
| VpdChainHeaders
| VpdChainFull
| VpdCustom (custom : string).

Record EntryWithHeader := MkEntryWithHeader {
  ewh_entry : Entry.t;
  ewh_header : ChainHeader;
}.

#[global] Instance EntryWithMeta_eq_dec : EqDecision EntryWithMeta.
Proof. solve_decision. Defined.
#[global] Instance EntryWithMetaAndHeader_eq_dec : EqDecision EntryWithMetaAndHeader.
Proof. solve_decision. Defined.
#[global] Instance ValidationPackage_eq_dec : EqDecision ValidationPackage.
Proof. solve_decision. Defined.
#[global] Instance EntryWithHeader_eq_dec : EqDecision EntryWithHeader.
Proof. solve_decision. Defined.

(** ** Serialisation and hashing

    [Content] is the JSON text of a value.  serde's derived conversions are only
    known by their documented behaviour: what is serialised is restored. *)
Class Wire := {
  Content : Type;
  (** multihash SHA2-256 in base58 *)
  hash_content : Content → Address;
  entry_to_json : Entry.t → Content;
  entry_from_json : Content → HcResult Entry.t;
  header_to_json : ChainHeader → Content;
  header_from_json : Content → HcResult ChainHeader;
  (** derived [Debug] text of an error *)
  debug_error : HolochainError → string;
  entry_json_roundtrip e : entry_from_json (entry_to_json e) = Ok e;
  header_json_roundtrip h : header_from_json (header_to_json h) = Ok h;
}.

(** The trait [AddressableContent]: by default the address is the hash of the
    content. *)
Class AddressableContent `{Wire} (A : Type) := {
  content : A → Content;
  address : A → Address;
  try_from_content : Content → HcResult A;
}.

#[global] Instance content_addressable `{Wire} : AddressableContent Content := {|
  content c := c;
  address c := hash_content c;
  try_from_content c := Ok c;
|}.

(** An agent's entry is addressed by its public key. *)
Definition entry_address `{Wire} (e : Entry.t) : Address :=
  match e with
  | Entry.AgentId agent_id => agent_address agent_id
  | _ => hash_content (entry_to_json e)
  end.

#[global] Instance entry_addressable `{Wire} : AddressableContent Entry.t := {|
  content := entry_to_json;
  address := entry_address;
  try_from_content := entry_from_json;
|}.

#[global] Instance header_addressable `{Wire} : AddressableContent ChainHeader := {|
  content := header_to_json;
  address h := hash_content (header_to_json h);
  try_from_content := header_from_json;
|}.

(** [AgentId::try_from_content]. *)
Definition agent_try_from_content `{Wire} (c : Content) : HcResult AgentId :=
  e ← entry_from_json c;
  match e with
  | Entry.AgentId agent_id => Ok agent_id
  | _ => Err (SerializationError "Attempted to load AgentId from non AgentID entry")
  end.

(** [CapTokenGrant::token]: the address of the grant's entry. *)
Definition grant_token `{Wire} (g : CapTokenGrant) : Address :=
  address (Entry.CapTokenGrant g).

(** Values keep their type through the wire: a model of [Wire] in which the
    content is the value itself, and the hash a structural text. *)
Inductive PlainContent :=
| PlainEntry (e : Entry.t)
| PlainHeader (h : ChainHeader)
| PlainText (s : string).

#[global] Instance PlainContent_eq_dec : EqDecision PlainContent.
Proof. solve_decision. Defined.

Fixpoint join (sep : string) (l : list string) : string :=
  match l with
  | [] => ""
  | [x] => x
  | x :: l => x +:+ sep +:+ join sep l
  end.

Definition plain_link (l : Link) : string :=
  join "," [base l; target l; link_type l; tag l].

Definition plain_hash (c : PlainContent) : Address :=
  match c with
  | PlainText s => "text:" +:+ s
  | PlainHeader h =>
      "header:" +:+ join "," [EntryType.to_string (h_entry_type h); h_entry_address h;
        default "-" (h_link h); default "-" (h_link_same_type h);
        default "-" (h_link_update_delete h); h_timestamp h]
  | PlainEntry e =>
      "entry:" +:+ EntryType.to_string (Entry.entry_type e) +:+ ":" +:+
      match e with
      | Entry.App _ v => v
      | Entry.Deletion a => a
      | Entry.LinkAdd (MkLinkData ADD l) => "add," +:+ plain_link l
      | Entry.LinkAdd (MkLinkData REMOVE l) => "remove," +:+ plain_link l
      | Entry.LinkRemove d => plain_link (link d)
      | Entry.Dna d => dna_name d
      | Entry.CapTokenGrant g => grant_id g
      | Entry.CapTokenClaim c => claim_id c
      | _ => ""
      end
  end.

#[refine] Instance plain_wire : Wire := {|
  Content := PlainContent;
  hash_content := plain_hash;
  entry_to_json := PlainEntry;
  entry_from_json c :=
    match c with PlainEntry e => Ok e | _ => Err (SerializationError "not an entry") end;
  header_to_json := PlainHeader;
  header_from_json c :=
    match c with PlainHeader h => Ok h | _ => Err (SerializationError "not a header") end;
  debug_error := HolochainError_fmt;
|}.
Proof.
  - done.
  - done.
Defined.
#[export] Remove Hints plain_wire : typeclass_instances.

(** ** Lemmas *)
Lemma crud_status_inj s1 s2 :
  CrudStatus.to_string s1 = CrudStatus.to_string s2 → s1 = s2.
Proof. by destruct s1, s2. Qed.

Lemma crud_status_roundtrip s : CrudStatus.from_str (CrudStatus.to_string s) = Ok s.
Proof. by destruct s. Qed.

Lemma crud_status_from_str s st :
  CrudStatus.from_str s = Ok st ↔ s = CrudStatus.to_string st.
Proof.
  split; [|intros ->; apply crud_status_roundtrip].
  unfold CrudStatus.from_str. repeat case_decide; by intros [= <-].
Qed.

Lemma from_str_to_string s : EntryType.to_string (EntryType.from_str s) = s.
Proof. unfold EntryType.from_str. by repeat case_decide. Qed.

Lemma from_str_no_prefix s :
  starts_with "%" s = false → EntryType.from_str s = EntryType.App s.
Proof.
  intros H. unfold EntryType.from_str. repeat case_decide; subst; done.
Qed.

Lemma valid_app_name_prefix s :
  EntryType.has_valid_app_name s = Done true → starts_with "%" s = false.
Proof.
  unfold EntryType.has_valid_app_name. intros H. repeat case_match; simplify_eq.
  - by apply negb_true_iff.
  - by apply negb_true_iff.
Qed.

Lemma map_get_In {A} k (m : list (string * A)) v : map_get k m = Some v → (k, v) ∈ m.
Proof.
  induction m as [|[k' v'] m IH]; simpl; [done|]. case_decide; intros; simplify_eq.
  - by left.
  - right. by apply IH.
Qed.

(** ** Properties *)

(** The text of an entry type identifies it: parsing is total and
    printing is its left inverse, and an entry type is restored exactly from its
    text unless it is an app type that carries the name of a system type; an app
    type with a valid name is always restored. *)
Theorem entry_type_roundtrip (s : string) (t : EntryType.t) :
  EntryType.to_string (EntryType.from_str s) = s ∧
  (EntryType.from_str (EntryType.to_string t) = t ↔
   ∀ name, t = EntryType.App name → EntryType.is_app (EntryType.from_str name) = true) ∧
  (∀ name, EntryType.has_valid_app_name name = Done true →
     EntryType.from_str (EntryType.to_string (EntryType.App name)) = EntryType.App name).
Proof.
  split_and!.
  - apply from_str_to_string.
  - destruct t as [name| | | | | | | | | |]; try (by split; [|done]); simpl.
    split; [by intros H ? [= ->]; rewrite H|]. intros H. specialize (H name eq_refl).
    pose proof (from_str_to_string name) as Hs.
    destruct (EntryType.from_str name) as [n| | | | | | | | | |]; simplify_eq/=; done.
  - intros name H. by apply from_str_no_prefix, valid_app_name_prefix.
Qed.

(** Creating a capability grant succeeds exactly when the assignees fit
    the requested kind, and the kind read back from the grant is then the kind
    requested. *)
Theorem grant_create_spec (id : string) (t : CapabilityType)
    (a : option (list Address)) (fns : CapFunctions) :
  match create id t a fns with
  | Ok g => cap_type g = t ∧ grant_id g = id ∧ functions g = fns ∧
            (t = Assigned ↔ default [] a ≠ [])
  | Err _ => (t = Assigned ↔ default [] a = [])
  end.
Proof. by destruct t, a as [[|x l]|]. Qed.
