(* ===== verification/Cas.v ===== *)
(** * Content addressable storage

    [core_types/src/cas/storage.rs]: the trait, as the class
    [ContentAddressableStorage] with what it promises;
    [cas_implementations/src/cas/]: the memory and the pickle storage as its
    instances. *)
From S2P Require Import Prelude Errors Strings Eav Entries.
Open Scope Z_scope.

Section trait.
Context `{Wire}.

(** [cas_map] is the content a storage holds by address.  On an error the
    storage is unchanged. *)
Class ContentAddressableStorage (C : Type) := {
  cas_map : C → gmap Address Content;
  cas_add : C → Address → Content → result HolochainError C;
  cas_contains : C → Address → HcResult bool;
  cas_fetch : C → Address → HcResult (option Content);
  cas_add_spec c a x c' :
    cas_add c a x = Ok c' → cas_map c' = <[a := x]> (cas_map c);
  cas_contains_spec c a : cas_contains c a = Ok (bool_decide (is_Some (cas_map c !! a)));
  cas_fetch_spec c a : cas_fetch c a = Ok (cas_map c !! a);
}.

(** [ContentAddressableStorage::add(&mut self, content: &AddressableContent)]. *)
Definition add_content {C} `{!ContentAddressableStorage C} {A} `{!AddressableContent A}
    (c : C) (x : A) : result HolochainError C :=
  cas_add c (address x) (content x).
End trait.

(** ** The memory storage *)
Module MemoryStorage.
Section memory.
Context `{Wire}.
Record t := Mk { storage : gmap Address Content }.
Definition new : t := Mk ∅.
Definition add (s : t) (a : Address) (c : Content) : result HolochainError t :=
  Ok (Mk (<[a := c]> (storage s))).
Definition contains (s : t) (a : Address) : HcResult bool :=
  Ok (bool_decide (is_Some (storage s !! a))).
Definition fetch (s : t) (a : Address) : HcResult (option Content) :=
  Ok (storage s !! a).
End memory.
End MemoryStorage.

#[global, refine] Instance memory_cas `{Wire} :
    ContentAddressableStorage MemoryStorage.t := {|
  cas_map := MemoryStorage.storage;
  cas_add := MemoryStorage.add;
  cas_contains := MemoryStorage.contains;
  cas_fetch := MemoryStorage.fetch;
|}.
Proof.
  - by intros [m] a x c' [= <-].
  - done.
  - done.
Defined.

(** ** The pickle storage

    Over a [pickledb] key-value store, as in [Eav]. *)
Class ContentDb `{Wire} (DB : Type) := {
  db_map : DB → gmap string Content;
  db_set : DB → string → Content → result string DB;
  db_get : DB → string → option Content;
  db_exists : DB → string → bool;
  db_set_spec db k v db' : db_set db k v = Ok db' → db_map db' = <[k := v]> (db_map db);
  db_get_spec db k : db_get db k = db_map db !! k;
  db_exists_spec db k : db_exists db k = bool_decide (is_Some (db_map db !! k));
}.

Module PickleStorage.
Section pickle.
Context `{Wire} {DB : Type} `{!ContentDb DB}.
Definition add (db : DB) (a : Address) (c : Content) : result HolochainError DB :=
  map_err ErrorGeneric (db_set db a c).
Definition contains (db : DB) (a : Address) : HcResult bool := Ok (db_exists db a).
Definition fetch (db : DB) (a : Address) : HcResult (option Content) := Ok (db_get db a).
End pickle.
End PickleStorage.

#[global, refine] Instance pickle_cas `{Wire} {DB} `{!ContentDb DB} :
    ContentAddressableStorage DB := {|
  cas_map := db_map;
  cas_add := PickleStorage.add;
  cas_contains := PickleStorage.contains;
  cas_fetch := PickleStorage.fetch;
|}.
Proof.
  - intros db a x db' Hadd. unfold PickleStorage.add in Hadd.
    destruct (db_set db a x) eqn:E; simplify_eq/=. by apply db_set_spec.
  - intros db a. unfold PickleStorage.contains. by rewrite db_exists_spec.
  - intros db a. unfold PickleStorage.fetch. by rewrite db_get_spec.
Defined.
