(* ===== verification/Files.v ===== *)
(** * Storages on files

    [cas_implementations/src/cas/file.rs] and [cas_implementations/src/eav/file.rs]: content
    and triples in the directories of a file system.

    A path is the list of its components; a file system maps the paths of files, with [..]
    resolved, to their texts, and directories are the prefixes of these paths.  What the
    disk refuses, and the patterns of the [glob] crate, are parameters. *)
From S2P Require Import Prelude Errors Strings Eav.

(** ** Paths *)
Definition slash : Ascii.ascii := Ascii.ascii_of_nat 47.
Definition dot : Ascii.ascii := Ascii.ascii_of_nat 46.

Fixpoint split_on (sep : Ascii.ascii) (s : string) : list string :=
  match s with
  | EmptyString => [EmptyString]
  | String c s =>
      if decide (c = sep) then EmptyString :: split_on sep s
      else match split_on sep s with
           | x :: l => String c x :: l
           | [] => [String c EmptyString]
           end
  end.

(** [Path::components], without the root. *)
Definition components (path : string) : list string :=
  filter (λ c, c ≠ "" ∧ c ≠ ".") (split_on slash path).

(** [Path::join]: an absolute path replaces the base. *)
Definition path_join (base : list string) (path : string) : list string :=
  match path with
  | String c _ => if decide (c = slash) then components path else base ++ components path
  | EmptyString => base
  end.

(** Where a path leads. *)
Definition resolve (path : list string) : list string :=
  foldl (λ p c, if decide (c = "..") then take (length p - 1) p else p ++ [c]) [] path.

(** [Path::with_extension]. *)
Fixpoint before_last_dot (s : string) : option string :=
  match s with
  | EmptyString => None
  | String c s =>
      match before_last_dot s with
      | Some b => Some (String c b)
      | None => if decide (c = dot) then Some EmptyString else None
      end
  end.
Definition file_stem (name : string) : string :=
  match before_last_dot name with
  | Some (String c b) => String c b
  | _ => name
  end.
Definition with_extension (path : list string) (ext : string) : list string :=
  match last path with
  | Some name =>
      if decide (name = "..") then path else take (length path - 1) path ++ [file_stem name +:+ "." +:+ ext]
  | None => path
  end.

(** ** Files *)
Abbreviation FileSystem := (gmap (list string) string).

(** The disk may refuse to write a file, and then leave no file or a part of the text. *)
Class Disk := {
  refuses : list string → string → option (HolochainError * option string);
}.

Definition write_file `{Disk} (path : list string) (text : string) (fs : FileSystem) : FileSystem * HcResult unit :=
  match refuses path text with
  | None => (<[resolve path := text]> fs, Ok tt)
  | Some (e, Some part) => (<[resolve path := part]> fs, Err e)
  | Some (e, None) => (fs, Err e)
  end.

(** ** Content *)
Section content.
Context `{Disk} (dir_path : list string).

Definition address_to_path (address : Address) : list string := with_extension (path_join dir_path address) "txt".

Definition cas_file_add (address : Address) (content : string) (fs : FileSystem) : FileSystem * HcResult unit :=
  write_file (address_to_path address) content fs.

Definition cas_file_contains (address : Address) (fs : FileSystem) : HcResult bool :=
  Ok (bool_decide (is_Some (fs !! resolve (address_to_path address)))).

Definition cas_file_fetch (address : Address) (fs : FileSystem) : HcResult (option string) :=
  present ← cas_file_contains address fs;
  if (present : bool) then Ok (fs !! resolve (address_to_path address)) else Ok None.
End content.

(** ** Triples *)

(** A component of a pattern of the [glob] crate; [None] where it is malformed.  The two
    patterns in use, and names without wildcards, mean what the crate documents. *)
Definition wildcard (c : Ascii.ascii) : bool :=
  bool_decide (c = Ascii.ascii_of_nat 42 ∨ c = Ascii.ascii_of_nat 63 ∨ c = Ascii.ascii_of_nat 91).
Definition has_char (f : Ascii.ascii → bool) (s : string) : bool := existsb f (String.list_ascii_of_string s).

Class Glob := {
  glob_component : string → option (string → bool);
  glob_star : ∃ f, glob_component "*" = Some f ∧ ∀ s, f s = true;
  glob_txt : ∃ f, glob_component "*.txt" = Some f ∧ ∀ s, f s = true ↔ ∃ b, s = b +:+ ".txt";
  glob_plain name : has_char wildcard name = false →
    ∃ f, glob_component name = Some f ∧ ∀ s, f s = true ↔ s = name;
}.

(** The address and the text of a triple, from its JSON; the sets of texts are ordered. *)
Class EaviText := {
  eavi_address : Eavi → string;
  eavi_content : Eavi → string;
  eavi_of_content : string → HcResult Eavi;
  text_order : gset string → list string;
  eavi_content_roundtrip e : eavi_of_content (eavi_content e +:+ String (Ascii.ascii_of_nat 10) EmptyString) = Ok e;
  text_order_elem x s : x ∈ text_order s ↔ x ∈ s;
}.

Definition ENTITY_DIR : string := "e".
Definition ATTRIBUTE_DIR : string := "a".
Definition VALUE_DIR : string := "v".

Section triples.
Context `{Disk, Glob, EaviText} (dir_path : list string).

(** *** Adding *)
Definition directory_of (subscript : string) (e : Eavi) : string :=
  if decide (subscript = ENTITY_DIR) then entity e
  else if decide (subscript = ATTRIBUTE_DIR) then Attribute_fmt (attribute e)
  else if decide (subscript = VALUE_DIR) then value e
  else "".

Definition file_of (subscript : string) (e : Eavi) : list string :=
  let path := path_join (path_join (path_join dir_path subscript) (directory_of subscript e)) (pretty (index e)) in
  with_extension (path_join path (eavi_address e)) "txt".

(** [writeln!] ends the text with a newline. *)
Definition file_text (e : Eavi) : string := eavi_content e +:+ String (Ascii.ascii_of_nat 10) EmptyString.

Definition write_to_file (subscript : string) (e : Eavi) (fs : FileSystem) : FileSystem * HcResult unit :=
  write_file (file_of subscript e) (file_text e) fs.

(** The path that is looked up for a collision has a [*] in it, and nothing expands it. *)
Definition collision_path (e : Eavi) : list string :=
  path_join (path_join (path_join dir_path "*") ENTITY_DIR) (pretty (index e)) ++
  with_extension (components (eavi_address e)) "txt".

(** [Path::exists]. *)
Definition path_exists (path : list string) (fs : FileSystem) : bool :=
  existsb (λ p, bool_decide (take (length (resolve path)) p = resolve path)) ((map_to_list fs).*1).

Definition file_add_eavi (now : Z) (e : Eavi) (fs : FileSystem) : FileSystem * HcResult (option Eavi) :=
  match (if path_exists (collision_path e) fs then eavi_new now (entity e) (attribute e) (value e) else Ok e) with
  | Err err => (fs, Err err)
  | Ok e =>
      match write_to_file ENTITY_DIR e fs with
      | (fs, Err err) => (fs, Err err)
      | (fs, Ok _) =>
          match write_to_file ATTRIBUTE_DIR e fs with
          | (fs, Err err) => (fs, Err err)
          | (fs, Ok _) =>
              let '(fs, r) := write_to_file VALUE_DIR e fs in (fs, _ ← r; Ok (Some e))
          end
      end
  end.

(** *** Querying *)

(** Everything there is: files and directories. *)
Definition everything (fs : FileSystem) : gset (list string) :=
  list_to_set ((map_to_list fs).*1 ≫= λ p, (λ n, take n p) <$> seq 0 (S (length p))).

Fixpoint path_matches (fs : list (string → bool)) (path : list string) : bool :=
  match fs, path with
  | [], [] => true
  | f :: fs, c :: path => f c && path_matches fs path
  | _, _ => false
  end.

Definition glob (pattern : list string) (fs : FileSystem) : HcResult (gset (list string)) :=
  compiled ← ok_or (mapM glob_component pattern) (ErrorGeneric "Could not get form path");
  Ok (filter (λ p, path_matches compiled p = true) (everything fs)).

(** A path of a directory that is matched as a file cannot be read. *)
Definition read_eav (parent_path : list string) (fs : FileSystem) : HcResult (gset string) :=
  paths ← glob (parent_path ++ ["*"; "*.txt"]) fs;
  if decide (set_Forall (λ p, is_Some (fs !! p)) paths) then
    Ok (list_to_set (omap (λ p, fs !! p) (elements paths)))
  else Err (ErrorGeneric "Could not read from string").

Definition good_directory {T : Type} (read : string → option T) (check : EavFilter T) (p : list string) : bool :=
  match last p ≫= read with Some t => check t | None => false end.

(** [read_from_dir]: directories that cannot be read are left out. *)
Definition read_from_dir {T : Type} (read : string → option T) (subscript : string) (check : EavFilter T)
    (fs : FileSystem) : HcResult (gset string) :=
  if negb (path_exists (path_join dir_path subscript) fs) then Ok ∅ else
  paths ← glob (resolve (path_join dir_path subscript) ++ ["*"]) fs;
  let good : gset (list string) := filter (λ p, good_directory read check p = true) paths in
  Ok (⋃ ((λ p, match read_eav p fs with Ok texts => texts | Err _ => ∅ end) <$> elements good)).

Definition read_attribute (name : string) : option Attribute := ok (Attribute_try_from name).

(** [fetch_eavi]: the triples that are in all three sets of texts; those that have the same
    index are one element of the set they are collected into. *)
Definition file_fetch_eavi (q : EaviQuery) (fs : FileSystem) : HcResult (list Eavi) :=
  entity_set ← read_from_dir Some ENTITY_DIR (q_entity q) fs;
  attribute_set ← read_from_dir read_attribute ATTRIBUTE_DIR (q_attribute q) fs;
  value_set ← read_from_dir Some VALUE_DIR (q_value q) fs;
  let texts := text_order (value_set ∩ attribute_set ∩ entity_set) in
  match mapM (λ text, ok (eavi_of_content text)) texts with
  | None => Err (ErrorGeneric "Error Converting EAVs")
  | Some eavis =>
      Ok (run (MkQuery filter_default filter_default filter_default (q_index q)) (btree_collect eavis))
  end.
End triples.
