(* ===== verification/FilesFacts.v ===== *)
(** * Facts about the storages on files

    Content is found under its address; triples with names that are plain and with indexes
    of their own are found as in any other storage.  Where this fails: triples that share
    an index, link tags with a slash, and addresses with a dot. *)
From S2P Require Import Prelude Errors Strings Eav Files.

(** ** Paths *)

(** A name that is one component of a path. *)
Definition one_component (n : string) : Prop :=
  has_char (λ c, bool_decide (c = slash)) n = false ∧ n ≠ "" ∧ n ≠ "." ∧ n ≠ "..".

Definition no_wildcard (n : string) : Prop := has_char wildcard n = false.
Definition no_dot (n : string) : Prop := has_char (λ c, bool_decide (c = dot)) n = false.

Lemma split_single n : has_char (λ c, bool_decide (c = slash)) n = false → split_on slash n = [n].
Proof.
  unfold has_char. induction n as [|c n IH]; [done|]. simpl. intros [Hc Hn]%orb_false_iff.
  apply bool_decide_eq_false in Hc. rewrite decide_False by done. by rewrite IH.
Qed.

Lemma components_single n : one_component n → components n = [n].
Proof.
  intros (Hs & He & Hd & _). unfold components. rewrite split_single by done. by rewrite filter_cons_True by done.
Qed.

Lemma join_single b n : one_component n → path_join b n = b ++ [n].
Proof.
  intros Hn. pose proof (components_single n Hn) as Hc. unfold path_join. destruct n as [|c n]; [by destruct Hn as (_ & ? & _)|].
  rewrite decide_False; [by rewrite Hc|]. destruct Hn as (Hs & _). unfold has_char in Hs. simpl in Hs.
  apply orb_false_iff in Hs as [Hs _]. by apply bool_decide_eq_false in Hs.
Qed.

Lemma stem_single n : no_dot n → file_stem n = n.
Proof.
  intros Hd. unfold file_stem. assert (before_last_dot n = None) as ->; [|done].
  revert Hd. unfold no_dot, has_char. induction n as [|c n IH]; [done|]. simpl. intros [Hc Hn]%orb_false_iff.
  rewrite IH by done. apply bool_decide_eq_false in Hc. by rewrite decide_False.
Qed.

Lemma extension_snoc b n ext : n ≠ ".." → with_extension (b ++ [n]) ext = b ++ [file_stem n +:+ "." +:+ ext].
Proof.
  intros Hn. unfold with_extension. rewrite last_snoc, decide_False by done. rewrite length_app. simpl.
  replace (length b + 1 - 1)%nat with (length b) by lia. by rewrite take_app_length.
Qed.

Lemma resolve_plain p : Forall (λ c, c ≠ "..") p → resolve p = p.
Proof.
  unfold resolve. induction p as [|c p IH] using rev_ind; [done|]. intros [Hp Hc]%Forall_app.
  apply Forall_cons_1 in Hc as [Hc _]. rewrite foldl_app, IH by done. simpl. case_decide; done.
Qed.

Lemma append_length (a b : string) : String.length (a +:+ b) = (String.length a + String.length b)%nat.
Proof. induction a; simpl; congruence. Qed.

Lemma append_cancel (a b s : string) : a +:+ s = b +:+ s → a = b.
Proof.
  revert b. induction a as [|c a IH]; intros [|c' b] E; [done|..].
  - apply (f_equal String.length) in E. simpl in E. rewrite append_length in E. lia.
  - apply (f_equal String.length) in E. simpl in E. rewrite append_length in E. lia.
  - injection E as -> E. f_equal. by apply IH.
Qed.

Lemma txt_not_parent n : n +:+ ".txt" ≠ "..".
Proof. destruct n as [|c [|c' [|c'' n]]]; intros E; simplify_eq/=. Qed.

(** The digits of a number. *)
Definition digit_or_sign (f : Ascii.ascii → bool) : Prop :=
  Forall (λ c, f c = false) (String.list_ascii_of_string "-0123456789").

Lemma pretty_N_char_clean f x : digit_or_sign f → f (pretty_N_char x) = false.
Proof.
  intros Hf. unfold digit_or_sign in Hf. rewrite Forall_forall in Hf. apply Hf. simpl.
  unfold pretty_N_char. repeat case_match; set_solver.
Qed.

Lemma pretty_N_go_clean f x s :
  digit_or_sign f → has_char f s = false →
  has_char f (pretty_N_go x s) = false ∧ (x = 0%N ∨ pretty_N_go x s ≠ "") ∧ (s ≠ "" → pretty_N_go x s ≠ "").
Proof.
  intros Hf. revert s. induction (N.lt_wf_0 x) as [x _ IH]. intros s Hs. destruct (decide (x = 0%N)) as [->|Hx].
  - rewrite pretty_N_go_0. split_and!; [done|by left|done].
  - rewrite pretty_N_go_step by lia. destruct (IH (x `div` 10)%N) with (s := String (pretty_N_char (x `mod` 10)) s) as (H1s & _ & H2s).
    + apply N.div_lt; lia.
    + unfold has_char in *. simpl. rewrite Hs, pretty_N_char_clean; done.
    + split_and!; [done|right; by apply H2s|intros _; by apply H2s].
Qed.

Lemma pretty_clean f (z : Z) : digit_or_sign f → has_char f (pretty z) = false ∧ pretty z ≠ "".
Proof.
  intros Hf. assert (∀ p, has_char f (pretty_N_go (N.pos p) "") = false ∧ pretty_N_go (N.pos p) "" ≠ "") as Hpos.
  { intros p. destruct (pretty_N_go_clean f (N.pos p) "" Hf) as (H1s & [?|H2s] & _); done. }
  destruct z as [|p|p].
  - split; [|done]. unfold digit_or_sign in Hf. unfold has_char. change (f (Ascii.ascii_of_nat 48) || false = false).
    rewrite Forall_forall in Hf. rewrite Hf; [done|]. set_solver.
  - apply Hpos.
  - destruct (Hpos p) as [H1s _]. split; [|done]. unfold has_char in *.
    change (f (Ascii.ascii_of_nat 45) || existsb f (String.list_ascii_of_string (pretty (N.pos p))) = false).
    apply orb_false_iff. split; [|exact H1s]. unfold digit_or_sign in Hf. rewrite Forall_forall in Hf. apply Hf. set_solver.
Qed.

Lemma pretty_plain (z : Z) : one_component (pretty z).
Proof.
  destruct (pretty_clean (λ c, bool_decide (c = slash)) z) as [Hs He]; [repeat constructor|].
  destruct (pretty_clean (λ c, bool_decide (c = dot)) z) as [Hd _]; [repeat constructor|].
  split_and!; [done..| |]; intros E; by rewrite E in Hd.
Qed.

(** ** Content *)
Section content_facts.
Context `{Disk} (dir_path : list string).
Hypothesis dir_plain : Forall (λ c, c ≠ "..") dir_path.

Definition plain_address (a : Address) : Prop := one_component a ∧ no_dot a.

Lemma path_of_plain a : plain_address a → resolve (address_to_path dir_path a) = dir_path ++ [a +:+ ".txt"].
Proof.
  intros [Ho Hd]. unfold address_to_path. rewrite join_single by done. rewrite extension_snoc by apply Ho.
  rewrite stem_single by done. apply resolve_plain, Forall_app. split; [done|]. apply Forall_singleton.
  apply txt_not_parent.
Qed.

(** Content is found under its address and nothing else changes, for the addresses that
    hashes have. *)
Theorem file_content_found a b text fs fs' :
  plain_address a → plain_address b → cas_file_add dir_path a text fs = (fs', Ok tt) →
  cas_file_fetch dir_path b fs' = if decide (a = b) then Ok (Some text) else cas_file_fetch dir_path b fs.
Proof.
  intros Ha Hb. unfold cas_file_add, write_file. destruct (refuses _ _) as [[e [part|]]|]; [done..|]. intros [= <-].
  unfold cas_file_fetch, cas_file_contains. simpl. rewrite !path_of_plain by done. case_decide as Hab.
  - subst. by rewrite lookup_insert_eq, bool_decide_true.
  - rewrite lookup_insert_ne; [done|]. intros E%(inj (app dir_path)). injection E as E. apply Hab.
    by eapply append_cancel.
Qed.

(** An address with a dot reads what is stored under the part before it. *)
Theorem dotted_address_aliases a b fs :
  one_component a → one_component b → no_dot b → before_last_dot a = Some b →
  cas_file_fetch dir_path a fs = cas_file_fetch dir_path b fs.
Proof.
  intros Ha Hb Hd Hs. assert (address_to_path dir_path a = address_to_path dir_path b) as E.
  { unfold address_to_path. rewrite !join_single by done. rewrite !extension_snoc by (apply Ha || apply Hb).
    rewrite (stem_single b) by done. unfold file_stem. rewrite Hs. by destruct b; [destruct Hb as (_ & ? & _)|]. }
  unfold cas_file_fetch, cas_file_contains. by rewrite E.
Qed.
End content_facts.

(** ** Patterns *)
Section glob_facts.
Context `{Disk, Glob, EaviText}.

Definition matches_component (pattern s : string) : Prop := ∃ f, glob_component pattern = Some f ∧ f s = true.

Lemma path_matches_spec fs p : path_matches fs p = true ↔ Forall2 (λ f c, f c = true) fs p.
Proof.
  revert p. induction fs as [|f fs IH]; intros [|c p]; simpl.
  - by split.
  - split; [done|inversion 1].
  - split; [done|inversion 1].
  - rewrite andb_true_iff, IH. split; [intros []; by constructor|by inversion 1].
Qed.

Lemma glob_ok pattern fs :
  Forall (λ c, is_Some (glob_component c)) pattern →
  ∃ paths, glob pattern fs = Ok paths ∧
    ∀ p, p ∈ paths ↔ p ∈ everything fs ∧ Forall2 matches_component pattern p.
Proof.
  intros Hp. unfold glob. destruct (mapM_is_Some_2 _ _ Hp) as [compiled Hc]. rewrite Hc. eexists. split; [done|].
  intros p. rewrite elem_of_filter, path_matches_spec. apply mapM_Some in Hc.
  enough (Forall2 (λ f c, f c = true) compiled p ↔ Forall2 matches_component pattern p) as -> by tauto.
  clear Hp. revert p. induction Hc as [|c f pattern compiled Hc _ IH]; intros [|x p]; try (split; by inversion 1).
  rewrite !Forall2_cons, IH. unfold matches_component at 2. rewrite Hc. naive_solver.
Qed.

Lemma match_plain n s : no_wildcard n → matches_component n s ↔ s = n.
Proof.
  intros Hn. destruct (glob_plain n Hn) as (f & Hf & Hs). unfold matches_component. rewrite Hf, <-Hs.
  split; [intros (f' & [= <-] & ?); done|eauto].
Qed.
Lemma match_star s : matches_component "*" s.
Proof. destruct glob_star as (f & Hf & Hs). by exists f. Qed.
Lemma match_txt s : matches_component "*.txt" (s +:+ ".txt").
Proof. destruct glob_txt as (f & Hf & Hs). exists f. split; [done|]. apply Hs. by exists s. Qed.

Lemma match_plains dir p : Forall no_wildcard dir → Forall2 matches_component dir p ↔ p = dir.
Proof.
  intros Hd. split.
  - intros Hm. induction Hm as [|c x dir p Hc Hm IH]; [done|]. apply Forall_cons in Hd as [Hn Hd].
    apply match_plain in Hc; [|done]. subst. f_equal. by apply IH.
  - intros ->. induction Hd; constructor; [by apply match_plain|done].
Qed.

Lemma compiles n : no_wildcard n → is_Some (glob_component n).
Proof. intros Hn. destruct (glob_plain n Hn) as (f & -> & _). by eexists. Qed.
Lemma compiles_star : is_Some (glob_component "*").
Proof. destruct glob_star as (f & -> & _). by eexists. Qed.
Lemma compiles_txt : is_Some (glob_component "*.txt").
Proof. destruct glob_txt as (f & -> & _). by eexists. Qed.

Lemma everything_elem p fs : p ∈ everything fs ↔ ∃ q c n, fs !! q = Some c ∧ (n ≤ length q)%nat ∧ p = take n q.
Proof.
  unfold everything. rewrite elem_of_list_to_set, list_elem_of_bind. split.
  - intros (q & (n & -> & Hn)%list_elem_of_fmap & ([q' c] & -> & Hq)%list_elem_of_fmap).
    apply elem_of_map_to_list in Hq. apply elem_of_seq in Hn. simpl in Hn. exists q', c, n. split_and!; [done|lia|done].
  - intros (q & c & n & Hq & Hn & ->). exists q. split.
    + apply list_elem_of_fmap. exists n. split; [done|]. apply elem_of_seq. lia.
    + apply list_elem_of_fmap. exists (q, c). split; [done|]. by apply elem_of_map_to_list.
Qed.
End glob_facts.

(** ** Triples *)
Section triple_facts.
Context `{Disk, Glob, EaviText} (dir_path : list string).
Hypothesis dir_plain : Forall (λ c, c ≠ ".." ∧ no_wildcard c) dir_path.

Definition subscripts : list string := [ENTITY_DIR; ATTRIBUTE_DIR; VALUE_DIR].

(** The names of a triple are components of paths, and its attribute can be read back. *)
Record plain_names (e : Eavi) : Prop := {
  plain_directory sub : sub ∈ subscripts → one_component (directory_of sub e) ∧ no_wildcard (directory_of sub e);
  plain_file : plain_address (eavi_address e);
  plain_attribute : read_attribute (Attribute_fmt (attribute e)) = Some (attribute e);
}.

Definition place (sub : string) (e : Eavi) : list string :=
  dir_path ++ [sub; directory_of sub e; pretty (index e); eavi_address e +:+ ".txt"].

Lemma sub_single sub : sub ∈ subscripts → one_component sub ∧ no_wildcard sub.
Proof. unfold subscripts. rewrite !elem_of_cons. intros [->|[->|[->|?%elem_of_nil]]]; [by split..|done]. Qed.

Lemma dir_components : Forall (λ c, c ≠ "..") dir_path.
Proof. eapply Forall_impl; [done|]. by intros ? []. Qed.
Lemma dir_wildcards : Forall no_wildcard dir_path.
Proof. eapply Forall_impl; [done|]. by intros ? []. Qed.

Lemma file_place sub e : sub ∈ subscripts → plain_names e → resolve (file_of dir_path sub e) = place sub e.
Proof.
  intros Hs He. destruct (plain_directory e He sub Hs) as [Hd _]. destruct (plain_file e He) as [Ha Hdot].
  destruct (sub_single sub Hs) as [Hsub _]. pose proof (pretty_plain (index e)) as Hi.
  unfold file_of, place. rewrite !join_single by done. rewrite extension_snoc by apply Ha.
  rewrite stem_single by done. rewrite <-!app_assoc. simpl. apply resolve_plain.
  rewrite Forall_app, !Forall_cons. split; [apply dir_components|].
  split_and!; [apply Hsub|apply Hd|apply Hi|apply txt_not_parent|done].
Qed.

(** The files of a set of triples. *)
Definition represents (fs : FileSystem) (es : list Eavi) : Prop :=
  ∀ p c, fs !! p = Some c ↔ ∃ sub e, sub ∈ subscripts ∧ e ∈ es ∧ p = place sub e ∧ c = file_text e.

Definition indexed (es : list Eavi) : Prop := ∀ e e', e ∈ es → e' ∈ es → index e = index e' → e = e'.

Lemma place_inj sub e sub' e' : place sub e = place sub' e' → sub = sub' ∧ index e = index e'.
Proof. unfold place. intros E%(inj (app dir_path)). injection E as -> _ E%(inj pretty) _. done. Qed.

Lemma text_read e : eavi_of_content (file_text e) = Ok e.
Proof. apply eavi_content_roundtrip. Qed.

Lemma text_inj e e' : file_text e = file_text e' → e = e'.
Proof. intros E. pose proof (text_read e) as H1e. rewrite E, text_read in H1e. congruence. Qed.

(** *** Adding *)
Lemma no_collision_path e fs es : represents fs es → (∀ e', e' ∈ es → plain_names e') →
  plain_address (eavi_address e) → path_exists (collision_path dir_path e) fs = false.
Proof.
  intros Hr Hp [Ha Hd]. pose proof (pretty_plain (index e)) as Hi. unfold path_exists. apply not_true_iff_false. intros Hex.
  apply existsb_exists in Hex as (p & Hin & Hpre). apply bool_decide_eq_true in Hpre.
  apply list_elem_of_In, list_elem_of_fmap in Hin as ([q c] & -> & Hq%elem_of_map_to_list). simpl in *.
  apply Hr in Hq as (sub & e' & Hs & He' & -> & _). unfold collision_path in Hpre.
  rewrite (join_single dir_path "*"), (join_single _ ENTITY_DIR), join_single in Hpre by done.
  rewrite (components_single _ Ha) in Hpre. unfold with_extension in Hpre. simpl in Hpre.
  rewrite decide_False in Hpre by apply Ha. simpl in Hpre. rewrite stem_single in Hpre by done.
  rewrite <-!app_assoc in Hpre. simpl in Hpre. rewrite resolve_plain in Hpre.
  - unfold place in Hpre. apply (f_equal (λ l, l !! length dir_path)) in Hpre.
    rewrite lookup_take_lt, !list_lookup_middle in Hpre by (done || rewrite length_app; simpl; lia).
    injection Hpre as E. by destruct (sub_single sub Hs) as [_ Hw]; subst.
  - rewrite Forall_app, !Forall_cons. split; [apply dir_components|].
    split_and!; [done|done|apply Hi|apply txt_not_parent|done].
Qed.

Lemma write_ok sub e fs fs' :
  sub ∈ subscripts → plain_names e → write_to_file dir_path sub e fs = (fs', Ok tt) →
  fs' = <[place sub e := file_text e]> fs.
Proof.
  intros Hs He. unfold write_to_file, write_file. destruct (refuses _ _) as [[err [part|]]|]; [done..|].
  intros [= <-]. by rewrite file_place.
Qed.

Lemma add_writes now e fs es fs' r :
  represents fs es → (∀ e', e' ∈ es → plain_names e') → plain_names e →
  file_add_eavi dir_path now e fs = (fs', Ok r) →
  r = Some e ∧ fs' = <[place VALUE_DIR e := file_text e]> (<[place ATTRIBUTE_DIR e := file_text e]>
    (<[place ENTITY_DIR e := file_text e]> fs)).
Proof.
  intros Hr Hp He Ha. unfold file_add_eavi in Ha.
  rewrite (no_collision_path e fs es) in Ha by (done || apply He).
  destruct (write_to_file dir_path ENTITY_DIR e fs) as [fs1 [[]|]] eqn:E1; [|done].
  destruct (write_to_file dir_path ATTRIBUTE_DIR e fs1) as [fs2 [[]|]] eqn:E2; [|done].
  destruct (write_to_file dir_path VALUE_DIR e fs2) as [fs3 [[]|]] eqn:E3; [|done]. injection Ha as <- <-.
  apply write_ok in E1 as ->; [|left|done]. apply write_ok in E2 as ->; [|right; left|done].
  apply write_ok in E3 as ->; [done|right; right; left|done].
Qed.

Lemma written_lookup (e : Eavi) (fs : FileSystem) (p : list string) (c : string) :
  (<[place VALUE_DIR e := file_text e]> (<[place ATTRIBUTE_DIR e := file_text e]>
    (<[place ENTITY_DIR e := file_text e]> fs))) !! p = Some c ↔
  (∃ sub, sub ∈ subscripts ∧ p = place sub e ∧ c = file_text e) ∨
  (∀ sub, sub ∈ subscripts → p ≠ place sub e) ∧ fs !! p = Some c.
Proof.
  rewrite !lookup_insert_Some. unfold subscripts. setoid_rewrite elem_of_cons. setoid_rewrite elem_of_cons.
  setoid_rewrite list_elem_of_singleton. split.
  - intros [[<- <-]|[H1p [[<- <-]|[H2p [[<- <-]|[H3p Hl]]]]]]; [left; eauto 6..|].
    right. split; [|done]. intros sub [->|[->| ->]]; congruence.
  - intros [(sub & [->|[->| ->]] & -> & ->)|[Hn Hl]].
    + right. split; [by intros [? _]%place_inj|]. right. split; [by intros [? _]%place_inj|]. by left.
    + right. split; [by intros [? _]%place_inj|]. by left.
    + by left.
    + right. split; [intros <-; by apply (Hn VALUE_DIR); auto|]. right. split; [intros <-; by apply (Hn ATTRIBUTE_DIR); auto|].
      right. split; [intros <-; by apply (Hn ENTITY_DIR); auto|done].
Qed.

Lemma add_represents now e fs es fs' r :
  represents fs es → (∀ e', e' ∈ es → plain_names e') → plain_names e → index_free (index e) es →
  file_add_eavi dir_path now e fs = (fs', Ok r) → r = Some e ∧ represents fs' (e :: es).
Proof.
  intros Hr Hp He Hf Ha. destruct (add_writes now e fs es fs' r Hr Hp He Ha) as [-> ->]. split; [done|].
  intros p c. rewrite written_lookup, (Hr p c). split.
  - intros [(sub & Hs & -> & ->)|(_ & sub & e' & Hs & He' & -> & ->)].
    + exists sub, e. by split_and!; [|left|..].
    + exists sub, e'. by split_and!; [|right|..].
  - intros (sub & e' & Hs & [->|He']%elem_of_cons & -> & ->); [left; by exists sub|right]. split.
    + intros sub' _ [_ Ei]%place_inj. by apply (Hf e').
    + by exists sub, e'.
Qed.

(** *** Reading *)
Lemma place_length sub e : length (place sub e) = (length dir_path + 4)%nat.
Proof. unfold place. by rewrite length_app. Qed.

Lemma everything_full fs es p :
  represents fs es → length p = (length dir_path + 4)%nat →
  p ∈ everything fs ↔ ∃ sub e, sub ∈ subscripts ∧ e ∈ es ∧ p = place sub e.
Proof.
  intros Hr Hl. rewrite everything_elem. split.
  - intros (q & c & n & (sub & e & Hs & He & -> & _)%Hr & Hn & ->). exists sub, e. split_and!; [done..|].
    rewrite length_take, place_length in Hl. apply take_ge. rewrite place_length. lia.
  - intros (sub & e & Hs & He & ->). exists (place sub e), (file_text e), (length (place sub e)).
    split_and!; [|done|by rewrite take_ge]. apply Hr. by exists sub, e.
Qed.

Lemma read_eav_spec fs es sub n :
  represents fs es → sub ∈ subscripts → no_wildcard n →
  ∃ texts, read_eav (dir_path ++ [sub; n]) fs = Ok texts ∧
    ∀ t, t ∈ texts ↔ ∃ e, e ∈ es ∧ directory_of sub e = n ∧ t = file_text e.
Proof.
  intros Hr Hs Hn. unfold read_eav. rewrite <-app_assoc. simpl.
  destruct (sub_single sub Hs) as [_ Hw].
  destruct (glob_ok (dir_path ++ [sub; n; "*"; "*.txt"]) fs) as (paths & -> & Hp).
  { rewrite Forall_app, !Forall_cons. split; [eapply Forall_impl; [apply dir_wildcards|apply compiles]|].
    split_and!; [by apply compiles..|apply compiles_star|apply compiles_txt|done]. }
  assert (∀ p, p ∈ paths ↔ ∃ e, e ∈ es ∧ directory_of sub e = n ∧ p = place sub e) as Hpaths.
  { intros p. rewrite Hp. split.
    - intros [He Hm]. apply Forall2_app_inv_l in Hm as (d & tl & Hd & Ht & ->).
      apply match_plains in Hd; [|apply dir_wildcards]. subst.
      apply Forall2_cons_inv_l in Ht as (s1 & t1 & M1 & Ht & ->). apply match_plain in M1; [|done]. subst.
      apply Forall2_cons_inv_l in Ht as (s2 & t2 & M2 & Ht & ->). apply match_plain in M2; [|done]. subst.
      pose proof (Forall2_length _ _ _ Ht) as Hl. simpl in Hl.
      apply (everything_full fs es) in He as (sub' & e & Hs' & He & E); [|done|rewrite length_app; simpl; lia].
      pose proof E as E2. unfold place in E2. apply (inj (app dir_path)) in E2. injection E2 as Esub En _. subst sub'. exists e. by rewrite <-En.
    - intros (e & He & Hd & ->). split; [apply (everything_full fs es); [done|apply place_length|by exists sub, e]|].
      unfold place. apply Forall2_app; [by apply match_plains; [apply dir_wildcards|]|].
      repeat constructor; [by apply match_plain|by apply match_plain|apply match_star|apply match_txt]. }
  simpl. rewrite decide_True.
  - eexists. split; [done|]. intros t. rewrite elem_of_list_to_set, list_elem_of_omap. setoid_rewrite elem_of_elements. split.
    + intros (p & (e & He & Hd & ->)%Hpaths & Hl). exists e. split_and!; [done..|].
      assert (fs !! place sub e = Some (file_text e)) as Hl2 by (apply Hr; by exists sub, e). congruence.
    + intros (e & He & Hd & ->). exists (place sub e). split; [apply Hpaths; eauto|]. apply Hr. by exists sub, e.
  - intros p (e & He & Hd & ->)%Hpaths. exists (file_text e). apply Hr. by exists sub, e.
Qed.

Lemma directory_elem fs es sub p :
  represents fs es → sub ∈ subscripts →
  p ∈ everything fs ∧ Forall2 matches_component (dir_path ++ [sub; "*"]) p ↔
  ∃ e, e ∈ es ∧ p = dir_path ++ [sub; directory_of sub e].
Proof.
  intros Hr Hs. destruct (sub_single sub Hs) as [_ Hw]. split.
  - intros [He Hm]. apply Forall2_app_inv_l in Hm as (d & tl & Hd & Ht & ->).
    apply match_plains in Hd; [|apply dir_wildcards]. subst.
    apply Forall2_cons_inv_l in Ht as (s1 & t1 & M1 & Ht & ->). apply match_plain in M1; [|done]. subst.
    apply Forall2_cons_inv_l in Ht as (s2 & t2 & _ & Ht & ->). apply Forall2_nil_inv_l in Ht as ->.
    apply everything_elem in He as (q & c & n & (sub' & e & Hs' & He & -> & _)%Hr & _ & E).
    exists e. split; [done|]. f_equal. unfold place in E.
    assert (n = length dir_path + 2)%nat as ->.
    { apply (f_equal length) in E. rewrite length_take, !length_app in E. simpl in E. lia. }
    rewrite take_app_add in E. apply (inj (app dir_path)) in E. simpl in E. injection E as -> ->. done.
  - intros (e & He & ->). split.
    + apply everything_elem. exists (place sub e), (file_text e), (length dir_path + 2)%nat. split_and!.
      * apply Hr. by exists sub, e.
      * rewrite place_length. lia.
      * unfold place. by rewrite take_app_add.
    + apply Forall2_app; [by apply match_plains; [apply dir_wildcards|]|].
      repeat constructor; [by apply match_plain|apply match_star].
Qed.

Lemma resolve_dir sub : sub ∈ subscripts → resolve (path_join dir_path sub) = dir_path ++ [sub].
Proof.
  intros Hs. destruct (sub_single sub Hs) as [Ho _]. rewrite join_single by done. apply resolve_plain, Forall_app.
  split; [apply dir_components|]. apply Forall_singleton, Ho.
Qed.

Lemma no_directory fs es sub :
  represents fs es → sub ∈ subscripts → path_exists (path_join dir_path sub) fs = false → es = [].
Proof.
  intros Hr Hs Hn. destruct (sub_single sub Hs) as [Ho _]. destruct es as [|e es]; [done|].
  unfold path_exists in Hn. apply not_true_iff_false in Hn. destruct Hn. apply existsb_exists.
  exists (place sub e). split.
  - apply list_elem_of_In, list_elem_of_fmap. exists (place sub e, file_text e). split; [done|].
    apply elem_of_map_to_list, Hr. exists sub, e. by split_and!; [|left|..].
  - apply bool_decide_eq_true. rewrite resolve_dir by done.
    unfold place. rewrite length_app. by rewrite take_app_add.
Qed.

Lemma read_from_dir_spec {T : Type} (read : string → option T) sub check fs es :
  represents fs es → (∀ e, e ∈ es → plain_names e) → sub ∈ subscripts →
  ∃ texts, read_from_dir dir_path read sub check fs = Ok texts ∧
    ∀ t, t ∈ texts ↔ ∃ e, e ∈ es ∧ t = file_text e ∧ ∃ x, read (directory_of sub e) = Some x ∧ check x = true.
Proof.
  intros Hr Hp Hs. destruct (sub_single sub Hs) as [Ho Hw]. unfold read_from_dir.
  destruct (path_exists (path_join dir_path sub) fs) eqn:Hex; simpl.
  2: { apply (no_directory fs es) in Hex; [|done..]. subst. exists ∅. split; [done|]. intros t. set_solver. }
  rewrite resolve_dir by done. rewrite <-app_assoc. simpl. destruct (glob_ok (dir_path ++ [sub; "*"]) fs) as (paths & -> & Hg).
  { rewrite Forall_app, !Forall_cons. split; [eapply Forall_impl; [apply dir_wildcards|apply compiles]|].
    split_and!; [by apply compiles|apply compiles_star|done]. }
  eexists. split; [done|]. intros t. rewrite elem_of_union_list. setoid_rewrite list_elem_of_fmap.
  setoid_rewrite elem_of_elements. setoid_rewrite elem_of_filter. setoid_rewrite Hg.
  setoid_rewrite (directory_elem fs es sub); [|done..]. split.
  - intros (X & (p & -> & Hgood & (e & He & ->)) & Ht). unfold good_directory in Hgood.
    rewrite last_app in Hgood. simpl in Hgood.
    destruct (read_eav_spec fs es sub (directory_of sub e)) as (texts & E & Htexts); [done..|by apply Hp|].
    rewrite E in Ht. apply Htexts in Ht as (e' & He' & Hd & ->). exists e'. split_and!; [done..|]. rewrite Hd.
    destruct (read (directory_of sub e)) as [x|]; [by exists x|done].
  - intros (e & He & -> & x & Hx & Hc).
    destruct (read_eav_spec fs es sub (directory_of sub e)) as (texts & E & Htexts); [done..|by apply Hp|].
    exists texts. split; [|apply Htexts; eauto]. exists (dir_path ++ [sub; directory_of sub e]). split; [by rewrite E|].
    split; [|by exists e]. unfold good_directory. rewrite last_app. simpl. by rewrite Hx.
Qed.

(** *** Queries *)
Lemma collect_indexed l x : indexed l → x ∈ btree_collect l ↔ x ∈ l.
Proof. intros Hi. apply (elem_of_foldl_btree l []); [constructor|]. intros a b Ha Hb. by apply Hi. Qed.

(** Filtering first and taking the latest afterwards is the same as the whole query. *)
Lemma filtered_first q s l :
  sorted_eavis s → sorted_eavis l → (∀ e, e ∈ l ↔ e ∈ s ∧ matches q e) →
  run (MkQuery filter_default filter_default filter_default (q_index q)) l = run q s.
Proof.
  intros Hs Hl Hm. apply sorted_ext; [by apply run_sorted..|]. intros e. set (qi := MkQuery _ _ _ _).
  assert (matches qi e) as Hmi by done.
  destruct (q_index q) as [|lo hi] eqn:Hq.
  - rewrite (elem_of_run_latest qi l) by done. rewrite (elem_of_run_latest q s) by done. rewrite Hm. split.
    + intros ([He Hme] & _ & Hall). split_and!; [done..|]. intros e' He' (E1 & E2 & Ha). apply Hall; [|done].
      apply Hm. split; [done|]. destruct Hme as (? & _ & ?). unfold matches. by rewrite E1, E2.
    + intros (He & Hme & Hall). split_and!; [done..|]. intros e' [He' Hme']%Hm (E1 & E2 & _). apply Hall; [done|].
      split_and!; [done..|]. apply Hme'.
  - rewrite (elem_of_run_range qi l e lo hi) by done. rewrite (elem_of_run_range q s e lo hi) by done. rewrite Hm. tauto.
Qed.

Lemma decoded (texts : gset string) (es : list Eavi) q :
  (∀ t, t ∈ texts ↔ ∃ e, e ∈ es ∧ t = file_text e ∧ matches q e) →
  ∃ l : list Eavi, mapM (λ text, ok (eavi_of_content text)) (text_order texts) = Some l ∧ ∀ e, e ∈ l ↔ e ∈ es ∧ matches q e.
Proof.
  intros Ht. destruct (mapM_is_Some_2 (λ text, ok (eavi_of_content text)) (text_order texts)) as [l Hl].
  { apply Forall_forall. intros t Hin%text_order_elem%Ht. destruct Hin as (e & _ & -> & _).
    unfold compose. rewrite text_read. by eexists. }
  exists l. split; [done|]. apply mapM_Some in Hl. intros e. split.
  - intros [i Hi]%list_elem_of_lookup. destruct (Forall2_lookup_r _ _ _ _ _ Hl Hi) as (t & Hti & Hd).
    apply list_elem_of_lookup_2, text_order_elem, Ht in Hti as (e' & He' & -> & Hm).
    rewrite text_read in Hd. simpl in Hd. by injection Hd as <-.
  - intros [He Hm]. assert (file_text e ∈ text_order texts) as [i Hi]%list_elem_of_lookup.
    { apply text_order_elem, Ht. eauto. }
    destruct (Forall2_lookup_l _ _ _ _ _ Hl Hi) as (e' & Hei & Hd).
    rewrite text_read in Hd. simpl in Hd. injection Hd as <-. by eapply list_elem_of_lookup_2.
Qed.

Lemma fetch_sorted q fs l : file_fetch_eavi dir_path q fs = Ok l → sorted_eavis l.
Proof.
  unfold file_fetch_eavi. destruct (read_from_dir dir_path Some ENTITY_DIR _ _) as [X|]; [|done].
  destruct (read_from_dir dir_path read_attribute _ _ _) as [Y|]; [|done].
  destruct (read_from_dir dir_path Some VALUE_DIR _ _) as [V|]; [|done]. simpl.
  case_match; [|done]. intros [= <-]. apply run_sorted, btree_collect_sorted'.
Qed.

Lemma fetch_represents fs es q :
  represents fs es → (∀ e, e ∈ es → plain_names e) → indexed es →
  file_fetch_eavi dir_path q fs = Ok (run q (btree_collect es)).
Proof.
  intros Hr Hp Hi. unfold file_fetch_eavi.
  destruct (read_from_dir_spec Some ENTITY_DIR (q_entity q) fs es) as (X & -> & HX); [done..|left|].
  destruct (read_from_dir_spec read_attribute ATTRIBUTE_DIR (q_attribute q) fs es) as (Y & -> & HY); [done..|right; left|].
  destruct (read_from_dir_spec Some VALUE_DIR (q_value q) fs es) as (Z & -> & HZ); [done..|right; right; left|].
  simpl. destruct (decoded (Z ∩ Y ∩ X) es q) as (l & -> & Hl).
  { intros t. rewrite !elem_of_intersection, HX, HY, HZ. split.
    - intros [[(e1 & He1 & -> & x1 & [= <-] & C1) (e2 & He2 & E2 & x2 & R2 & C2)] (e3 & He3 & E3 & x3 & [= <-] & C3)].
      apply text_inj in E2, E3. subst. exists e3. split_and!; [done..|].
      change (read_attribute (Attribute_fmt (attribute e3)) = Some x2) in R2.
      rewrite (plain_attribute e3) in R2 by (by apply Hp). injection R2 as <-. by split_and!.
    - intros (e & He & -> & Hm1 & Hm2 & Hm3). split_and!; exists e; (split_and!; [done..|]).
      + by exists (value e).
      + exists (attribute e). split; [by apply (plain_attribute e), Hp|done].
      + by exists (entity e). }
  f_equal. apply filtered_first; [apply btree_collect_sorted'..|]. intros e.
  assert (indexed l) as Hil.
  { intros e1 e2 [H1e _]%Hl [H2e _]%Hl. by apply Hi. }
  by rewrite (collect_indexed l), (collect_indexed es) by done.
Qed.
(** *** The storage as a whole *)
Fixpoint file_add_all (now : Z) (es : list Eavi) (fs : FileSystem) : FileSystem * HcResult unit :=
  match es with
  | [] => (fs, Ok tt)
  | e :: es =>
      match file_add_eavi dir_path now e fs with
      | (fs, Ok _) => file_add_all now es fs
      | (fs, Err err) => (fs, Err err)
      end
  end.

Lemma represents_nil : represents ∅ [].
Proof. intros p c. rewrite lookup_empty. split; [done|]. intros (? & ? & _ & ?%elem_of_nil & _). done. Qed.

Lemma represents_perm fs es es' : (∀ e, e ∈ es ↔ e ∈ es') → represents fs es → represents fs es'.
Proof. intros He Hr p c. rewrite (Hr p c). by setoid_rewrite He. Qed.

Lemma add_all_represents now es fs es0 fs' :
  represents fs es0 → (∀ e, e ∈ es0 ++ es → plain_names e) → NoDup (index <$> es0 ++ es) →
  file_add_all now es fs = (fs', Ok tt) → represents fs' (es0 ++ es).
Proof.
  revert fs es0. induction es as [|e es IH]; intros fs es0 Hr Hp Hi; simpl.
  { intros [= <-]. by rewrite app_nil_r. }
  destruct (file_add_eavi dir_path now e fs) as [fs1 [r|err]] eqn:Ha; [|done].
  rewrite fmap_app, fmap_cons in Hi. apply add_represents with (es := es0) in Ha as [-> Hr'].
  - intros Hrest. replace (es0 ++ e :: es) with ((es0 ++ [e]) ++ es) in * by (by rewrite <-app_assoc).
    eapply IH; [|done| |exact Hrest].
    + eapply represents_perm; [|exact Hr']. intros x. rewrite elem_of_app, list_elem_of_singleton, elem_of_cons. tauto.
    + by rewrite !fmap_app, fmap_cons, <-app_assoc.
  - done.
  - intros e' He'. apply Hp. set_solver.
  - apply Hp. set_solver.
  - intros e' He' E. apply NoDup_app in Hi as (_ & Hi & _). apply (Hi (index e')); [by apply list_elem_of_fmap_2|].
    rewrite E. left.
Qed.

Lemma distinct_indexed es : NoDup (index <$> es) → indexed es.
Proof.
  intros Hn e e' [i Hi]%list_elem_of_lookup [j Hj]%list_elem_of_lookup E.
  assert (i = j) as ->; [|congruence].
  eapply NoDup_lookup; [exact Hn|by rewrite list_lookup_fmap, Hi|by rewrite list_lookup_fmap, Hj, E].
Qed.

(** C19: after triples with plain names and indexes of their own have been written, the file
    storage answers every query as the query itself runs over these triples, and hence as
    any storage that holds them. *)
Theorem file_storage_agrees now es fs' {S} `{!EavStorage S} (s : S) q :
  (∀ e, e ∈ es → plain_names e) → NoDup (index <$> es) →
  file_add_all now es ∅ = (fs', Ok tt) → eavs s = btree_collect es →
  file_fetch_eavi dir_path q fs' = Ok (run q (btree_collect es)) ∧
  file_fetch_eavi dir_path q fs' = fetch_eavi s q.
Proof.
  intros Hp Hi Ha Hs. rewrite fetch_eavi_spec, Hs.
  rewrite (fetch_represents fs' es); [done| |done|by apply distinct_indexed].
  by apply (add_all_represents now es ∅ [] fs' represents_nil).
Qed.

(** Where the disk refuses nothing, every triple is written. *)
Theorem add_all_succeeds now es es0 fs :
  (∀ path text, refuses path text = None) → represents fs es0 → (∀ e, e ∈ es0 ++ es → plain_names e) →
  NoDup (index <$> es0 ++ es) → ∃ fs', file_add_all now es fs = (fs', Ok tt).
Proof.
  intros Hd. revert fs es0. induction es as [|e es IH]; intros fs es0 Hr Hp Hi; [by eexists|].
  assert (∃ fs1, file_add_eavi dir_path now e fs = (fs1, Ok (Some e))) as [fs1 Ha].
  { unfold file_add_eavi. rewrite (no_collision_path e fs es0); [|done|set_solver|apply Hp; set_solver].
    unfold write_to_file, write_file. rewrite !Hd. by eexists. }
  simpl. rewrite Ha. replace (es0 ++ e :: es) with ((es0 ++ [e]) ++ es) in * by (by rewrite <-app_assoc).
  eapply IH; [|done..]. apply (add_all_represents now [e] fs es0); [done|..].
  - intros x Hx. apply Hp. set_solver.
  - rewrite fmap_app in Hi. by apply NoDup_app in Hi as [Hi _].
  - simpl. by rewrite Ha.
Qed.

(** two triples that share an index are both written and reported as added, the second
    under its own index, which memory and pickle storages would change; and then no query
    returns both of them. *)
Theorem shared_index_hides now e1 e2 fs es fs1 fs2 r1 r2 :
  represents fs es → (∀ e, e ∈ es → plain_names e) → plain_names e1 → plain_names e2 →
  index_free (index e1) es → index e1 = index e2 → e1 ≠ e2 →
  file_add_eavi dir_path now e1 fs = (fs1, Ok r1) → file_add_eavi dir_path now e2 fs1 = (fs2, Ok r2) →
  r1 = Some e1 ∧ r2 = Some e2 ∧
  fs2 !! place ENTITY_DIR e2 = Some (file_text e2) ∧
  ∀ q l, file_fetch_eavi dir_path q fs2 = Ok l → ¬ (e1 ∈ l ∧ e2 ∈ l).
Proof.
  intros Hr Hp H1p H2p Hf Hi Hne H1a H2a. apply add_represents with (es := es) in H1a as [-> Hr1]; [|done..].
  apply add_writes with (es := e1 :: es) in H2a as [-> ->]; [|done|set_solver|done]. split_and!; [done..| |].
  - apply written_lookup. left. exists ENTITY_DIR. by split; [left|].
  - intros q l Hl [H1l H2l]. apply Hne. apply (sorted_inj l); [|done..]. eapply fetch_sorted. exact Hl.
Qed.
End triple_facts.

(** ** A disk, patterns and texts *)
Module FilesDemo.
#[local] Instance willing : Disk := {| refuses _ _ := None |}.

Definition ends_txt (s : string) : bool :=
  existsb (λ n, bool_decide (s = String.substring 0 n s +:+ ".txt")) (seq 0 (S (String.length s))).

Lemma substring_append b s : String.substring 0 (String.length b) (b +:+ s) = b.
Proof. induction b as [|c b IH]; simpl; [by destruct s|by f_equal]. Qed.

Lemma ends_txt_spec s : ends_txt s = true ↔ ∃ b, s = b +:+ ".txt".
Proof.
  unfold ends_txt. rewrite existsb_exists. split.
  - intros (n & _ & Hn%bool_decide_eq_true). eauto.
  - intros [b ->]. exists (String.length b). split.
    + apply in_seq. rewrite append_length. simpl. lia.
    + apply bool_decide_eq_true. by rewrite substring_append.
Qed.

Definition simple_component (p : string) : option (string → bool) :=
  if decide (p = "*") then Some (λ _, true)
  else if decide (p = "*.txt") then Some ends_txt
  else if has_char wildcard p then None
  else Some (λ s, bool_decide (s = p)).

#[local] Instance simple_glob : Glob.
Proof.
  refine {| glob_component := simple_component |}.
  - by eexists.
  - eexists. split; [done|]. apply ends_txt_spec.
  - intros name Hn. unfold simple_component. rewrite Hn.
    rewrite !decide_False by (intros ->; by vm_compute in Hn). eexists. split; [done|]. intros s. apply bool_decide_eq_true.
Defined.

(** Texts of digits, ended by the newline. *)
Definition attribute_code (a : Attribute) : nat * (string * string) :=
  match a with
  | CrudStatusAttr => (0%nat, ("", ""))
  | CrudLink => (1%nat, ("", ""))
  | EntryHeader => (2%nat, ("", ""))
  | LinkAttr => (3%nat, ("", ""))
  | LinkRemoveAttr => (4%nat, ("", ""))
  | LinkTag t g => (5%nat, (t, g))
  | RemovedLink t g => (6%nat, (t, g))
  | PendingEntry => (7%nat, ("", ""))
  end.
Definition attribute_of_code (c : nat * (string * string)) : Attribute :=
  match c with
  | (0%nat, _) => CrudStatusAttr
  | (1%nat, _) => CrudLink
  | (2%nat, _) => EntryHeader
  | (3%nat, _) => LinkAttr
  | (4%nat, _) => LinkRemoveAttr
  | (5%nat, (t, g)) => LinkTag t g
  | (6%nat, (t, g)) => RemovedLink t g
  | _ => PendingEntry
  end.

#[local] Instance Attribute_countable : Countable Attribute.
Proof. refine (inj_countable' attribute_code attribute_of_code _). by intros []. Defined.
#[local] Instance Eavi_countable : Countable Eavi.
Proof.
  refine (inj_countable' (λ e, (entity e, attribute e, value e, index e))
    (λ c, MkEavi c.1.1.1 c.1.1.2 c.1.2 c.2) _).
  by intros [].
Defined.

Fixpoint bits (p : positive) : string :=
  match p with
  | xH => ""
  | xO p => "0" +:+ bits p
  | xI p => "1" +:+ bits p
  end.
Fixpoint of_bits (s : string) : positive :=
  match s with
  | String c s => if decide (c = Ascii.ascii_of_nat 48) then xO (of_bits s)
                  else if decide (c = Ascii.ascii_of_nat 49) then xI (of_bits s) else xH
  | EmptyString => xH
  end.

Lemma of_bits_bits p : of_bits (bits p +:+ String (Ascii.ascii_of_nat 10) EmptyString) = p.
Proof. induction p as [p IH|p IH|]; simpl; [by rewrite IH..|done]. Qed.

#[local] Instance digit_text : EaviText.
Proof.
  refine {|
    eavi_address e := "Qm" +:+ pretty (index e);
    eavi_content e := bits (encode e);
    eavi_of_content text := ok_or (decode (of_bits text)) (ErrorGeneric "Could not read triple");
    text_order := elements;
  |}.
  - intros e. by rewrite of_bits_bits, decode_encode.
  - intros x s. apply elem_of_elements.
Defined.

Definition linked : Eavi := MkEavi "base" (LinkTag "likes" "much") "target" 1.
Definition status : Eavi := MkEavi "base" CrudStatusAttr "live" 2.
Definition rival : Eavi := MkEavi "other" EntryHeader "header" 1.
Definition sliced : Eavi := MkEavi "b" (LinkTag "l" "x/y") "t" 3.

Definition dir : list string := ["home"; "store"].

Ltac plain := constructor; [intros ?; unfold subscripts; rewrite !elem_of_cons;
  intros [->|[->|[->|?%elem_of_nil]]]; [..|done]; by repeat split|by repeat split|reflexivity].

Lemma linked_plain : plain_names linked.
Proof. plain. Qed.
Lemma status_plain : plain_names status.
Proof. plain. Qed.
Lemma rival_plain : plain_names rival.
Proof. plain. Qed.

Lemma dir_is_plain : Forall (λ c, c ≠ ".." ∧ no_wildcard c) dir.
Proof. repeat constructor; discriminate. Qed.

Definition pair_of : list Eavi := [status; linked].
Definition both : FileSystem := (file_add_all dir 0 pair_of ∅).1.
Definition one : FileSystem := (file_add_eavi dir 0 linked ∅).1.
Definition two : FileSystem := (file_add_eavi dir 0 rival one).1.

Lemma answered {A B : Type} (p : A * B) b : p.2 = b → p = (p.1, b).
Proof. by destruct p; simpl; intros ->. Qed.
Lemma both_added : file_add_all dir 0 pair_of ∅ = (both, Ok tt).
Proof. apply answered. vm_compute. reflexivity. Qed.
Lemma one_added : file_add_eavi dir 0 linked ∅ = (one, Ok (Some linked)).
Proof. apply answered. vm_compute. reflexivity. Qed.
Lemma two_added : file_add_eavi dir 0 rival one = (two, Ok (Some rival)).
Proof. apply answered. vm_compute. reflexivity. Qed.

Lemma pair_plain e : e ∈ pair_of → plain_names e.
Proof. intros [->|[->|?%elem_of_nil]%elem_of_cons]%elem_of_cons; [apply status_plain|apply linked_plain|done]. Qed.
Lemma pair_distinct : NoDup (index <$> pair_of).
Proof. by_decide. Qed.
Lemma none_plain e : e ∈ @nil Eavi → plain_names e.
Proof. by intros ?%elem_of_nil. Qed.

Lemma file_storage_agrees_witness :
  file_fetch_eavi dir EaviQuery_default both = Ok (run EaviQuery_default (btree_collect pair_of)) ∧
  file_fetch_eavi dir EaviQuery_default both = fetch_eavi (EavMemoryStorage.Mk [linked; status]) EaviQuery_default.
Proof.
  exact (file_storage_agrees dir dir_is_plain 0 pair_of both (EavMemoryStorage.Mk [linked; status])
    EaviQuery_default pair_plain pair_distinct both_added eq_refl).
Defined.

Lemma shared_index_hides_witness :
  linked ≠ rival ∧ ∀ q l, file_fetch_eavi dir q two = Ok l → ¬ (linked ∈ l ∧ rival ∈ l).
Proof.
  assert (linked ≠ rival) as Hne by discriminate. split; [exact Hne|].
  exact (proj2 (proj2 (proj2 (shared_index_hides dir dir_is_plain 0 linked rival ∅ [] one two (Some linked) (Some rival)
    (represents_nil dir) none_plain linked_plain rival_plain (λ x Hx, match not_elem_of_nil x Hx with end)
    eq_refl Hne one_added two_added)))).
Defined.

(** A link whose tag has a slash passes the validation of its attribute, is added, and is
    never found. *)
Example slashed_tag_is_lost :
  eavi_new 3 "b" (LinkTag "l" "x/y") "t" = Ok sliced ∧
  (file_add_eavi dir 0 sliced ∅).2 = Ok (Some sliced) ∧
  file_fetch_eavi dir EaviQuery_default (file_add_eavi dir 0 sliced ∅).1 = Ok [].
Proof. split_and!; vm_compute; reflexivity. Qed.

(** A link whose base is made of parent directories is written outside of the storage. *)
Example base_escapes_storage :
  bool_decide (["etc"; "2"; "Qm2.txt"] ∈
    everything (file_add_eavi dir 0 (MkEavi "../../../etc" CrudStatusAttr "live" 2) ∅).1) = true.
Proof. vm_compute. reflexivity. Qed.
End FilesDemo.
