(* ===== verification/Protocol.v ===== *)
(** * The protocol between the core and the network module

    [net/src/connection/json_protocol.rs]: the messages, with the fields the
    source gives them.  [Json] is [serde_json::Value]. *)
From S2P Require Import Prelude Eav.

Section protocol.
Context {Json : Type}.

Record StateData := MkStateData { sd_state : string; sd_id : string; sd_bindings : list string }.

Record MessageData := MkMessageData {
  msg_dna_address : Address;
  msg_request_id : string;
  msg_to_agent_id : string;
  msg_from_agent_id : string;
  msg_content : Json;
}.

Record TrackDnaData := MkTrackDnaData { td_dna_address : Address; td_agent_id : string }.

Record SuccessResultData := MkSuccessResultData {
  sr_dna_address : Address;
  sr_request_id : string;
  sr_to_agent_id : string;
  sr_success_info : Json;
}.

Record FailureResultData := MkFailureResultData {
  fr_dna_address : Address;
  fr_request_id : string;
  fr_to_agent_id : string;
  fr_error_info : Json;
}.

Record DropEntryData := MkDropEntryData {
  de_dna_address : Address;
  de_request_id : string;
  de_entry_address : Address;
}.

Record FetchEntryData := MkFetchEntryData {
  fe_dna_address : Address;
  fe_request_id : string;
  fe_requester_agent_id : string;
  fe_entry_address : Address;
}.

Record EntryData := MkEntryData {
  ed_dna_address : Address;
  ed_provider_agent_id : string;
  ed_entry_address : Address;
  ed_entry_content : Json;
}.

Record FetchEntryResultData := MkFetchEntryResultData {
  fer_dna_address : Address;
  fer_request_id : string;
  fer_requester_agent_id : string;
  fer_provider_agent_id : string;
  fer_entry_address : Address;
  fer_entry_content : Json;
}.

Record FetchMetaData := MkFetchMetaData {
  fm_dna_address : Address;
  fm_request_id : string;
  fm_requester_agent_id : string;
  fm_entry_address : Address;
  fm_attribute : string;
}.

Record DhtMetaData := MkDhtMetaData {
  dm_dna_address : Address;
  dm_provider_agent_id : string;
  dm_entry_address : Address;
  dm_attribute : string;
  dm_content_list : list Json;
}.

Record FetchMetaResultData := MkFetchMetaResultData {
  fmr_dna_address : Address;
  fmr_request_id : string;
  fmr_requester_agent_id : string;
  fmr_provider_agent_id : string;
  fmr_entry_address : Address;
  fmr_attribute : string;
  fmr_content_list : list Json;
}.

Record DropMetaData := MkDropMetaData {
  dpm_dna_address : Address;
  dpm_request_id : string;
  dpm_entry_address : Address;
  dpm_attribute : string;
}.

Record GetListData := MkGetListData { gl_dna_address : Address; gl_request_id : string }.

Record EntryListData := MkEntryListData {
  el_dna_address : Address;
  el_request_id : string;
  el_entry_address_list : list Address;
}.

(** [MetaTuple]: entry address, attribute, content. *)
Abbreviation MetaTuple := (Address * string * Json)%type.
Abbreviation MetaKey := (Address * string)%type.

Record MetaListData := MkMetaListData {
  ml_dna_address : Address;
  ml_request_id : string;
  ml_meta_list : list MetaTuple;
}.

Inductive JsonProtocol :=
| SuccessResult (d : SuccessResultData)
| FailureResult (d : FailureResultData)
| TrackDna (d : TrackDnaData)
| UntrackDna (d : TrackDnaData)
| Connect (peer_address : string)
| PeerConnected (agent_id : string)
| GetState
| GetStateResult (d : StateData)
| GetDefaultConfig
| GetDefaultConfigResult (config : string)
| SetConfig (config : string)
| SendMessage (d : MessageData)
| SendMessageResult (d : MessageData)
| HandleSendMessage (d : MessageData)
| HandleSendMessageResult (d : MessageData)
| FetchEntry (d : FetchEntryData)
| FetchEntryResult (d : FetchEntryResultData)
| HandleFetchEntry (d : FetchEntryData)
| HandleFetchEntryResult (d : FetchEntryResultData)
| PublishEntry (d : EntryData)
| HandleStoreEntry (d : EntryData)
| HandleDropEntry (d : DropEntryData)
| FetchMeta (d : FetchMetaData)
| FetchMetaResult (d : FetchMetaResultData)
| HandleFetchMeta (d : FetchMetaData)
| HandleFetchMetaResult (d : FetchMetaResultData)
| PublishMeta (d : DhtMetaData)
| HandleStoreMeta (d : DhtMetaData)
| HandleDropMeta (d : DropMetaData)
| HandleGetPublishingEntryList (d : GetListData)
| HandleGetPublishingEntryListResult (d : EntryListData)
| HandleGetHoldingEntryList (d : GetListData)
| HandleGetHoldingEntryListResult (d : EntryListData)
| HandleGetPublishingMetaList (d : GetListData)
| HandleGetPublishingMetaListResult (d : MetaListData)
| HandleGetHoldingMetaList (d : GetListData)
| HandleGetHoldingMetaListResult (d : MetaListData).
End protocol.
Arguments MessageData Json : clear implicits.
Arguments SuccessResultData Json : clear implicits.
Arguments FailureResultData Json : clear implicits.
Arguments EntryData Json : clear implicits.
Arguments FetchEntryResultData Json : clear implicits.
Arguments DhtMetaData Json : clear implicits.
Arguments FetchMetaResultData Json : clear implicits.
Arguments MetaListData Json : clear implicits.
Arguments JsonProtocol Json : clear implicits.
