(* ===== verification/MemoryNet.v ===== *)
(** * The in-memory network

    [net/src/in_memory]: the server that connects the nodes of one process
    ([memory_server.rs]), its books ([memory_book.rs]) and the workers through which the
    nodes talk to it ([memory_worker.rs]).

    An [mpsc] channel is a number; [channels] holds the queue of every channel whose
    receiver is alive, and sending to another one fails.  The state a call has reached
    is kept when it returns early and when it panics: a panic poisons the lock of the
    server but the messages that were sent stay in their channels. *)
From S2P Require Import Prelude Eav Protocol.

(** ** Messages of the connection *)

(** [serde_json] on values: [json!(null)], [json!(String)] and [Display]. *)
Class JsonValues (Json : Type) := {
  json_null : Json;
  json_string : string → Json;
  json_display : Json → string;
}.

(** [Protocol]; [Text] is [JsonString], and the data of a ping and a pong are the bits of
    their [f64]s. *)
Inductive Protocol (Text : Type) :=
| NamedBinary (name data : list Z)
| JsonText (json : Text)
| Ping (sent : Z)
| Pong (orig recv : Z)
| P2pReady
| Shutdown
| Terminated.

Arguments NamedBinary {Text} name data.
Arguments JsonText {Text} json.
Arguments Ping {Text} sent.
Arguments Pong {Text} orig recv.
Arguments P2pReady {Text}.
Arguments Shutdown {Text}.
Arguments Terminated {Text}.

(** [serde_json] on messages, and that a message survives its text. *)
Class MessageText (Json Text : Type) := {
  text_of_message : JsonProtocol Json → Text;
  message_of_text : Text → option (JsonProtocol Json);
  message_text_roundtrip m : message_of_text (text_of_message m) = Some m;
}.

Section messages.
Context {Json Text : Type} `{!MessageText Json Text}.

(** [From<JsonProtocol> for Protocol] and [TryFrom<&Protocol> for JsonProtocol]. *)
Definition into (m : JsonProtocol Json) : Protocol Text := JsonText (text_of_message m).
Definition try_from (p : Protocol Text) : option (JsonProtocol Json) :=
  match p with JsonText json => message_of_text json | _ => None end.
End messages.

(** ** Books *)
Abbreviation CellId := string.
Abbreviation MetaId := Address.

Definition into_cell_id (dna_address : Address) (agent_id : string) : CellId :=
  dna_address +:+ "::" +:+ agent_id.

Definition into_meta_id {Json} `{!JsonValues Json} (meta_tuple : Address * string * Json) : MetaId :=
  let '(entry_address, attribute, content) := meta_tuple in
  entry_address +:+ "||" +:+ attribute +:+ "||" +:+ json_display content.

Abbreviation EntryBook := (gmap Address (gset Address)).
Abbreviation CellBook := (gmap CellId EntryBook).

Definition bookkeep_with_cell_id (cell_book : CellBook) (cell_id : CellId)
    (base_address data_address : Address) : CellBook :=
  match cell_book !! cell_id with
  | Some entry_book =>
      match entry_book !! base_address with
      | Some meta_set => <[cell_id := <[base_address := {[data_address]} ∪ meta_set]> entry_book]> cell_book
      | None => <[cell_id := <[base_address := {[data_address]}]> entry_book]> cell_book
      end
  | None => <[cell_id := {[base_address := {[data_address]}]}]> cell_book
  end.

Definition bookkeep (cell_book : CellBook) (dna_address : Address) (agent_id : string)
    (base_address data_address : Address) : CellBook :=
  bookkeep_with_cell_id cell_book (into_cell_id dna_address agent_id) base_address data_address.

Definition book_has (cell_book : CellBook) (cell_id : CellId)
    (base_address data_address : Address) : bool :=
  match cell_book !! cell_id with
  | None => false
  | Some entry_book =>
      match entry_book !! base_address with
      | None => false
      | Some meta_set => bool_decide (data_address ∈ meta_set)
      end
  end.

Definition book_has_entry (cell_book : CellBook) (cell_id : CellId) (entry_address : Address) : bool :=
  book_has cell_book cell_id entry_address entry_address.

Definition unbookkeep_address (cell_book : CellBook) (dna_address : Address) (agent_id : string)
    (base_address data_address : Address) : CellBook * bool :=
  let cell_id := into_cell_id dna_address agent_id in
  match cell_book !! cell_id with
  | Some entry_book =>
      match entry_book !! base_address with
      | Some meta_set =>
          (<[cell_id := <[base_address := meta_set ∖ {[data_address]}]> entry_book]> cell_book,
           bool_decide (data_address ∈ meta_set))
      | None => (cell_book, false)
      end
  | None => (cell_book, false)
  end.

(** ** The server *)

(** The errors that the code makes, and that of a channel without a receiver. *)
Inductive NetError :=
| GenericError (error : string)
| Formatted (text : string)
| SendError
| HandlerError (text : string).

Abbreviation Channel := nat.

Record InMemoryServer := MkServer {
  senders : gmap CellId Channel;
  senders_by_dna : gmap Address (gmap string Channel);
  server_name : string;
  client_count : N;
  published_book : CellBook;
  stored_book : CellBook;
  trackdna_book : gset CellId;
  request_book : gmap string CellId;
  request_count : N;
}.

Definition server_new (name : string) : InMemoryServer :=
  MkServer ∅ ∅ name 0 ∅ ∅ ∅ ∅ 0.

Definition with_senders (f : gmap CellId Channel → gmap CellId Channel) (s : InMemoryServer) :=
  MkServer (f (senders s)) (senders_by_dna s) (server_name s) (client_count s) (published_book s)
    (stored_book s) (trackdna_book s) (request_book s) (request_count s).
Definition with_senders_by_dna f (s : InMemoryServer) :=
  MkServer (senders s) (f (senders_by_dna s)) (server_name s) (client_count s) (published_book s)
    (stored_book s) (trackdna_book s) (request_book s) (request_count s).
Definition with_client_count f (s : InMemoryServer) :=
  MkServer (senders s) (senders_by_dna s) (server_name s) (f (client_count s)) (published_book s)
    (stored_book s) (trackdna_book s) (request_book s) (request_count s).
Definition with_published_book f (s : InMemoryServer) :=
  MkServer (senders s) (senders_by_dna s) (server_name s) (client_count s) (f (published_book s))
    (stored_book s) (trackdna_book s) (request_book s) (request_count s).
Definition with_stored_book f (s : InMemoryServer) :=
  MkServer (senders s) (senders_by_dna s) (server_name s) (client_count s) (published_book s)
    (f (stored_book s)) (trackdna_book s) (request_book s) (request_count s).
Definition with_trackdna_book f (s : InMemoryServer) :=
  MkServer (senders s) (senders_by_dna s) (server_name s) (client_count s) (published_book s)
    (stored_book s) (f (trackdna_book s)) (request_book s) (request_count s).
Definition with_requests f n (s : InMemoryServer) :=
  MkServer (senders s) (senders_by_dna s) (server_name s) (client_count s) (published_book s)
    (stored_book s) (trackdna_book s) (f (request_book s)) n.

(** The server behind its lock, with the channels it writes to. *)
Section code.
Context {Text : Type}.
Abbreviation Channels := (gmap Channel (list (Protocol Text))).

Record Served := MkServed { server : InMemoryServer; channels : Channels }.

Definition with_server (f : InMemoryServer → InMemoryServer) (w : Served) : Served :=
  MkServed (f (server w)) (channels w).

(** Code of the server: it may panic, return early with an error, or return. *)
Definition serving (A : Type) : Type := Served → Served * outcome (result NetError A).

#[global] Instance serving_ret : MRet serving := λ A a w, (w, Done (Ok a)).
#[global] Instance serving_bind : MBind serving := λ A B f m w,
  match m w with
  | (w', Done (Ok a)) => f a w'
  | (w', Done (Err e)) => (w', Done (Err e))
  | (w', Panicked why) => (w', Panicked why)
  end.

Definition the_server : serving InMemoryServer := λ w, (w, Done (Ok (server w))).
Definition change (f : InMemoryServer → InMemoryServer) : serving unit :=
  λ w, (with_server f w, Done (Ok tt)).
Definition fails {A} (e : NetError) : serving A := λ w, (w, Done (Err e)).
Definition panics_with {A} (why : string) : serving A := λ w, (w, Panicked why).

(** [result.expect(why)]. *)
Definition expecting {A} (m : serving A) (why : string) : serving A := λ w,
  match m w with
  | (w', Done (Err _)) => (w', Panicked why)
  | r => r
  end.

Fixpoint each {A} (body : A → serving unit) (xs : list A) : serving unit :=
  match xs with
  | [] => mret tt
  | x :: xs => body x ;; each body xs
  end.

(** [mpsc::Sender::send]. *)
Definition send (c : Channel) (data : Protocol Text) : serving unit := λ w,
  match channels w !! c with
  | Some queue => (MkServed (server w) (<[c := queue ++ [data]]> (channels w)), Done (Ok tt))
  | None => (w, Done (Err SendError))
  end.

End code.
Arguments Served Text : clear implicits.
Arguments serving Text A : clear implicits.

Section serving.
Context {Json Text : Type} `{!JsonValues Json, !MessageText Json Text}.
Abbreviation serving := (serving Text).

(** The order in which a map of senders is iterated over. *)
Context (order : gmap string Channel → list (string * Channel)).

(** *** Requests of the server *)
Definition priv_generate_request_id : serving string :=
  s ← the_server;
  let n := (request_count s + 1)%N in
  if decide (n < 2 ^ 64)%N then
    change (with_requests id n) ;; mret ("req_" +:+ pretty n)
  else panics_with "attempt to add with overflow".

Definition priv_create_request_with_cell_id (cell_id : CellId) : serving string :=
  req_id ← priv_generate_request_id;
  change (λ s, with_requests <[req_id := cell_id]> (request_count s) s) ;;
  mret req_id.

Definition priv_create_request (dna_address : Address) (agent_id : string) : serving string :=
  priv_create_request_with_cell_id (into_cell_id dna_address agent_id).

Definition priv_check_request (s : InMemoryServer) (request_id : string) : option CellId :=
  request_book s !! request_id.

(** *** Sending *)
Definition priv_send_one_with_cell_id (cell_id : CellId) (data : Protocol Text) : serving unit :=
  s ← the_server;
  match senders s !! cell_id with
  | None => fails (Formatted ("(" +:+ server_name s +:+ ") No sender channel found for " +:+ cell_id))
  | Some sender => send sender data
  end.

Definition priv_send_one (dna_address : Address) (to_agent_id : string) (data : Protocol Text) :
    serving unit :=
  priv_send_one_with_cell_id (into_cell_id dna_address to_agent_id) data.

Definition priv_send_all (dna_address : Address) (data : Protocol Text) : serving unit :=
  s ← the_server;
  match senders_by_dna s !! dna_address with
  | Some arr => each (λ kv, send kv.2 data) (order arr)
  | None => mret tt
  end.

Definition priv_check_or_fail (dna_address : Address) (agent_id : string)
    (maybe_sender_info : option (string * option string)) : serving bool :=
  s ← the_server;
  if decide (into_cell_id dna_address agent_id ∈ trackdna_book s) then mret true
  else
    match maybe_sender_info with
    | None => fails (GenericError "DNA not tracked by agent and no sender info.")
    | Some (sender_agent_id, sender_request_id) =>
        priv_send_one dna_address sender_agent_id (into (FailureResult
          (MkFailureResultData dna_address (default "" sender_request_id) sender_agent_id
             (json_string "DNA not tracked by agent")))) ;;
        mret false
    end.

(** The lists that a new cell is asked for. *)
Definition list_requests : list ((GetListData → JsonProtocol Json) * string) :=
  [(HandleGetPublishingEntryList, "Sending HandleGetPublishingEntryList failed");
   (HandleGetHoldingEntryList, "Sending HandleGetHoldingEntryList failed");
   (HandleGetPublishingMetaList, "Sending HandleGetPublishingMetaList failed");
   (HandleGetHoldingMetaList, "Sending HandleGetHoldingMetaList failed")].

Definition priv_request_all_lists (dna_address : Address) (agent_id : string) : serving unit :=
  each (λ kind,
    request_id ← priv_create_request dna_address agent_id;
    expecting (priv_send_one dna_address agent_id
      (into (kind.1 (MkGetListData dna_address request_id)))) kind.2) list_requests.

(** *** Clients *)
Definition clock_in : serving unit :=
  s ← the_server;
  if decide (client_count s + 1 < 2 ^ 64)%N then change (with_client_count (λ n, n + 1)%N)
  else panics_with "attempt to add with overflow".

Definition clock_out : serving unit :=
  s ← the_server;
  if decide (0 < client_count s)%N then
    change (with_client_count (λ n, n - 1)%N) ;;
    s ← the_server;
    if decide (client_count s = 0)%N then
      change (with_senders (λ _, ∅)) ;; change (with_senders_by_dna (λ _, ∅))
    else mret tt
  else panics_with "assertion failed: self.client_count > 0".

Definition register_cell (dna_address : Address) (agent_id : string) (sender : Channel) :
    serving unit :=
  change (with_senders <[into_cell_id dna_address agent_id := sender]>) ;;
  change (with_senders_by_dna (λ by_dna,
    match by_dna !! dna_address with
    | Some agents => <[dna_address := <[agent_id := sender]> agents]> by_dna
    | None => <[dna_address := {[agent_id := sender]}]> by_dna
    end)).

Definition unregister_cell (dna_address : Address) (agent_id : string) : serving unit :=
  let cell_id := into_cell_id dna_address agent_id in
  s ← the_server;
  match senders s !! cell_id with
  | None => mret tt
  | Some _ =>
      change (with_senders (delete cell_id)) ;;
      match senders_by_dna s !! dna_address with
      | Some agents => change (with_senders_by_dna <[dna_address := delete agent_id agents]>)
      | None => panics_with "internal error: entered unreachable code"
      end
  end.

(** *** Direct messages *)
Definition priv_serve_SendMessage (msg : MessageData Json) : serving unit :=
  let sender_info := Some (msg_from_agent_id msg, Some (msg_request_id msg)) in
  is_tracking ← priv_check_or_fail (msg_dna_address msg) (msg_from_agent_id msg) sender_info;
  if is_tracking : bool then
    is_tracking ← priv_check_or_fail (msg_dna_address msg) (msg_to_agent_id msg) sender_info;
    if is_tracking : bool then
      priv_send_one (msg_dna_address msg) (msg_to_agent_id msg) (into (HandleSendMessage msg))
    else mret tt
  else mret tt.

Definition priv_serve_HandleSendMessageResult (msg : MessageData Json) : serving unit :=
  let sender_info := Some (msg_from_agent_id msg, Some (msg_request_id msg)) in
  is_tracking ← priv_check_or_fail (msg_dna_address msg) (msg_from_agent_id msg) sender_info;
  if is_tracking : bool then
    is_tracking ← priv_check_or_fail (msg_dna_address msg) (msg_to_agent_id msg) sender_info;
    if is_tracking : bool then
      priv_send_one (msg_dna_address msg) (msg_to_agent_id msg) (into (SendMessageResult msg))
    else mret tt
  else mret tt.

(** *** Entries *)
Definition priv_serve_PublishEntry (msg : EntryData Json) : serving unit :=
  is_tracking ← priv_check_or_fail (ed_dna_address msg) (ed_provider_agent_id msg)
    (Some (ed_provider_agent_id msg, None));
  if is_tracking : bool then
    change (with_published_book (λ book,
      bookkeep book (ed_dna_address msg) (ed_provider_agent_id msg)
        (ed_entry_address msg) (ed_entry_address msg))) ;;
    priv_send_all (ed_dna_address msg) (into (HandleStoreEntry msg))
  else mret tt.

(** The first cell of the DNA answers; [none] runs when there is none. *)
Definition ask_first (dna_address : Address) (data : Protocol Text) (none : serving unit) : serving unit :=
  s ← the_server;
  match senders_by_dna s !! dna_address with
  | Some agents =>
      match order agents with
      | (_, r) :: _ => send r data
      | [] => none
      end
  | None => panics_with "internal error: entered unreachable code"
  end.

Definition priv_serve_FetchEntry (msg : FetchEntryData) : serving unit :=
  is_tracking ← priv_check_or_fail (fe_dna_address msg) (fe_requester_agent_id msg)
    (Some (fe_requester_agent_id msg, Some (fe_request_id msg)));
  if is_tracking : bool then
    ask_first (fe_dna_address msg) (into (HandleFetchEntry msg))
      (priv_send_one (fe_dna_address msg) (fe_requester_agent_id msg)
        (into (FetchEntryResult (MkFetchEntryResultData (fe_dna_address msg) (fe_request_id msg)
          (fe_requester_agent_id msg) (fe_requester_agent_id msg) (fe_entry_address msg) json_null))))
  else mret tt.

Definition priv_serve_HandleFetchEntryResult (msg : FetchEntryResultData Json) : serving unit :=
  let sender_info := Some (fer_provider_agent_id msg, Some (fer_request_id msg)) in
  is_tracking ← priv_check_or_fail (fer_dna_address msg) (fer_provider_agent_id msg) sender_info;
  if is_tracking : bool then
    is_tracking ←
      (if decide (fer_requester_agent_id msg = "") then mret true
       else priv_check_or_fail (fer_dna_address msg) (fer_requester_agent_id msg) sender_info);
    if is_tracking : bool then
      s ← the_server;
      match request_book s !! fer_request_id msg with
      | Some _ =>
          priv_serve_PublishEntry (MkEntryData (fer_dna_address msg) (fer_provider_agent_id msg)
            (fer_entry_address msg) (fer_entry_content msg))
      | None =>
          priv_send_one (fer_dna_address msg) (fer_requester_agent_id msg) (into (FetchEntryResult msg))
      end
    else mret tt
  else mret tt.

(** *** Metadata *)
Definition priv_serve_PublishMeta (msg : DhtMetaData Json) : serving unit :=
  is_tracking ← priv_check_or_fail (dm_dna_address msg) (dm_provider_agent_id msg)
    (Some (dm_provider_agent_id msg, None));
  if is_tracking : bool then
    each (λ content, change (with_published_book (λ book,
      bookkeep book (dm_dna_address msg) (dm_provider_agent_id msg) (dm_entry_address msg)
        (into_meta_id (dm_entry_address msg, dm_attribute msg, content))))) (dm_content_list msg) ;;
    priv_send_all (dm_dna_address msg) (into (HandleStoreMeta msg))
  else mret tt.

Definition priv_serve_FetchMeta (msg : FetchMetaData) : serving unit :=
  is_tracking ← priv_check_or_fail (fm_dna_address msg) (fm_requester_agent_id msg)
    (Some (fm_requester_agent_id msg, Some (fm_request_id msg)));
  if is_tracking : bool then
    ask_first (fm_dna_address msg) (into (HandleFetchMeta msg))
      (priv_send_one (fm_dna_address msg) (fm_requester_agent_id msg)
        (into (FetchMetaResult (MkFetchMetaResultData (fm_dna_address msg) (fm_request_id msg)
          (fm_requester_agent_id msg) (fm_requester_agent_id msg) (fm_entry_address msg)
          (fm_attribute msg) [json_null]))))
  else mret tt.

Definition priv_resolve_HandleFetchMetaResult (msg : FetchMetaResultData Json) : serving unit :=
  let cell_id := into_cell_id (fmr_dna_address msg) (fmr_provider_agent_id msg) in
  each (λ meta_content,
    let meta_id := into_meta_id (fmr_entry_address msg, fmr_attribute msg, meta_content) in
    s ← the_server;
    if book_has (published_book s) cell_id (fmr_entry_address msg) meta_id then mret tt
    else priv_serve_PublishMeta (MkDhtMetaData (fmr_dna_address msg) (fmr_provider_agent_id msg)
           (fmr_entry_address msg) (fmr_attribute msg) [meta_content])) (fmr_content_list msg).

Definition priv_serve_HandleFetchMetaResult (msg : FetchMetaResultData Json) : serving unit :=
  let sender_info := Some (fmr_provider_agent_id msg, Some (fmr_request_id msg)) in
  is_tracking ← priv_check_or_fail (fmr_dna_address msg) (fmr_provider_agent_id msg) sender_info;
  if is_tracking : bool then
    is_tracking ←
      (if decide (fmr_requester_agent_id msg = "") then mret true
       else priv_check_or_fail (fmr_dna_address msg) (fmr_requester_agent_id msg) sender_info);
    if is_tracking : bool then
      s ← the_server;
      match request_book s !! fmr_request_id msg with
      | Some _ => priv_resolve_HandleFetchMetaResult msg
      | None =>
          priv_send_one (fmr_dna_address msg) (fmr_requester_agent_id msg) (into (FetchMetaResult msg))
      end
    else mret tt
  else mret tt.

(** *** Answers to the requests for lists *)
Definition our_request (request_id : string) : serving CellId :=
  s ← the_server;
  match priv_check_request s request_id with
  | Some cell_id => mret cell_id
  | None => panics_with "Not our request"
  end.

Definition priv_serve_HandleGetPublishingEntryListResult (msg : EntryListData) : serving unit :=
  cell_id ← our_request (el_request_id msg);
  each (λ entry_address,
    s ← the_server;
    if book_has_entry (published_book s) cell_id entry_address then mret tt
    else
      request_id ← priv_create_request_with_cell_id cell_id;
      priv_send_one_with_cell_id cell_id (into (HandleFetchEntry
        (MkFetchEntryData (el_dna_address msg) request_id "" entry_address)))) (el_entry_address_list msg).

Definition priv_serve_HandleGetHoldingEntryListResult (msg : EntryListData) : serving unit :=
  cell_id ← our_request (el_request_id msg);
  each (λ entry_address,
    s ← the_server;
    if book_has_entry (stored_book s) cell_id entry_address then mret tt
    else change (with_stored_book (λ book,
           bookkeep_with_cell_id book cell_id entry_address entry_address))) (el_entry_address_list msg).

(** One round over the list; [requested] are the keys already asked for. *)
Fixpoint request_metas (cell_id : CellId) (dna_address : Address)
    (metas : list (Address * string * Json)) (requested : list (Address * string)) : serving unit :=
  match metas with
  | [] => mret tt
  | meta_tuple :: metas =>
      let '(entry_address, attribute, _) := meta_tuple in
      s ← the_server;
      if book_has (published_book s) cell_id entry_address (into_meta_id meta_tuple) then
        request_metas cell_id dna_address metas requested
      else if decide ((entry_address, attribute) ∈ requested) then
        request_metas cell_id dna_address metas requested
      else
        request_id ← priv_create_request_with_cell_id cell_id;
        priv_send_one_with_cell_id cell_id (into (HandleFetchMeta
          (MkFetchMetaData dna_address request_id "" entry_address attribute))) ;;
        request_metas cell_id dna_address metas (requested ++ [(entry_address, attribute)])
  end.

Definition priv_serve_HandleGetPublishingMetaListResult (msg : MetaListData Json) : serving unit :=
  cell_id ← our_request (ml_request_id msg);
  request_metas cell_id (ml_dna_address msg) (ml_meta_list msg) [].

Definition priv_serve_HandleGetHoldingMetaListResult (msg : MetaListData Json) : serving unit :=
  cell_id ← our_request (ml_request_id msg);
  each (λ meta_tuple : Address * string * Json,
    let meta_id := into_meta_id meta_tuple in
    s ← the_server;
    if book_has (stored_book s) cell_id meta_tuple.1.1 meta_id then mret tt
    else change (with_stored_book (λ book,
           bookkeep_with_cell_id book cell_id meta_tuple.1.1 meta_id))) (ml_meta_list msg).

(** *** One message *)
Definition serve_message (m : JsonProtocol Json) : serving unit :=
  match m with
  | SuccessResult msg =>
      is_tracked ← priv_check_or_fail (sr_dna_address msg) (sr_to_agent_id msg) None;
      if is_tracked : bool then
        priv_send_one (sr_dna_address msg) (sr_to_agent_id msg) (into (SuccessResult msg))
      else mret tt
  | FailureResult msg =>
      is_tracked ← priv_check_or_fail (fr_dna_address msg) (fr_to_agent_id msg) None;
      if is_tracked : bool then
        s ← the_server;
        match priv_check_request s (fr_request_id msg) with
        | Some _ => mret tt
        | None => priv_send_one (fr_dna_address msg) (fr_to_agent_id msg) (into (FailureResult msg))
        end
      else mret tt
  | TrackDna msg =>
      let cell_id := into_cell_id (td_dna_address msg) (td_agent_id msg) in
      s ← the_server;
      if decide (cell_id ∈ trackdna_book s) then mret tt
      else
        change (with_trackdna_book (λ book, {[cell_id]} ∪ book)) ;;
        priv_send_all (td_dna_address msg) (into (PeerConnected (td_agent_id msg))) ;;
        priv_request_all_lists (td_dna_address msg) (td_agent_id msg)
  | UntrackDna msg =>
      let cell_id := into_cell_id (td_dna_address msg) (td_agent_id msg) in
      s ← the_server;
      if decide (cell_id ∈ trackdna_book s) then
        change (with_trackdna_book (λ book, book ∖ {[cell_id]}))
      else mret tt
  | SendMessage msg => priv_serve_SendMessage msg
  | HandleSendMessageResult msg => priv_serve_HandleSendMessageResult msg
  | FetchEntry msg => priv_serve_FetchEntry msg
  | HandleFetchEntryResult msg => priv_serve_HandleFetchEntryResult msg
  | PublishEntry msg => priv_serve_PublishEntry msg
  | FetchMeta msg => priv_serve_FetchMeta msg
  | HandleFetchMetaResult msg => priv_serve_HandleFetchMetaResult msg
  | PublishMeta msg => priv_serve_PublishMeta msg
  | HandleGetPublishingEntryListResult msg => priv_serve_HandleGetPublishingEntryListResult msg
  | HandleGetHoldingEntryListResult msg => priv_serve_HandleGetHoldingEntryListResult msg
  | HandleGetPublishingMetaListResult msg => priv_serve_HandleGetPublishingMetaListResult msg
  | HandleGetHoldingMetaListResult msg => priv_serve_HandleGetHoldingMetaListResult msg
  | _ => mret tt
  end.

Definition serve (data : Protocol Text) : serving unit :=
  match try_from data with
  | None => mret tt
  | Some m => serve_message m
  end.
End serving.
