(* ===== verification/MemoryWorker.v ===== *)
(** * Workers of the in-memory network

    [net/src/in_memory/memory_worker.rs]: a node's connection to the in-memory server of
    a name.  The servers of the process are behind one map with a lock of its own, and
    each has its lock: a panic poisons the lock that is held, and a poisoned lock makes
    every later user panic. *)
From S2P Require Import Prelude Eav Protocol MemoryNet.

Section worker.
Context {Json Text : Type} `{!JsonValues Json, !MessageText Json Text}.
Abbreviation Protocol := (Protocol Text).
Abbreviation Served := (Served Text).
Abbreviation serving := (serving Text).

(** [NetHandler]: the answer to a message after those the node was given before.  [handled]
    are the messages given to it so far, oldest first. *)
Definition NetHandler : Type := list Protocol → Protocol → result NetError unit.

Record InMemoryWorker := MkWorker {
  handler : NetHandler;
  receiver_per_dna : gmap Address Channel;
  worker_server : string;
  can_send_P2pReady : bool;
  handled : list Protocol;
}.

(** The process: [MEMORY_SERVER_MAP] with the poison flags, the channels and the workers. *)
Record World := MkWorld {
  servers : gmap string (InMemoryServer * bool);
  map_poisoned : bool;
  world_channels : gmap Channel (list Protocol);
  next_channel : Channel;
  workers : gmap nat InMemoryWorker;
}.

Definition world_new : World := MkWorld ∅ false ∅ 0 ∅.

Definition poison_error : string := "called `Result::unwrap()` on an `Err` value: PoisonError".

(** [server_map.get(name).expect(why).lock().unwrap()]. *)
Definition lock (w : World) (name why : string) : outcome InMemoryServer :=
  match servers w !! name with
  | None => Panicked why
  | Some (_, true) => Panicked poison_error
  | Some (s, false) => Done s
  end.

(** The guard is dropped; it poisons the lock when the holder panics. *)
Definition unlock (w : World) (name : string) (sv : Served) (poisoned : bool) : World :=
  MkWorld (<[name := (server sv, poisoned)]> (servers w)) (map_poisoned w) (channels sv)
    (next_channel w) (workers w).


Abbreviation serve := (serve (Json := Json)).

(** The orders in which maps are iterated over during one call. *)
Record Orders := MkOrders {
  agents_order : gmap string Channel → list (string * Channel);
  dnas_order : gmap Address Channel → list (Address * Channel);
}.

(** A worker that works on the world. *)
Definition working (A : Type) : Type :=
  InMemoryWorker → World → InMemoryWorker * World * outcome (result NetError A).

#[local] Instance working_ret : MRet working := λ A a k w, (k, w, Done (Ok a)).
#[local] Instance working_bind : MBind working := λ A B f m k w,
  match m k w with
  | (k', w', Done (Ok a)) => f a k' w'
  | (k', w', Done (Err e)) => (k', w', Done (Err e))
  | (k', w', Panicked why) => (k', w', Panicked why)
  end.

(** [self.handler.handle(Ok(data))]. *)
Definition handle (data : Protocol) : working unit := λ k w,
  (MkWorker (handler k) (receiver_per_dna k) (worker_server k) (can_send_P2pReady k) (handled k ++ [data]), w,
   Done (handler k (handled k) data)).

(** [f] on the locked server; [why] is what a missing server says. *)
Definition locked (why : string) (f : serving unit) : working unit := λ k w,
  if map_poisoned w then (k, w, Panicked poison_error)
  else
    match lock w (worker_server k) why with
    | Panicked why => (k, w, Panicked why)
    | Done s =>
        let '(sv, r) := f (MkServed s (world_channels w)) in
        (k, unlock w (worker_server k) sv (panics r), r)
    end.

(** A new channel for the messages about a DNA. *)
Definition open_channel (dna_address : Address) : working Channel := λ k w,
  let c := next_channel w in
  (MkWorker (handler k) (<[dna_address := c]> (receiver_per_dna k)) (worker_server k) (can_send_P2pReady k) (handled k),
   MkWorld (servers w) (map_poisoned w) (<[c := []]> (world_channels w)) (S c) (workers w),
   Done (Ok c)).

Definition close_channel (dna_address : Address) (c : Channel) : working unit := λ k w,
  (MkWorker (handler k) (delete dna_address (receiver_per_dna k)) (worker_server k) (can_send_P2pReady k) (handled k),
   MkWorld (servers w) (map_poisoned w) (delete c (world_channels w)) (next_channel w) (workers w),
   Done (Ok tt)).

Definition the_receiver (dna_address : Address) : working (option Channel) := λ k w,
  (k, w, Done (Ok (receiver_per_dna k !! dna_address))).

(** The three parts of [receive]: a DNA that is new to this worker gets a channel, the
    message is served, and a DNA that is given up loses its channel.  The source holds the
    guard of the server over all three; nothing else runs between them here either. *)
Definition why_missing : string := "InMemoryServer should have been initialized by now".

Definition before_serve (data : Protocol) : working unit :=
  match try_from (Json := Json) data with
  | Some (TrackDna msg) =>
      r ← the_receiver (td_dna_address msg);
      match r with
      | Some _ => mret tt
      | None =>
          c ← open_channel (td_dna_address msg);
          locked why_missing (register_cell (td_dna_address msg) (td_agent_id msg) c)
      end
  | _ => mret tt
  end.

Definition after_serve (data : Protocol) : working unit :=
  match try_from (Json := Json) data with
  | Some (UntrackDna msg) =>
      r ← the_receiver (td_dna_address msg);
      match r with
      | None => mret tt
      | Some c =>
          locked why_missing (unregister_cell (td_dna_address msg) (td_agent_id msg)) ;;
          close_channel (td_dna_address msg) c
      end
  | _ => mret tt
  end.

Definition receive (orders : Orders) (data : Protocol) : working unit :=
  match data with
  | Shutdown => handle Terminated
  | _ =>
      locked why_missing (mret tt) ;;
      before_serve data ;;
      locked why_missing (serve (agents_order orders) data) ;;
      after_serve data
  end.

(** [receiver.try_recv()]. *)
Definition try_recv (c : Channel) : working (option Protocol) := λ k w,
  match world_channels w !! c with
  | Some (data :: queue) =>
      (k, MkWorld (servers w) (map_poisoned w) (<[c := queue]> (world_channels w)) (next_channel w)
            (workers w), Done (Ok (Some data)))
  | _ => (k, w, Done (Ok None))
  end.

Fixpoint poll (receivers : list (Address * Channel)) (did_something : bool) : working bool :=
  match receivers with
  | [] => mret did_something
  | (_, receiver) :: receivers =>
      r ← try_recv receiver;
      match r with
      | Some data => handle data ;; poll receivers true
      | None => poll receivers did_something
      end
  end.

Definition take_ready : working bool := λ k w,
  (MkWorker (handler k) (receiver_per_dna k) (worker_server k) false (handled k), w, Done (Ok (can_send_P2pReady k))).

Definition all_receivers (orders : Orders) : working (list (Address * Channel)) := λ k w,
  (k, w, Done (Ok (dnas_order orders (receiver_per_dna k)))).

Definition tick (orders : Orders) : working bool :=
  ready ← take_ready;
  (if ready : bool then handle P2pReady else mret tt) ;;
  receivers ← all_receivers orders;
  poll receivers false.

(** [InMemoryWorker::new], with the name that the configuration gives ([None] without one,
    an error when it is not JSON).  The map is locked for writing all along. *)
Definition worker_new (handler : NetHandler) (config : result NetError (option string)) (w : World) :
    World * outcome (result NetError InMemoryWorker) :=
  match config with
  | Err e => (w, Done (Err e))
  | Ok name =>
      let name := default "(unnamed)" name in
      if map_poisoned w then (w, Panicked poison_error)
      else
        let w1 := match servers w !! name with
          | Some _ => w
          | None => MkWorld (<[name := (server_new name, false)]> (servers w)) (map_poisoned w)
                      (world_channels w) (next_channel w) (workers w)
          end in
        let poisoned w := MkWorld (servers w) true (world_channels w) (next_channel w) (workers w) in
        match lock w1 name "InMemoryServer should exist" with
        | Panicked why => (poisoned w1, Panicked why)
        | Done s =>
            let '(sv, r) := clock_in (MkServed s (world_channels w1)) in
            let w2 := unlock w1 name sv (panics r) in
            match r with
            | Panicked why => (poisoned w2, Panicked why)
            | Done _ => (w2, Done (Ok (MkWorker handler ∅ name true [])))
            end
        end
  end.

(** [Drop for InMemoryWorker], and the receivers that go with the worker. *)
Definition worker_drop (k : InMemoryWorker) (w : World) : World * outcome (result NetError unit) :=
  let '(_, w, r) := locked "InMemoryServer should exist" clock_out k w in
  (MkWorld (servers w) (map_poisoned w)
     (filter (λ '(c, _), c ∉ map_img (SA := gset Channel) (receiver_per_dna k)) (world_channels w))
     (next_channel w) (workers w), r).

(** ** Histories *)
Inductive Event :=
| EvNew (id : nat) (handler : NetHandler) (config : result NetError (option string))
| EvReceive (id : nat) (orders : Orders) (data : Protocol)
| EvTick (id : nat) (orders : Orders)
| EvDrop (id : nat).

Definition set_worker (id : nat) (k : InMemoryWorker) (w : World) : World :=
  MkWorld (servers w) (map_poisoned w) (world_channels w) (next_channel w) (<[id := k]> (workers w)).
Definition remove_worker (id : nat) (w : World) : World :=
  MkWorld (servers w) (map_poisoned w) (world_channels w) (next_channel w) (delete id (workers w)).

Definition perform (e : Event) (w : World) : World :=
  match e with
  | EvNew id handler config =>
      match workers w !! id with
      | Some _ => w
      | None =>
          match worker_new handler config w with
          | (w', Done (Ok k)) => set_worker id k w'
          | (w', _) => w'
          end
      end
  | EvReceive id orders data =>
      match workers w !! id with
      | Some k => let '(k', w', _) := receive orders data k w in set_worker id k' w'
      | None => w
      end
  | EvTick id orders =>
      match workers w !! id with
      | Some k => let '(k', w', _) := tick orders k w in set_worker id k' w'
      | None => w
      end
  | EvDrop id =>
      match workers w !! id with
      | Some k => remove_worker id (worker_drop k w).1
      | None => w
      end
  end.

Definition history (es : list Event) (w : World) : World := fold_left (λ w e, perform e w) es w.
End worker.
Arguments NetHandler Text : clear implicits.
Arguments InMemoryWorker Text : clear implicits.
Arguments World Text : clear implicits.
Arguments Event Text : clear implicits.
Arguments world_new {Text}.
