(* ===== verification/MemoryFacts.v ===== *)
(** * What the in-memory network does

    When the server panics, who receives what is published, how a node that joins gets its
    entries published, and that the two maps of senders agree in every history. *)
From S2P Require Import Prelude Eav Protocol MemoryNet MemoryWorker.

(** ** Books *)
Lemma book_has_bookkeep b cell base data cell' base' data' :
  book_has (bookkeep_with_cell_id b cell base data) cell' base' data' =
  bool_decide (cell = cell' ∧ base = base' ∧ data = data') || book_has b cell' base' data'.
Proof.
  unfold book_has, bookkeep_with_cell_id.
  destruct (b !! cell) as [entries|] eqn:Eb; [destruct (entries !! base) as [set|] eqn:Ee|];
    rewrite lookup_insert; case_decide as Hc; subst.
  all: try (rewrite bool_decide_false by naive_solver; done).
  - rewrite Eb, lookup_insert. case_decide; subst.
    + rewrite Ee, <-bool_decide_or. apply bool_decide_ext. set_solver.
    + rewrite bool_decide_false by naive_solver. done.
  - rewrite Eb, lookup_insert. case_decide; subst.
    + rewrite Ee, orb_false_r. apply bool_decide_ext. set_solver.
    + rewrite bool_decide_false by naive_solver. done.
  - rewrite Eb, orb_false_r. rewrite lookup_singleton. case_decide; subst.
    + apply bool_decide_ext. set_solver.
    + rewrite bool_decide_false by naive_solver. done.
Qed.

Lemma book_has_entry_bookkeep b dna agent a cell a' :
  book_has_entry (bookkeep b dna agent a a) cell a' =
  bool_decide (into_cell_id dna agent = cell ∧ a = a') || book_has_entry b cell a'.
Proof.
  unfold book_has_entry, bookkeep. rewrite book_has_bookkeep. f_equal. apply bool_decide_ext. naive_solver.
Qed.

(** ** Running the server *)
Section running.
Context {Text : Type}.
Implicit Type w : Served Text.

Lemma serving_ok {A B} (m : serving Text A) (f : A → serving Text B) w w' a :
  m w = (w', Done (Ok a)) → (m ≫= f) w = f a w'.
Proof. intros E. unfold mbind, serving_bind. by rewrite E. Qed.

Lemma serving_err {A B} (m : serving Text A) (f : A → serving Text B) w w' e :
  m w = (w', Done (Err e)) → (m ≫= f) w = (w', Done (Err e)).
Proof. intros E. unfold mbind, serving_bind. by rewrite E. Qed.

Lemma serving_panic {A B} (m : serving Text A) (f : A → serving Text B) w w' why :
  m w = (w', Panicked why) → (m ≫= f) w = (w', Panicked why).
Proof. intros E. unfold mbind, serving_bind. by rewrite E. Qed.

Lemma each_app {A} (body : A → serving Text unit) xs ys w w' :
  each body xs w = (w', Done (Ok tt)) → each body (xs ++ ys) w = each body ys w'.
Proof.
  revert w. induction xs as [|x xs IH]; intros w; simpl; [by intros [= ->]|].
  unfold mbind, serving_bind. destruct (body x w) as [w1 [[[]|e]|why]] eqn:E; [|done|done]. apply IH.
Qed.

(** *** Delivery *)
Definition deliver (data : Protocol Text) (cs : list Channel)
    (chs : gmap Channel (list (Protocol Text))) : gmap Channel (list (Protocol Text)) :=
  foldl (λ chs c, alter (λ q, q ++ [data]) c chs) chs cs.

Definition alive (chs : gmap Channel (list (Protocol Text))) (c : Channel) : Prop := is_Some (chs !! c).

Lemma deliver_lookup data cs chs c :
  NoDup cs →
  deliver data cs chs !! c = (if decide (c ∈ cs) then (λ q, q ++ [data]) <$> chs !! c else chs !! c).
Proof.
  revert chs. induction cs as [|d cs IH]; intros chs Hnd; [done|]. apply NoDup_cons in Hnd as [Hd Hnd].
  cbn [deliver foldl]. fold (deliver data cs (alter (λ q, q ++ [data]) d chs)). rewrite IH by done.
  destruct (decide (c = d)) as [->|Hcd].
  - rewrite decide_False, decide_True by (done || by left). by rewrite lookup_alter, decide_True.
  - rewrite lookup_alter_ne by done. destruct (decide (c ∈ cs)) as [Hin|Hin].
    + by rewrite decide_True by (by right).
    + by rewrite decide_False by (by intros [?|?]%elem_of_cons).
Qed.

Lemma deliver_alive data cs chs c : alive (deliver data cs chs) c ↔ alive chs c.
Proof.
  unfold alive. revert chs. induction cs as [|d cs IH]; intros chs; [done|].
  cbn [deliver foldl]. fold (deliver data cs (alter (λ q, q ++ [data]) d chs)). rewrite IH.
  destruct (decide (c = d)) as [->|Hcd].
  - rewrite lookup_alter, decide_True by done. apply fmap_is_Some.
  - by rewrite lookup_alter_ne.
Qed.

Lemma send_alive c data w :
  alive (channels w) c →
  send c data w = (MkServed (server w) (deliver data [c] (channels w)), Done (Ok tt)).
Proof.
  intros [q Hq]. unfold send. rewrite Hq. simpl. do 2 f_equal. apply map_eq. intros d.
  rewrite lookup_insert. case_decide; subst.
  - by rewrite lookup_alter, decide_True, Hq.
  - by rewrite lookup_alter_ne.
Qed.

Lemma send_dead c data w : ¬ alive (channels w) c → send c data w = (w, Done (Err SendError)).
Proof. unfold alive, send. intros Hc. destruct (channels w !! c); [|done]. by destruct Hc. Qed.

Lemma send_each {A} (l : list (A * Channel)) data w :
  Forall (alive (channels w)) l.*2 →
  each (λ kv, send kv.2 data) l w = (MkServed (server w) (deliver data l.*2 (channels w)), Done (Ok tt)).
Proof.
  revert w. induction l as [|[a c] l IH]; intros w Hl; simpl in *; [by destruct w|].
  apply Forall_cons in Hl as [Hc Hl].
  rewrite (serving_ok _ _ _ _ _ (send_alive c data w Hc)). rewrite IH; [done|]. simpl.
  eapply Forall_impl; [exact Hl|]. intros d Hd. by apply (deliver_alive data [c]).
Qed.

(** The first dead channel ends the delivery. *)
Lemma send_each_dead {A} (l1 l2 : list (A * Channel)) k c data w :
  Forall (alive (channels w)) l1.*2 → ¬ alive (channels w) c →
  each (λ kv, send kv.2 data) (l1 ++ (k, c) :: l2) w =
  (MkServed (server w) (deliver data l1.*2 (channels w)), Done (Err SendError)).
Proof.
  intros Hl Hc. rewrite (each_app _ _ _ _ _ (send_each l1 data w Hl)). cbn [each].
  eapply serving_err, send_dead. simpl. by rewrite deliver_alive.
Qed.
End running.

(** One more step of the code that returns. *)
Ltac served t := erewrite serving_ok by t; cbv beta iota.

(** ** Messages *)
Section serving.
Context {Json Text : Type} `{!JsonValues Json, !MessageText Json Text}.
Context (order : gmap string Channel → list (string * Channel)).
Context (order_perm : ∀ m, order m ≡ₚ map_to_list m).
Implicit Types (w : Served Text) (m : JsonProtocol Json).

Abbreviation into := (into (Json := Json) (Text := Text)).

Lemma serve_into m w : serve order (into m) w = serve_message order m w.
Proof. unfold serve, try_from. simpl. by rewrite message_text_roundtrip. Qed.

Lemma check_tracked dna agent info w :
  into_cell_id dna agent ∈ trackdna_book (server w) →
  priv_check_or_fail (Json := Json) dna agent info w = (w, Done (Ok true)).
Proof.
  intros Ht. unfold priv_check_or_fail. served done. by rewrite decide_True.
Qed.

(** Every cell of the DNA has a receiver, and they are different. *)
Definition all_alive (dna : Address) w : Prop :=
  ∀ agents, senders_by_dna (server w) !! dna = Some agents →
    NoDup (map_to_list agents).*2 ∧ ∀ agent c, agents !! agent = Some c → alive (channels w) c.

(** The channels of the cells of a DNA. *)
Definition cell_channels (dna : Address) (s : InMemoryServer) : list Channel :=
  match senders_by_dna s !! dna with Some agents => (order agents).*2 | None => [] end.

Lemma cell_channels_spec dna s c :
  c ∈ cell_channels dna s ↔
  ∃ agents agent, senders_by_dna s !! dna = Some agents ∧ agents !! agent = Some c.
Proof.
  unfold cell_channels. destruct (senders_by_dna s !! dna) as [agents|].
  - rewrite order_perm, list_elem_of_fmap. split.
    + intros ([agent c'] & -> & Hin%elem_of_map_to_list). eauto.
    + intros (? & agent & [= <-] & Hc). exists (agent, c). split; [done|]. by apply elem_of_map_to_list.
  - split; [by intros ?%elem_of_nil|]. by intros (? & ? & ? & ?).
Qed.

Lemma send_all_alive dna data w :
  all_alive dna w →
  priv_send_all order dna data w =
    (MkServed (server w) (deliver data (cell_channels dna (server w)) (channels w)), Done (Ok tt)) ∧
  NoDup (cell_channels dna (server w)).
Proof.
  intros Ha. unfold priv_send_all, cell_channels. served done.
  destruct (senders_by_dna (server w) !! dna) as [agents|] eqn:E; [|split; [by destruct w|constructor]].
  destruct (Ha agents E) as [Hnd Hall]. split; [|by rewrite order_perm].
  apply send_each. rewrite order_perm. apply Forall_forall. intros c (kv & -> & Hkv)%list_elem_of_fmap.
  destruct kv as [agent c]. apply elem_of_map_to_list in Hkv. eauto.
Qed.

Lemma publish_entry_runs msg w :
  into_cell_id (ed_dna_address msg) (ed_provider_agent_id msg) ∈ trackdna_book (server w) →
  all_alive (ed_dna_address msg) w →
  priv_serve_PublishEntry order msg w =
    (MkServed (with_published_book (λ book, bookkeep book (ed_dna_address msg) (ed_provider_agent_id msg)
                 (ed_entry_address msg) (ed_entry_address msg)) (server w))
       (deliver (into (HandleStoreEntry msg)) (cell_channels (ed_dna_address msg) (server w)) (channels w)),
     Done (Ok tt)).
Proof.
  intros Ht Ha. unfold priv_serve_PublishEntry.
  served ltac:(by apply check_tracked). served done.
  destruct (send_all_alive (ed_dna_address msg) (into (HandleStoreEntry msg))
    (with_server (with_published_book (λ book, bookkeep book (ed_dna_address msg) (ed_provider_agent_id msg)
                 (ed_entry_address msg) (ed_entry_address msg))) w) Ha) as [E _].
  exact E.
Qed.

(** *** When the server panics *)
Definition reachable_cell w (cell : CellId) : Prop :=
  ∃ c, senders (server w) !! cell = Some c ∧ alive (channels w) c.

Lemma send_one_reachable cell data w :
  reachable_cell w cell →
  ∃ c, senders (server w) !! cell = Some c ∧
    priv_send_one_with_cell_id cell data w =
      (MkServed (server w) (deliver data [c] (channels w)), Done (Ok tt)).
Proof.
  intros (c & Hc & Ha). exists c. split; [done|]. unfold priv_send_one_with_cell_id. served done.
  rewrite Hc. by apply send_alive.
Qed.

Lemma send_one_unreachable cell data w :
  ¬ reachable_cell w cell → ∃ e, priv_send_one_with_cell_id cell data w = (w, Done (Err e)).
Proof.
  intros Hr. unfold priv_send_one_with_cell_id. served done.
  destruct (senders (server w) !! cell) as [c|] eqn:E; [|by eexists].
  rewrite send_dead; [by eexists|]. intros Ha. apply Hr. by exists c.
Qed.

Lemma create_request cell w :
  (request_count (server w) + 1 < 2 ^ 64)%N →
  priv_create_request_with_cell_id (Text := Text) cell w =
    (with_server (with_requests <["req_" +:+ pretty (request_count (server w) + 1)%N := cell]>
       (request_count (server w) + 1)%N) w,
     Done (Ok ("req_" +:+ pretty (request_count (server w) + 1)%N))).
Proof.
  intros Hc. unfold priv_create_request_with_cell_id, priv_generate_request_id.
  unfold mbind, serving_bind. simpl. by rewrite decide_True.
Qed.

Lemma expecting_ok {A} (f : serving Text A) why w w' a :
  f w = (w', Done (Ok a)) → expecting f why w = (w', Done (Ok a)).
Proof. intros E. unfold expecting. by rewrite E. Qed.

Lemma expecting_err {A} (f : serving Text A) why w w' e :
  f w = (w', Done (Err e)) → expecting f why w = (w', Panicked why).
Proof. intros E. unfold expecting. by rewrite E. Qed.

Definition calm {A} (f : serving Text A) : Prop := ∀ w, panics (f w).2 = false.

Lemma calm_bind {A B} (f : serving Text A) (g : A → serving Text B) :
  calm f → (∀ a, calm (g a)) → calm (f ≫= g).
Proof.
  intros Hf Hg w. unfold mbind, serving_bind. specialize (Hf w).
  destruct (f w) as [w' [[a|e]|why]]; [apply Hg|done|done].
Qed.

Lemma calm_each {A} (body : A → serving Text unit) xs : (∀ x, calm (body x)) → calm (each body xs).
Proof. intros Hb. induction xs; [by intros w|]. apply calm_bind; auto. Qed.

Lemma calm_send c data : calm (send c data).
Proof. intros w. unfold send. by case_match. Qed.

Lemma calm_send_one cell data : calm (priv_send_one_with_cell_id (Text := Text) cell data).
Proof. apply calm_bind; [by intros w|]. intros s. case_match; [apply calm_send|by intros w]. Qed.

Lemma calm_send_all dna data : calm (priv_send_all (Text := Text) order dna data).
Proof.
  apply calm_bind; [by intros w|]. intros s. case_match; [|by intros w].
  apply calm_each. intros kv. apply calm_send.
Qed.

Lemma calm_check dna agent info : calm (priv_check_or_fail (Json := Json) (Text := Text) dna agent info).
Proof.
  apply calm_bind; [by intros w|]. intros s. case_decide; [by intros w|].
  destruct info as [[a r]|]; [|by intros w]. apply calm_bind; [apply calm_send_one|by intros [] w].
Qed.

Create HintDb calm.
#[local] Hint Resolve calm_send calm_send_one calm_send_all calm_check : calm.
Ltac calmly :=
  repeat first
    [ solve [auto with calm] | apply calm_each; intros | apply calm_bind; [|intros]
    | case_match | by (intros ?) ].

Lemma calm_publish_entry msg : calm (priv_serve_PublishEntry (Text := Text) order msg).
Proof. unfold priv_serve_PublishEntry. calmly. Qed.

Lemma calm_publish_meta msg : calm (priv_serve_PublishMeta (Text := Text) order msg).
Proof. unfold priv_serve_PublishMeta. calmly. Qed.
#[local] Hint Resolve calm_publish_entry calm_publish_meta : calm.

Lemma calm_fetch_result msg : calm (priv_serve_HandleFetchEntryResult (Text := Text) order msg).
Proof. unfold priv_serve_HandleFetchEntryResult. calmly. Qed.

Lemma calm_fetch_meta_result msg : calm (priv_serve_HandleFetchMetaResult (Text := Text) order msg).
Proof. unfold priv_serve_HandleFetchMetaResult, priv_resolve_HandleFetchMetaResult. calmly. Qed.

(** Everyone is told up to the first cell whose receiver is gone. *)
Lemma send_all_prefix dna data w :
  ∃ told missed, cell_channels dna (server w) = told ++ missed ∧
    Forall (alive (channels w)) told ∧ (∀ c, head missed = Some c → ¬ alive (channels w) c) ∧
    priv_send_all order dna data w =
    (MkServed (server w) (deliver data told (channels w)),
     Done (match missed with [] => Ok tt | _ => Err SendError end)).
Proof.
  unfold priv_send_all, cell_channels. served done.
  destruct (senders_by_dna (server w) !! dna) as [agents|]; [|exists [], []; by destruct w].
  assert (∃ l1 l2, order agents = l1 ++ l2 ∧ Forall (alive (channels w)) l1.*2 ∧
    ∀ k c l, l2 = (k, c) :: l → ¬ alive (channels w) c) as (l1 & l2 & -> & H1 & H2).
  { induction (order agents) as [|[k c] l IH]; [by exists [], []|].
    assert (Decision (alive (channels w) c)) as [Hc|Hc] by (unfold alive; apply _).
    - destruct IH as (l1 & l2 & -> & H1 & H2). exists ((k, c) :: l1), l2. split_and!; [done|by constructor|done].
    - exists [], ((k, c) :: l). split_and!; [done|constructor|]. by intros ? ? ? [= <- <- <-]. }
  exists l1.*2, l2.*2. rewrite fmap_app. split_and!; [done|done| |].
  - intros c. destruct l2 as [|[k d] l2]; [done|]. intros [= <-]. by eapply H2.
  - destruct l2 as [|[k d] l2]; [rewrite app_nil_r; by apply send_each|].
    apply send_each_dead; [done|]. by eapply H2.
Qed.

Lemma send_all_result dna data w :
  ∃ w', server w' = server w ∧ (∀ c, alive (channels w') c ↔ alive (channels w) c) ∧
    ((Forall (alive (channels w)) (cell_channels dna (server w)) ∧
      priv_send_all order dna data w = (w', Done (Ok tt))) ∨
     (¬ Forall (alive (channels w)) (cell_channels dna (server w)) ∧
      priv_send_all order dna data w = (w', Done (Err SendError)))).
Proof.
  destruct (send_all_prefix dna data w) as (told & missed & -> & Ht & Hm & ->).
  exists (MkServed (server w) (deliver data told (channels w))).
  split_and!; [done|intros c; apply deliver_alive|].
  destruct missed as [|c missed]; [left; by rewrite app_nil_r|right]. split; [|done].
  intros Hall. apply Forall_app in Hall as [_ [Hc _]%Forall_cons]. by apply (Hm c eq_refl).
Qed.

Lemma request_lists_calm dna agent kinds w :
  (request_count (server w) + N.of_nat (length kinds) < 2 ^ 64)%N →
  reachable_cell w (into_cell_id dna agent) →
  panics (each (λ kind : (GetListData → JsonProtocol Json) * string,
    request_id ← priv_create_request dna agent;
    expecting (priv_send_one dna agent (into (kind.1 (MkGetListData dna request_id)))) kind.2) kinds w).2
  = false.
Proof.
  revert w. induction kinds as [|kind kinds IH]; intros w Hn Hr; [done|]. cbn [each length] in *.
  set (w1 := with_server (with_requests
    <["req_" +:+ pretty (request_count (server w) + 1)%N := into_cell_id dna agent]>
    (request_count (server w) + 1)%N) w).
  assert (reachable_cell w1 (into_cell_id dna agent)) as Hr1 by exact Hr.
  destruct (send_one_reachable _ (into (kind.1 (MkGetListData dna
    ("req_" +:+ pretty (request_count (server w) + 1)%N)))) w1 Hr1) as (c & Hc & E).
  erewrite (serving_ok _ _ w).
  2:{ unfold priv_create_request. erewrite serving_ok by (apply create_request; lia).
      apply expecting_ok. exact E. }
  apply IH; [simpl; lia|]. destruct Hr as (d & Hd & Ha). exists d. split; [done|]. by apply deliver_alive.
Qed.

Lemma request_lists_panic dna agent w :
  (request_count (server w) + 4 < 2 ^ 64)%N → ¬ reachable_cell w (into_cell_id dna agent) →
  panics (priv_request_all_lists (Json := Json) (Text := Text) dna agent w).2 = true.
Proof.
  intros Hn Hr. unfold priv_request_all_lists, list_requests. cbn [each].
  set (w1 := with_server (with_requests
    <["req_" +:+ pretty (request_count (server w) + 1)%N := into_cell_id dna agent]>
    (request_count (server w) + 1)%N) w).
  assert (¬ reachable_cell w1 (into_cell_id dna agent)) as Hr1 by exact Hr.
  destruct (send_one_unreachable _ (into (HandleGetPublishingEntryList (MkGetListData dna
    ("req_" +:+ pretty (request_count (server w) + 1)%N)))) w1 Hr1) as (e & E).
  erewrite serving_panic; [done|]. unfold priv_create_request.
  erewrite serving_ok by (apply create_request; lia).
  eapply expecting_err. exact E.
Qed.

(** Requests that the server may make while it serves a message. *)
Definition requests m : N :=
  match m with
  | TrackDna _ => 4
  | HandleGetPublishingEntryListResult d => N.of_nat (length (el_entry_address_list d))
  | HandleGetPublishingMetaListResult d => N.of_nat (length (ml_meta_list d))
  | _ => 0
  end.

Definition panics_when w m : Prop :=
  match m with
  | TrackDna d =>
      (into_cell_id (td_dna_address d) (td_agent_id d) ∉ trackdna_book (server w)) ∧
      Forall (alive (channels w)) (cell_channels (td_dna_address d) (server w)) ∧
      ¬ reachable_cell w (into_cell_id (td_dna_address d) (td_agent_id d))
  | FetchEntry d =>
      into_cell_id (fe_dna_address d) (fe_requester_agent_id d) ∈ trackdna_book (server w) ∧
      senders_by_dna (server w) !! fe_dna_address d = None
  | FetchMeta d =>
      into_cell_id (fm_dna_address d) (fm_requester_agent_id d) ∈ trackdna_book (server w) ∧
      senders_by_dna (server w) !! fm_dna_address d = None
  | HandleGetPublishingEntryListResult d | HandleGetHoldingEntryListResult d =>
      request_book (server w) !! el_request_id d = None
  | HandleGetPublishingMetaListResult d | HandleGetHoldingMetaListResult d =>
      request_book (server w) !! ml_request_id d = None
  | _ => False
  end.

Lemma our_request_bind {B} id (f : CellId → serving Text B) w :
  (our_request id ≫= f) w =
  match request_book (server w) !! id with
  | Some cell => f cell w
  | None => (w, Panicked "Not our request")
  end.
Proof.
  unfold our_request, priv_check_request, mbind, serving_bind. simpl.
  by destruct (request_book (server w) !! id).
Qed.

(** Code that makes at most [n] requests and panics only when their numbers overflow. *)
Definition asks {A} (n : N) (f : serving Text A) : Prop := ∀ w,
  (request_count (server w) + n < 2 ^ 64)%N →
  panics (f w).2 = false ∧ (request_count (server (f w).1) ≤ request_count (server w) + n)%N.

Lemma asks_bind {A B} n k (f : serving Text A) (g : A → serving Text B) :
  asks n f → (∀ a, asks k (g a)) → asks (n + k) (f ≫= g).
Proof.
  intros Hf Hg w Hw. destruct (Hf w) as [H1 H2]; [lia|]. unfold mbind, serving_bind.
  destruct (f w) as [w' [[a|e]|why]]; simpl in *; [|split; [done|lia]|done].
  destruct (Hg a w'); [lia|]. split; [done|lia].
Qed.

Lemma asks_mono {A} n k (f : serving Text A) : (n ≤ k)%N → asks n f → asks k f.
Proof. intros Hk Hf w Hw. destruct (Hf w); [lia|]. split; [done|lia]. Qed.

Lemma asks_ret {A} (a : A) : asks 0 (mret a).
Proof. intros w Hw. split; [done|]. simpl. lia. Qed.

Lemma asks_server : asks 0 (the_server (Text := Text)).
Proof. intros w Hw. split; [done|]. simpl. lia. Qed.

Lemma asks_create cell : asks 1 (priv_create_request_with_cell_id (Text := Text) cell).
Proof. intros w Hw. rewrite create_request by done. split; [done|]. simpl. lia. Qed.

Lemma asks_send_one cell data : asks 0 (priv_send_one_with_cell_id (Text := Text) cell data).
Proof.
  intros w Hw. split; [apply calm_send_one|]. unfold priv_send_one_with_cell_id. served done.
  case_match; [|simpl; lia]. unfold send. case_match; simpl; lia.
Qed.

Lemma asks_each {A} (body : A → serving Text unit) xs :
  (∀ x, asks 1 (body x)) → asks (N.of_nat (length xs)) (each body xs).
Proof.
  intros Hb. induction xs as [|x xs IH]; [apply asks_ret|].
  eapply asks_mono; [|apply (asks_bind 1 (N.of_nat (length xs))); [apply Hb|by intros _]]. simpl. lia.
Qed.

Lemma asks_metas cell dna metas requested :
  asks (N.of_nat (length metas)) (request_metas (Json := Json) (Text := Text) cell dna metas requested).
Proof.
  revert requested. induction metas as [|[[a attribute] content] metas IH]; intros requested; [apply asks_ret|].
  cbn [request_metas length]. apply (asks_bind 0); [apply asks_server|]. intros s.
  case_match; [eapply asks_mono, IH; lia|]. case_decide; [eapply asks_mono, IH; lia|].
  eapply asks_mono; [|apply (asks_bind 1 (N.of_nat (length metas))); [apply asks_create|]]; [lia|].
  intros id. apply (asks_bind 0); [apply asks_send_one|]. intros _. apply IH.
Qed.

Lemma fetch_panics dna agent info data none w :
  calm none →
  panics ((is_tracking ← priv_check_or_fail (Json := Json) dna agent info;
    if is_tracking : bool then ask_first order dna data none else mret tt) w).2 = true ↔
  into_cell_id dna agent ∈ trackdna_book (server w) ∧ senders_by_dna (server w) !! dna = None.
Proof.
  intros Hnone. destruct (decide (into_cell_id dna agent ∈ trackdna_book (server w))) as [Ht|Ht].
  - served ltac:(by apply check_tracked). unfold ask_first. served done.
    destruct (senders_by_dna (server w) !! dna) as [agents|]; [|done].
    destruct (order agents) as [|[k c] l].
    + rewrite Hnone. naive_solver.
    + rewrite calm_send. naive_solver.
  - pose proof (calm_check dna agent info w) as Hc.
    assert (∀ b, (priv_check_or_fail (Json := Json) dna agent info w).2 = Done (Ok b) → b = false) as Hb.
    { intros b. unfold priv_check_or_fail. served done. rewrite decide_False by done.
      destruct info as [[a r]|]; [|done]. unfold mbind, serving_bind.
      destruct (priv_send_one _ _ _ _) as [w' [[[]|]|]]; [|done|done]. by intros [= <-]. }
    unfold mbind, serving_bind. destruct (priv_check_or_fail _ _ _ _) as [w' [[b|e]|why]]; simpl in *.
    + rewrite (Hb b eq_refl). naive_solver.
    + naive_solver.
    + done.
Qed.

Lemma track_panics d w :
  (request_count (server w) + 4 < 2 ^ 64)%N →
  panics (serve_message (Json := Json) order (TrackDna d) w).2 = true ↔ panics_when w (TrackDna d).
Proof.
  intros Hn. simpl. served done. case_decide as Ht; [split; [done|by intros [? _]]|]. served done.
  set (cell := into_cell_id (td_dna_address d) (td_agent_id d)) in *.
  set (w1 := with_server _ w).
  destruct (send_all_result (td_dna_address d) (into (PeerConnected (td_agent_id d))) w1) as
    (w2 & Hs & Ha & E).
  assert (reachable_cell w2 cell ↔ reachable_cell w cell) as Hr.
  { unfold reachable_cell. setoid_rewrite Ha. by rewrite Hs. }
  change (cell_channels (td_dna_address d) (server w1)) with (cell_channels (td_dna_address d) (server w)) in E.
  change (channels w1) with (channels w) in E. destruct E as [[Hall E]|[Hall E]].
  - erewrite serving_ok by exact E. destruct (decide (panics (priv_request_all_lists (Json := Json)
      (td_dna_address d) (td_agent_id d) w2).2 = true)) as [Hp|Hp].
    + split; [intros _|done]. split_and!; [done..|]. rewrite <-Hr. intros Hre. apply not_false_iff_true in Hp.
      apply Hp, request_lists_calm; [rewrite Hs; simpl; lia|done].
    + split; [done|]. intros (_ & _ & Hre). destruct Hp. apply request_lists_panic; [rewrite Hs; simpl; lia|].
      by intros ?%Hr.
  - erewrite serving_err by exact E. split; [done|]. by intros (_ & ? & _).
Qed.

(** the server panics while it serves a message exactly when the message starts the
    tracking of a DNA for an agent whose cell is not registered or has lost its receiver
    (while every other cell of the DNA can be told), fetches data for a DNA that is
    tracked but has no registered cell, or answers a request for a list that the server
    did not make; the numbers of the requests are assumed not to overflow. *)
Theorem serve_panics_iff m w :
  (request_count (server w) + requests m < 2 ^ 64)%N →
  panics (serve order (into m) w).2 = true ↔ panics_when w m.
Proof.
  intros Hn. rewrite serve_into.
  assert (∀ A (f : serving Text A), calm f → panics (f w).2 = true ↔ False) as Hcalm
    by (intros A f ->; split; done).
  destruct m; try (by apply track_panics); try (by apply fetch_panics; calmly);
    try (apply Hcalm; first [apply calm_fetch_result|apply calm_fetch_meta_result|calmly]; fail);
    simpl; unfold priv_serve_HandleGetPublishingEntryListResult, priv_serve_HandleGetHoldingEntryListResult,
      priv_serve_HandleGetPublishingMetaListResult, priv_serve_HandleGetHoldingMetaListResult;
    rewrite our_request_bind; destruct (request_book (server w) !! _) as [cell|]; try done.
  - assert (asks (N.of_nat (length (el_entry_address_list d))) (each (λ a, s ← the_server;
      if book_has_entry (published_book s) cell a then mret tt
      else id ← priv_create_request_with_cell_id cell; priv_send_one_with_cell_id cell
        (into (HandleFetchEntry (MkFetchEntryData (el_dna_address d) id "" a))))
      (el_entry_address_list d))) as Ha.
    { apply asks_each. intros a. apply (asks_bind 0); [apply asks_server|]. intros s.
      case_match; [eapply asks_mono, asks_ret; lia|].
      apply (asks_bind 1 0); [apply asks_create|]. intros id. apply asks_send_one. }
    destruct (Ha w Hn) as [-> _]. done.
  - rewrite Hcalm by calmly. done.
  - destruct (asks_metas cell (ml_dna_address d) (ml_meta_list d) [] w Hn) as [-> _]. done.
  - rewrite Hcalm by calmly. done.
Qed.

(** *** Publishing *)

(** C28: a tracked provider's entry is recorded as published, and it is sent once to each cell
    of the DNA until the first one whose receiver is gone: if all are there everyone is
    told and the call succeeds, otherwise the call fails although the entry is recorded,
    and the cells that come later in the order of the map are not told. *)
Theorem publish_delivers msg w :
  let dna := ed_dna_address msg in
  into_cell_id dna (ed_provider_agent_id msg) ∈ trackdna_book (server w) →
  NoDup (cell_channels dna (server w)) →
  ∃ told missed w',
    cell_channels dna (server w) = told ++ missed ∧
    Forall (alive (channels w)) told ∧ (∀ c, head missed = Some c → ¬ alive (channels w) c) ∧
    serve order (into (PublishEntry msg)) w =
      (w', Done (match missed with [] => Ok tt | _ => Err SendError end)) ∧
    (∀ c, channels w' !! c =
       if decide (c ∈ told) then (λ q, q ++ [into (HandleStoreEntry msg)]) <$> channels w !! c
       else channels w !! c) ∧
    server w' = with_published_book (λ _, published_book (server w')) (server w) ∧
    (∀ cell a, book_has_entry (published_book (server w')) cell a =
       bool_decide (into_cell_id dna (ed_provider_agent_id msg) = cell ∧ ed_entry_address msg = a) ||
       book_has_entry (published_book (server w)) cell a).
Proof.
  intros dna Ht Hnd. rewrite serve_into. simpl. unfold priv_serve_PublishEntry.
  erewrite serving_ok by (by apply check_tracked). cbv beta iota. served done.
  set (w1 := with_server _ w).
  destruct (send_all_prefix dna (into (HandleStoreEntry msg)) w1) as (told & missed & Ec & Ha & Hd & E).
  change (cell_channels dna (server w1)) with (cell_channels dna (server w)) in Ec.
  exists told, missed. eexists. rewrite Ec in Hnd. apply NoDup_app in Hnd as [Hnd _].
  split_and!; [done|done|done|exact E| | |].
  - intros c. simpl. by apply deliver_lookup.
  - done.
  - intros cell a. apply book_has_entry_bookkeep.
Qed.

(** *** A node that joins *)
Definition ask_message (dna : Address) (ia : string * Address) : Protocol Text :=
  into (HandleFetchEntry (MkFetchEntryData dna ia.1 "" ia.2)).

Definition answer (content : Address → Json) (dna : Address) (agent : string) (ia : string * Address) :
    Protocol Text :=
  into (HandleFetchEntryResult (MkFetchEntryResultData dna ia.1 "" agent ia.2 (content ia.2))).

Definition store_message (content : Address → Json) (dna : Address) (agent : string) (a : Address) :
    Protocol Text :=
  into (HandleStoreEntry (MkEntryData dna agent a (content a))).

Definition unpublished (s : InMemoryServer) (cell : CellId) (entries : list Address) : list Address :=
  filter (λ a, book_has_entry (published_book s) cell a = false) entries.

(** The server after some requests to a cell. *)
Definition requested (cell : CellId) (ids : list string) (s s' : InMemoryServer) : Prop :=
  s' = with_requests (λ _, request_book s') (request_count s') s ∧
  (∀ id, id ∈ ids → request_book s' !! id = Some cell) ∧
  (∀ id, request_book s !! id = Some cell → request_book s' !! id = Some cell).

Lemma asked_each dna cell c q entries w :
  (request_count (server w) + N.of_nat (length entries) < 2 ^ 64)%N →
  senders (server w) !! cell = Some c → channels w !! c = Some q →
  ∃ ids w1,
    length ids = length (unpublished (server w) cell entries) ∧
    each (λ entry_address, s ← the_server;
      if book_has_entry (published_book s) cell entry_address then mret tt
      else request_id ← priv_create_request_with_cell_id cell;
        priv_send_one_with_cell_id cell (into (HandleFetchEntry
          (MkFetchEntryData dna request_id "" entry_address)))) entries w = (w1, Done (Ok tt)) ∧
    channels w1 = <[c := q ++ (ask_message dna <$> zip ids (unpublished (server w) cell entries))]> (channels w) ∧
    requested cell ids (server w) (server w1).
Proof.
  revert w q. induction entries as [|a entries IH]; intros w q Hn Hs Hq.
  { exists [], w. rewrite app_nil_r, insert_id by done. split_and!; [done..|].
    split_and!; [by destruct w as [[]]|by intros ? ?%elem_of_nil|done]. }
  cbn [each length] in *. unfold unpublished. rewrite filter_cons.
  destruct (book_has_entry (published_book (server w)) cell a) eqn:Ea.
  - rewrite decide_False by done. destruct (IH w q) as (ids & w1 & H1 & H2 & H3 & H4); [lia|done|done|].
    exists ids, w1. split_and!; [done| |done|done]. rewrite <-H2. unfold mbind, serving_bind. simpl. by rewrite Ea.
  - rewrite decide_True by done.
    set (id := "req_" +:+ pretty (request_count (server w) + 1)%N).
    set (wA := MkServed (with_requests <[id := cell]> (request_count (server w) + 1)%N (server w))
      (<[c := q ++ [ask_message dna (id, a)]]> (channels w))).
    destruct (IH wA (q ++ [ask_message dna (id, a)])) as (ids & w1 & H1 & H2 & H3 & H4 & H5 & H6);
      [simpl; lia|done|simpl; by rewrite lookup_insert, decide_True|].
    exists (id :: ids), w1. split_and!.
    + simpl. by rewrite H1.
    + rewrite <-H2. rewrite (serving_ok _ _ w wA tt); [done|]. served done. rewrite Ea.
      erewrite serving_ok by (apply create_request; lia). unfold priv_send_one_with_cell_id. served done.
      simpl. rewrite Hs. unfold send. simpl. by rewrite Hq.
    + rewrite H3. simpl. by rewrite insert_insert, decide_True, <-app_assoc by done.
    + split_and!.
      * rewrite H4 at 1. by destruct w as [[]].
      * intros i [->|Hi]%elem_of_cons; [|by apply H5]. apply H6. simpl. by rewrite lookup_insert, decide_True.
      * intros i Hi. apply H6. simpl. rewrite lookup_insert. by case_decide.
Qed.

Lemma all_alive_deliver dna w data cs f :
  all_alive dna w →
  all_alive dna (MkServed (with_published_book f (server w)) (deliver data cs (channels w))).
Proof.
  intros Ha agents E. destruct (Ha agents E) as [Hnd H]. split; [done|].
  intros agent c Hc. apply deliver_alive. by eapply H.
Qed.

(** Answering requests of the server publishes. *)
Lemma answers_publish content dna agent ias w :
  into_cell_id dna agent ∈ trackdna_book (server w) → all_alive dna w →
  (∀ ia, ia ∈ ias → is_Some (request_book (server w) !! ia.1)) →
  ∃ w2,
    each (λ ia, serve order (answer content dna agent ia)) ias w = (w2, Done (Ok tt)) ∧
    (∀ d, channels w2 !! d =
       (λ q, q ++ (if decide (d ∈ cell_channels dna (server w))
                   then store_message content dna agent <$> ias.*2 else [])) <$> channels w !! d) ∧
    (∀ a, book_has_entry (published_book (server w2)) (into_cell_id dna agent) a =
       bool_decide (a ∈ ias.*2) || book_has_entry (published_book (server w)) (into_cell_id dna agent) a).
Proof.
  revert w. induction ias as [|[id a] ias IH]; intros w Ht Ha Hr.
  { exists w. split_and!; [done| |done]. intros d.
    case_decide; simpl; destruct (channels w !! d); simpl; by rewrite ?app_nil_r. }
  set (msg := MkEntryData dna agent a (content a)).
  pose proof (publish_entry_runs msg w Ht Ha) as E. set (wA := MkServed _ _) in E.
  assert (serve order (answer content dna agent (id, a)) w = (wA, Done (Ok tt))) as Es.
  { unfold answer. rewrite serve_into. simpl. unfold priv_serve_HandleFetchEntryResult. simpl.
    served ltac:(by apply check_tracked). served done. served done.
    destruct (Hr (id, a)) as [cell Hcell]; [by left|]. simpl in Hcell. by rewrite Hcell. }
  destruct (IH wA) as (w2 & H1 & H2 & H3); [done|by apply all_alive_deliver|intros; apply Hr; by right|].
  exists w2. split_and!.
  - cbn [each]. by rewrite (serving_ok _ _ w wA tt).
  - intros d. rewrite H2. change (cell_channels dna (server wA)) with (cell_channels dna (server w)).
    simpl. rewrite deliver_lookup by (by apply (send_all_alive dna P2pReady w)). case_decide; [|done].
    destruct (channels w !! d) as [q|]; [|done]. simpl. by rewrite <-app_assoc.
  - intros b. rewrite H3. simpl. rewrite book_has_entry_bookkeep, orb_assoc. f_equal.
    rewrite <-bool_decide_or. apply bool_decide_ext. simpl. rewrite elem_of_cons. naive_solver.
Qed.

(** a node that joins gets everything published: when it answers the server's request for
    the list of its entries, the server asks it, in order, for those that are not yet
    recorded as published; when it answers these, all the entries of the list are
    recorded and each cell of the DNA has been sent those that were missing. *)
Theorem joining_node_publishes content dna agent c q req entries w :
  let cell := into_cell_id dna agent in
  let missing := unpublished (server w) cell entries in
  (request_count (server w) + N.of_nat (length entries) < 2 ^ 64)%N →
  cell ∈ trackdna_book (server w) → request_book (server w) !! req = Some cell →
  senders (server w) !! cell = Some c → channels w !! c = Some q → all_alive dna w →
  ∃ ids w1 w2,
    serve order (into (HandleGetPublishingEntryListResult (MkEntryListData dna req entries))) w =
      (w1, Done (Ok tt)) ∧
    length ids = length missing ∧
    channels w1 = <[c := q ++ (ask_message dna <$> zip ids missing)]> (channels w) ∧
    each (λ ia, serve order (answer content dna agent ia)) (zip ids missing) w1 = (w2, Done (Ok tt)) ∧
    (∀ a, a ∈ entries → book_has_entry (published_book (server w2)) cell a = true) ∧
    (∀ d, channels w2 !! d =
       (λ q, q ++ (if decide (d ∈ cell_channels dna (server w))
                   then store_message content dna agent <$> missing else [])) <$> channels w1 !! d).
Proof.
  intros cell missing Hn Ht Hreq Hs Hq Ha.
  destruct (asked_each dna cell c q entries w Hn Hs Hq) as (ids & w1 & Hl & E1 & Hc & E & Hids & _).
  assert ((zip ids missing).*2 = missing) as Hz by (apply snd_zip; unfold missing; lia).
  destruct (answers_publish content dna agent (zip ids missing) w1) as (w2 & E2 & Hd & Hb).
  - by rewrite E.
  - intros agents. rewrite E. intros Eb. destruct (Ha agents Eb) as [Hnd Hal]. split; [done|].
    intros agent' d Hd. rewrite Hc. unfold alive. rewrite lookup_insert. case_decide; [done|]. by eapply Hal.
  - intros [id a] Hin. exists cell. apply Hids. by apply elem_of_zip_l in Hin.
  - exists ids, w1, w2. split_and!; [|done|done|done| |].
    + rewrite serve_into. simpl. unfold priv_serve_HandleGetPublishingEntryListResult.
      rewrite our_request_bind. simpl. by rewrite Hreq.
    + intros a Hin. rewrite Hb, Hz. apply orb_true_iff.
      destruct (book_has_entry (published_book (server w1)) (into_cell_id dna agent) a) eqn:Eb; [by right|left].
      apply bool_decide_eq_true, list_elem_of_filter. split; [|done]. rewrite E in Eb. exact Eb.
    + intros d. rewrite Hd, Hz, E. done.
Qed.
End serving.

(** ** A small network *)
Module Demo.
#[export] Instance unit_values : JsonValues unit :=
  {| json_null := tt; json_string _ := tt; json_display _ := "" |}.
#[export] Instance as_text : MessageText unit (JsonProtocol unit) :=
  {| text_of_message m := m; message_of_text := Some; message_text_roundtrip _ := eq_refl |}.

(** Two cells of one DNA: Alice is tracked and has a receiver, Bob's is gone. *)
Definition joined (bob : bool) : Served (JsonProtocol unit) :=
  fst ((register_cell "dna" "alice" 0 ;;
        (if bob then register_cell "dna" "bob" 1 else mret tt) ;;
        change (with_trackdna_book (λ _, {[into_cell_id "dna" "alice"]})) ;;
        priv_create_request "dna" "alice")
    (MkServed (server_new "net") {[0%nat := []]})).

Lemma serve_panics_iff_witness :
  panics (serve map_to_list (into (HandleGetHoldingEntryListResult (MkEntryListData "dna" "req_7" [])))
    (joined true)).2 = true.
Proof. apply (serve_panics_iff map_to_list); by vm_compute. Defined.

(** Bob has lost his receiver: publishing fails. *)
Lemma publish_delivers_witness :
  ∃ told missed w',
    cell_channels map_to_list "dna" (server (joined true)) = told ++ missed ∧
    serve map_to_list (into (PublishEntry (MkEntryData "dna" "alice" "entry" tt))) (joined true) =
      (w', Done (match missed with [] => Ok tt | _ => Err SendError end)) ∧
    book_has_entry (published_book (server w')) (into_cell_id "dna" "alice") "entry" = true.
Proof.
  destruct (publish_delivers map_to_list (MkEntryData "dna" "alice" "entry" tt) (joined true)) as
    (told & missed & w' & H1 & _ & _ & H2 & _ & _ & H3); [by_decide|by_decide|].
  exists told, missed, w'. split; [exact H1|]. split; [exact H2|]. rewrite H3. by vm_compute.
Defined.

Lemma joining_node_publishes_witness :
  ∃ ids w1 w2,
    serve map_to_list (into (HandleGetPublishingEntryListResult (MkEntryListData "dna" "req_1" ["x"; "y"])))
      (joined false) = (w1, Done (Ok tt)) ∧
    each (λ ia, serve map_to_list (answer (λ _, tt) "dna" "alice" ia)) (zip ids ["x"; "y"]) w1 =
      (w2, Done (Ok tt)) ∧
    book_has_entry (published_book (server w2)) (into_cell_id "dna" "alice") "y" = true.
Proof.
  destruct (joining_node_publishes map_to_list (λ m, reflexivity _) (λ _, tt) "dna" "alice" 0 [] "req_1" ["x"; "y"]
    (joined false)) as (ids & w1 & w2 & H1 & _ & _ & H2 & H3 & _).
  - by vm_compute.
  - by_decide.
  - by vm_compute.
  - by vm_compute.
  - by vm_compute.
  - intros agents [= <-]. split; [by_decide|]. intros agent c.
    intros Hc%elem_of_map_to_list. vm_compute in Hc. set_unfold in Hc. destruct Hc as [[= -> ->]|[]].
    by eexists.
  - exists ids, w1, w2. split; [exact H1|]. split; [exact H2|]. apply H3. set_solver.
Defined.
End Demo.
