(* ===== verification/MemoryHistory.v ===== *)
(** * Histories of the in-memory network

    Workers that connect, receive, tick and go away: the server's maps of senders agree when
    addresses of DNAs have no colon, no id of a request is given out twice, and a direct message arrives at the node it is meant for. *)
From S2P Require Import Prelude Eav Protocol MemoryNet MemoryWorker MemoryFacts.

(** ** Cell ids *)
Fixpoint no_colon (s : string) : bool :=
  match s with
  | EmptyString => true
  | String c s => negb (Ascii.eqb c (Ascii.ascii_of_nat 58)) && no_colon s
  end.

Lemma into_cell_id_inj d1 a1 d2 a2 :
  no_colon d1 → no_colon d2 → into_cell_id d1 a1 = into_cell_id d2 a2 → d1 = d2 ∧ a1 = a2.
Proof.
  unfold into_cell_id. revert d2. induction d1 as [|c1 d1 IH]; intros [|c2 d2]; simpl.
  - by intros _ _ [= ->].
  - intros _ [Hc _]%andb_prop_elim [= <- _]. by destruct Hc.
  - intros [Hc _]%andb_prop_elim _ [= -> _]. by destruct Hc.
  - intros [_ H1]%andb_prop_elim [_ H2]%andb_prop_elim [= -> E].
    destruct (IH d2 H1 H2 E) as [-> ->]. done.
Qed.

(** ** Invariants of the server *)
Section keeps.
Context {Json Text : Type} `{!JsonValues Json, !MessageText Json Text}.
Context (order : gmap string Channel → list (string * Channel)).
Implicit Type w : Served Text.

(** Code that keeps a property of the server, however it ends. *)
Definition keeps {A} (P : InMemoryServer → Prop) (f : serving Text A) : Prop :=
  ∀ w, P (server w) → P (server (f w).1).

Lemma server_keeps_bind {A B} P (f : serving Text A) (g : A → serving Text B) :
  keeps P f → (∀ a, keeps P (g a)) → keeps P (f ≫= g).
Proof.
  intros Hf Hg w Hw. specialize (Hf w Hw). unfold mbind, serving_bind.
  destruct (f w) as [w' [[a|e]|why]]; [by apply Hg|done|done].
Qed.

Lemma keeps_each {A} P (body : A → serving Text unit) xs : (∀ x, keeps P (body x)) → keeps P (each body xs).
Proof. intros Hb. induction xs; [by intros w|]. apply server_keeps_bind; auto. Qed.

Lemma server_keeps_send P c data : keeps P (send c data).
Proof. intros w Hw. unfold send. by case_match. Qed.

Lemma keeps_expecting {A} P (f : serving Text A) why : keeps P f → keeps P (expecting f why).
Proof. intros Hf w Hw. specialize (Hf w Hw). unfold expecting. by destruct (f w) as [? [[]|]]. Qed.

(** The properties that serving a message keeps: those of the maps of senders, with the
    clients, and those of the requests. *)
Section serving.
Context (P : InMemoryServer → Prop).
Context (P_book : ∀ f s, P s → P (with_published_book f s)).
Context (P_stored : ∀ f s, P s → P (with_stored_book f s)).
Context (P_track : ∀ f s, P s → P (with_trackdna_book f s)).
Context (P_request : ∀ cell s, P s → P (with_requests <["req_" +:+ pretty (request_count s + 1)%N := cell]>
  (request_count s + 1)%N s)).

Lemma keeps_create cell : keeps P (priv_create_request_with_cell_id (Text := Text) cell).
Proof.
  intros w Hw. unfold priv_create_request_with_cell_id, priv_generate_request_id.
  unfold mbind, serving_bind. simpl. case_decide; simpl; [|done]. exact (P_request cell (server w) Hw).
Qed.

Lemma keeps_send_one cell data : keeps P (priv_send_one_with_cell_id (Text := Text) cell data).
Proof. apply server_keeps_bind; [by intros w|]. intros s. case_match; [apply server_keeps_send|by intros w]. Qed.

Lemma keeps_metas cell dna metas asked :
  keeps P (request_metas (Json := Json) (Text := Text) cell dna metas asked).
Proof.
  revert asked. induction metas as [|[[a attribute] content] metas IH]; intros asked; [by intros w|].
  cbn [request_metas]. apply server_keeps_bind; [by intros w|]. intros s.
  case_match; [apply IH|]. case_decide; [apply IH|].
  apply server_keeps_bind; [apply keeps_create|]. intros id.
  apply server_keeps_bind; [apply keeps_send_one|]. intros _. apply IH.
Qed.

Create HintDb keeps.
#[local] Hint Resolve server_keeps_send keeps_create keeps_send_one keeps_metas : keeps.
Ltac kept :=
  repeat first
    [ solve [auto with keeps] | apply keeps_each; intros | apply keeps_expecting | apply server_keeps_bind; [|intros]
    | case_match | solve [intros ? ?; simpl; auto] ].

Lemma keeps_check dna agent info : keeps P (priv_check_or_fail (Json := Json) (Text := Text) dna agent info).
Proof. unfold priv_check_or_fail, priv_send_one. kept. Qed.

Lemma keeps_send_all dna data : keeps P (priv_send_all (Text := Text) order dna data).
Proof. unfold priv_send_all. kept. Qed.
#[local] Hint Resolve keeps_check keeps_send_all : keeps.

Lemma keeps_publish_entry msg : keeps P (priv_serve_PublishEntry (Text := Text) order msg).
Proof. unfold priv_serve_PublishEntry. kept. Qed.

Lemma keeps_publish_meta msg : keeps P (priv_serve_PublishMeta (Text := Text) order msg).
Proof. unfold priv_serve_PublishMeta. kept. Qed.
#[local] Hint Resolve keeps_publish_entry keeps_publish_meta : keeps.

Lemma keeps_serve data : keeps P (serve (Json := Json) order data).
Proof.
  unfold serve. destruct (try_from data) as [m|]; [|by intros w].
  destruct m; cbn [serve_message];
    unfold priv_request_all_lists, priv_create_request, priv_serve_SendMessage,
      priv_serve_HandleSendMessageResult, priv_serve_FetchEntry, priv_serve_HandleFetchEntryResult,
      priv_serve_FetchMeta, priv_serve_HandleFetchMetaResult, priv_resolve_HandleFetchMetaResult,
      priv_serve_HandleGetPublishingEntryListResult, priv_serve_HandleGetHoldingEntryListResult,
      priv_serve_HandleGetPublishingMetaListResult, priv_serve_HandleGetHoldingMetaListResult,
      our_request, ask_first, priv_send_one; kept.
Qed.
End serving.
End keeps.

(** ** The maps of senders *)
Definition registered (s : InMemoryServer) (dna : Address) (agent : string) (c : Channel) : Prop :=
  ∃ agents, senders_by_dna s !! dna = Some agents ∧ agents !! agent = Some c.

(** Both maps hold the same cells, each with a channel of its own that was opened. *)
Record senders_inv (n : nat) (s : InMemoryServer) : Prop := {
  senders_agree dna agent c :
    no_colon dna → senders s !! into_cell_id dna agent = Some c ↔ registered s dna agent c;
  senders_inj d1 a1 d2 a2 c : registered s d1 a1 c → registered s d2 a2 c → d1 = d2 ∧ a1 = a2;
  senders_below dna agent c : registered s dna agent c → (c < n)%nat;
  senders_dna dna agents : senders_by_dna s !! dna = Some agents → no_colon dna
}.

(** The requests are numbered from one. *)
Definition requests_inv (s : InMemoryServer) : Prop :=
  ∀ id, is_Some (request_book s !! id) ↔ ∃ k, (1 ≤ k ≤ request_count s)%N ∧ id = "req_" +:+ pretty k.

Lemma senders_inv_mono n n' s : (n ≤ n')%nat → senders_inv n s → senders_inv n' s.
Proof. intros Hn [H1 H2 H3 H4]. split; [done|done| |done]. intros ? ? ? Hr%H3. lia. Qed.

Lemma senders_inv_new n name : senders_inv n (server_new name) ∧ requests_inv (server_new name).
Proof.
  assert (∀ dna agent c, ¬ registered (server_new name) dna agent c) as Hno.
  { intros dna agent c (agents & Hd & _). simpl in Hd. by rewrite lookup_empty in Hd. }
  split; [split|].
  - intros dna agent c _. simpl. rewrite lookup_empty. split; [done|]. by intros ?%Hno.
  - by intros ? ? ? ? ? ?%Hno.
  - by intros ? ? ? ?%Hno.
  - intros dna agents. simpl. by rewrite lookup_empty.
  - intros id. simpl. rewrite lookup_empty. split; [by intros []|]. intros (k & Hk & _). simpl in Hk. lia.
Qed.

Section registering.
Context {Text : Type}.
Implicit Type w : Served Text.

Lemma registered_register s dna agent c d a x :
  registered (with_senders_by_dna (λ by_dna,
    match by_dna !! dna with
    | Some agents => <[dna := <[agent := c]> agents]> by_dna
    | None => <[dna := {[agent := c]}]> by_dna
    end) s) d a x ↔
  (d = dna ∧ a = agent ∧ x = c) ∨ (¬ (d = dna ∧ a = agent) ∧ registered s d a x).
Proof.
  unfold registered. simpl. destruct (senders_by_dna s !! dna) as [agents|] eqn:E;
    rewrite lookup_insert; case_decide as Hd; subst.
  - rewrite E. split.
    + intros (? & [= <-] & Hx). rewrite lookup_insert in Hx. case_decide; [naive_solver|].
      right. split; [naive_solver|]. eauto.
    + intros [(_ & -> & ->)|(Hne & ? & [= <-] & Hx)]; eexists; (split; [done|]).
      * by rewrite lookup_insert, decide_True.
      * rewrite lookup_insert_ne; [done|]. naive_solver.
  - naive_solver.
  - rewrite E. split.
    + intros (? & [= <-] & Hx). rewrite lookup_singleton in Hx. case_decide; naive_solver.
    + intros [(_ & -> & ->)|(Hne & ? & ? & Hx)]; [|done]. eexists. split; [done|].
      by rewrite lookup_singleton, decide_True.
  - naive_solver.
Qed.

Lemma register_inv n s dna agent :
  no_colon dna → senders_inv n s →
  senders_inv (S n) (server (register_cell (Text := Text) dna agent n (MkServed s ∅)).1).
Proof.
  intros Hdna [H1 H2 H3 H4]. unfold register_cell, mbind, serving_bind. simpl.
  pose proof (registered_register (with_senders <[into_cell_id dna agent := n]> s) dna agent n) as Hreg.
  split.
  - intros d a x Hd. rewrite Hreg. simpl. rewrite lookup_insert. case_decide as Hc.
    + apply into_cell_id_inj in Hc as [-> ->]; [|done..]. naive_solver.
    + rewrite (H1 d a x Hd). split; [|naive_solver]. intros Hr. right. split; [naive_solver|done].
  - intros d1 a1 d2 a2 x [(-> & -> & ->)|[_ R1]]%Hreg [(-> & -> & Hx)|[_ R2]]%Hreg; [done| | |].
    + apply H3 in R2. simpl in R2. lia.
    + subst. apply H3 in R1. simpl in R1. lia.
    + by apply (H2 d1 a1 d2 a2 x).
  - intros d a x [(_ & _ & ->)|[_ R]]%Hreg; [lia|]. apply H3 in R. lia.
  - intros d agents. simpl. destruct (senders_by_dna s !! dna) as [ag|] eqn:E; rewrite lookup_insert;
      case_decide; subst; eauto.
Qed.

Lemma senders_inv_ext n s s' :
  senders s' = senders s → senders_by_dna s' = senders_by_dna s → senders_inv n s → senders_inv n s'.
Proof.
  intros E1 E2 [H1 H2 H3 H4].
  assert (∀ d a c, registered s' d a c ↔ registered s d a c) as R by (intros; unfold registered; by rewrite E2).
  split.
  - intros d a c Hd. by rewrite R, E1, H1.
  - intros d1 a1 d2 a2 c R1%R R2%R. by eapply H2.
  - intros d a c Hr%R. by eapply H3.
  - intros d agents. rewrite E2. apply H4.
Qed.

Lemma unregister_inv n dna agent w :
  no_colon dna → senders_inv n (server w) →
  senders_inv n (server (unregister_cell dna agent w).1) ∧
  (unregister_cell dna agent w).2 = Done (Ok tt) ∧
  request_book (server (unregister_cell dna agent w).1) = request_book (server w) ∧
  request_count (server (unregister_cell dna agent w).1) = request_count (server w).
Proof.
  intros Hdna Hs. unfold unregister_cell. served done.
  destruct (senders (server w) !! into_cell_id dna agent) as [c|] eqn:E; [|by split_and!].
  served done. destruct Hs as [H1 H2 H3 H4]. destruct (proj1 (H1 dna agent c Hdna) E) as (agents & Ed & Ea).
  rewrite Ed. simpl. split_and!; [|done..].
  set (s' := with_senders_by_dna _ _).
  assert (∀ d a x, registered s' d a x ↔ registered (server w) d a x ∧ ¬ (d = dna ∧ a = agent)) as R.
  { intros d a x. unfold registered. simpl. rewrite lookup_insert. case_decide; subst.
    - rewrite Ed. split.
      + intros (? & [= <-] & Hx). rewrite lookup_delete in Hx. case_decide; [done|]. split; [eauto|naive_solver].
      + intros [(? & [= <-] & Hx) Hne]. eexists. split; [done|]. rewrite lookup_delete_ne; [done|]. naive_solver.
    - split; [|naive_solver]. intros Hr. split; [done|]. naive_solver. }
  split.
  - intros d a x Hd. rewrite R. simpl. rewrite lookup_delete. case_decide as Hc.
    + apply into_cell_id_inj in Hc as [-> ->]; [|done..]. naive_solver.
    + rewrite (H1 d a x Hd). split; [|naive_solver]. intros Hr. split; [done|]. naive_solver.
  - intros d1 a1 d2 a2 x [R1 _]%R [R2 _]%R. by eapply H2.
  - intros d a x [Hr _]%R. by eapply H3.
  - intros d ag. simpl. rewrite lookup_insert. case_decide; subst; eauto.
Qed.

Lemma clock_out_inv n w :
  senders_inv n (server w) → senders_inv n (server (clock_out w).1).
Proof.
  intros Hs. unfold clock_out. served done. case_decide; [|done]. served done. served done.
  case_decide; [|by apply (senders_inv_ext n (server w))]. unfold mbind, serving_bind. simpl.
  eapply senders_inv_ext; [..|apply (senders_inv_new n "")]; done.
Qed.
End registering.

Lemma requests_inv_create cell s :
  requests_inv s →
  requests_inv (with_requests <["req_" +:+ pretty (request_count s + 1)%N := cell]> (request_count s + 1)%N s).
Proof.
  intros Hr id. simpl. rewrite lookup_insert. case_decide as Hid; subst.
  - split; [|done]. intros _. exists (request_count s + 1)%N. split; [lia|done].
  - rewrite (Hr id). split; intros (k & Hk & ->); exists k; (split; [|done]); [lia|].
    destruct (decide (k = request_count s + 1)%N) as [->|]; [done|lia].
Qed.

(** ** Histories *)
Section history.
Context {Json Text : Type} `{!JsonValues Json, !MessageText Json Text}.

Definition server_inv (n : nat) (s : InMemoryServer) : Prop := senders_inv n s ∧ requests_inv s.

Definition world_inv (w : World Text) : Prop :=
  ∀ name s poisoned, servers w !! name = Some (s, poisoned) → server_inv (next_channel w) s.

Lemma serve_keeps_inv order n data : keeps (server_inv n) (serve (Json := Json) (Text := Text) order data).
Proof.
  apply keeps_serve.
  1-3: intros f s [H1 H2]; split; [by apply (senders_inv_ext n s)|exact H2].
  intros cell s [H1 H2]. split; [by apply (senders_inv_ext n s)|by apply requests_inv_create].
Qed.

Lemma locked_inv why (f : serving Text unit) (k : InMemoryWorker Text) w :
  keeps (server_inv (next_channel w)) f → world_inv w → world_inv (locked why f k w).1.2.
Proof.
  intros Hf Hw. unfold locked. destruct (map_poisoned w); [done|].
  unfold lock. destruct (servers w !! worker_server k) as [[s [|]]|] eqn:E; [done| |done].
  specialize (Hf (MkServed s (world_channels w)) (Hw _ _ _ E)).
  destruct (f _) as [sv r]. simpl in *. intros name s' p. simpl. rewrite lookup_insert.
  case_decide; [by intros [= <- <-]|]. apply Hw.
Qed.

Definition wkeeps {A} (m : working (Text := Text) A) : Prop :=
  ∀ k w, world_inv w → world_inv (m k w).1.2.

Lemma wkeeps_bind {A B} (m : working A) (f : A → working B) :
  wkeeps m → (∀ a, wkeeps (f a)) → wkeeps (working_bind A B f m).
Proof.
  intros Hm Hf k w Hw. specialize (Hm k w Hw). unfold working_bind.
  destruct (m k w) as [[k' w'] [[a|e]|why]]; [by apply Hf|done|done].
Qed.

Lemma wkeeps_locked why (f : serving Text unit) : (∀ n, keeps (server_inv n) f) → wkeeps (locked why f).
Proof. intros Hf k w. by apply locked_inv. Qed.

Lemma opened_inv dna agent k w :
  no_colon dna → world_inv w →
  world_inv (working_bind _ _ (λ c, locked why_missing (register_cell dna agent c)) (open_channel dna) k w).1.2.
Proof.
  intros Hdna Hw. unfold working_bind, open_channel, locked. simpl.
  assert (∀ name s p, servers w !! name = Some (s, p) → server_inv (S (next_channel w)) s) as Hw'.
  { intros name s p Hs. destruct (Hw name s p Hs) as [H1 H2]. split; [|done]. eapply senders_inv_mono, H1. lia. }
  destruct (map_poisoned w); [exact Hw'|]. unfold lock. simpl.
  destruct (servers w !! worker_server k) as [[s [|]]|] eqn:E; [exact Hw'| |exact Hw'].
  simpl. intros name s' p. simpl. rewrite lookup_insert. case_decide; [|apply Hw'].
  intros [= <- <-]. destruct (Hw _ _ _ E) as [H1 H2]. split; [|exact H2].
  exact (register_inv (Text := Text) (next_channel w) s dna agent Hdna H1).
Qed.

(** Messages about the tracking of DNAs name DNAs without a colon. *)
Definition event_ok (e : Event Text) : Prop :=
  match e with
  | EvReceive _ _ data =>
      match try_from (Json := Json) data with
      | Some (TrackDna d) | Some (UntrackDna d) => no_colon (td_dna_address d)
      | _ => True
      end
  | _ => True
  end.

Lemma receive_inv id orders data k w :
  event_ok (EvReceive id orders data) → world_inv w →
  world_inv (receive (Json := Json) orders data k w).1.2.
Proof.
  intros Hok Hw. unfold event_ok in Hok.
  assert (wkeeps (before_serve (Json := Json) data)) as Hb.
  { unfold before_serve. destruct (try_from data) as [[]|]; try (by intros ? ?).
    apply wkeeps_bind; [by intros ? ?|]. intros [c|]; [by intros ? ?|]. intros k' w'. by apply opened_inv. }
  assert (wkeeps (after_serve (Json := Json) data)) as Ha.
  { unfold after_serve. destruct (try_from data) as [[]|]; try (by intros ? ?).
    apply wkeeps_bind; [by intros ? ?|]. intros [c|]; [|by intros ? ?].
    apply wkeeps_bind; [|by intros ? ? ? ?]. apply wkeeps_locked. intros n sv [H1 H2].
    destruct (unregister_inv n (td_dna_address d) (td_agent_id d) sv Hok H1) as (H3 & _ & H4 & H5).
    split; [done|]. intros i. by rewrite H4, H5. }
  unfold receive. destruct data; try done.
  all: apply (wkeeps_bind (locked why_missing (mret tt)) _); [by apply wkeeps_locked; intros n ? ?| |done].
  all: intros _; apply wkeeps_bind; [exact Hb|]; intros _.
  all: apply wkeeps_bind; [apply wkeeps_locked; intros n; apply serve_keeps_inv|]; intros _; exact Ha.
Qed.

Lemma tick_inv orders k w : world_inv w → world_inv (tick (Text := Text) orders k w).1.2.
Proof.
  assert (∀ rs did, wkeeps (poll rs did)) as Hp.
  { induction rs as [|[dna c] rs IH]; intros did; [by intros ? ?|]. cbn [poll].
    apply wkeeps_bind; [|intros [d|]; [|apply IH]].
    - intros k' w' Hw. unfold try_recv. destruct (world_channels w' !! c) as [[|d q]|]; [done| |done]. exact Hw.
    - apply wkeeps_bind; [by intros ? ?|]. intros _. apply IH. }
  intros Hw. apply (wkeeps_bind take_ready _); [by intros ? ?| |done].
  intros ready. apply wkeeps_bind; [destruct ready; by intros ? ?|]. intros _.
  apply wkeeps_bind; [by intros ? ?|]. intros rs. apply Hp.
Qed.

Lemma new_inv handler config w : world_inv w → world_inv (worker_new (Text := Text) handler config w).1.
Proof.
  intros Hw. unfold worker_new. destruct config as [name|e]; [|done].
  set (n := default "(unnamed)" name). destruct (map_poisoned w); [done|].
  set (w1 := match servers w !! n with Some _ => w | None => _ end).
  assert (world_inv w1 ∧ next_channel w1 = next_channel w) as [Hw1 Hn].
  { unfold w1. destruct (servers w !! n) eqn:E; [done|]. split; [|done]. intros name' s p. simpl.
    rewrite lookup_insert. case_decide; [|apply Hw]. intros [= <- <-]. apply senders_inv_new. }
  unfold lock. destruct (servers w1 !! n) as [[s [|]]|] eqn:E; [exact Hw1| |exact Hw1].
  unfold clock_in. cbn [mbind serving_bind the_server]. unfold mbind, serving_bind. simpl.
  assert (∀ f, server_inv (next_channel w1) (with_client_count f s)) as Hs.
  { intros f. destruct (Hw1 _ _ _ E) as [H1 H2]. split; [by apply (senders_inv_ext _ s)|exact H2]. }
  case_decide; simpl; intros name' s' p; simpl; rewrite lookup_insert;
    (case_decide; [intros [= <- <-]; apply Hs || by eapply Hw1|apply Hw1]).
Qed.

Lemma perform_inv e w : event_ok e → world_inv w → world_inv (perform (Json := Json) e w).
Proof.
  intros He Hw. destruct e as [id h config|id orders data|id orders|id]; simpl.
  - destruct (workers w !! id); [done|]. pose proof (new_inv h config w Hw) as Hn.
    destruct (worker_new h config w) as [w' [[k|]|]]; exact Hn.
  - destruct (workers w !! id) as [k|]; [|done]. pose proof (receive_inv id orders data k w He Hw) as Hr.
    destruct (receive orders data k w) as [[k' w'] r]. exact Hr.
  - destruct (workers w !! id) as [k|]; [|done]. pose proof (tick_inv orders k w Hw) as Hr.
    destruct (tick orders k w) as [[k' w'] r]. exact Hr.
  - destruct (workers w !! id) as [k|]; [|done]. unfold worker_drop.
    pose proof (locked_inv "InMemoryServer should exist" clock_out k w) as Hl.
    destruct (locked _ clock_out k w) as [[k' w'] r]. apply Hl; [|done].
    intros sv [H1 H2]. split; [by apply clock_out_inv|]. clear Hl. unfold clock_out. served done.
    case_decide; [|done]. served done. served done. by case_decide.
Qed.

(** ** The books of requests only grow *)
Definition books_grow : relation InMemoryServer := λ s s',
  requests_inv s → requests_inv s' ∧ request_book s ⊆ request_book s'.
Definition later : relation (World Text) := λ w w', ∀ name s p, servers w !! name = Some (s, p) →
  ∃ s' p', servers w' !! name = Some (s', p') ∧ books_grow s s'.

#[local] Instance books_grow_preorder : PreOrder books_grow.
Proof.
  split; [done|]. intros s1 s2 s3 H1 H2 [H3 H4]%H1. destruct (H2 H3). split; [done|by etrans].
Qed.
#[local] Instance later_preorder : PreOrder later.
Proof.
  split; [intros w name s p Hs; by exists s, p|]. intros w1 w2 w3 H1 H2 name s p (s' & p' & Hs' & H3)%H1.
  destruct (H2 _ _ _ Hs') as (s2 & p2 & Hs2 & H4). exists s2, p2. split; [done|by etrans].
Qed.

Lemma same_requests s s' :
  request_book s' = request_book s → request_count s' = request_count s → books_grow s s'.
Proof. intros Hb Hc Hs. split; [|by rewrite Hb]. intros id. by rewrite Hb, Hc. Qed.

Lemma requests_fresh s : requests_inv s → request_book s !! ("req_" +:+ pretty (request_count s + 1)%N) = None.
Proof.
  intros Hr. apply eq_None_not_Some. intros (k & Hk & E)%Hr.
  apply (inj _), (inj _) in E. lia.
Qed.

Lemma serve_grows order data sv : books_grow (server sv) (server (serve (Json := Json) (Text := Text) order data sv).1).
Proof.
  intros Hs. apply (keeps_serve order (λ s', requests_inv s' ∧ request_book (server sv) ⊆ request_book s')); [done..| |done].
  intros cell s [Hi Hb]. split; [by apply requests_inv_create|]. simpl. etrans; [exact Hb|].
  by apply insert_subseteq, requests_fresh.
Qed.

Lemma unlock_later w name s poisoned sv :
  servers w !! name = Some (s, false) → books_grow s (server sv) → later w (unlock w name sv poisoned).
Proof.
  intros Hs Hg name' s' p' Hs'. simpl. destruct (decide (name' = name)) as [->|Hne].
  - rewrite lookup_insert_eq. eexists _, _. split; [done|]. by simplify_eq.
  - rewrite lookup_insert_ne by done. by exists s', p'.
Qed.

Definition wlater {A} (m : working (Text := Text) A) : Prop := ∀ k w, later w (m k w).1.2.

Lemma wlater_bind {A B} (m : working A) (f : A → working B) :
  wlater m → (∀ a, wlater (f a)) → wlater (working_bind A B f m).
Proof.
  intros Hm Hf k w. specialize (Hm k w). unfold working_bind.
  destruct (m k w) as [[k' w'] [[a|e]|why]]; [|done..]. by etrans; [|apply Hf].
Qed.

Lemma wlater_locked why (f : serving Text unit) :
  (∀ sv, books_grow (server sv) (server (f sv).1)) → wlater (locked why f).
Proof.
  intros Hf k w. unfold locked. destruct (map_poisoned w); [done|].
  unfold lock. destruct (servers w !! worker_server k) as [[s [|]]|] eqn:E; [done| |done].
  specialize (Hf (MkServed s (world_channels w))). destruct (f _) as [sv r]. by apply (unlock_later w _ s).
Qed.

Lemma wlater_quiet {A} (m : working A) : (∀ k w, servers (m k w).1.2 = servers w) → wlater m.
Proof. intros Hm k w name s p Hs. rewrite Hm. by exists s, p. Qed.

Lemma unregister_grows dna agent (sv : Served Text) : books_grow (server sv) (server (unregister_cell dna agent sv).1).
Proof.
  apply same_requests; unfold unregister_cell, mbind, serving_bind; simpl;
    destruct (senders _ !! _); simpl; try done; by destruct (senders_by_dna _ !! _).
Qed.

Lemma receive_later orders data : wlater (receive (Json := Json) orders data).
Proof.
  assert (wlater (before_serve (Json := Json) data)) as Hb.
  { unfold before_serve. destruct (try_from data) as [[]|]; try by apply wlater_quiet.
    apply wlater_bind; [by apply wlater_quiet|]. intros [c|]; [by apply wlater_quiet|].
    apply wlater_bind; [by apply wlater_quiet|]. intros c. apply wlater_locked. intros sv. by apply same_requests. }
  assert (wlater (after_serve (Json := Json) data)) as Ha.
  { unfold after_serve. destruct (try_from data) as [[]|]; try by apply wlater_quiet.
    apply wlater_bind; [by apply wlater_quiet|]. intros [c|]; [|by apply wlater_quiet].
    apply wlater_bind; [|intros _; by apply wlater_quiet]. apply wlater_locked, unregister_grows. }
  unfold receive. destruct data; try by apply wlater_quiet.
  all: apply wlater_bind; [by apply wlater_locked|intros _]; apply wlater_bind; [exact Hb|intros _].
  all: apply wlater_bind; [apply wlater_locked; intros sv; apply serve_grows|intros _; exact Ha].
Qed.

Lemma tick_later orders : wlater (tick (Text := Text) orders).
Proof.
  assert (∀ rs did, wlater (poll rs did)) as Hp.
  { induction rs as [|[dna c] rs IH]; intros did; [by apply wlater_quiet|]. cbn [poll].
    apply wlater_bind; [|intros [d|]; [|apply IH]].
    - apply wlater_quiet. intros k w. unfold try_recv. by destruct (world_channels w !! c) as [[]|].
    - apply wlater_bind; [by apply wlater_quiet|intros _; apply IH]. }
  apply (wlater_bind take_ready); [by apply wlater_quiet|]. intros ready.
  apply wlater_bind; [destruct ready; by apply wlater_quiet|]. intros _.
  apply wlater_bind; [by apply wlater_quiet|]. intros rs. apply Hp.
Qed.

Lemma new_later handler config w : later w (worker_new (Text := Text) handler config w).1.
Proof.
  unfold worker_new. destruct config as [name|e]; [|done]. set (n := default "(unnamed)" name).
  destruct (map_poisoned w); [done|].
  set (w1 := match servers w !! n with Some _ => w | None => _ end).
  assert (later w w1) as Hw1.
  { unfold w1. destruct (servers w !! n) eqn:E; [done|]. intros name' s p Hs. simpl.
    rewrite lookup_insert_ne by congruence. by exists s, p. }
  etrans; [exact Hw1|]. unfold lock. destruct (servers w1 !! n) as [[s [|]]|] eqn:E.
  1,3: by intros ? ? ? ?; eexists _, _.
  assert (∀ c p, later w1 (unlock w1 n (clock_in (MkServed s c)).1 p)) as Hl.
  { intros c p. apply (unlock_later w1 n s); [done|]. unfold clock_in, mbind, serving_bind. simpl.
    case_decide; by apply same_requests. }
  specialize (Hl (world_channels w1)). destruct (clock_in _) as [sv [r|why]]; apply Hl.
Qed.

Lemma drop_later k w : later w (worker_drop (Text := Text) k w).1.
Proof.
  assert (wlater (locked "InMemoryServer should exist" (clock_out (Text := Text)))) as Hl.
  { apply wlater_locked. intros sv. unfold clock_out, mbind, serving_bind. simpl. case_decide; simpl; [|done].
    case_decide; by apply same_requests. }
  specialize (Hl k w). unfold worker_drop. by destruct (locked _ clock_out k w) as [[k' w'] r].
Qed.

Lemma perform_later e w : later w (perform (Json := Json) e w).
Proof.
  destruct e as [id h config|id orders data|id orders|id]; simpl; destruct (workers w !! id) as [k|]; try done.
  - pose proof (new_later h config w) as Hn. by destruct (worker_new h config w) as [w' [[]|]].
  - pose proof (receive_later orders data k w) as Hr. by destruct (receive orders data k w) as [[k' w'] r].
  - pose proof (tick_later orders k w) as Hr. by destruct (tick orders k w) as [[k' w'] r].
  - exact (drop_later k w).
Qed.

Lemma history_later es w : later w (history (Json := Json) es w).
Proof.
  unfold history. revert w. induction es as [|e es IH]; intros w; simpl; [done|]. etrans; [apply perform_later|apply IH].
Qed.

Lemma history_inv es : Forall event_ok es → world_inv (history (Json := Json) es world_new).
Proof.
  assert (world_inv (world_new (Text := Text))) as H0 by (intros n s' p Hn; simpl in Hn; by rewrite lookup_empty in Hn).
  intros Hes. revert H0. generalize (world_new (Text := Text)). unfold history.
  induction Hes as [|e es He _ IH]; intros w Hw; simpl; [done|]. by apply IH, perform_inv.
Qed.

(** C25: in a history of workers that connect, receive, tick and go away, in every order of
    the maps, where no DNA address that is tracked or given up contains a colon: the two
    maps of senders of every server hold the same cells and no two cells share a channel;
    the unreachable branch of giving up a cell is not reached; and ids of requests are never
    reused.  They are numbered without gaps, an id stays in the book for its cell whatever
    happens later (as when the last client goes and another one comes), and the next
    request gets an id that is not in the book. *)
Theorem servers_consistent es name s poisoned :
  Forall event_ok es → servers (history (Json := Json) es world_new) !! name = Some (s, poisoned) →
  (∀ dna agent c, no_colon dna → senders s !! into_cell_id dna agent = Some c ↔ registered s dna agent c) ∧
  (∀ d1 a1 d2 a2 c, registered s d1 a1 c → registered s d2 a2 c → d1 = d2 ∧ a1 = a2) ∧
  (∀ dna agent chs, no_colon dna → (unregister_cell (Text := Text) dna agent (MkServed s chs)).2 = Done (Ok tt)) ∧
  (∀ id, is_Some (request_book s !! id) ↔ ∃ k, (1 ≤ k ≤ request_count s)%N ∧ id = "req_" +:+ pretty k) ∧
  (∀ es', ∃ s' poisoned', servers (history (Json := Json) (es ++ es') world_new) !! name = Some (s', poisoned') ∧
    ∀ id cell, request_book s !! id = Some cell → request_book s' !! id = Some cell) ∧
  (∀ cell chs w id, priv_create_request_with_cell_id cell (MkServed (Text := Text) s chs) = (w, Done (Ok id)) →
    request_book s !! id = None ∧ request_book (server w) = <[id := cell]> (request_book s)).
Proof.
  intros Hes Hs. destruct (history_inv es Hes _ _ _ Hs) as [H1 H2]. split_and!; [apply H1|apply H1| |done| |].
  - intros dna agent chs Hd. by eapply (unregister_inv _ dna agent (MkServed s chs)).
  - intros es'. destruct (history_later es' _ _ _ _ Hs) as (s' & p' & Hs' & Hg). exists s', p'.
    split; [unfold history in *; by rewrite fold_left_app|]. intros id cell Hid.
    eapply lookup_weaken; [exact Hid|]. by apply Hg.
  - intros cell chs w id. unfold priv_create_request_with_cell_id, priv_generate_request_id, mbind, serving_bind. simpl.
    case_decide; simpl; [|done]. intros [= <- <-]. split; [by apply requests_fresh|done].
Qed.

(** ** Arrival *)
Definition accepting (k : InMemoryWorker Text) : Prop := ∀ l d, handler k l d = Ok tt.

(** What changes while a worker takes messages: more is handled, less is waiting. *)
Record progress (cs : list Channel) (k k' : InMemoryWorker Text) (w w' : World Text) : Prop := {
  same_handler : handler k' = handler k;
  same_receivers : receiver_per_dna k' = receiver_per_dna k;
  handled_grows : handled k `prefix_of` handled k';
  same_workers : workers w' = workers w;
  queue_taken c d q : c ∈ cs → world_channels w !! c = Some (d :: q) →
    world_channels w' !! c = Some q ∧ d ∈ handled k';
  queue_kept c : c ∉ cs → world_channels w' !! c = world_channels w !! c
}.

Lemma poll_progress rs did k w :
  accepting k → NoDup rs.*2 →
  ∃ k' w' b, poll rs did k w = (k', w', Done (Ok b)) ∧ progress rs.*2 k k' w w'.
Proof.
  intros Hk. revert did k w Hk. induction rs as [|[dna c] rs IH]; intros did k w Hk Hnd.
  { exists k, w, did. split; [done|]. split; try done. by intros ? ? ? ?%elem_of_nil. }
  apply NoDup_cons in Hnd as [Hc Hnd]. cbn [poll]. unfold mbind, working_bind, try_recv.
  assert ((∀ d q, world_channels w !! c ≠ Some (d :: q)) →
    ∃ k' w' b, poll rs did k w = (k', w', Done (Ok b)) ∧ progress (c :: rs.*2) k k' w w') as Hskip.
  { intros Hno. destruct (IH did k w Hk Hnd) as (k' & w' & b & E & [P1 P2 P3 P4 P5 P6]).
    exists k', w', b. split; [done|]. split; try done.
    - intros x d' q' [Hx|Hx]%elem_of_cons Hq; [subst; by destruct (Hno d' q')|by apply P5].
    - intros x Hx. apply P6. intros ?. apply Hx. by right. }
  destruct (world_channels w !! c) as [[|d q]|] eqn:E.
  1: by apply Hskip. 2: by apply Hskip.
  unfold handle. simpl. rewrite Hk.
  set (k1 := MkWorker _ _ _ _ _). set (w1 := MkWorld _ _ _ _ _).
  destruct (IH true k1 w1) as (k' & w' & b & -> & [P1 P2 P3 P4 P5 P6]); [done|done|].
  exists k', w', b. split; [done|]. split; [done|done| |done| |].
  - etrans; [|exact P3]. by eexists.
  - intros x d' q' [->|Hx]%elem_of_cons Hq.
    + simplify_eq. split; [rewrite P6 by done; simpl; by rewrite lookup_insert, decide_True|].
      destruct P3 as [l ->]. simpl. set_solver.
    + apply P5; [done|]. simpl. rewrite lookup_insert_ne; [done|]. by intros ->.
  - intros x Hx. rewrite P6 by (intros ?; apply Hx; by right). simpl.
    rewrite lookup_insert_ne; [done|]. intros ->. apply Hx. by left.
Qed.

Lemma tick_progress orders k w :
  accepting k → dnas_order orders (receiver_per_dna k) ≡ₚ map_to_list (receiver_per_dna k) →
  NoDup (map_to_list (receiver_per_dna k)).*2 →
  ∃ k' w' b, tick orders k w = (k', w', Done (Ok b)) ∧
    progress (map_to_list (receiver_per_dna k)).*2 k k' w w'.
Proof.
  intros Hk Hord Hnd. unfold tick, mbind, working_bind, take_ready, all_receivers.
  set (k1 := MkWorker (handler k) (receiver_per_dna k) (worker_server k) false
    (handled k ++ if can_send_P2pReady k then [P2pReady] else [])).
  destruct (poll_progress (dnas_order orders (receiver_per_dna k)) false k1 w) as
    (k' & w' & b & E & [P1 P2 P3 P4 P5 P6]); [done|by rewrite Hord|].
  exists k', w', b. split.
  - rewrite <-E. unfold k1. destruct (can_send_P2pReady k); simpl; [by rewrite Hk|by rewrite app_nil_r].
  - split; [done|done| |done| |].
    + etrans; [|exact P3]. by eexists.
    + intros c d q Hc. apply P5. by rewrite Hord.
    + intros c Hc. apply P6. by rewrite Hord.
Qed.

Definition ticks (n : nat) (id : nat) (orders : Orders) : list (Event Text) := replicate n (EvTick id orders).

(** A waiting message is handled after as many ticks as there are messages before it. *)
Lemma waiting_handled orders id dna c pre d post k w :
  workers w !! id = Some k → accepting k →
  dnas_order orders (receiver_per_dna k) ≡ₚ map_to_list (receiver_per_dna k) →
  NoDup (map_to_list (receiver_per_dna k)).*2 →
  receiver_per_dna k !! dna = Some c → world_channels w !! c = Some (pre ++ d :: post) →
  ∃ k', workers (history (Json := Json) (ticks (S (length pre)) id orders) w) !! id = Some k' ∧ d ∈ handled k'.
Proof.
  intros Hid Hk Hord Hnd Hc. assert (c ∈ (map_to_list (receiver_per_dna k)).*2) as Hin.
  { apply list_elem_of_fmap. exists (dna, c). split; [done|]. by apply elem_of_map_to_list. }
  revert k w Hid Hk Hord Hnd Hc Hin. induction pre as [|e pre IH]; intros k w Hid Hk Hord Hnd Hc Hin Hq.
  all: destruct (tick_progress orders k w Hk Hord Hnd) as (k' & w' & b & E & [P1 P2 P3 P4 P5 P6]).
  all: destruct (P5 c _ _ Hin Hq) as [Hq' Hd].
  - exists k'. simpl. rewrite Hid, E. simpl. by rewrite lookup_insert, decide_True.
  - cbn [length ticks replicate]. unfold history. cbn [fold_left perform]. rewrite Hid, E.
    apply (IH k' (set_worker id k' w')); simpl.
    + by rewrite lookup_insert, decide_True.
    + intros l x. by rewrite P1.
    + by rewrite P2.
    + by rewrite P2.
    + by rewrite P2.
    + by rewrite P2.
    + done.
Qed.

Lemma locked_runs why (f : serving Text unit) k w s sv r :
  map_poisoned w = false → servers w !! worker_server k = Some (s, false) →
  f (MkServed s (world_channels w)) = (sv, r) →
  locked why f k w = (k, unlock w (worker_server k) sv (panics r), r).
Proof. intros Hp Hs Hf. unfold locked, lock. by rewrite Hp, Hs, Hf. Qed.

Lemma unlock_same w name s chs :
  servers w !! name = Some (s, false) →
  unlock (Text := Text) w name (MkServed s chs) false =
  MkWorld (servers w) (map_poisoned w) chs (next_channel w) (workers w).
Proof. intros Hs. unfold unlock. simpl. by rewrite insert_id. Qed.

Lemma working_ok {A B} (m : working (Text := Text) A) (f : A → working B) k w k' w' x :
  m k w = (k', w', Done (Ok x)) → working_bind A B f m k w = f x k' w'.
Proof. intros E. unfold working_bind. by rewrite E. Qed.

(** A message that is not about tracking is served and nothing else. *)
Lemma receive_runs orders m k w s sv :
  (∀ d, m ≠ TrackDna d ∧ m ≠ UntrackDna d) →
  map_poisoned w = false → servers w !! worker_server k = Some (s, false) →
  serve_message (agents_order orders) m (MkServed s (world_channels w)) = (MkServed s sv, Done (Ok tt)) →
  receive (Json := Json) orders (into m) k w =
  (k, MkWorld (servers w) false sv (next_channel w) (workers w), Done (Ok tt)).
Proof.
  intros Hm Hp Hs Hserve. unfold receive, into.
  assert (∀ k' w', before_serve (Json := Json) (JsonText (text_of_message m)) k' w' = (k', w', Done (Ok tt))) as Hb.
  { intros k' w'. unfold before_serve, try_from. rewrite message_text_roundtrip. by destruct m; try by destruct (Hm d). }
  assert (∀ k' w', after_serve (Json := Json) (JsonText (text_of_message m)) k' w' = (k', w', Done (Ok tt))) as Ha.
  { intros k' w'. unfold after_serve, try_from. rewrite message_text_roundtrip. by destruct m; try by destruct (Hm d). }
  pose proof (locked_runs why_missing (mret tt) k w s (MkServed s (world_channels w)) (Done (Ok tt)) Hp Hs eq_refl) as E1.
  rewrite unlock_same in E1 by done.
  etrans; [exact (working_ok _ _ _ _ _ _ _ E1)|]. etrans; [exact (working_ok _ _ _ _ _ _ _ (Hb _ _))|].
  assert (serve (Json := Json) (agents_order orders) (into m) (MkServed s (world_channels w)) =
    (MkServed s sv, Done (Ok tt))) as Hserve' by (by rewrite serve_into).
  pose proof (locked_runs why_missing _ k (MkWorld (servers w) (map_poisoned w) (world_channels w)
    (next_channel w) (workers w)) s _ _ Hp Hs Hserve') as E2.
  etrans; [exact (working_ok _ _ _ _ _ _ _ E2)|]. rewrite Ha. simpl. rewrite unlock_same by done. by rewrite Hp.
Qed.

(** C26: a direct message arrives: when a node sends a message to another node of the same
    server, both tracking the DNA, no lock poisoned, and the other node's handler accepting
    what it is given and its channels being one for each DNA, the message waits behind the messages that were sent before, and
    the receiving node's handler is given it within one tick per message. *)
Theorem message_arrives orders a b ka kb msg s c q w :
  let dna := msg_dna_address msg in
  workers w !! a = Some ka → workers w !! b = Some kb →
  worker_server kb = worker_server ka → map_poisoned w = false →
  servers w !! worker_server ka = Some (s, false) →
  into_cell_id dna (msg_from_agent_id msg) ∈ trackdna_book s →
  into_cell_id dna (msg_to_agent_id msg) ∈ trackdna_book s →
  senders s !! into_cell_id dna (msg_to_agent_id msg) = Some c →
  receiver_per_dna kb !! dna = Some c → world_channels w !! c = Some q → accepting kb →
  dnas_order orders (receiver_per_dna kb) ≡ₚ map_to_list (receiver_per_dna kb) →
  NoDup (map_to_list (receiver_per_dna kb)).*2 →
  ∃ k', workers (history (Json := Json)
          (EvReceive a orders (into (SendMessage msg)) :: ticks (S (length q)) b orders) w) !! b = Some k' ∧
    into (HandleSendMessage msg) ∈ handled k'.
Proof.
  intros dna Ha Hb Hname Hpois Hs Ht1 Ht2 Hsend Hrec Hq Hacc Hord Hnd.
  set (w1 := MkWorld (servers w) false (<[c := q ++ [into (HandleSendMessage msg)]]> (world_channels w))
    (next_channel w) (workers w)).
  assert (receive (Json := Json) orders (into (SendMessage msg)) ka w = (ka, w1, Done (Ok tt))) as E.
  { eapply receive_runs; [by intros d|done|exact Hs|]. cbn [serve_message]. unfold priv_serve_SendMessage.
    served ltac:(by apply check_tracked). served ltac:(by apply check_tracked).
    unfold priv_send_one, priv_send_one_with_cell_id. served done. simpl.
    change (msg_dna_address msg) with dna. rewrite Hsend. unfold send. simpl. by rewrite Hq. }
  unfold history. cbn [fold_left perform]. rewrite Ha, E.
  apply (waiting_handled orders b dna c q (into (HandleSendMessage msg)) [] kb); try done.
  - simpl. destruct (decide (a = b)) as [->|Hab].
    + rewrite lookup_insert, decide_True by done. congruence.
    + by rewrite lookup_insert_ne.
  - simpl. by rewrite lookup_insert, decide_True.
Qed.
End history.

(** ** Two nodes *)
Module Demo.
#[local] Existing Instance MemoryFacts.Demo.unit_values.
#[local] Existing Instance MemoryFacts.Demo.as_text.

Definition orders : Orders := MkOrders map_to_list map_to_list.
Definition agrees : NetHandler (JsonProtocol unit) := λ _ _, Ok tt.
Definition track (agent : string) : Protocol (JsonProtocol unit) := into (TrackDna (MkTrackDnaData "dna" agent)).

Definition joining : list (Event (JsonProtocol unit)) :=
  [EvNew 0 agrees (Ok (Some "net")); EvNew 1 agrees (Ok (Some "net"));
   EvReceive 0 orders (track "alice"); EvReceive 1 orders (track "bob")].

Definition world : World (JsonProtocol unit) := history (Json := unit) joining world_new.
Definition net : InMemoryServer :=
  match servers world !! "net" with Some (s, _) => s | None => server_new "" end.
Definition node (id : nat) : InMemoryWorker (JsonProtocol unit) :=
  match workers world !! id with Some k => k | None => MkWorker agrees ∅ "" false [] end.

Lemma servers_consistent_witness :
  senders net !! into_cell_id "dna" "bob" = Some 1%nat ∧ registered net "dna" "bob" 1.
Proof.
  destruct (servers_consistent (Json := unit) joining "net" net false) as (H1 & _).
  - repeat constructor.
  - by vm_compute.
  - split; [by vm_compute|]. apply H1; by vm_compute.
Defined.

Definition greeting : MessageData unit := MkMessageData "dna" "r" "bob" "alice" tt.

Lemma message_arrives_witness :
  ∃ k', workers (history (Json := unit)
      (EvReceive 0 orders (into (SendMessage greeting)) :: ticks 6 1 orders) world) !! 1%nat = Some k' ∧
    into (HandleSendMessage greeting) ∈ handled k'.
Proof.
  destruct (world_channels world !! 1%nat) as [q|] eqn:Hq; [|by vm_compute in Hq].
  assert (length q = 5%nat) as Hl by (vm_compute in Hq; by injection Hq as <-).
  destruct (message_arrives (Json := unit) orders 0 1 (node 0) (node 1) greeting net 1 q world)
    as (k' & H1 & H2).
  - vm_compute. reflexivity.
  - vm_compute. reflexivity.
  - vm_compute. reflexivity.
  - vm_compute. reflexivity.
  - vm_compute. reflexivity.
  - by_decide.
  - by_decide.
  - vm_compute. reflexivity.
  - vm_compute. reflexivity.
  - exact Hq.
  - intros l d. vm_compute. reflexivity.
  - reflexivity.
  - by_decide.
  - exists k'. rewrite Hl in H1. split; [exact H1|exact H2].
Defined.

(** What a worker's call returns after some events. *)
Definition returned (es : list (Event (JsonProtocol unit))) (id : nat) (data : Protocol (JsonProtocol unit)) :
    option (outcome (result NetError unit)) :=
  let w := history (Json := unit) es world_new in
  match workers w !! id with
  | Some k => Some (receive (Json := unit) orders data k w).2
  | None => None
  end.

(** A node that goes away without giving up its DNA makes the others' publications fail. *)
Lemma publishing_after_a_drop :
  returned (joining ++ [EvDrop 1]) 0 (into (PublishEntry (MkEntryData "dna" "alice" "entry" tt))) =
  Some (Done (Err SendError)).
Proof. vm_compute. reflexivity. Qed.

(** When all have gone, a fetch for a DNA that is still tracked panics. *)
Lemma fetching_after_all_drops :
  returned (joining ++ [EvDrop 0; EvDrop 1; EvNew 2 agrees (Ok (Some "net"))]) 2
    (into (FetchEntry (MkFetchEntryData "dna" "r" "alice" "entry"))) =
  Some (Panicked "internal error: entered unreachable code").
Proof. vm_compute. reflexivity. Qed.

(** A second agent of a worker's DNA is not registered, and its tracking panics. *)
Lemma second_agent_panics :
  returned joining 0 (track "carol") = Some (Panicked "Sending HandleGetPublishingEntryList failed").
Proof. vm_compute. reflexivity. Qed.
End Demo.
