(* ===== verification/Actions.v ===== *)
(** * Actions

    [core/src/action.rs] with the payloads its variants carry from
    [core/src/network/], [core/src/nucleus/] and
    [core/src/scheduled_jobs/pending_validations.rs]. *)
From S2P Require Import Prelude Errors Eav Entries Protocol.

(** ** Payloads *)
Record CustomDirectMessage := MkCustomDirectMessage {
  cdm_zome : string;
  cdm_payload : result string string;
}.

Inductive DirectMessage :=
| DmCustom (m : CustomDirectMessage)
| DmRequestValidationPackage (a : Address)
| DmValidationPackage (p : option ValidationPackage).

Record DirectMessageData := MkDirectMessageData {
  dmd_address : Address;
  dmd_message : DirectMessage;
  dmd_msg_id : string;
  dmd_is_response : bool;
}.

Record GetLinksKey := MkGetLinksKey {
  glk_base_address : Address;
  glk_link_type : option string;
  glk_tag : option string;
  glk_id : string;
}.

Record GetEntryKey := MkGetEntryKey { gek_address : Address; gek_id : string }.

Record CapabilityRequest := MkCapabilityRequest {
  cap_token : Address;
  cap_provenance : Provenance;
}.

(** [id] is the process-unique id of the call; [parameters] is JSON text. *)
Record ZomeFnCall := MkZomeFnCall {
  zfc_id : nat;
  zome_name : string;
  cap : CapabilityRequest;
  fn_name : string;
  parameters : string;
}.

#[global] Instance CustomDirectMessage_eq_dec : EqDecision CustomDirectMessage.
Proof. solve_decision. Defined.
#[global] Instance DirectMessage_eq_dec : EqDecision DirectMessage.
Proof. solve_decision. Defined.
#[global] Instance GetLinksKey_eq_dec : EqDecision GetLinksKey.
Proof. solve_decision. Defined.
#[global] Instance GetEntryKey_eq_dec : EqDecision GetEntryKey.
Proof. solve_decision. Defined.
#[global] Instance CapabilityRequest_eq_dec : EqDecision CapabilityRequest.
Proof. solve_decision. Defined.
#[global] Instance ZomeFnCall_eq_dec : EqDecision ZomeFnCall.
Proof. solve_decision. Defined.

#[global, refine] Instance GetEntryKey_countable : Countable GetEntryKey :=
  inj_countable' (λ k, (gek_address k, gek_id k)) (λ p, MkGetEntryKey p.1 p.2) _.
Proof. by intros []. Defined.
#[global, refine] Instance GetLinksKey_countable : Countable GetLinksKey :=
  inj_countable' (λ k, (glk_base_address k, glk_link_type k, glk_tag k, glk_id k))
    (λ p, MkGetLinksKey p.1.1.1 p.1.1.2 p.1.2 p.2) _.
Proof. by intros []. Defined.
#[global, refine] Instance ZomeFnCall_countable : Countable ZomeFnCall :=
  inj_countable' (λ k, (zfc_id k, zome_name k, fn_name k, parameters k, cap_token (cap k),
      source (cap_provenance (cap k)), signature (cap_provenance (cap k))))
    (λ p, MkZomeFnCall p.1.1.1.1.1.1 p.1.1.1.1.1.2
            (MkCapabilityRequest p.1.1.2 (MkProvenance p.1.2 p.2))
            p.1.1.1.1.2 p.1.1.1.2) _.
Proof. by intros [?? [? []] ??]. Defined.

(** [ZomeFnCall::same_fn_as]. *)
Definition same_fn_as (c1 c2 : ZomeFnCall) : bool :=
  bool_decide (zome_name c1 = zome_name c2) && bool_decide (cap c1 = cap c2) &&
  bool_decide (fn_name c1 = fn_name c2).

Record ExecuteZomeFnResponse := MkExecuteZomeFnResponse {
  ezr_call : ZomeFnCall;
  ezr_result : HcResult string;
}.

Record Initialization := MkInitialization {
  public_token : option Address;
  payload : option string;
}.

Inductive ValidationError :=
| VeFail (reason : string)
| VeUnresolvedDependencies (dependencies : list Address)
| VeNotImplemented
| VeError (msg : string).

Abbreviation ValidationResult := (result ValidationError unit).

#[global] Instance Initialization_eq_dec : EqDecision Initialization.
Proof. solve_decision. Defined.
#[global] Instance ValidationError_eq_dec : EqDecision ValidationError.
Proof. solve_decision. Defined.

(** [From<ValidationError> for HolochainError]. *)
Definition error_of_validation_error (ve : ValidationError) : HolochainError :=
  match ve with
  | VeFail reason => ValidationFailed reason
  | VeUnresolvedDependencies _ => ValidationFailed "Missing dependencies"
  | VeNotImplemented => NotImplemented "Validation not implemented"
  | VeError e => ErrorGeneric e
  end.

Inductive ValidatingWorkflow := WfHoldEntry | WfHoldLink.

#[global] Instance ValidatingWorkflow_eq_dec : EqDecision ValidatingWorkflow.
Proof. solve_decision. Defined.

(** [Display for ValidatingWorkflow]. *)
Definition ValidatingWorkflow_fmt (w : ValidatingWorkflow) : string :=
  match w with
  | WfHoldEntry => "HoldEntryWorkflow"
  | WfHoldLink => "HoldLinkWorkflow"
  end.

Record PendingValidation := MkPendingValidation {
  pv_entry_with_header : EntryWithHeader;
  pv_dependencies : list Address;
  pv_workflow : ValidatingWorkflow;
}.

#[global] Instance PendingValidation_eq_dec : EqDecision PendingValidation.
Proof. solve_decision. Defined.

(** ** Actions

    Of [NetworkSettings] the handler closure is left out: it is the receiving
    side of the network module. *)
Section action.
Context {Json : Type}.

Record NetworkSettings := MkNetworkSettings {
  ns_p2p_config : string;
  ns_dna_address : Address;
  ns_agent_id : string;
}.

Inductive Action :=
| ACommit (entry : Entry.t) (maybe_link_update_delete : option Address)
    (provenances : list Provenance)
| AHold (ewh : EntryWithHeader)
| AAddLink (l : Link)
| ACrudStatus (ewh : EntryWithHeader) (status : CrudStatus.t)
| ARemoveLink (l : Link)
| AInitNetwork (settings : NetworkSettings)
| APublish (a : Address)
| AFetchEntry (key : GetEntryKey)
| ARespondFetch (d : FetchEntryData) (maybe_entry : option EntryWithMetaAndHeader)
| AHandleFetchResult (d : FetchEntryResultData Json)
| AUpdateEntry (old_address new_address : Address)
| ARemoveEntry (deleted_address deletion_address : Address)
| AGetEntryTimeout (key : GetEntryKey)
| AGetLinks (key : GetLinksKey)
| AGetLinksTimeout (key : GetLinksKey)
| ARespondGetLinks (d : FetchMetaData) (links : list Address)
| AHandleGetLinksResult (d : FetchMetaResultData Json) (link_type tag : string)
| ASendDirectMessage (d : DirectMessageData)
| ASendDirectMessageTimeout (id : string)
| AResolveDirectConnection (id : string)
| AGetValidationPackage (h : ChainHeader)
| AHandleGetValidationPackage (a : Address) (p : option ValidationPackage)
| AHandleCustomSendResponse (id : string) (r : result string string)
| AInitializeChain (dna : Dna)
| AReturnInitializationResult (r : result string Initialization)
| ASignalZomeFunctionCall (call : ZomeFnCall)
| AReturnZomeFunctionResult (r : ExecuteZomeFnResponse)
| AReturnValidationResult (key : nat * Address) (r : ValidationResult)
| AReturnValidationPackage (id : nat) (r : HcResult ValidationPackage)
| AAddPendingValidation (p : PendingValidation)
| ARemovePendingValidation (a : Address) (w : ValidatingWorkflow).

(** [ActionWrapper]: equality and hashing are those of the unique id. *)
Record ActionWrapper := MkActionWrapper { aw_action : Action; aw_id : nat }.
End action.
Arguments Action Json : clear implicits.
Arguments ActionWrapper Json : clear implicits.
