(* ===== verification/Config.v ===== *)
(** * The configuration of a conductor

    [conductor_api/src/config.rs]: what a conductor runs (agents, DNAs, instances,
    interfaces, bridges and user interfaces), and the check that the parts refer to each
    other.  The topological sort of the [petgraph] crate is an interface with its
    contract. *)
From S2P Require Import Prelude Errors.

(** ** Data *)
Record AgentConfiguration := MkAgentConfiguration {
  ac_id : string;
  ac_name : string;
  ac_public_address : string;
  ac_keystore_file : string;
  ac_holo_remote_key : option bool;
}.

Record DnaConfiguration := MkDnaConfiguration {
  dc_id : string;
  dc_file : string;
  dc_hash : option string;
}.

Inductive StorageConfiguration :=
| MemoryStorage
| FileStorage (path : string)
| PickleStorage (path : string).

Record InstanceConfiguration := MkInstanceConfiguration {
  ic_id : string;
  ic_dna : string;
  ic_agent : string;
  ic_storage : StorageConfiguration;
}.

(** [Custom] holds a TOML value, here its text. *)
Inductive InterfaceDriver :=
| Websocket (port : Z)
| Http (port : Z)
| DomainSocket (file : string)
| Custom (value : string).

(** [if_instances] are the ids of [InstanceReferenceConfiguration]s. *)
Record InterfaceConfiguration := MkInterfaceConfiguration {
  if_id : string;
  if_driver : InterfaceDriver;
  if_admin : bool;
  if_instances : list string;
}.

Record Bridge := MkBridge { caller_id : string; callee_id : string; handle : string }.

Record UiBundleConfiguration := MkUiBundleConfiguration {
  ub_id : string;
  ub_root_dir : string;
  ub_hash : option string;
}.

Record UiInterfaceConfiguration := MkUiInterfaceConfiguration {
  ui_id : string;
  ui_bundle : string;
  ui_port : Z;
  ui_dna_interface : option string;
}.

Record NetworkConfig := MkNetworkConfig {
  bootstrap_nodes : list string;
  n3h_log_level : string;
  n3h_mode : string;
  n3h_persistence_path : string;
  n3h_ipc_uri : option string;
  networking_config_file : option string;
}.

Record DpkiConfiguration := MkDpkiConfiguration { dpki_instance : string; dpki_params : string }.

(** The logger's rules are left out: nothing here reads them. *)
Record Configuration := MkConfiguration {
  agents : list AgentConfiguration;
  dnas : list DnaConfiguration;
  instances : list InstanceConfiguration;
  interfaces : list InterfaceConfiguration;
  bridges : list Bridge;
  ui_bundles : list UiBundleConfiguration;
  ui_interfaces : list UiInterfaceConfiguration;
  logger_type : string;
  network : option NetworkConfig;
  persistence_dir : string;
  signing_service_uri : option string;
  dpki : option DpkiConfiguration;
  expose_trace_signals : bool;
}.

Definition with_agents l (c : Configuration) : Configuration :=
  MkConfiguration l (dnas c) (instances c) (interfaces c) (bridges c) (ui_bundles c) (ui_interfaces c)
    (logger_type c) (network c) (persistence_dir c) (signing_service_uri c) (dpki c) (expose_trace_signals c).
Definition with_dnas l (c : Configuration) : Configuration :=
  MkConfiguration (agents c) l (instances c) (interfaces c) (bridges c) (ui_bundles c) (ui_interfaces c)
    (logger_type c) (network c) (persistence_dir c) (signing_service_uri c) (dpki c) (expose_trace_signals c).
Definition with_instances l (c : Configuration) : Configuration :=
  MkConfiguration (agents c) (dnas c) l (interfaces c) (bridges c) (ui_bundles c) (ui_interfaces c)
    (logger_type c) (network c) (persistence_dir c) (signing_service_uri c) (dpki c) (expose_trace_signals c).
Definition with_interfaces l (c : Configuration) : Configuration :=
  MkConfiguration (agents c) (dnas c) (instances c) l (bridges c) (ui_bundles c) (ui_interfaces c)
    (logger_type c) (network c) (persistence_dir c) (signing_service_uri c) (dpki c) (expose_trace_signals c).
Definition with_bridges l (c : Configuration) : Configuration :=
  MkConfiguration (agents c) (dnas c) (instances c) (interfaces c) l (ui_bundles c) (ui_interfaces c)
    (logger_type c) (network c) (persistence_dir c) (signing_service_uri c) (dpki c) (expose_trace_signals c).
Definition with_ui_bundles l (c : Configuration) : Configuration :=
  MkConfiguration (agents c) (dnas c) (instances c) (interfaces c) (bridges c) l (ui_interfaces c)
    (logger_type c) (network c) (persistence_dir c) (signing_service_uri c) (dpki c) (expose_trace_signals c).
Definition with_ui_interfaces l (c : Configuration) : Configuration :=
  MkConfiguration (agents c) (dnas c) (instances c) (interfaces c) (bridges c) (ui_bundles c) l
    (logger_type c) (network c) (persistence_dir c) (signing_service_uri c) (dpki c) (expose_trace_signals c).

(** ** Lookups *)
Fixpoint find_by {A : Type} (id_of : A → string) (id : string) (l : list A) : option A :=
  match l with
  | [] => None
  | x :: l => if decide (id_of x = id) then Some x else find_by id_of id l
  end.

Definition agent_by_id (c : Configuration) (id : string) := find_by ac_id id (agents c).
Definition dna_by_id (c : Configuration) (id : string) := find_by dc_id id (dnas c).
Definition instance_by_id (c : Configuration) (id : string) := find_by ic_id id (instances c).
Definition interface_by_id (c : Configuration) (id : string) := find_by if_id id (interfaces c).
Definition ui_bundle_by_id (c : Configuration) (id : string) := find_by ub_id id (ui_bundles c).
Definition instance_ids (c : Configuration) : list string := ic_id <$> instances c.

Definition bridge_dependencies (c : Configuration) (caller_instance_id : string) : list Bridge :=
  filter (λ b, caller_id b = caller_instance_id) (bridges c).

(** ** Order of the instances *)

(** [a] comes before [b]. *)
Definition before {A : Type} (l : list A) (a b : A) : Prop :=
  ∃ i j, l !! i = Some a ∧ l !! j = Some b ∧ (i < j)%nat.

(** [petgraph]: nodes are numbered from zero in the order in which they are added. *)
Class Petgraph := {
  toposort : nat → list (nat * nat) → option (list nat);
  toposort_sound n es o :
    toposort n es = Some o → o ≡ₚ seq 0 n ∧ ∀ a b, (a, b) ∈ es → before o a b;
  toposort_complete n es o :
    o ≡ₚ seq 0 n → (∀ a b, (a, b) ∈ es → before o a b) → is_Some (toposort n es);
}.

Section consistency.
Context `{Petgraph}.

(** [index_map] and [reverse_map]: of several instances with one id the last one counts. *)
Definition index_map (c : Configuration) : gmap string nat :=
  foldl (λ m ii, <[ic_id ii.2 := ii.1]> m) ∅ (zip (seq 0 (length (instances c))) (instances c)).
Definition reverse_map (c : Configuration) : gmap nat string :=
  foldl (λ m i, match index_map c !! ic_id i with Some n => <[n := ic_id i]> m | None => m end) ∅ (instances c).

Definition edges (c : Configuration) : HcResult (list (nat * nat)) :=
  collect_results (λ b,
    match index_map c !! caller_id b, index_map c !! callee_id b with
    | Some start, Some finish => Ok (start, finish)
    | _, _ => Err (ConfigError ("Instance configuration not found, mentioned in bridge configuration: " +:+
                caller_id b +:+ " -> " +:+ callee_id b))
    end) (bridges c).

Definition instance_ids_sorted_by_bridge_dependencies (c : Configuration) :
    outcome (HcResult (list string)) :=
  match edges c with
  | Err e => Done (Err e)
  | Ok es =>
      match toposort (length (instances c)) es with
      | None => Done (Err (ConfigError "Cyclic dependency in bridge configuration"))
      | Some sorted_nodes =>
          ids ← mapM (λ n, expect (reverse_map c !! n) "called `Option::unwrap()` on a `None` value")
                  (reverse sorted_nodes);
          Done (Ok ids)
      end
  end.

(** ** The check *)
Fixpoint dupes_of (seen : gset string) (items : list string) : list string :=
  match items with
  | [] => []
  | item :: items =>
      if decide (item ∈ seen) then item :: dupes_of seen items else dupes_of ({[item]} ∪ seen) items
  end.

Definition detect_dupes (name : string) (items : list string) : result string unit :=
  match dupes_of ∅ items with
  | [] => Ok tt
  | dupes => Err ("Duplicate " +:+ name +:+ " IDs detected: " +:+ String.concat ", " dupes)
  end.

(** [option.is_some().ok_or_else(e)?]. *)
Definition found {A : Type} (o : option A) (e : string) : result string unit :=
  match o with Some _ => Ok tt | None => Err e end.

(** A quotation mark. *)
Definition q : string := String (Ascii.ascii_of_nat 34) EmptyString.

Fixpoint check_each {A : Type} (check : A → result string unit) (l : list A) : result string unit :=
  match l with
  | [] => Ok tt
  | x :: l => _ ← check x; check_each check l
  end.

Definition check_references (c : Configuration) : result string unit :=
  _ ← check_each (λ i,
    _ ← found (agent_by_id c (ic_agent i))
          ("Agent configuration " +:+ ic_agent i +:+ " not found, mentioned in instance " +:+ ic_id i);
    found (dna_by_id c (ic_dna i))
      ("DNA configuration " +:+ q +:+ ic_dna i +:+ q +:+ " not found, mentioned in instance " +:+
       q +:+ ic_id i +:+ q)) (instances c);
  _ ← check_each (λ f, check_each (λ id,
    found (instance_by_id c id)
      ("Instance configuration " +:+ q +:+ id +:+ q +:+ " not found, mentioned in interface")) (if_instances f))
    (interfaces c);
  _ ← check_each (λ b,
    _ ← found (instance_by_id c (callee_id b))
          ("Instance configuration " +:+ q +:+ callee_id b +:+ q +:+ " not found, mentioned in bridge");
    found (instance_by_id c (caller_id b))
      ("Instance configuration " +:+ q +:+ caller_id b +:+ q +:+ " not found, mentioned in bridge"))
    (bridges c);
  _ ← check_each (λ u,
    _ ← found (ui_bundle_by_id c (ui_bundle u))
          ("UI bundle configuration " +:+ ui_bundle u +:+ " not found, mentioned in UI interface " +:+ ui_id u);
    match ui_dna_interface u with
    | Some id =>
        found (interface_by_id c id)
          ("DNA Interface configuration " +:+ q +:+ id +:+ q +:+ " not found, mentioned in UI interface " +:+
           q +:+ ui_id u +:+ q)
    | None => Ok tt
    end) (ui_interfaces c);
  match dpki c with
  | Some d =>
      found (instance_by_id c (dpki_instance d))
        ("Instance configuration " +:+ q +:+ dpki_instance d +:+ q +:+ " not found, mentioned in dpki")
  | None => Ok tt
  end.

Definition check_consistency (c : Configuration) : outcome (result string unit) :=
  match
    _ ← detect_dupes "agent" (ac_id <$> agents c);
    _ ← detect_dupes "dna" (dc_id <$> dnas c);
    _ ← detect_dupes "instance" (ic_id <$> instances c);
    _ ← detect_dupes "interface" (if_id <$> interfaces c);
    check_references c
  with
  | Err e => Done (Err e)
  | Ok _ =>
      sorted ← instance_ids_sorted_by_bridge_dependencies c;
      match sorted with
      | Err e => Done (Err (HolochainError_fmt e))
      | Ok _ => Done (Ok tt)
      end
  end.
End consistency.

(** [save_remove_instance]. *)
Definition save_remove_instance (c : Configuration) (id : string) : Configuration :=
  with_interfaces
    ((λ f, MkInterfaceConfiguration (if_id f) (if_driver f) (if_admin f)
             (filter (λ i, i ≠ id) (if_instances f))) <$> interfaces c)
    (with_instances (filter (λ i, ic_id i ≠ id) (instances c)) c).
