(* ===== verification/ConfigFacts.v ===== *)
(** * What the check of a configuration means

    [check_consistency] accepts exactly the configurations whose ids are unique, whose
    references resolve and whose bridges can be ordered, and it never panics. *)
From S2P Require Import Prelude Errors Config.

(** ** Lists *)
Lemma dupes_of_nil seen items :
  dupes_of seen items = [] ↔ NoDup items ∧ ∀ x, x ∈ items → x ∉ seen.
Proof.
  revert seen. induction items as [|x items IH]; intros seen; simpl.
  - split; [|done]. intros _. split; [constructor|]. by intros x ?%elem_of_nil.
  - case_decide as Hx.
    + split; [done|]. intros [_ Hs]. destruct (Hs x); [by left|done].
    + rewrite IH, NoDup_cons. split.
      * intros [Hnd Hs]. split_and!; [|done|].
        -- intros Hin. apply (Hs x Hin). set_solver.
        -- intros y [->|Hy]%elem_of_cons; [done|]. specialize (Hs y Hy). set_solver.
      * intros [[Hni Hnd] Hs]. split; [done|]. intros y Hy [->%elem_of_singleton|Hys]%elem_of_union; [done|].
        apply (Hs y); [by right|done].
Qed.

Lemma detect_dupes_ok name items : detect_dupes name items = Ok tt ↔ NoDup items.
Proof.
  unfold detect_dupes. pose proof (dupes_of_nil ∅ items) as Hd.
  destruct (dupes_of ∅ items) as [|x dupes].
  - split; [|done]. intros _. by apply Hd.
  - split; [done|]. intros Hnd.
    assert (x :: dupes = []); [|done]. apply Hd. split; [done|]. set_solver.
Qed.

Lemma check_each_ok {A : Type} (check : A → result string unit) l :
  check_each check l = Ok tt ↔ ∀ x, x ∈ l → check x = Ok tt.
Proof.
  induction l as [|x l IH]; simpl; [split; [by intros _ ? ?%elem_of_nil|done]|].
  rewrite result_bind_ok. setoid_rewrite elem_of_cons. split.
  - intros ([] & Hx & Hl) y [->|Hy]; [done|]. by apply IH.
  - intros Hall. exists tt. split; [by apply Hall; left|]. apply IH. intros y Hy. apply Hall. by right.
Qed.

Lemma found_ok {A : Type} (o : option A) e : found o e = Ok tt ↔ is_Some o.
Proof. destruct o; simpl; split; (done || by intros []). Qed.

Lemma find_by_some {A : Type} (id_of : A → string) id l x :
  find_by id_of id l = Some x → x ∈ l ∧ id_of x = id.
Proof.
  induction l as [|y l IH]; simpl; [done|]. case_decide.
  - intros [= <-]. split; [by left|done].
  - intros [Hx Hid]%IH. split; [by right|done].
Qed.

Lemma find_by_is_some {A : Type} (id_of : A → string) id l : is_Some (find_by id_of id l) ↔ id ∈ id_of <$> l.
Proof.
  induction l as [|y l IH]; simpl; [split; [by intros []|by intros ?%elem_of_nil]|].
  case_decide as Hy.
  - split; [|done]. intros _. apply elem_of_cons. by left.
  - rewrite IH, elem_of_cons. naive_solver.
Qed.

Lemma bind_unit_ok (m : result string unit) (f : unit → result string unit) :
  (m ≫= f) = Ok tt ↔ m = Ok tt ∧ f tt = Ok tt.
Proof. rewrite result_bind_ok. split; [by intros ([] & ? & ?)|by intros [? ?]; exists tt]. Qed.

(** ** Order *)
Lemma before_reverse {A : Type} (l : list A) a b : before l a b → before (reverse l) b a.
Proof.
  intros (i & j & Hi & Hj & Hij). pose proof (lookup_lt_Some _ _ _ Hi). pose proof (lookup_lt_Some _ _ _ Hj).
  exists (length l - S j)%nat, (length l - S i)%nat. split_and!; [| |lia].
  - apply reverse_lookup_Some. split; [|lia]. by replace (length l - S (length l - S j))%nat with j by lia.
  - apply reverse_lookup_Some. split; [|lia]. by replace (length l - S (length l - S i))%nat with i by lia.
Qed.

Lemma before_map {A B : Type} (f : A → B) l a b : before l a b → before (f <$> l) (f a) (f b).
Proof.
  intros (i & j & Hi & Hj & Hij). exists i, j. by rewrite !list_lookup_fmap, Hi, Hj.
Qed.

(** Inserting pairs with different keys. *)
Lemma foldl_insert {K V : Type} `{Countable K} (l : list (K * V)) (m : gmap K V) k v :
  NoDup l.*1 →
  foldl (λ m kv, <[kv.1 := kv.2]> m) m l !! k = Some v ↔
  (k, v) ∈ l ∨ ((k ∉ l.*1) ∧ m !! k = Some v).
Proof.
  revert m. induction l as [|[k' v'] l IH]; intros m; simpl.
  - intros _. split; [intros ?; right; split; [by intros ?%elem_of_nil|done]|].
    by intros [?%elem_of_nil|[_ ?]].
  - intros [Hk Hnd]%NoDup_cons. rewrite IH by done. rewrite !elem_of_cons, lookup_insert. split.
    + intros [Hin|[Hni Hl]]; [by left; right|]. case_decide; [left; left; congruence|].
      right. split; [|done]. naive_solver.
    + intros [[[= -> ->]|Hin]|[Hni Hl]].
      * right. split; [done|]. by case_decide.
      * by left.
      * right. split; [naive_solver|]. case_decide; [naive_solver|done].
Qed.

(** ** The sorting of the instances *)
Section sorting.
Context `{Petgraph}.
Context (c : Configuration) (ids_nodup : NoDup (instance_ids c)).

Lemma index_map_spec id n : index_map c !! id = Some n ↔ instance_ids c !! n = Some id.
Proof.
  unfold index_map, instance_ids. set (l := zip (seq 0 (length (instances c))) (instances c)).
  set (kvs := (λ ii : nat * InstanceConfiguration, (ic_id ii.2, ii.1)) <$> l).
  assert (foldl (λ m ii, <[ic_id ii.2 := ii.1]> m) ∅ l =
    foldl (λ m kv, <[kv.1 := kv.2]> m) (∅ : gmap string nat) kvs) as ->.
  { unfold kvs. generalize (∅ : gmap string nat). induction l as [|x l IH]; intros m; simpl; [done|]. apply IH. }
  assert (kvs.*1 = ic_id <$> instances c) as Hk.
  { unfold kvs. rewrite <-list_fmap_compose. change (ic_id ∘ snd <$> l = ic_id <$> instances c).
    rewrite list_fmap_compose. unfold l. by rewrite snd_zip by (rewrite length_seq; done). }
  rewrite foldl_insert by (by rewrite Hk). rewrite Hk, lookup_empty.
  transitivity ((id, n) ∈ kvs); [naive_solver|]. unfold kvs. rewrite list_elem_of_fmap. split.
  - intros ([i ii] & [= -> ->] & Hin). apply list_elem_of_lookup in Hin as [k Hk']. unfold l in Hk'.
    apply lookup_zip_Some in Hk' as [Hs Hi]. apply lookup_seq in Hs as [-> _]. simpl.
    by rewrite list_lookup_fmap, Hi.
  - rewrite list_lookup_fmap. destruct (instances c !! n) as [ii|] eqn:Ei; [|done]. intros [= <-].
    exists (n, ii). split; [done|]. apply list_elem_of_lookup. exists n. apply lookup_zip_Some.
    split; [|done]. apply lookup_seq. split; [lia|]. by eapply lookup_lt_Some.
Qed.

Lemma index_map_instance i : i ∈ instances c → is_Some (index_map c !! ic_id i).
Proof.
  intros [n Hn]%list_elem_of_lookup. exists n. apply index_map_spec. unfold instance_ids.
  by rewrite list_lookup_fmap, Hn.
Qed.

Definition node_of (i : InstanceConfiguration) : nat * string :=
  (default 0%nat (index_map c !! ic_id i), ic_id i).

Lemma reverse_map_pairs (l : list InstanceConfiguration) (m : gmap nat string) :
  (∀ i, i ∈ l → i ∈ instances c) →
  foldl (λ m i, match index_map c !! ic_id i with Some n => <[n := ic_id i]> m | None => m end) m l =
  foldl (λ m kv, <[kv.1 := kv.2]> m) m (node_of <$> l).
Proof.
  revert m. induction l as [|i l IH]; intros m Hl; [done|]. simpl.
  destruct (index_map_instance i) as [k ->]; [apply Hl; by left|]. apply IH. intros x Hx. apply Hl. by right.
Qed.

Lemma reverse_map_spec n id : reverse_map c !! n = Some id ↔ instance_ids c !! n = Some id.
Proof.
  unfold reverse_map.
  rewrite reverse_map_pairs by done. assert (NoDup (node_of <$> instances c).*1) as Hnd.
  { rewrite <-list_fmap_compose. unfold node_of, compose. simpl.
    apply NoDup_fmap_1 with (f := λ n, instance_ids c !! n). rewrite <-list_fmap_compose.
    rewrite (list_fmap_ext _ (λ i, Some (ic_id i)) (instances c)).
    - rewrite (list_fmap_compose ic_id Some). by apply (NoDup_fmap_2 Some).
    - intros k i Hi. unfold compose. destruct (index_map_instance i) as [n' Hn'].
      { by eapply list_elem_of_lookup_2. }
      rewrite Hn'. simpl. by apply index_map_spec. }
  rewrite foldl_insert by done. rewrite lookup_empty, list_elem_of_fmap. split.
  - intros [(i & [= -> ->] & Hi)|[_ ?]]; [|done]. destruct (index_map_instance i Hi) as [k Hk].
    rewrite Hk. simpl. by apply index_map_spec.
  - intros Hid. left. pose proof Hid as Hid'. unfold instance_ids in Hid'. rewrite list_lookup_fmap in Hid'.
    destruct (instances c !! n) as [i|] eqn:Ei; [|done]. injection Hid' as <-. exists i. split.
    + unfold node_of. by rewrite (proj2 (index_map_spec (ic_id i) n) Hid).
    + by eapply list_elem_of_lookup_2.
Qed.

(** The callees of an order come before their callers. *)
Definition order_valid (o : list string) : Prop :=
  o ≡ₚ instance_ids c ∧ ∀ b, b ∈ bridges c → before o (callee_id b) (caller_id b).

Definition resolved : Prop :=
  ∀ b, b ∈ bridges c → caller_id b ∈ instance_ids c ∧ callee_id b ∈ instance_ids c.

Lemma edges_spec :
  resolved → ∃ es, edges c = Ok es ∧
    ∀ x y, (x, y) ∈ es ↔ ∃ b, b ∈ bridges c ∧
      instance_ids c !! x = Some (caller_id b) ∧ instance_ids c !! y = Some (callee_id b).
Proof.
  intros Hr. unfold edges.
  assert (∀ b, b ∈ bridges c → ∃ x y, index_map c !! caller_id b = Some x ∧ index_map c !! callee_id b = Some y) as Hb.
  { intros b Hb. destruct (Hr b Hb) as [[x Hx]%list_elem_of_lookup [y Hy]%list_elem_of_lookup].
    exists x, y. by rewrite !index_map_spec. }
  destruct (collect_results_total (λ b,
    match index_map c !! caller_id b, index_map c !! callee_id b with
    | Some start, Some finish => Ok (start, finish)
    | _, _ => Err (ConfigError ("Instance configuration not found, mentioned in bridge configuration: " +:+
                caller_id b +:+ " -> " +:+ callee_id b))
    end) (bridges c)) as [es Hes].
  { intros b (x & y & -> & ->)%Hb. by eexists. }
  exists es. split; [done|]. apply collect_results_ok in Hes. intros x y.
  rewrite list_elem_of_lookup. split.
  - intros [i Hi]. destruct (Forall2_lookup_r _ _ _ _ _ Hes Hi) as (b & Hbi & E).
    exists b. split; [by eapply list_elem_of_lookup_2|]. rewrite <-!index_map_spec.
    destruct (Hb b) as (x' & y' & E1 & E2); [by eapply list_elem_of_lookup_2|]. rewrite E1, E2 in E |- *. by simplify_eq.
  - intros (b & [i Hi]%list_elem_of_lookup & Hx & Hy). exists i.
    destruct (Forall2_lookup_l _ _ _ _ _ Hes Hi) as (e & He & E). rewrite <-index_map_spec in Hx, Hy.
    rewrite Hx, Hy in E. by simplify_eq.
Qed.

Definition id_at (n : nat) : string := default "" (instance_ids c !! n).
Definition index_of (id : string) : nat := default 0%nat (index_map c !! id).

Lemma ids_of_nodes : id_at <$> seq 0 (length (instances c)) = instance_ids c.
Proof.
  apply list_eq. intros i. rewrite list_lookup_fmap.
  destruct (decide (i < length (instances c))%nat) as [Hi|Hi].
  - rewrite lookup_seq_lt by done. simpl. unfold id_at. destruct (lookup_lt_is_Some_2 (instance_ids c) i) as [x Hx].
    { unfold instance_ids. by rewrite length_fmap. }
    by rewrite Hx.
  - rewrite lookup_seq_ge by lia. symmetry. apply lookup_ge_None_2. unfold instance_ids. rewrite length_fmap. lia.
Qed.

Lemma nodes_of_ids : index_of <$> instance_ids c = seq 0 (length (instances c)).
Proof.
  apply list_eq. intros i. rewrite list_lookup_fmap. destruct (instance_ids c !! i) as [x|] eqn:Ei; simpl.
  - pose proof (lookup_lt_Some _ _ _ Ei) as Hi. unfold instance_ids in Hi. rewrite length_fmap in Hi.
    rewrite lookup_seq_lt by done. unfold index_of. by rewrite (proj2 (index_map_spec x i) Ei).
  - apply lookup_ge_None in Ei. unfold instance_ids in Ei. rewrite length_fmap in Ei. by rewrite lookup_seq_ge.
Qed.

Lemma nodes_named l why :
  (∀ n, n ∈ l → (n < length (instances c))%nat) →
  mapM (λ n, expect (reverse_map c !! n) why) l = Done (id_at <$> l).
Proof.
  induction l as [|n l IH]; intros Hl; [done|]. simpl.
  assert (reverse_map c !! n = Some (id_at n)) as ->.
  { apply reverse_map_spec. unfold id_at. destruct (lookup_lt_is_Some_2 (instance_ids c) n) as [x Hx].
    { unfold instance_ids. rewrite length_fmap. apply Hl. by left. }
    by rewrite Hx. }
  simpl. rewrite IH; [done|]. intros m Hm. apply Hl. by right.
Qed.

Lemma sorted_spec :
  resolved →
  (∃ ids, instance_ids_sorted_by_bridge_dependencies c = Done (Ok ids) ∧ order_valid ids) ∨
  (instance_ids_sorted_by_bridge_dependencies c =
     Done (Err (ConfigError "Cyclic dependency in bridge configuration")) ∧ ¬ ∃ o, order_valid o).
Proof.
  intros Hr. destruct (edges_spec Hr) as (es & Ee & Hes).
  unfold instance_ids_sorted_by_bridge_dependencies. rewrite Ee.
  destruct (toposort (length (instances c)) es) as [o|] eqn:Et; [left|right; split; [done|]].
  - apply toposort_sound in Et as [Hp Hbef]. exists (id_at <$> reverse o). split.
    + rewrite nodes_named; [done|]. intros n Hn. rewrite reverse_Permutation, Hp in Hn. by apply elem_of_seq in Hn as [_ ?].
    + split; [by rewrite reverse_Permutation, Hp, ids_of_nodes|]. intros b Hb.
      destruct (Hr b Hb) as [[x Hx]%list_elem_of_lookup [y Hy]%list_elem_of_lookup].
      assert (before o x y) as Hxy by (apply Hbef, Hes; eauto).
      apply before_reverse, (before_map id_at) in Hxy. unfold id_at at 2 3 in Hxy. by rewrite Hx, Hy in Hxy.
  - intros (o & Hp & Hbef). destruct (toposort_complete (length (instances c)) es (index_of <$> reverse o)).
    + by rewrite reverse_Permutation, Hp, nodes_of_ids.
    + intros x y (b & Hb & Hx & Hy)%Hes. specialize (Hbef b Hb).
      apply before_reverse, (before_map index_of) in Hbef. unfold index_of at 2 3 in Hbef.
      by rewrite (proj2 (index_map_spec _ _) Hx), (proj2 (index_map_spec _ _) Hy) in Hbef.
    + congruence.
Qed.
End sorting.

(** ** Consistent configurations *)
Record consistent (c : Configuration) : Prop := {
  agents_nodup : NoDup (ac_id <$> agents c);
  dnas_nodup : NoDup (dc_id <$> dnas c);
  instances_nodup : NoDup (ic_id <$> instances c);
  interfaces_nodup : NoDup (if_id <$> interfaces c);
  instance_refs i : i ∈ instances c → ic_agent i ∈ ac_id <$> agents c ∧ ic_dna i ∈ dc_id <$> dnas c;
  interface_refs f id : f ∈ interfaces c → id ∈ if_instances f → id ∈ ic_id <$> instances c;
  bridge_refs b : b ∈ bridges c → caller_id b ∈ ic_id <$> instances c ∧ callee_id b ∈ ic_id <$> instances c;
  ui_refs u : u ∈ ui_interfaces c →
    ui_bundle u ∈ ub_id <$> ui_bundles c ∧ ∀ id, ui_dna_interface u = Some id → id ∈ if_id <$> interfaces c;
  dpki_ref d : dpki c = Some d → dpki_instance d ∈ ic_id <$> instances c;
  bridges_ordered : ∃ o, order_valid c o
}.

Section check.
Context `{Petgraph}.

Definition references (c : Configuration) : Prop :=
  (∀ i, i ∈ instances c → ic_agent i ∈ ac_id <$> agents c ∧ ic_dna i ∈ dc_id <$> dnas c) ∧
  (∀ f, f ∈ interfaces c → ∀ id, id ∈ if_instances f → id ∈ ic_id <$> instances c) ∧
  (∀ b, b ∈ bridges c → callee_id b ∈ ic_id <$> instances c ∧ caller_id b ∈ ic_id <$> instances c) ∧
  (∀ u, u ∈ ui_interfaces c →
    ui_bundle u ∈ ub_id <$> ui_bundles c ∧ ∀ id, ui_dna_interface u = Some id → id ∈ if_id <$> interfaces c) ∧
  (∀ d, dpki c = Some d → dpki_instance d ∈ ic_id <$> instances c).

Lemma check_references_ok c : check_references c = Ok tt ↔ references c.
Proof.
  unfold check_references, references. rewrite !bind_unit_ok, !check_each_ok.
  unfold agent_by_id, dna_by_id, instance_by_id, interface_by_id, ui_bundle_by_id.
  setoid_rewrite bind_unit_ok. setoid_rewrite check_each_ok. setoid_rewrite found_ok.
  setoid_rewrite find_by_is_some.
  assert (∀ u e, match ui_dna_interface u with
    | Some id => found (find_by if_id id (interfaces c)) (e id) | None => Ok tt end = Ok tt ↔
    ∀ id, ui_dna_interface u = Some id → id ∈ if_id <$> interfaces c) as Hu.
  { intros u e. destruct (ui_dna_interface u) as [id|]; [|naive_solver].
    rewrite found_ok, find_by_is_some. naive_solver. }
  setoid_rewrite Hu. destruct (dpki c) as [d|].
  - rewrite found_ok, find_by_is_some. naive_solver.
  - naive_solver.
Qed.

Lemma check_consistency_spec c :
  (∃ r, check_consistency c = Done r) ∧ (check_consistency c = Done (Ok tt) ↔ consistent c).
Proof.
  unfold check_consistency.
  destruct (_ ← detect_dupes "agent" (ac_id <$> agents c); _) as [[]|e] eqn:E.
  - apply bind_unit_ok in E as [E1%detect_dupes_ok E]. apply bind_unit_ok in E as [E2%detect_dupes_ok E].
    apply bind_unit_ok in E as [E3%detect_dupes_ok E].
    apply bind_unit_ok in E as [E4%detect_dupes_ok (R1 & R2 & R3 & R4 & R5)%check_references_ok].
    destruct (sorted_spec c E3) as [(ids & -> & Ho)|[-> Hno]]; [intros b Hb; naive_solver|..]; simpl.
    + split; [by eexists|]. split; [|done]. intros _. split; try done; [naive_solver..|by eexists].
    + split; [by eexists|]. split; [done|]. intros []. done.
  - split; [by eexists|]. split; [done|]. intros [C1 C2 C3 C4 C5 C6 C7 C8 C9 _].
    assert (Err e = Ok tt); [|done]. rewrite <-E, !bind_unit_ok, !detect_dupes_ok, check_references_ok.
    split_and!; try done. unfold references. naive_solver.
Qed.

(** C6: the check of a configuration never panics, and it accepts exactly the configurations
    in which the ids of agents, DNAs, instances and interfaces are unique, every reference
    to an agent, a DNA, an instance, a bundle or an interface resolves, and the instances
    can be ordered so that each comes after those it calls through bridges. *)
Theorem check_consistency_iff c :
  (∃ r, check_consistency c = Done r) ∧ (check_consistency c = Done (Ok tt) ↔ consistent c).
Proof. apply check_consistency_spec. Qed.
End check.

(** ** A topological sort by search *)
Module SearchSort.
Definition found_before (l : list nat) (a b : nat) : Prop :=
  Exists (λ i, Exists (λ j, l !! i = Some a ∧ l !! j = Some b ∧ (i < j)%nat) (seq 0 (length l))) (seq 0 (length l)).

Lemma found_before_iff l a b : found_before l a b ↔ before l a b.
Proof.
  unfold found_before. split.
  - intros (i & _ & (j & _ & Hb)%Exists_exists)%Exists_exists. by exists i, j.
  - intros (i & j & Hi & Hj & Hlt). pose proof (lookup_lt_Some _ _ _ Hi). pose proof (lookup_lt_Some _ _ _ Hj).
    apply Exists_exists. exists i. split; [apply elem_of_seq; lia|].
    apply Exists_exists. exists j. split; [apply elem_of_seq; lia|done].
Qed.

#[export] Instance before_dec (l : list nat) a b : Decision (before l a b).
Proof. refine (cast_if (decide (found_before l a b))); by rewrite <-found_before_iff. Defined.

Definition ordered (es : list (nat * nat)) (o : list nat) : Prop := Forall (λ e, before o e.1 e.2) es.

Lemma ordered_iff es o : ordered es o ↔ ∀ a b, (a, b) ∈ es → before o a b.
Proof.
  unfold ordered. rewrite Forall_forall. split; [intros Hf a b; apply (Hf (a, b))|by intros Hf [a b]; apply Hf].
Qed.

#[export, program] Instance search_sort : Petgraph := {
  toposort n es := head (filter (ordered es) (permutations (seq 0 n)));
}.
Next Obligation.
  intros n es o [Hf Hp]%head_Some_elem_of%list_elem_of_filter.
  split; [symmetry; by apply permutations_Permutation|by apply ordered_iff].
Qed.
Next Obligation.
  intros n es o Hp Hf. apply head_is_Some. intros He.
  apply (not_elem_of_nil o). rewrite <-He. apply list_elem_of_filter.
  split; [by apply ordered_iff|]. by apply permutations_Permutation.
Qed.

(** Two instances, one of which calls the other. *)
Definition example (bridges : list Bridge) : Configuration :=
  MkConfiguration [MkAgentConfiguration "alice" "Alice" "HcS" "::ignored::" (Some true)]
    [MkDnaConfiguration "dna" "app.dna.json" None]
    [MkInstanceConfiguration "caller" "dna" "alice" MemoryStorage;
     MkInstanceConfiguration "callee" "dna" "alice" MemoryStorage]
    [MkInterfaceConfiguration "ws" (Websocket 8888) true ["caller"]] bridges
    [MkUiBundleConfiguration "bundle" "ui" None] [MkUiInterfaceConfiguration "ui" "bundle" 3000 (Some "ws")]
    "debug" None "/tmp" (Some "http://localhost") None false.

Lemma check_consistency_iff_witness :
  consistent (example [MkBridge "caller" "callee" "h"]) ∧
  ¬ consistent (example [MkBridge "caller" "callee" "h"; MkBridge "callee" "caller" "h"]).
Proof.
  split.
  - apply (check_consistency_iff (example [MkBridge "caller" "callee" "h"])). vm_compute. reflexivity.
  - intros Hc%(check_consistency_iff (example [MkBridge "caller" "callee" "h"; MkBridge "callee" "caller" "h"])).
    vm_compute in Hc. discriminate Hc.
Defined.
End SearchSort.
