(* ===== verification/MakeConfig.v ===== *)
(** * Configurations for tests

    [nodejs_conductor/native/src/config.rs]: the configuration that is made of a list of
    instances, each with the name of its agent and the path and name of its DNA.

    The public address of an agent's test key and the order in which a [HashMap] yields its
    values are parameters.  A path is its text, and so is its key: two spellings of one path
    that [PathBuf] takes as equal (a doubled separator) are two keys here. *)
From S2P Require Import Prelude Errors Config ConfigFacts.

Record AgentData := MkAgentData { agent_name : string }.
Record DnaData := MkDnaData { dna_path : string; dna_name : string }.
Record InstanceData := MkInstanceData {
  inst_agent : AgentData;
  inst_dna : DnaData;
  inst_name : string;
}.

Section make.
Context (public_address : string → string).
Context (agent_values : gmap string AgentConfiguration → list AgentConfiguration).
Context (dna_values : gmap string DnaConfiguration → list DnaConfiguration).

Definition make_agent_config (name : string) : AgentConfiguration :=
  MkAgentConfiguration name name (public_address name) name None.
Definition make_dna_config (dna : DnaData) : DnaConfiguration :=
  MkDnaConfiguration (dna_name dna) (dna_path dna) None.

(** [map.entry(key).or_insert_with(..)]: the map and the value in it. *)
Definition or_insert {A} (key : string) (a : A) (m : gmap string A) : gmap string A * A :=
  match m !! key with Some a => (m, a) | None => (<[key := a]> m, a) end.

Record Made := MkMade {
  agent_configs : gmap string AgentConfiguration;
  dna_configs : gmap string DnaConfiguration;
  instance_configs : list InstanceConfiguration;
}.

(** The body of the loop. *)
Definition make_instance (made : Made) (instance : InstanceData) : Made :=
  let name := agent_name (inst_agent instance) in
  let '(agents, agent_config) := or_insert name (make_agent_config name) (agent_configs made) in
  let '(dnas, dna_config) :=
    or_insert (dna_path (inst_dna instance)) (make_dna_config (inst_dna instance)) (dna_configs made) in
  MkMade agents dnas
    (instance_configs made ++
     [MkInstanceConfiguration (inst_name instance) (dc_id dna_config) (ac_id agent_config) MemoryStorage]).

Definition make_config (instance_data : list InstanceData) (bridges : list Bridge)
    (dpki : option DpkiConfiguration) (logger : string) : Configuration :=
  let made := foldl make_instance (MkMade ∅ ∅ []) instance_data in
  MkConfiguration (agent_values (agent_configs made)) (dna_values (dna_configs made))
    (instance_configs made) [] bridges [] [] logger None "" None dpki true.

(** ** What it makes *)

(** The name under which a path is given first. *)
Definition first_name (data : list InstanceData) (path : string) : option string :=
  dna_name <$> head (filter (λ d, dna_path d = path) (inst_dna <$> data)).

Definition paths (data : list InstanceData) : list string := dna_path ∘ inst_dna <$> data.

Record made_of (data : list InstanceData) (made : Made) : Prop := {
  made_agents name :
    agent_configs made !! name =
    if decide (name ∈ agent_name ∘ inst_agent <$> data) then Some (make_agent_config name) else None;
  made_dnas path :
    dna_configs made !! path = (λ name, MkDnaConfiguration name path None) <$> first_name data path;
  made_instances :
    Forall2 (λ d i, ic_id i = inst_name d ∧ ic_agent i = agent_name (inst_agent d) ∧
                    first_name data (dna_path (inst_dna d)) = Some (ic_dna i)) data (instance_configs made);
}.

Lemma first_name_snoc data d path :
  first_name (data ++ [d]) path =
  match first_name data path with
  | Some name => Some name
  | None => if decide (dna_path (inst_dna d) = path) then Some (dna_name (inst_dna d)) else None
  end.
Proof.
  unfold first_name. rewrite fmap_app, filter_app. cbn [fmap list_fmap].
  destruct (filter _ (inst_dna <$> data)) as [|x l]; simpl; [|done].
  rewrite filter_cons, filter_nil. by case_decide.
Qed.

Lemma make_instance_made data made d :
  made_of data made → made_of (data ++ [d]) (make_instance made d).
Proof.
  intros [Ha Hd Hi]. set (name := agent_name (inst_agent d)). set (path := dna_path (inst_dna d)).
  assert (Hagent : ∃ agents, or_insert name (make_agent_config name) (agent_configs made)
      = (agents, make_agent_config name) ∧ agents = <[name := make_agent_config name]> (agent_configs made)).
  { unfold or_insert. rewrite Ha. case_decide as Hin; [|by eexists].
    eexists; split; [done|]. symmetry. apply insert_id. rewrite Ha. by rewrite decide_True. }
  destruct Hagent as (agents & Hagent & Hagents).
  set (dname := default (dna_name (inst_dna d)) (first_name data path)).
  assert (Hdna : ∃ dnas, or_insert path (make_dna_config (inst_dna d)) (dna_configs made)
      = (dnas, MkDnaConfiguration dname path None) ∧
      dnas = <[path := MkDnaConfiguration dname path None]> (dna_configs made)).
  { unfold or_insert, dname. rewrite Hd. destruct (first_name data path) as [n|] eqn:Hn; simpl; [|by eexists].
    eexists; split; [done|]. symmetry. apply insert_id. by rewrite Hd, Hn. }
  destruct Hdna as (dnas & Hdna & Hdnas).
  assert (Hname : first_name (data ++ [d]) path = Some dname).
  { rewrite first_name_snoc. unfold dname, path. destruct (first_name data _); simpl; [done|by rewrite decide_True]. }
  unfold make_instance. fold name path. rewrite Hagent, Hdna. split; simpl.
  - intros n. rewrite Hagents, fmap_app. simpl. destruct (decide (n = name)) as [->|Hne].
    + rewrite lookup_insert_eq, decide_True; [done|]. set_solver.
    + rewrite lookup_insert_ne, Ha by done. unfold name in Hne. do 2 case_decide; set_solver.
  - intros p. rewrite Hdnas. destruct (decide (p = path)) as [->|Hne].
    + by rewrite lookup_insert_eq, Hname.
    + rewrite lookup_insert_ne, Hd, first_name_snoc by done. rewrite decide_False by (unfold path in *; congruence).
      by destruct (first_name data p).
  - apply Forall2_app.
    + eapply Forall2_impl; [exact Hi|]. intros d' i (? & ? & Hf). split_and!; [done..|].
      by rewrite first_name_snoc, Hf.
    + constructor; [|done]. done.
Qed.

Lemma foldl_made data0 data made :
  made_of data0 made → made_of (data0 ++ data) (foldl make_instance made data).
Proof.
  revert data0 made. induction data as [|d data IH]; intros data0 made Hm; simpl.
  - by rewrite app_nil_r.
  - replace (data0 ++ d :: data) with ((data0 ++ [d]) ++ data) by (by rewrite <- (assoc_L (++))).
    by apply IH, make_instance_made.
Qed.

Lemma make_config_made data : made_of data (foldl make_instance (MkMade ∅ ∅ []) data).
Proof. apply (foldl_made []). split; [|done|constructor]. intros n. by rewrite decide_False by set_solver. Qed.

Hypothesis agent_values_all : ∀ m, agent_values m ≡ₚ (map_to_list m).*2.
Hypothesis dna_values_all : ∀ m, dna_values m ≡ₚ (map_to_list m).*2.

(** The ids of the values of a map, by what they are in terms of the keys. *)
Lemma values_nodup {A} (id_of : A → string) (m : gmap string A) :
  (∀ k k' a a', m !! k = Some a → m !! k' = Some a' → id_of a = id_of a' → k = k') ↔
  NoDup (id_of <$> (map_to_list m).*2).
Proof.
  rewrite <- list_fmap_compose. split.
  - intros Hinj. apply NoDup_fmap_2_strong; [|apply NoDup_map_to_list].
    intros [k a] [k' a'] Hk Hk' Heq. apply elem_of_map_to_list in Hk, Hk'. simpl in Heq.
    assert (k = k') as -> by eauto. congruence.
  - intros Hnd k k' a a' Hk Hk' Heq. apply elem_of_map_to_list in Hk, Hk'.
    apply list_elem_of_lookup in Hk as [i Hi], Hk' as [j Hj].
    assert (i = j) as ->; [|congruence]. eapply NoDup_lookup; [exact Hnd|..]; rewrite list_lookup_fmap.
    + rewrite Hi. simpl. reflexivity.
    + rewrite Hj. simpl. by rewrite Heq.
Qed.

Lemma values_elem {A} (id_of : A → string) (m : gmap string A) id :
  id ∈ id_of <$> (map_to_list m).*2 ↔ ∃ k a, m !! k = Some a ∧ id_of a = id.
Proof.
  rewrite <- list_fmap_compose, list_elem_of_fmap. split.
  - intros ([k a] & -> & Hk). apply elem_of_map_to_list in Hk. eauto.
  - intros (k & a & Hk & <-). exists (k, a). by rewrite elem_of_map_to_list.
Qed.
Section made.
Context (data : list InstanceData) (bridges : list Bridge) (dpki : option DpkiConfiguration) (logger : string).
Abbreviation made := (foldl make_instance (MkMade ∅ ∅ []) data).
Abbreviation config := (make_config data bridges dpki logger).

Lemma made_names : ic_id <$> instance_configs made = inst_name <$> data.
Proof.
  assert (Hall : ∀ l il, Forall2 (λ d i, ic_id i = inst_name d) l il → ic_id <$> il = inst_name <$> l).
  { induction 1 as [|d i l il Hid _ IH]; [done|]. rewrite !fmap_cons, Hid. by f_equal. }
  apply Hall. eapply Forall2_impl; [apply (made_instances _ _ (make_config_made data))|]. by intros d i (? & _).
Qed.

Lemma made_agents_nodup : NoDup (ac_id <$> (map_to_list (agent_configs made)).*2).
Proof.
  apply values_nodup. intros k k' a a'. rewrite !(made_agents _ _ (make_config_made data)).
  do 2 case_decide; intros ? ? ?; by simplify_eq/=.
Qed.

Definition names_differ : Prop :=
  ∀ path path' name, first_name data path = Some name → first_name data path' = Some name → path = path'.

Lemma made_dnas_nodup : NoDup (dc_id <$> (map_to_list (dna_configs made)).*2) ↔ names_differ.
Proof.
  rewrite <- values_nodup. setoid_rewrite (made_dnas _ _ (make_config_made data)). split.
  - intros Hinj p p' n Hp Hp'. eapply (Hinj p p'); [by rewrite Hp|by rewrite Hp'|done].
  - intros Hn p p' a a' Ha Ha' Heq. apply fmap_Some in Ha as (n & Hp & ->).
    apply fmap_Some in Ha' as (n' & Hp' & ->). simpl in Heq. subst. eauto.
Qed.

(** Every instance refers to an agent and a DNA that are there. *)
Lemma made_references i : i ∈ instance_configs made →
  ic_agent i ∈ ac_id <$> (map_to_list (agent_configs made)).*2 ∧
  ic_dna i ∈ dc_id <$> (map_to_list (dna_configs made)).*2.
Proof.
  intros Hi. destruct (make_config_made data) as [Ha Hd Hf].
  apply list_elem_of_lookup in Hi as [n Hn].
  destruct (Forall2_lookup_r _ _ _ _ _ Hf Hn) as (d & Hdn & _ & Hag & Hfirst).
  split; apply values_elem.
  - exists (ic_agent i), (make_agent_config (ic_agent i)). rewrite Ha, decide_True; [done|].
    rewrite Hag. apply list_elem_of_lookup. exists n. by rewrite list_lookup_fmap, Hdn.
  - exists (dna_path (inst_dna d)), (MkDnaConfiguration (ic_dna i) (dna_path (inst_dna d)) None).
    by rewrite Hd, Hfirst.
Qed.

(** C40: a configuration for a test is accepted exactly when its parts fit.  The agents and the
    references of the instances are always right; what the check of the conductor can refuse
    are two instances of one name, DNAs of one name at different paths, bridges and a DPKI
    application that name no instance, and bridges that call in a circle. *)
Theorem test_config_accepted `{Petgraph} :
  check_consistency config = Done (Ok tt) ↔
  NoDup (inst_name <$> data) ∧ names_differ ∧
  (∀ b, b ∈ bridges → caller_id b ∈ inst_name <$> data ∧ callee_id b ∈ inst_name <$> data) ∧
  (∀ d, dpki = Some d → dpki_instance d ∈ inst_name <$> data) ∧
  ∃ o, o ≡ₚ inst_name <$> data ∧ ∀ b, b ∈ bridges → before o (callee_id b) (caller_id b).
Proof using agent_values_all dna_values_all.
  rewrite (proj2 (check_consistency_spec config)). rewrite <- made_names, <- made_dnas_nodup. split.
  - intros [_ H2 H3 _ _ _ H7 _ H9 H10]. simpl in *. rewrite dna_values_all in H2.
    split_and!; try done.
  - intros (H3 & H2 & H7 & H9 & o & Ho & Hb). split; simpl; try done.
    + rewrite agent_values_all. apply made_agents_nodup.
    + by rewrite dna_values_all.
    + constructor.
    + intros i Hi. rewrite agent_values_all, dna_values_all. by apply made_references.
    + by intros f id ?%elem_of_nil.
    + by intros u ?%elem_of_nil.
    + by exists o.
Qed.
End made.
End make.

(** Two instances of one agent, and DNAs with one name at two paths. *)
Module MakeConfigDemo.
Definition values_of {A} (m : gmap string A) : list A := (map_to_list m).*2.
Definition test_config (data : list InstanceData) (bridges : list Bridge) : Configuration :=
  make_config (String.append "key of ") values_of values_of data bridges None "debug".

Definition blog (agent path name instance : string) : InstanceData :=
  MkInstanceData (MkAgentData agent) (MkDnaData path name) instance.
Definition good : list InstanceData := [blog "alice" "a.json" "blog" "one"; blog "bob" "a.json" "blog" "two"].
Definition clash : list InstanceData := [blog "alice" "a.json" "blog" "one"; blog "alice" "b.json" "blog" "two"].

Lemma test_config_accepted_witness :
  names_differ good ∧ ¬ names_differ clash.
Proof.
  pose proof (test_config_accepted (String.append "key of ") values_of values_of (λ _, reflexivity _) (λ _, reflexivity _)
    good [] None "debug" (H := SearchSort.search_sort)) as Hg.
  split.
  - apply Hg. vm_compute. reflexivity.
  - intros Hn. assert ("a.json" = "b.json") by (by apply (Hn _ _ "blog")). done.
Defined.
End MakeConfigDemo.
