(* ===== verification/SecBuf.v ===== *)
(** * Protected buffers

    [sodium/src/secbuf.rs]: buffers for keys, in raw memory or in memory of libsodium whose
    pages are protected, with the protection a buffer believes it has, the locks that undo
    themselves and the copies.

    Touching a page against its protection, or memory outside of the buffer, ends the process
    or is undefined; this is [Faults], apart from panics, which unwind and release locks. *)
From S2P Require Import Prelude.

Inductive SecurityType := Insecure | Secure.
Inductive ProtectState := NoAccess | ReadOnly | ReadWrite.

#[global] Instance SecurityType_eq_dec : EqDecision SecurityType.
Proof. solve_decision. Defined.
#[global] Instance ProtectState_eq_dec : EqDecision ProtectState.
Proof. solve_decision. Defined.

(** [SecBuf]; [page] is the protection of the pages of a [SodiumBuf], and without meaning for
    a [RustBuf]. *)
Record SecBuf := MkSecBuf {
  sec_type : SecurityType;
  content : list Z;
  page : ProtectState;
  protect_state : ProtectState;
}.

(** What becomes of a call: the state it leaves, also when it panics. *)
Inductive run (A : Type) :=
| Ran (a : A) (b : SecBuf)
| Panics (why : string) (b : SecBuf)
| Faults.
Arguments Ran {A} a b.
Arguments Panics {A} why b.
Arguments Faults {A}.

Definition on_buf (A : Type) : Type := SecBuf → run A.

#[global] Instance on_buf_ret : MRet on_buf := λ A a b, Ran a b.
#[global] Instance on_buf_bind : MBind on_buf := λ A B f m b,
  match m b with
  | Ran a b => f a b
  | Panics why b => Panics why b
  | Faults => Faults
  end.

(** ** The memory below *)

(** [Bufferable::readable], [writable] and [noaccess]. *)
Definition protect (st : ProtectState) : on_buf unit := λ b,
  Ran tt match sec_type b with
         | Secure => MkSecBuf Secure (content b) st (protect_state b)
         | Insecure => b
         end.

Definition may_read (b : SecBuf) : bool :=
  match sec_type b with Insecure => true | Secure => bool_decide (page b ≠ NoAccess) end.
Definition may_write (b : SecBuf) : bool :=
  match sec_type b with Insecure => true | Secure => bool_decide (page b = ReadWrite) end.

(** Reading what [ref_] points at, and writing through [ref_mut]. *)
Definition load_raw : on_buf (list Z) := λ b, if may_read b then Ran (content b) b else Faults.
Definition store_raw (l : list Z) : on_buf unit := λ b,
  if may_write b then Ran tt (MkSecBuf (sec_type b) l (page b) (protect_state b)) else Faults.

(** ** Buffers *)
Definition buf_with_insecure (s : nat) : SecBuf := MkSecBuf Insecure (replicate s 0) NoAccess NoAccess.

(** [sodium_malloc] fills the memory with 0xdb; [allocated] is false when it gives none. *)
Definition buf_with_secure (allocated : bool) (s : nat) : outcome SecBuf :=
  if decide (s mod 8 ≠ 0)%nat then Panicked "bad buffer size, disallowing this for safety"
  else if allocated then Done (MkSecBuf Secure (replicate s 219) NoAccess NoAccess)
  else Panicked "cannot allocate".

Definition with_insecure_from_string (s : list Z) : SecBuf := MkSecBuf Insecure s NoAccess NoAccess.

Definition set_protect_state (st : ProtectState) : on_buf unit := λ b,
  Ran tt (MkSecBuf (sec_type b) (content b) (page b) st).

Definition double_locked : string := "SecBuf trying to get Double Locked".

(** [readable] and [writable]. *)
Definition unprotect (st : ProtectState) : on_buf unit := λ b,
  if decide (protect_state b = NoAccess) then (set_protect_state st ;; protect st) b
  else Panics double_locked b.
Definition readable : on_buf unit := unprotect ReadOnly.
Definition writable : on_buf unit := unprotect ReadWrite.

Definition protected (b : SecBuf) : SecBuf :=
  MkSecBuf (sec_type b) (content b)
    match sec_type b with Secure => NoAccess | Insecure => page b end NoAccess.
Definition noaccess : on_buf unit := λ b, Ran tt (protected b).

(** [Deref], with the access that follows, and [DerefMut]. *)
Definition deref : on_buf (list Z) := λ b,
  if decide (protect_state b = NoAccess) then Panics "SecBuf Deref, but state is NoAccess" b else load_raw b.
Definition deref_mut : on_buf unit := λ b,
  if decide (protect_state b = ReadWrite) then Ran tt b
  else Panics "SecBuf DerefMut, but state is not ReadWrite" b.

(** [b[i] = x], with the check that slices make. *)
Definition index_mut (i : nat) (x : Z) : on_buf unit :=
  deref_mut ;;
  ((λ b,
    if decide (i < length (content b))%nat then store_raw (<[i := x]> (content b)) b
    else Panics "index out of bounds" b) : on_buf unit).

(** [Locker]: it protects the buffer again when it is dropped, also while a panic unwinds. *)
Definition with_lock {A} (write : bool) (body : on_buf A) : on_buf A := λ b,
  match (if write then writable else readable) b with
  | Ran _ b =>
      match body b with
      | Ran a b => Ran a (protected b)
      | Panics why b => Panics why (protected b)
      | Faults => Faults
      end
  | Panics why b => Panics why b
  | Faults => Faults
  end.

(** [ptr::copy] to an offset from the start of the buffer, which checks nothing. *)
Definition splice (offset : nat) (data l : list Z) : list Z :=
  take offset l ++ data ++ drop (offset + length data) l.
Definition ptr_copy (offset : Z) (data : list Z) : on_buf unit := λ b,
  if decide (offset + Z.of_nat (length data) ≤ Z.of_nat (length (content b)))
  then store_raw (splice (Z.to_nat offset) data (content b)) b else Faults.

(** The sum of two [usize]: a build with overflow checks panics where it does not fit 64 bits,
    a release build wraps around. *)
Definition usize_add (overflow_checks : bool) (x y : Z) : on_buf Z := λ b,
  if decide (x + y < 2 ^ 64) then Ran (x + y) b
  else if overflow_checks then Panics "attempt to add with overflow" b
  else Ran ((x + y) mod 2 ^ 64) b.

Definition secbuf_write (overflow_checks : bool) (offset : Z) (data : list Z) : on_buf (result string unit) :=
  finish ← usize_add overflow_checks offset (Z.of_nat (length data));
  ((λ b,
    if decide (Z.of_nat (length (content b)) < finish) then Ran (Err "SecBuf write overflow") b
    else with_lock true (deref_mut ;; ptr_copy offset data ;; mret (Ok tt)) b) : on_buf (result string unit)).

(** [Clone]: the source's memory is made readable and protected again, whatever state the
    buffer is in. *)
Definition buf_clone (allocated : bool) : on_buf SecBuf := λ b,
  match sec_type b with
  | Insecure =>
      (protect ReadOnly ;; l ← load_raw; protect NoAccess ;; mret (MkSecBuf Insecure l NoAccess NoAccess)) b
  | Secure =>
      match buf_with_secure allocated (length (content b)) with
      | Panicked why => Panics why b
      | Done out =>
          (protect ReadOnly ;; l ← load_raw; protect NoAccess ;;
           mret (MkSecBuf Secure l NoAccess NoAccess)) b
      end
  end.

(** [Debug] prints the memory as it is. *)
Definition buf_debug : on_buf (list Z) := load_raw.

(** ** Programs on one buffer *)
Inductive BufOp :=
| OpReadable
| OpWritable
| OpNoaccess
| OpDeref
| OpIndexMut (i : nat) (x : Z)
| OpWrite (offset : Z) (data : list Z)
| OpReadLock (inside : list BufOp)
| OpWriteLock (inside : list BufOp)
| OpClone (allocated : bool)
| OpDebug.

Definition ignore {A} (m : on_buf A) : on_buf unit := _ ← m; mret tt.

Section programs.
(** Whether the build checks sums for overflow. *)
Variable overflow_checks : bool.

Fixpoint run_buf_op (op : BufOp) : on_buf unit :=
  let fix run_all (ops : list BufOp) : on_buf unit :=
    match ops with [] => mret tt | op :: ops => run_buf_op op ;; run_all ops end in
  match op with
  | OpReadable => readable
  | OpWritable => writable
  | OpNoaccess => noaccess
  | OpDeref => ignore deref
  | OpIndexMut i x => index_mut i x
  | OpWrite offset data => ignore (secbuf_write overflow_checks offset data)
  | OpReadLock inside => with_lock false (run_all inside)
  | OpWriteLock inside => with_lock true (run_all inside)
  | OpClone allocated => ignore (buf_clone allocated)
  | OpDebug => ignore buf_debug
  end.

Fixpoint run_buf_ops (ops : list BufOp) : on_buf unit :=
  match ops with [] => mret tt | op :: ops => run_buf_op op ;; run_buf_ops ops end.

(** Neither copies nor prints, and writes at offsets, of type [usize], whose sum with the
    length is checked or fits. *)
Fixpoint careful (op : BufOp) : bool :=
  match op with
  | OpReadLock inside | OpWriteLock inside => forallb careful inside
  | OpClone _ | OpDebug => false
  | OpWrite offset data =>
      (0 <=? offset) && (overflow_checks || (offset + Z.of_nat (length data) <? 2 ^ 64))
  | _ => true
  end.
End programs.

(** ** Theorems *)

(** The protection a buffer believes in is that of its pages. *)
Definition in_step (b : SecBuf) : Prop := sec_type b = Secure → page b = protect_state b.

(** The same kind and length of buffer, with the two in step. *)
Definition follows (b b' : SecBuf) : Prop :=
  length (content b') = length (content b) ∧ sec_type b' = sec_type b ∧ in_step b'.

(** A call that keeps the two in step, with the same kind and length, and never faults. *)
Definition keeps {A} (m : on_buf A) : Prop := ∀ b, in_step b →
  match m b with
  | Ran _ b' | Panics _ b' => follows b b'
  | Faults => False
  end.

Lemma follows_refl b : in_step b → follows b b.
Proof. by intros Hb. Qed.

Lemma follows_trans b1 b2 b3 : follows b1 b2 → follows b2 b3 → follows b1 b3.
Proof. intros (? & ? & ?) (? & ? & ?). split_and!; congruence || done. Qed.
#[local] Hint Resolve follows_refl : core.

Lemma keeps_ret {A} (a : A) : keeps (mret a).
Proof. intros b Hb. by apply follows_refl. Qed.

Lemma in_step_bind {A B} (m : on_buf A) (f : A → on_buf B) : keeps m → (∀ a, keeps (f a)) → keeps (m ≫= f).
Proof.
  intros Hm Hf b Hb. unfold mbind, on_buf_bind. specialize (Hm b Hb).
  destruct (m b) as [a b'|why b'|]; [|done..]. pose proof Hm as (_ & _ & Hb').
  specialize (Hf a b' Hb'). destruct (f a b'); eauto using follows_trans.
Qed.

Lemma keeps_unprotect st : keeps (unprotect st).
Proof.
  intros b Hb. unfold unprotect. case_decide; [|by apply follows_refl].
  by destruct b as [[] l pg p].
Qed.

Lemma follows_protected b : in_step b → follows b (protected b).
Proof. intros Hb. by destruct b as [[] l pg p]. Qed.

Lemma keeps_noaccess : keeps noaccess.
Proof. intros b Hb. by apply follows_protected. Qed.

Lemma keeps_deref : keeps deref.
Proof.
  intros b Hb. unfold deref. case_decide as Hp; [auto|]. unfold load_raw, may_read.
  destruct (sec_type b) eqn:Ht; [by apply follows_refl|]. rewrite (Hb Ht), bool_decide_true by done. auto.
Qed.

Lemma keeps_store l b :
  in_step b → protect_state b = ReadWrite → length l = length (content b) →
  match store_raw l b with Ran _ b' | Panics _ b' => follows b b' | Faults => False end.
Proof.
  intros Hb Hp Hl. unfold store_raw, may_write. destruct b as [[] c pg p]; simpl in *; [done|].
  specialize (Hb eq_refl). simpl in *. subst. by rewrite bool_decide_true.
Qed.

Lemma keeps_index_mut i x : keeps (index_mut i x).
Proof.
  intros b Hb. unfold index_mut, deref_mut, mbind, on_buf_bind. case_decide; [|auto].
  case_decide; [|auto]. apply keeps_store; [done..|by rewrite length_insert].
Qed.
#[local] Hint Resolve keeps_ret in_step_bind keeps_unprotect keeps_noaccess keeps_deref keeps_index_mut : core.

Lemma with_lock_follows {A} (write : bool) (body : on_buf A) b :
  in_step b →
  (∀ b1, follows b b1 → protect_state b1 = (if write then ReadWrite else ReadOnly) →
    match body b1 with Ran _ b' | Panics _ b' => follows b1 b' | Faults => False end) →
  match with_lock write body b with Ran _ b' | Panics _ b' => follows b b' | Faults => False end.
Proof.
  intros Hb Hbody. unfold with_lock. pose proof (keeps_unprotect
    (if write then ReadWrite else ReadOnly) b Hb) as Hl.
  replace ((if write then writable else readable) b)
    with (unprotect (if write then ReadWrite else ReadOnly) b) by (by destruct write).
  unfold unprotect in *. case_decide; [|done]. simpl in *.
  set (b1 := match sec_type b with Secure => _ | Insecure => _ end) in *.
  assert (Hp1 : protect_state b1 = if write then ReadWrite else ReadOnly).
  { subst b1. by destruct b as [[] ? ? ?]. }
  specialize (Hbody b1 Hl Hp1).
  destruct (body b1) as [a b2|why b2|]; [..|done]; pose proof Hbody as (_ & _ & Hb2);
    eauto using follows_trans, follows_protected.
Qed.

Lemma keeps_with_lock {A} write (body : on_buf A) : keeps body → keeps (with_lock write body).
Proof. intros Hbody b Hb. apply with_lock_follows; [done|]. intros b1 (_ & _ & Hb1) _. by apply Hbody. Qed.

Lemma length_splice offset data l :
  (offset + length data ≤ length l)%nat → length (splice offset data l) = length l.
Proof. intros ?. unfold splice. rewrite !length_app, length_take, length_drop. lia. Qed.

Lemma keeps_write overflow_checks offset data :
  careful overflow_checks (OpWrite offset data) = true → keeps (secbuf_write overflow_checks offset data).
Proof.
  simpl. intros [H0 Hfits]%andb_true_iff b Hb. unfold secbuf_write, usize_add, mbind, on_buf_bind.
  case_decide as Hsum.
  - case_decide as Hlen; [auto|]. apply with_lock_follows; [done|]. intros b1 (Hl & _ & Hb1) Hp.
    unfold deref_mut. rewrite decide_True by done. unfold ptr_copy. rewrite decide_True by lia.
    pose proof (keeps_store (splice (Z.to_nat offset) data (content b1)) b1 Hb1 Hp) as Hs.
    rewrite length_splice in Hs by lia. specialize (Hs eq_refl).
    by destruct (store_raw _ b1).
  - destruct overflow_checks; [auto|]. simpl in Hfits. lia.
Qed.
#[local] Hint Resolve keeps_with_lock keeps_write : core.

Lemma keeps_ignore {A} (m : on_buf A) : keeps m → keeps (ignore m).
Proof. unfold ignore. auto. Qed.
#[local] Hint Resolve keeps_ignore : core.

Lemma keeps_op checks op : careful checks op = true → keeps (run_buf_op checks op).
Proof.
  revert op. fix IH 1. intros op.
  assert (Hall : ∀ inside, forallb (careful checks) inside = true →
    keeps ((fix run_all (ops : list BufOp) : on_buf unit :=
      match ops with [] => mret tt | op :: ops => run_buf_op checks op ;; run_all ops end) inside)).
  { fix IHl 1. intros [|op' inside]; [intros _; apply keeps_ret|]. simpl. intros Hc.
    apply andb_true_iff in Hc as [H1 H2]. apply in_step_bind; [exact (IH op' H1)|].
    intros _. exact (IHl inside H2). }
  destruct op; intros Hc; try discriminate Hc;
    [apply keeps_unprotect|apply keeps_unprotect|apply keeps_noaccess|apply keeps_ignore, keeps_deref
    |apply keeps_index_mut|apply keeps_ignore, keeps_write, Hc|apply keeps_with_lock, Hall, Hc
    |apply keeps_with_lock, Hall, Hc].
Qed.

Lemma keeps_ops checks ops : forallb (careful checks) ops = true → keeps (run_buf_ops checks ops).
Proof.
  induction ops as [|op ops IH]; simpl; [intros _; apply keeps_ret|].
  intros [H1 H2]%andb_true_iff. apply in_step_bind; [by apply keeps_op|]. intros _. by apply IH.
Qed.

Definition fresh (b : SecBuf) : Prop :=
  (∃ s, b = buf_with_insecure s) ∨ (∃ s, buf_with_secure true s = Done b) ∨ ∃ l, b = with_insecure_from_string l.

Lemma fresh_in_step b : fresh b → in_step b ∧ protect_state b = NoAccess.
Proof.
  intros [[s ->]|[[s Hb]|[l ->]]]; [done| |done].
  unfold buf_with_secure in Hb. case_decide; by simplify_eq.
Qed.

(** C39: no careful program touches memory that it must not touch.  Whatever a program does with
    a new buffer by unlocking, locking, reading and writing it, in locks within locks as well, it
    ends with a result or a panic: it never touches a page against its protection and never
    copies beyond the end of the buffer.  The buffer keeps its kind and length, and its pages are
    protected as the buffer says.  In a build without overflow checks the end of every write has
    to fit 64 bits. *)
Theorem careful_never_faults overflow_checks ops b :
  fresh b → forallb (careful overflow_checks) ops = true →
  match run_buf_ops overflow_checks ops b with
  | Ran _ b' | Panics _ b' =>
      length (content b') = length (content b) ∧ sec_type b' = sec_type b ∧
      (sec_type b' = Secure → page b' = protect_state b')
  | Faults => False
  end.
Proof.
  intros Hb Hops. exact (keeps_ops overflow_checks ops Hops b (proj1 (fresh_in_step b Hb))).
Qed.

(** Without overflow checks the test of [SecBuf::write] wraps around: an offset close to the
    largest [usize] passes it, and the copy starts before the buffer. *)
Theorem wrapped_write_faults offset data b :
  protect_state b = NoAccess → 2 ^ 64 ≤ offset + Z.of_nat (length data) < 2 ^ 64 + Z.of_nat (length (content b)) →
  Z.of_nat (length (content b)) < 2 ^ 64 →
  secbuf_write false offset data b = Faults.
Proof.
  intros Hp Hsum Hb. unfold secbuf_write, usize_add, mbind, on_buf_bind. rewrite decide_False by lia.
  assert (Hmod : (offset + Z.of_nat (length data)) mod 2 ^ 64 < Z.of_nat (length (content b))).
  { rewrite <- (Z.mod_add _ (-1)), Z.mod_small by lia. lia. }
  rewrite decide_False by lia. unfold with_lock, writable, unprotect. rewrite decide_True by done.
  destruct b as [[] l pg p]; simpl in *; unfold ptr_copy; simpl; by rewrite decide_False by lia.
Qed.

(** After a lock the buffer is closed, whatever happened inside. *)
Lemma lock_closes {A} write (body : on_buf A) b :
  protect_state b = NoAccess →
  match with_lock write body b with
  | Ran _ b' | Panics _ b' => protect_state b' = NoAccess
  | Faults => True
  end.
Proof.
  intros Hb. unfold with_lock.
  destruct ((if write then writable else readable) b) as [[] b1|why b1|] eqn:Hl; [|..|done].
  - by destruct (body b1).
  - destruct write; unfold readable, writable, unprotect in Hl; rewrite decide_True in Hl by done;
      destruct b as [[] ? ? ?]; discriminate Hl.
Qed.

Lemma splice_lookup offset data l i :
  (offset + length data ≤ length l)%nat →
  splice offset data l !! i =
  if decide (offset ≤ i < offset + length data)%nat then data !! (i - offset)%nat else l !! i.
Proof.
  intros Hlen. unfold splice. case_decide as Hi.
  - rewrite lookup_app_r by (rewrite length_take; lia). rewrite length_take, Nat.min_l by lia.
    rewrite lookup_app_l by lia. done.
  - destruct (decide (i < offset)%nat).
    + rewrite lookup_app_l by (rewrite length_take; lia). by rewrite lookup_take_lt.
    + rewrite lookup_app_r by (rewrite length_take; lia). rewrite length_take, Nat.min_l by lia.
      rewrite lookup_app_r by lia. rewrite lookup_drop. f_equal. lia.
Qed.

(** What is written is read back, the rest of the buffer stays as it was and the buffer is
    closed again; a write beyond the end is refused and one into an open buffer panics, both
    without a change. *)
Theorem write_reads_back overflow_checks (offset : nat) data b :
  in_step b → Z.of_nat offset + Z.of_nat (length data) < 2 ^ 64 →
  match secbuf_write overflow_checks (Z.of_nat offset) data b with
  | Ran (Ok _) b' =>
      (offset + length data ≤ length (content b))%nat ∧ protect_state b' = NoAccess ∧
      with_lock false deref b' = Ran (content b') b' ∧
      ∀ i, content b' !! i = if decide (offset ≤ i < offset + length data)%nat
                             then data !! (i - offset)%nat else content b !! i
  | Ran (Err _) b' => (length (content b) < offset + length data)%nat ∧ b' = b
  | Panics _ b' => protect_state b ≠ NoAccess ∧ b' = b
  | Faults => False
  end.
Proof.
  intros Hb Hfits. unfold secbuf_write, usize_add, mbind, on_buf_bind. rewrite decide_True by done.
  case_decide as Hlen; [split; [lia|done]|].
  unfold with_lock, writable, unprotect. case_decide as Hp; [|done].
  assert (Hle : (offset + length data ≤ length (content b))%nat) by lia.
  pose proof (λ i, splice_lookup offset data (content b) i Hle) as Hs.
  destruct b as [[] l pg p]; simpl in *; subst; unfold ptr_copy; simpl; rewrite decide_True by lia;
    rewrite Nat2Z.id; (split; [done|]); (split; [done|]); by split.
Qed.

(** A closed buffer is copied with its content; both buffers are closed. *)
Theorem clone_of_closed b :
  in_step b → protect_state b = NoAccess → (length (content b) mod 8 = 0)%nat →
  ∃ c, buf_clone true b = Ran c b ∧ content c = content b ∧ sec_type c = sec_type b ∧
    in_step c ∧ protect_state c = NoAccess.
Proof.
  intros Hb Hp Hlen. destruct b as [[] l pg p]; simpl in *; subst.
  - by eexists.
  - pose proof (Hb eq_refl) as Hpg. simpl in Hpg. subst. unfold buf_clone. simpl.
    unfold buf_with_secure. rewrite decide_False by (by intros Hne; apply Hne). by eexists.
Qed.

(** A secure buffer that is copied while it is locked is closed under the hands of whoever holds
    the lock: the lock still says that the buffer may be read, and the next access ends the
    process. *)
Theorem clone_of_locked_faults b c b' :
  sec_type b = Secure → protect_state b ≠ NoAccess → buf_clone true b = Ran c b' →
  protect_state b' = protect_state b ∧ deref b' = Faults.
Proof.
  intros Ht Hp. unfold buf_clone. rewrite Ht. destruct (buf_with_secure _ _); [|done].
  destruct b as [[] l pg p]; [done|]. simpl in *. intros [= <- <-]. split; [done|].
  unfold deref. simpl. by rewrite decide_False.
Qed.

(** Printing a closed secure buffer ends the process. *)
Theorem debug_of_closed_faults b : in_step b → sec_type b = Secure → protect_state b = NoAccess → buf_debug b = Faults.
Proof. intros Hb Ht Hp. unfold buf_debug, load_raw, may_read. by rewrite Ht, (Hb Ht), Hp. Qed.

Module SecBufDemo.
Definition program : list BufOp :=
  [OpWrite 2 [7; 8]; OpWrite 7 [9; 9]; OpReadLock [OpDeref; OpDeref]; OpWriteLock [OpIndexMut 3 1; OpReadable]].

Lemma careful_never_faults_witness :
  match run_buf_ops false program (MkSecBuf Secure (replicate 8 219) NoAccess NoAccess) with
  | Ran _ b' | Panics _ b' =>
      length (content b') = 8%nat ∧ sec_type b' = Secure ∧ (sec_type b' = Secure → page b' = protect_state b')
  | Faults => False
  end.
Proof.
  apply (careful_never_faults false program); [|reflexivity]. right; left. exists 8%nat. reflexivity.
Defined.

(** [let lock = buf.read_lock(); let copy = lock.clone(); lock[0]]. *)
Example copy_in_lock :
  run_buf_ops false [OpReadLock [OpClone true; OpDeref]] (MkSecBuf Secure (replicate 8 219) NoAccess NoAccess) = Faults.
Proof. reflexivity. Qed.

(** [buf.write(usize::max_value(), &[1, 2])] in a release build. *)
Example write_before_start :
  run_buf_ops false [OpWrite (2 ^ 64 - 1) [1; 2]] (MkSecBuf Secure (replicate 8 219) NoAccess NoAccess) = Faults.
Proof. reflexivity. Qed.
End SecBufDemo.
