(* ===== verification/Sodium.v ===== *)
(** * Buffers and the wrappers of libsodium

    [sodium/src/]: the buffers that hold keys, and the wrappers that call the C library.
    The C functions are an interface with their contract; a buffer is its bytes.  The
    wrappers pass pointers and lengths, so a call that would write past the end of a
    buffer is a panic here (in the program it is undefined behaviour).  The memory
    protection of a buffer is left out: every access goes through a [Locker], which
    borrows the buffer exclusively and restores the protection. *)
From S2P Require Import Prelude Errors.

Abbreviation bytes := (list Ascii.ascii).

Inductive SodiumError :=
| Generic (msg : string)
| OutputLength (msg : string)
| SodiumOutOfMemory.

(** [From<SodiumError> for HolochainError]. *)
Definition of_sodium_error (error : SodiumError) : HolochainError :=
  match error with
  | Generic s => ErrorGeneric s
  | OutputLength s => ErrorGeneric s
  | SodiumOutOfMemory => ErrorGeneric "libSodium went out of memory"
  end.

(** ** The C library *)
Definition NONCEBYTES : nat := 24.
Definition ABYTES : nat := 16.
Definition SALTBYTES : nat := 16.
Definition SESSIONKEYBYTES : nat := 32.
Definition SIGN_PUBLICKEYBYTES : nat := 32.
Definition SIGN_SECRETKEYBYTES : nat := 64.
Definition KX_PUBLICKEYBYTES : nat := 32.
Definition KX_SECRETKEYBYTES : nat := 32.
Definition OPSLIMIT_INTERACTIVE : Z := 2.
Definition MEMLIMIT_INTERACTIVE : Z := 67108864.
Definition OPSLIMIT_SENSITIVE : Z := 4.
Definition MEMLIMIT_SENSITIVE : Z := 1073741824.
Definition ALG_ARGON2ID13 : Z := 2.
Definition CONTEXTBYTES : nat := 8.
Definition MINBYTES : nat := 16.
Definition MAXBYTES : nat := 64.

(** [crypto_aead_decrypt] returns whether the text is authentic and what it leaves in the
    output buffer, [crypto_pwhash] nothing when it is out of memory. *)
Class Sodium := {
  Rng : Type;
  randombytes : nat → Rng → bytes * Rng;
  crypto_pwhash (len : nat) (password : bytes) (ops mem alg : Z) (salt : bytes) : option bytes;
  crypto_aead_encrypt (key nonce message : bytes) : bytes;
  crypto_aead_decrypt (key nonce cipher : bytes) : bool * bytes;
  crypto_kdf_derive (len : nat) (index : Z) (context parent : bytes) : bytes;
  crypto_sign_seed_keypair (seed : bytes) : bytes * bytes;
  crypto_sign_detached (secret message : bytes) : bytes;
  crypto_sign_verify_detached (signature message public : bytes) : bool;
  crypto_kx_seed_keypair (seed : bytes) : bytes * bytes;
  randombytes_length n g : length (randombytes n g).1 = n;
  pwhash_length len p o m a s h : crypto_pwhash len p o m a s = Some h → length h = len;
  aead_encrypt_length k n m : length (crypto_aead_encrypt k n m) = (length m + ABYTES)%nat;
  aead_decrypt_length k n c : (length (crypto_aead_decrypt k n c).2 ≤ length c - ABYTES)%nat;
  aead_correct k n m : crypto_aead_decrypt k n (crypto_aead_encrypt k n m) = (true, m);
  kdf_length len i c p : length (crypto_kdf_derive len i c p) = len;
  sign_keypair_length s :
    length (crypto_sign_seed_keypair s).1 = SIGN_PUBLICKEYBYTES ∧
    length (crypto_sign_seed_keypair s).2 = SIGN_SECRETKEYBYTES;
  sign_detached_length k m : length (crypto_sign_detached k m) = 64%nat;
  sign_correct s m :
    let '(public, secret) := crypto_sign_seed_keypair s in
    crypto_sign_verify_detached (crypto_sign_detached secret m) m public = true;
  kx_keypair_length s :
    length (crypto_kx_seed_keypair s).1 = KX_PUBLICKEYBYTES ∧
    length (crypto_kx_seed_keypair s).2 = KX_SECRETKEYBYTES;
}.

(** ** Buffers *)
Definition with_insecure (s : nat) : bytes := replicate s (Ascii.ascii_of_nat 0).

(** [SodiumBuf::new]: the library fills memory it allocates with 0xdb. *)
Definition with_secure (s : nat) : outcome bytes :=
  if decide (s `mod` 8 = 0)%nat then Done (replicate s (Ascii.ascii_of_nat 219))
  else Panicked "bad buffer size, disallowing this for safety".

(** [SecBuf::write]. *)
Definition buf_write (buf : bytes) (offset : nat) (data : bytes) : result SodiumError bytes :=
  if decide (length buf < offset + length data)%nat then Err (Generic "SecBuf write overflow")
  else Ok (take offset buf ++ data ++ drop (offset + length data) buf).

(** [SecBuf::from_array]. *)
Definition from_array (buf data : bytes) : result SodiumError bytes :=
  if decide (length data = length buf) then buf_write buf 0 data
  else Err (Generic "Input does not have same size as SecBuf").

(** [SecBuf::compare] being zero, for buffers of one length. *)
Definition buf_same (a b : bytes) : bool := bool_decide (a = b).

(** What the C library writes into a buffer it got a pointer to. *)
Definition overwrite (buf data : bytes) : outcome bytes :=
  if decide (length data ≤ length buf)%nat then Done (data ++ drop (length data) buf)
  else Panicked "write past the end of a buffer".

(** ** The wrappers *)
Section wrappers.
Context `{Sodium}.

(** [pwhash::hash] into a buffer of [len] bytes. *)
Definition pwhash_hash (password : bytes) (ops mem alg : Z) (salt : bytes) (len : nat) :
    result SodiumError bytes :=
  match crypto_pwhash len password ops mem alg salt with
  | Some hash => Ok hash
  | None => Err SodiumOutOfMemory
  end.

(** [aead::enc], which fills [cipher]. *)
Definition aead_enc (message secret nonce cipher : bytes) : outcome bytes :=
  overwrite cipher (crypto_aead_encrypt secret nonce message).

(** [aead::dec], which fills [decrypted_message]: the return code of the library is not
    looked at. *)
Definition aead_dec (decrypted_message secret nonce cipher : bytes) : outcome bytes :=
  let '(_, written) := crypto_aead_decrypt secret nonce cipher in
  overwrite decrypted_message written.

(** [kdf::derive] into a buffer of [len] bytes. *)
Definition kdf_derive (len : nat) (index : Z) (context parent : bytes) : result SodiumError bytes :=
  if decide (len < MINBYTES ∨ MAXBYTES < len)%nat then
    Err (OutputLength ("Invalid 'out' Buffer length:" +:+ pretty len))
  else if decide (length context ≠ CONTEXTBYTES) then
    Err (OutputLength ("context must be a Buffer of length: " +:+ pretty CONTEXTBYTES +:+ "."))
  else Ok (crypto_kdf_derive len index context parent).

(** [sign::seed_keypair]. *)
Definition sign_seed_keypair (public_key secret_key seed : bytes) : outcome (bytes * bytes) :=
  let '(public, secret) := crypto_sign_seed_keypair seed in
  public_key ← overwrite public_key public;
  secret_key ← overwrite secret_key secret;
  Done (public_key, secret_key).

(** [sign::sign]. *)
Definition sign_sign (message secret_key signature : bytes) : outcome bytes :=
  overwrite signature (crypto_sign_detached secret_key message).

(** [kx::seed_keypair]. *)
Definition kx_seed_keypair (seed pk sk : bytes) : outcome (bytes * bytes) :=
  let '(public, secret) := crypto_kx_seed_keypair seed in
  pk ← overwrite pk public;
  sk ← overwrite sk secret;
  Done (pk, sk).
End wrappers.

(** ** What the wrappers do to buffers of the right size *)
Lemma overwrite_all buf data : length data = length buf → overwrite buf data = Done data.
Proof.
  intros E. unfold overwrite. rewrite decide_True by lia. rewrite drop_ge by lia. by rewrite app_nil_r.
Qed.

Lemma buf_write_ok buf offset data :
  (offset + length data ≤ length buf)%nat →
  buf_write buf offset data = Ok (take offset buf ++ data ++ drop (offset + length data) buf).
Proof. intros Hl. unfold buf_write. by rewrite decide_False by lia. Qed.

Lemma buf_write_all buf data : length data = length buf → buf_write buf 0 data = Ok data.
Proof.
  intros E. rewrite buf_write_ok by lia. simpl. rewrite drop_ge by lia. by rewrite app_nil_r.
Qed.

Lemma from_array_all buf data : length data = length buf → from_array buf data = Ok data.
Proof. intros E. unfold from_array. rewrite decide_True by done. by apply buf_write_all. Qed.

Lemma with_insecure_length n : length (with_insecure n) = n.
Proof. apply length_replicate. Qed.

(** A key of the key exchange is derived from the first argument of the wrapper. *)
Lemma kx_seed_keypair_spec `{Sodium} seed pk sk :
  length pk = KX_PUBLICKEYBYTES → length sk = KX_SECRETKEYBYTES →
  kx_seed_keypair seed pk sk = Done (crypto_kx_seed_keypair seed).
Proof.
  intros Hp Hs. unfold kx_seed_keypair. pose proof (kx_keypair_length seed) as [L1 L2].
  destruct (crypto_kx_seed_keypair seed) as [p s]. simpl in *.
  by rewrite !overwrite_all by congruence.
Qed.

Lemma sign_seed_keypair_spec `{Sodium} pk sk seed :
  length pk = SIGN_PUBLICKEYBYTES → length sk = SIGN_SECRETKEYBYTES →
  sign_seed_keypair pk sk seed = Done (crypto_sign_seed_keypair seed).
Proof.
  intros Hp Hs. unfold sign_seed_keypair. pose proof (sign_keypair_length seed) as [L1 L2].
  destruct (crypto_sign_seed_keypair seed) as [p s]. simpl in *.
  by rewrite !overwrite_all by congruence.
Qed.
