(* ===== verification/Keys.v ===== *)
(** * Keys and their encrypted form

    [dpki/src/]: encryption under a passphrase ([password_encryption.rs], [utils.rs]), key
    pairs ([keypair.rs], [key_bundle.rs]), seeds ([seed.rs]) and the blobs in which they are
    stored ([key_blob.rs]).  Every function runs in a monad that threads the random
    generator, may fail and may panic.  The text of public keys (the [hcid] crate) and of
    encrypted data (serde and base64) are interfaces with their contracts. *)
From S2P Require Import Prelude Errors Sodium.

Inductive HcidKind := Hcs0 | Hck0.

(** [hcid]: the text of a 32-byte key. *)
Class Hcid := {
  hcid_encode : HcidKind → bytes → HcResult string;
  hcid_decode : HcidKind → string → HcResult bytes;
  hcid_total kind key : length key = 32%nat → ∃ text, hcid_encode kind key = Ok text;
  hcid_roundtrip kind key text : hcid_encode kind key = Ok text → hcid_decode kind text = Ok key;
}.

(** [EncryptedData] of [password_encryption.rs]. *)
Record EncryptedData := MkEncryptedData { salt : bytes; nonce : bytes; cipher : bytes }.

(** serde_json and base64 on [EncryptedData]. *)
Class BlobText := {
  blob_to_text : EncryptedData → string;
  blob_of_text : string → HcResult EncryptedData;
  blob_text_roundtrip d : blob_of_text (blob_to_text d) = Ok d;
}.

(** [PwHashConfig(ops_limit, mem_limit, algorithm)]. *)
Record PwHashConfig := MkPwHashConfig { ops_limit : Z; mem_limit : Z; pwhash_algo : Z }.

Definition SEED_SIZE : nat := 32.
Definition SIGNATURE_SIZE : nat := 64.
Definition CONTEXT_SIZE : nat := 8.

Inductive BlobType := SeedBlob | KeyBundleBlob | SigningKeyBlob | EncryptingKeyBlob.
Inductive SeedType := RootSeed | RevocationSeed | DeviceSeed | DevicePinSeed | DnaSeed | OneShotSeed | MockSeed.
#[global] Instance BlobType_eq_dec : EqDecision BlobType.
Proof. solve_decision. Defined.
#[global] Instance SeedType_eq_dec : EqDecision SeedType.
Proof. solve_decision. Defined.

Record KeyBlob := MkKeyBlob { blob_type : BlobType; blob_seed_type : SeedType; hint : string; blob_data : string }.

Record SigningKeyPair := MkSigningKeyPair { sk_public : string; sk_private : bytes }.
Record EncryptingKeyPair := MkEncryptingKeyPair { ek_public : string; ek_private : bytes }.
Record KeyBundle := MkKeyBundle { sign_keys : SigningKeyPair; enc_keys : EncryptingKeyPair }.
Record Seed := MkSeed { seed_kind : SeedType; seed_buf : bytes }.

Section keys.
Context `{Sodium, Hcid, BlobText}.

Abbreviation crypto A := (stateful Rng HolochainError A).

(** [?] on an error of libsodium, and a call that may panic. *)
Definition sodium {A} (r : result SodiumError A) : crypto A := lift (map_err of_sodium_error r).
Definition must {A} (o : outcome A) : crypto A :=
  λ g, match o with Done a => Done (g, Ok a) | Panicked why => Panicked why end.
Definition unwrap {E A} (r : result E A) (why : string) : crypto A :=
  match r with Ok a => mret a | Err _ => panic why end.
Definition assert_eq (a b : nat) : crypto unit :=
  if decide (a = b) then mret tt else panic "assertion failed: `(left == right)`".

(** [SecBuf::randomize], on a buffer of [n] bytes. *)
Definition randomize (n : nat) : crypto bytes :=
  λ g, let '(buf, g') := randombytes n g in Done (g', Ok buf).

(** ** Encryption under a passphrase *)
Definition pw_hash (password salt : bytes) (len : nat) (config : option PwHashConfig) : crypto bytes :=
  let config := default (MkPwHashConfig OPSLIMIT_SENSITIVE MEMLIMIT_SENSITIVE ALG_ARGON2ID13) config in
  sodium (pwhash_hash password (ops_limit config) (mem_limit config) (pwhash_algo config) salt len).

Definition pw_enc (data passphrase : bytes) (config : option PwHashConfig) : crypto EncryptedData :=
  salt ← randomize SALTBYTES;
  nonce ← randomize NONCEBYTES;
  let cipher := with_insecure (length data + ABYTES) in
  secret ← pw_hash passphrase salt SESSIONKEYBYTES config;
  cipher ← must (aead_enc data secret nonce cipher);
  mret (MkEncryptedData salt nonce cipher).

(** The result is the new content of [decrypted_data]. *)
Definition pw_dec (encrypted_data : EncryptedData) (passphrase decrypted_data : bytes)
    (config : option PwHashConfig) : crypto bytes :=
  salt ← unwrap (from_array (with_insecure SALTBYTES) (salt encrypted_data))
           "Failed to write SecBuf with array";
  secret ← pw_hash passphrase salt SESSIONKEYBYTES config;
  must (aead_dec decrypted_data secret (nonce encrypted_data) (cipher encrypted_data)).

Definition encrypt_with_passphrase_buf (data_buf passphrase : bytes) (config : option PwHashConfig) :
    crypto string :=
  encrypted_blob ← pw_enc data_buf passphrase config;
  mret (blob_to_text encrypted_blob).

Definition decrypt_with_passphrase_buf (blob : string) (passphrase : bytes) (config : option PwHashConfig)
    (size : nat) : crypto bytes :=
  encrypted_blob ← lift (blob_of_text blob);
  decrypted_data ← must (with_secure size);
  decrypted_data ← pw_dec encrypted_blob passphrase decrypted_data config;
  if decide (length decrypted_data ≠ size) then throw (ErrorGeneric "Invalid Blob size")
  else mret decrypted_data.

(** [vec![0; size]] panics above [isize::MAX]. *)
Definition generate_random_buf (size : nat) : crypto bytes :=
  if decide (2 ^ 63 ≤ Z.of_nat size) then panic "capacity overflow" else randomize size.

(** [SeedContext::to_sec_buf] is the eight bytes of the context. *)
Definition generate_derived_seed_buf (src_seed seed_context : bytes) (index : Z) (size : nat) : crypto bytes :=
  if decide (index = 0) then throw (ErrorGeneric "Invalid index")
  else sodium (kdf_derive size index seed_context src_seed).

(** ** Public keys *)
Definition decode_pub_key_buf (pub_key : string) (codec : HcidKind) : crypto bytes :=
  key ← lift (hcid_decode codec pub_key);
  sodium (from_array (with_insecure SIGN_PUBLICKEYBYTES) key).

Definition encode_pub_key_buf (pub_key : bytes) (codec : HcidKind) : crypto string :=
  lift (hcid_encode codec (take SEED_SIZE pub_key)).

(** The trait's [encode_pub_key] and [decode_pub_key], which expect success. *)
Definition expect_ok {A} (m : crypto A) (why : string) : crypto A :=
  λ g, match m g with Done (g', Err _) => Panicked why | r => r end.
Definition encode_pub_key (pub_key : bytes) (codec : HcidKind) : crypto string :=
  expect_ok (encode_pub_key_buf pub_key codec) "Public key encoding failed.".
Definition key_of_text (public : string) (codec : HcidKind) : crypto bytes :=
  unwrap (hcid_decode codec public) "Public key decoding failed. Key was not properly encoded.".

(** ** Key pairs *)
Definition SigningKeyPair_new_from_seed (seed : bytes) : crypto SigningKeyPair :=
  assert_eq (length seed) SEED_SIZE;;
  priv_sec_buf ← must (with_secure SIGN_SECRETKEYBYTES);
  keys ← must (sign_seed_keypair (with_insecure SIGN_PUBLICKEYBYTES) priv_sec_buf seed);
  pub_key_b32 ← encode_pub_key_buf keys.1 Hcs0;
  mret (MkSigningKeyPair pub_key_b32 keys.2).

(** [EncryptingKeyPair::new_from_seed], with what it leaves in the seed buffer: the
    wrapper of the library takes the seed, the public and the secret key, in this order,
    and is handed the public key, the secret key and the seed. *)
Definition EncryptingKeyPair_new_from_seed (seed : bytes) : crypto (EncryptingKeyPair * bytes) :=
  assert_eq (length seed) SEED_SIZE;;
  let pub_sec_buf := with_insecure KX_PUBLICKEYBYTES in
  priv_sec_buf ← must (with_secure KX_SECRETKEYBYTES);
  bufs ← must (kx_seed_keypair pub_sec_buf priv_sec_buf seed);
  let priv_sec_buf := bufs.1 in
  let seed := bufs.2 in
  pub_key_b32 ← encode_pub_key_buf pub_sec_buf Hck0;
  mret (MkEncryptingKeyPair pub_key_b32 priv_sec_buf, seed).

(** [SigningKeyPair::sign] and [verify]. *)
Definition sign (key : SigningKeyPair) (data : bytes) : crypto bytes :=
  must (sign_sign data (sk_private key) (with_insecure SIGNATURE_SIZE)).
Definition pair_verify (key : SigningKeyPair) (data signature : bytes) : crypto bool :=
  pub_key ← expect_ok (decode_pub_key_buf (sk_public key) Hcs0)
    "Public key decoding failed. Key was not properly encoded.";
  mret (crypto_sign_verify_detached signature data pub_key).

(** [KeyBundle::new_from_seed_buf], with what it leaves in the seed buffer. *)
Definition KeyBundle_new_from_seed_buf (seed : bytes) : crypto (KeyBundle * bytes) :=
  assert_eq (length seed) SEED_SIZE;;
  sign_keys ← SigningKeyPair_new_from_seed seed;
  enc ← EncryptingKeyPair_new_from_seed seed;
  mret (MkKeyBundle sign_keys enc.1, enc.2).

Definition get_id (bundle : KeyBundle) : string := sk_public (sign_keys bundle).

(** [KeyBundle::is_same]. *)
Definition is_same (a b : KeyBundle) : bool :=
  (bool_decide (sk_public (sign_keys a) = sk_public (sign_keys b)) &&
   buf_same (sk_private (sign_keys a)) (sk_private (sign_keys b))) &&
  (bool_decide (ek_public (enc_keys a) = ek_public (enc_keys b)) &&
   buf_same (ek_private (enc_keys a)) (ek_private (enc_keys b))).

(** ** Seeds *)
Definition Seed_new (buf : bytes) (kind : SeedType) : crypto Seed :=
  assert_eq (length buf) SEED_SIZE;; mret (MkSeed kind buf).

(** [RootSeed::generate_device_seed]. *)
Definition generate_device_seed (root : Seed) (seed_context : bytes) (index : Z) : crypto Seed :=
  buf ← generate_derived_seed_buf (seed_buf root) seed_context index SEED_SIZE;
  Seed_new buf DeviceSeed.

(** [DeviceSeed::generate_device_pin_seed]. *)
Definition generate_device_pin_seed (device : Seed) (pin : bytes) (config : option PwHashConfig) : crypto Seed :=
  hash ← pw_hash pin (seed_buf device) 32 config;
  Seed_new hash DevicePinSeed.

Definition AGENT_ID_CTX : bytes := String.list_ascii_of_string "HCAGNTID".

(** [DevicePinSeed::generate_dna_key]. *)
Definition generate_dna_key (device_pin : Seed) (index : Z) : crypto KeyBundle :=
  if decide (index = 0) then throw (ErrorGeneric "Invalid index")
  else
    dna_seed_buf ← sodium (kdf_derive SEED_SIZE index AGENT_ID_CTX (seed_buf device_pin));
    bundle ← KeyBundle_new_from_seed_buf dna_seed_buf;
    mret bundle.1.

(** ** Blobs *)
Definition align8 (n : nat) : nat := (n + 8 - 1) `div` 8 * 8.
Definition KEYBUNDLE_BLOB_SIZE_ALIGNED : nat :=
  align8 (1 + SIGN_PUBLICKEYBYTES + KX_PUBLICKEYBYTES + SIGN_SECRETKEYBYTES + KX_SECRETKEYBYTES).
Definition SIGNING_KEY_BLOB_SIZE_ALIGNED : nat := align8 (1 + SIGN_PUBLICKEYBYTES + SIGN_SECRETKEYBYTES).
Definition ENCRYPTING_KEY_BLOB_SIZE_ALIGNED : nat := align8 (1 + KX_PUBLICKEYBYTES + KX_SECRETKEYBYTES).

Definition finalize_blobbing (size : nat) (data_buf passphrase : bytes) (config : option PwHashConfig) :
    crypto string :=
  if decide (length data_buf ≠ size) then throw (ErrorGeneric "Invalid buf size for Blobbing")
  else encrypt_with_passphrase_buf data_buf passphrase config.

Definition unblob (type : BlobType) (size : nat) (blob : KeyBlob) (passphrase : bytes)
    (config : option PwHashConfig) : crypto bytes :=
  if decide (blob_type blob ≠ type) then throw (ErrorGeneric "Blob type mismatch while unblobbing")
  else decrypt_with_passphrase_buf (blob_data blob) passphrase config size.

Definition Seed_as_blob (seed : Seed) (passphrase : bytes) (hint : string) (config : option PwHashConfig) :
    crypto KeyBlob :=
  encoded_blob ← finalize_blobbing SEED_SIZE (seed_buf seed) passphrase config;
  mret (MkKeyBlob SeedBlob (seed_kind seed) hint encoded_blob).

Definition Seed_from_blob (blob : KeyBlob) (passphrase : bytes) (config : option PwHashConfig) : crypto Seed :=
  buf ← unblob SeedBlob SEED_SIZE blob passphrase config;
  Seed_new buf (blob_seed_type blob).

(** One [write] of a key into the buffer of a blob. *)
Definition put (buf : bytes) (offset : nat) (data : bytes) : crypto bytes :=
  unwrap (buf_write buf offset data) "Failed blobbing".
Definition slice (buf : bytes) (first last : nat) : bytes := take (last - first) (drop first buf).
Definition version (n : nat) : Ascii.ascii := Ascii.ascii_of_nat n.

Definition check_version (kind : string) (buf : bytes) (expected : nat) : crypto unit :=
  match buf with
  | v :: _ =>
      if decide (v = version expected) then mret tt
      else throw (ErrorGeneric ("Invalid " +:+ kind +:+ " Blob Format: v" +:+
        pretty (Ascii.nat_of_ascii v) +:+ " != v" +:+ pretty expected))
  | [] => panic "index out of bounds"
  end.

Definition SigningKeyPair_as_blob (key : SigningKeyPair) (passphrase : bytes) (hint : string)
    (config : option PwHashConfig) : crypto KeyBlob :=
  data_buf ← must (with_secure SIGNING_KEY_BLOB_SIZE_ALIGNED);
  data_buf ← put data_buf 0 [version 1];
  pub ← key_of_text (sk_public key) Hcs0;
  assert_eq SIGN_PUBLICKEYBYTES (length pub);;
  data_buf ← put data_buf 1 pub;
  data_buf ← put data_buf (1 + SIGN_PUBLICKEYBYTES) (sk_private key);
  encoded_blob ← finalize_blobbing SIGNING_KEY_BLOB_SIZE_ALIGNED data_buf passphrase config;
  mret (MkKeyBlob SigningKeyBlob MockSeed hint encoded_blob).

Definition SigningKeyPair_from_blob (blob : KeyBlob) (passphrase : bytes) (config : option PwHashConfig) :
    crypto SigningKeyPair :=
  buf ← unblob SigningKeyBlob SIGNING_KEY_BLOB_SIZE_ALIGNED blob passphrase config;
  priv_sign ← must (with_secure SIGN_SECRETKEYBYTES);
  check_version "SigningKey" buf 1;;
  pub_sign ← sodium (buf_write (with_insecure SIGN_PUBLICKEYBYTES) 0 (slice buf 1 33));
  priv_sign ← sodium (buf_write priv_sign 0 (slice buf 33 97));
  public ← encode_pub_key pub_sign Hcs0;
  mret (MkSigningKeyPair public priv_sign).

Definition EncryptingKeyPair_as_blob (key : EncryptingKeyPair) (passphrase : bytes) (hint : string)
    (config : option PwHashConfig) : crypto KeyBlob :=
  data_buf ← must (with_secure ENCRYPTING_KEY_BLOB_SIZE_ALIGNED);
  data_buf ← put data_buf 0 [version 1];
  pub ← key_of_text (ek_public key) Hck0;
  assert_eq KX_PUBLICKEYBYTES (length pub);;
  data_buf ← put data_buf 1 pub;
  data_buf ← put data_buf (1 + KX_PUBLICKEYBYTES) (ek_private key);
  encoded_blob ← finalize_blobbing ENCRYPTING_KEY_BLOB_SIZE_ALIGNED data_buf passphrase config;
  mret (MkKeyBlob EncryptingKeyBlob MockSeed hint encoded_blob).

Definition EncryptingKeyPair_from_blob (blob : KeyBlob) (passphrase : bytes) (config : option PwHashConfig) :
    crypto EncryptingKeyPair :=
  buf ← unblob EncryptingKeyBlob ENCRYPTING_KEY_BLOB_SIZE_ALIGNED blob passphrase config;
  priv_sign ← must (with_secure KX_SECRETKEYBYTES);
  check_version "EncryptingKey" buf 1;;
  pub_sign ← sodium (buf_write (with_insecure KX_PUBLICKEYBYTES) 0 (slice buf 1 33));
  priv_sign ← sodium (buf_write priv_sign 0 (slice buf 33 65));
  public ← encode_pub_key pub_sign Hck0;
  mret (MkEncryptingKeyPair public priv_sign).

Definition KeyBundle_as_blob (bundle : KeyBundle) (passphrase : bytes) (hint : string)
    (config : option PwHashConfig) : crypto KeyBlob :=
  data_buf ← must (with_secure KEYBUNDLE_BLOB_SIZE_ALIGNED);
  data_buf ← put data_buf 0 [version 2];
  key ← key_of_text (sk_public (sign_keys bundle)) Hcs0;
  assert_eq SIGN_PUBLICKEYBYTES (length key);;
  data_buf ← put data_buf 1 key;
  key ← key_of_text (ek_public (enc_keys bundle)) Hck0;
  assert_eq KX_PUBLICKEYBYTES (length key);;
  data_buf ← put data_buf (1 + SIGN_PUBLICKEYBYTES) key;
  data_buf ← put data_buf (1 + SIGN_PUBLICKEYBYTES + KX_PUBLICKEYBYTES) (sk_private (sign_keys bundle));
  data_buf ← put data_buf (1 + SIGN_PUBLICKEYBYTES + KX_PUBLICKEYBYTES + SIGN_SECRETKEYBYTES)
    (ek_private (enc_keys bundle));
  encoded_blob ← finalize_blobbing KEYBUNDLE_BLOB_SIZE_ALIGNED data_buf passphrase config;
  mret (MkKeyBlob KeyBundleBlob MockSeed hint encoded_blob).

Definition KeyBundle_from_blob (blob : KeyBlob) (passphrase : bytes) (config : option PwHashConfig) :
    crypto KeyBundle :=
  buf ← unblob KeyBundleBlob KEYBUNDLE_BLOB_SIZE_ALIGNED blob passphrase config;
  priv_sign ← must (with_secure SIGN_SECRETKEYBYTES);
  priv_enc ← must (with_secure KX_SECRETKEYBYTES);
  check_version "KeyBundle" buf 2;;
  pub_sign ← sodium (buf_write (with_insecure SIGN_PUBLICKEYBYTES) 0 (slice buf 1 33));
  pub_enc ← sodium (buf_write (with_insecure KX_PUBLICKEYBYTES) 0 (slice buf 33 65));
  priv_sign ← sodium (buf_write priv_sign 0 (slice buf 65 129));
  priv_enc ← sodium (buf_write priv_enc 0 (slice buf 129 161));
  sign_public ← encode_pub_key pub_sign Hcs0;
  enc_public ← encode_pub_key pub_enc Hck0;
  mret (MkKeyBundle (MkSigningKeyPair sign_public priv_sign) (MkEncryptingKeyPair enc_public priv_enc)).
End keys.

Abbreviation crypto A := (stateful Rng HolochainError A).
