(* ===== verification/KeysFacts.v ===== *)
(** * Facts about keys

    Encryption under a passphrase and the blobs of keys can be undone, a signature of a
    key pair verifies, and two ways in which keys are lost: the key pair for encryption
    does not depend on its seed and the seed is overwritten, and a wrong passphrase is not
    noticed. *)
From S2P Require Import Prelude Errors Sodium Keys.

(** Runs the first call of a sequence, whose result the tactic proves. *)
Ltac runs t := erewrite stateful_bind_eq by t; cbv beta; cbn [fst snd].

Section facts.
Context `{Sodium, Hcid, BlobText}.

(** ** Encryption under a passphrase *)
Definition hash_of (config : option PwHashConfig) (passphrase salt : bytes) : option bytes :=
  let config := default (MkPwHashConfig OPSLIMIT_SENSITIVE MEMLIMIT_SENSITIVE ALG_ARGON2ID13) config in
  crypto_pwhash SESSIONKEYBYTES passphrase (ops_limit config) (mem_limit config) (pwhash_algo config) salt.

(** The library has the memory to hash the passphrase with any salt. *)
Definition hashable (config : option PwHashConfig) (passphrase : bytes) : Prop :=
  ∀ salt, is_Some (hash_of config passphrase salt).

(** The text is [data], encrypted under the passphrase. *)
Definition sealed (config : option PwHashConfig) (passphrase data : bytes) (text : string) : Prop :=
  ∃ d h, blob_of_text text = Ok d ∧ length (salt d) = SALTBYTES ∧
    hash_of config passphrase (salt d) = Some h ∧
    crypto_aead_decrypt h (nonce d) (cipher d) = (true, data) ∧
    length (cipher d) = (length data + ABYTES)%nat.

Lemma pw_hash_ok config passphrase salt h g :
  hash_of config passphrase salt = Some h →
  pw_hash passphrase salt SESSIONKEYBYTES config g = Done (g, Ok h).
Proof. unfold hash_of, pw_hash, pwhash_hash, sodium, lift. by intros ->. Qed.

Lemma randomize_ok n g buf g' : randombytes n g = (buf, g') → randomize n g = Done (g', Ok buf).
Proof. unfold randomize. by intros ->. Qed.

Lemma encrypt_ok config passphrase data g :
  hashable config passphrase →
  ∃ g' text, encrypt_with_passphrase_buf data passphrase config g = Done (g', Ok text) ∧
    sealed config passphrase data text.
Proof.
  intros Hh. destruct (randombytes SALTBYTES g) as [s g1] eqn:E1.
  destruct (randombytes NONCEBYTES g1) as [n g2] eqn:E2.
  destruct (Hh s) as [h Hs]. pose proof (randombytes_length SALTBYTES g) as Ls. rewrite E1 in Ls.
  set (c := crypto_aead_encrypt h n data).
  assert (length c = (length data + ABYTES)%nat) as Lc by apply aead_encrypt_length.
  exists g2, (blob_to_text (MkEncryptedData s n c)). split.
  - unfold encrypt_with_passphrase_buf. erewrite stateful_bind_eq; [done|]. unfold pw_enc.
    runs ltac:(by apply randomize_ok). runs ltac:(by apply randomize_ok).
    runs ltac:(by apply pw_hash_ok). unfold aead_enc.
    by rewrite overwrite_all by (by rewrite with_insecure_length).
  - exists (MkEncryptedData s n c), h. rewrite blob_text_roundtrip. simpl. split_and!; try done.
    apply aead_correct.
Qed.

Lemma decrypt_ok config passphrase data text size g :
  sealed config passphrase data text → length data = size → (size `mod` 8 = 0)%nat →
  decrypt_with_passphrase_buf text passphrase config size g = Done (g, Ok data).
Proof.
  intros (d & h & Ht & Ls & Hh & Hd & Lc) Hl H8. unfold decrypt_with_passphrase_buf.
  rewrite Ht. runs ltac:(done). unfold with_secure. rewrite decide_True by done. runs ltac:(done).
  erewrite stateful_bind_eq; [by rewrite decide_False by naive_solver|]. unfold pw_dec.
  rewrite from_array_all by (by rewrite with_insecure_length). runs ltac:(done).
  runs ltac:(by apply pw_hash_ok). unfold aead_dec. rewrite Hd.
  by rewrite overwrite_all by (by rewrite length_replicate).
Qed.

(** ** Slices of a buffer *)
Lemma slice_mid (a b c l : bytes) first last :
  l = a ++ b ++ c → length a = first → length b = (last - first)%nat → slice l first last = b.
Proof.
  intros -> <- Hb. unfold slice. rewrite drop_app_length, take_app_le, take_ge by lia. done.
Qed.

Lemma put_ok buf offset data g :
  (offset + length data ≤ length buf)%nat →
  put buf offset data g = Done (g, Ok (take offset buf ++ data ++ drop (offset + length data) buf)).
Proof. intros Hl. unfold put. by rewrite buf_write_ok. Qed.

(** ** Blobs *)
Lemma with_secure_ok n : (n `mod` 8 = 0)%nat → with_secure n = Done (replicate n (Ascii.ascii_of_nat 219)).
Proof. intros E. unfold with_secure. by rewrite decide_True. Qed.

(** A pair of keys whose halves have the sizes of the library. *)
Definition wf_signing (k : SigningKeyPair) : Prop :=
  ∃ pk, length pk = 32%nat ∧ hcid_encode Hcs0 pk = Ok (sk_public k) ∧ length (sk_private k) = 64%nat.
Definition wf_encrypting (k : EncryptingKeyPair) : Prop :=
  ∃ pk, length pk = 32%nat ∧ hcid_encode Hck0 pk = Ok (ek_public k) ∧ length (ek_private k) = 32%nat.

Lemma key_of_text_ok kind pk text g :
  hcid_encode kind pk = Ok text → key_of_text text kind g = Done (g, Ok pk).
Proof. intros E%hcid_roundtrip. unfold key_of_text. by rewrite E. Qed.

Lemma encode_pub_key_ok kind pk text g :
  length pk = 32%nat → hcid_encode kind pk = Ok text → encode_pub_key pk kind g = Done (g, Ok text).
Proof.
  intros Hl E. unfold encode_pub_key, expect_ok, encode_pub_key_buf, lift.
  rewrite take_ge by (unfold SEED_SIZE; lia). by rewrite E.
Qed.

Lemma finalize_ok config passphrase data size g :
  hashable config passphrase → length data = size →
  ∃ g' text, finalize_blobbing size data passphrase config g = Done (g', Ok text) ∧
    sealed config passphrase data text.
Proof.
  intros Hh Hl. unfold finalize_blobbing. rewrite decide_False by naive_solver. by apply encrypt_ok.
Qed.

Lemma unblob_ok config passphrase data size type st h text g :
  sealed config passphrase data text → length data = size → (size `mod` 8 = 0)%nat →
  unblob type size (MkKeyBlob type st h text) passphrase config g = Done (g, Ok data).
Proof.
  intros Hs Hl H8. unfold unblob. rewrite decide_False by naive_solver. by apply decrypt_ok.
Qed.

Lemma seed_blob config passphrase seed h g :
  hashable config passphrase → length (seed_buf seed) = SEED_SIZE →
  ∃ g' blob, Seed_as_blob seed passphrase h config g = Done (g', Ok blob) ∧ blob_type blob = SeedBlob ∧
    sealed config passphrase (seed_buf seed) (blob_data blob) ∧
    ∀ g2, Seed_from_blob blob passphrase config g2 = Done (g2, Ok seed).
Proof.
  intros Hh Hl. destruct (finalize_ok config passphrase (seed_buf seed) SEED_SIZE g) as (g' & text & E & Hs);
    [done..|].
  exists g', (MkKeyBlob SeedBlob (seed_kind seed) h text). unfold Seed_as_blob. runs ltac:(done).
  split_and!; try done. intros g2. unfold Seed_from_blob.
  runs ltac:(by apply unblob_ok). unfold Seed_new, assert_eq. rewrite decide_True by done. by destruct seed.
Qed.

(** Writing right behind what is written already. *)
Lemma put_next (pre rest data : bytes) offset g :
  offset = length pre → (length data ≤ length rest)%nat →
  put (pre ++ rest) offset data g = Done (g, Ok ((pre ++ data) ++ drop (length data) rest)).
Proof.
  intros -> Hl. rewrite put_ok by (rewrite length_app; lia).
  rewrite take_app_length, drop_app_ge by lia.
  by replace (length pre + length data - length pre)%nat with (length data) by lia; rewrite <-app_assoc.
Qed.

(** The buffer of a blob: what is written, and the rest of the allocated memory. *)
Definition filler (n : nat) : bytes := replicate n (Ascii.ascii_of_nat 219).

Lemma put_first n data g :
  (length data ≤ n)%nat → put (filler n) 0 data g = Done (g, Ok (data ++ filler (n - length data))).
Proof.
  intros Hl. unfold filler. etrans; [apply (put_next [] (replicate n _)); [done|by rewrite length_replicate]|].
  by rewrite drop_replicate.
Qed.

Lemma put_more pre n data offset g :
  offset = length pre → (length data ≤ n)%nat →
  put (pre ++ filler n) offset data g = Done (g, Ok ((pre ++ data) ++ filler (n - length data))).
Proof.
  intros Ho Hl. unfold filler. rewrite put_next by (rewrite ?length_replicate; done). by rewrite drop_replicate.
Qed.

Lemma buf_write_slice n buf first last g :
  (last ≤ length buf)%nat → (last - first = n)%nat → (first ≤ last)%nat →
  ∀ out, length out = n → sodium (buf_write out 0 (slice buf first last)) g = Done (g, Ok (slice buf first last)).
Proof.
  intros Hl Hn Hf out Ho. rewrite buf_write_all; [done|]. unfold slice.
  rewrite length_take, length_drop. lia.
Qed.

Lemma signing_blob config passphrase k h g :
  hashable config passphrase → wf_signing k →
  ∃ g' blob, SigningKeyPair_as_blob k passphrase h config g = Done (g', Ok blob) ∧
    blob_type blob = SigningKeyBlob ∧
    ∀ g2, SigningKeyPair_from_blob blob passphrase config g2 = Done (g2, Ok k).
Proof.
  intros Hh (pk & Lp & Ep & Ls). set (data := (([version 1] ++ pk) ++ sk_private k) ++ filler 7).
  assert (length data = 104%nat) as Ld.
  { unfold data, filler. rewrite !length_app, length_replicate. simpl. lia. }
  destruct (finalize_ok config passphrase data SIGNING_KEY_BLOB_SIZE_ALIGNED g) as (g' & text & E & Hs); [done..|].
  exists g', (MkKeyBlob SigningKeyBlob MockSeed h text). split_and!; [|done|].
  - unfold SigningKeyPair_as_blob. runs ltac:(done). change (replicate SIGNING_KEY_BLOB_SIZE_ALIGNED _) with (filler 104).
    runs ltac:(apply put_first; simpl; lia). runs ltac:(by apply key_of_text_ok).
    unfold assert_eq. rewrite decide_True by done. runs ltac:(done).
    runs ltac:(apply put_more; [done|simpl; lia]).
    runs ltac:(apply put_more; [rewrite length_app, Lp; done|simpl; lia]).
    replace (104 - length [version 1] - length pk - length (sk_private k))%nat with 7%nat by (rewrite Lp, Ls; done).
    fold data. by runs ltac:(done).
  - intros g2. unfold SigningKeyPair_from_blob. runs ltac:(by apply unblob_ok). runs ltac:(done).
    runs ltac:(done).
    runs ltac:(by apply (buf_write_slice 32); rewrite ?Ld, ?with_insecure_length; unfold SIGN_PUBLICKEYBYTES; try lia).
    runs ltac:(apply (buf_write_slice 64); rewrite ?Ld, ?length_replicate; unfold SIGN_SECRETKEYBYTES; try lia).
    rewrite (slice_mid [version 1] pk (sk_private k ++ filler 7) data 1 33) by (unfold data; rewrite ?Lp, <-?app_assoc; done).
    rewrite (slice_mid ([version 1] ++ pk) (sk_private k) (filler 7) data 33 97)
      by (unfold data; rewrite ?length_app, ?Lp, ?Ls, <-?app_assoc; done).
    runs ltac:(by apply encode_pub_key_ok). by destruct k.
Qed.

Lemma encrypting_blob config passphrase k h g :
  hashable config passphrase → wf_encrypting k →
  ∃ g' blob, EncryptingKeyPair_as_blob k passphrase h config g = Done (g', Ok blob) ∧
    blob_type blob = EncryptingKeyBlob ∧
    ∀ g2, EncryptingKeyPair_from_blob blob passphrase config g2 = Done (g2, Ok k).
Proof.
  intros Hh (pk & Lp & Ep & Ls). set (data := (([version 1] ++ pk) ++ ek_private k) ++ filler 7).
  assert (length data = 72%nat) as Ld.
  { unfold data, filler. rewrite !length_app, length_replicate. simpl. lia. }
  destruct (finalize_ok config passphrase data ENCRYPTING_KEY_BLOB_SIZE_ALIGNED g) as (g' & text & E & Hs); [done..|].
  exists g', (MkKeyBlob EncryptingKeyBlob MockSeed h text). split_and!; [|done|].
  - unfold EncryptingKeyPair_as_blob. runs ltac:(done).
    change (replicate ENCRYPTING_KEY_BLOB_SIZE_ALIGNED _) with (filler 72).
    runs ltac:(apply put_first; simpl; lia). runs ltac:(by apply key_of_text_ok).
    unfold assert_eq. rewrite decide_True by done. runs ltac:(done).
    runs ltac:(apply put_more; [done|simpl; lia]).
    runs ltac:(apply put_more; [rewrite length_app, Lp; done|simpl; lia]).
    replace (72 - length [version 1] - length pk - length (ek_private k))%nat with 7%nat by (rewrite Lp, Ls; done).
    fold data. by runs ltac:(done).
  - intros g2. unfold EncryptingKeyPair_from_blob. runs ltac:(by apply unblob_ok). runs ltac:(done).
    runs ltac:(done).
    runs ltac:(by apply (buf_write_slice 32); rewrite ?Ld, ?with_insecure_length; unfold KX_PUBLICKEYBYTES; try lia).
    runs ltac:(apply (buf_write_slice 32); rewrite ?Ld, ?length_replicate; unfold KX_SECRETKEYBYTES; try lia).
    rewrite (slice_mid [version 1] pk (ek_private k ++ filler 7) data 1 33) by (unfold data; rewrite ?Lp, <-?app_assoc; done).
    rewrite (slice_mid ([version 1] ++ pk) (ek_private k) (filler 7) data 33 65)
      by (unfold data; rewrite ?length_app, ?Lp, ?Ls, <-?app_assoc; done).
    runs ltac:(by apply encode_pub_key_ok). by destruct k.
Qed.

(** The memory of a key bundle's blob. *)
Definition bundle_data (pk ek : bytes) (b : KeyBundle) : bytes :=
  (((([version 2] ++ pk) ++ ek) ++ sk_private (sign_keys b)) ++ ek_private (enc_keys b)) ++ filler 7.

Lemma bundle_slices pk ek b :
  length pk = 32%nat → length ek = 32%nat →
  length (sk_private (sign_keys b)) = 64%nat → length (ek_private (enc_keys b)) = 32%nat →
  length (bundle_data pk ek b) = 168%nat ∧
  slice (bundle_data pk ek b) 1 33 = pk ∧ slice (bundle_data pk ek b) 33 65 = ek ∧
  slice (bundle_data pk ek b) 65 129 = sk_private (sign_keys b) ∧
  slice (bundle_data pk ek b) 129 161 = ek_private (enc_keys b).
Proof.
  intros L1 L2 L3 L4. unfold bundle_data, filler. split_and!.
  - rewrite !length_app, length_replicate. simpl. lia.
  - apply (slice_mid [version 2] pk (ek ++ sk_private (sign_keys b) ++ ek_private (enc_keys b) ++ filler 7));
      rewrite ?length_app, ?L1, ?L2, ?L3, <-?app_assoc; done.
  - apply (slice_mid ([version 2] ++ pk) ek (sk_private (sign_keys b) ++ ek_private (enc_keys b) ++ filler 7));
      rewrite ?length_app, ?L1, ?L2, ?L3, <-?app_assoc; done.
  - apply (slice_mid ([version 2] ++ pk ++ ek) (sk_private (sign_keys b)) (ek_private (enc_keys b) ++ filler 7));
      rewrite ?length_app, ?L1, ?L2, ?L3, <-?app_assoc; done.
  - apply (slice_mid ([version 2] ++ pk ++ ek ++ sk_private (sign_keys b)) (ek_private (enc_keys b)) (filler 7));
      rewrite ?length_app, ?L1, ?L2, ?L3, ?L4, <-?app_assoc; done.
Qed.

(** C9: a key bundle that is encrypted under a passphrase, for storage, comes back the same
    from its blob, whatever the random numbers were, as long as the library has the memory
    to hash the passphrase. *)
Theorem bundle_blob_roundtrip config passphrase b h g :
  hashable config passphrase → wf_signing (sign_keys b) → wf_encrypting (enc_keys b) →
  ∃ g' blob, KeyBundle_as_blob b passphrase h config g = Done (g', Ok blob) ∧
    ∀ g2, KeyBundle_from_blob blob passphrase config g2 = Done (g2, Ok b).
Proof.
  intros Hh (pk & Lp & Ep & Ls) (ek & Lq & Eq & Lt).
  destruct (bundle_slices pk ek b Lp Lq Ls Lt) as (Ld & S1 & S2 & S3 & S4).
  destruct (finalize_ok config passphrase (bundle_data pk ek b) KEYBUNDLE_BLOB_SIZE_ALIGNED g)
    as (g' & text & E & Hs); [done..|].
  exists g', (MkKeyBlob KeyBundleBlob MockSeed h text). split.
  - unfold KeyBundle_as_blob. runs ltac:(done). change (replicate KEYBUNDLE_BLOB_SIZE_ALIGNED _) with (filler 168).
    runs ltac:(apply put_first; simpl; lia). runs ltac:(by apply key_of_text_ok).
    unfold assert_eq. rewrite decide_True by done. runs ltac:(done).
    runs ltac:(apply put_more; [done|simpl; lia]). runs ltac:(by apply key_of_text_ok).
    rewrite decide_True by done. runs ltac:(done).
    runs ltac:(apply put_more; [rewrite length_app, Lp; done|simpl; lia]).
    runs ltac:(apply put_more; [rewrite !length_app, Lp, Lq; done|simpl; lia]).
    runs ltac:(apply put_more; [rewrite !length_app, Lp, Lq, Ls; done|simpl; lia]).
    replace (168 - _ - _ - _ - _ - _)%nat with 7%nat by (rewrite Lp, Lq, Ls, Lt; done).
    fold (bundle_data pk ek b). by runs ltac:(done).
  - intros g2. unfold KeyBundle_from_blob. runs ltac:(by apply unblob_ok). do 3 runs ltac:(done).
    runs ltac:(by apply (buf_write_slice 32); rewrite ?Ld, ?with_insecure_length; unfold SIGN_PUBLICKEYBYTES; try lia).
    runs ltac:(by apply (buf_write_slice 32); rewrite ?Ld, ?with_insecure_length; unfold KX_PUBLICKEYBYTES; try lia).
    runs ltac:(apply (buf_write_slice 64); rewrite ?Ld, ?length_replicate; unfold SIGN_SECRETKEYBYTES; try lia).
    runs ltac:(apply (buf_write_slice 32); rewrite ?Ld, ?length_replicate; unfold KX_SECRETKEYBYTES; try lia).
    rewrite S1, S2, S3, S4. do 2 runs ltac:(by apply encode_pub_key_ok). by destruct b as [[] []].
Qed.

(** ** Key pairs *)
Lemma signing_from_seed seed g :
  length seed = SEED_SIZE →
  ∃ k, SigningKeyPair_new_from_seed seed g = Done (g, Ok k) ∧ wf_signing k ∧
    hcid_encode Hcs0 (crypto_sign_seed_keypair seed).1 = Ok (sk_public k) ∧
    sk_private k = (crypto_sign_seed_keypair seed).2.
Proof.
  intros Hl. destruct (sign_keypair_length seed) as [L1 L2].
  destruct (hcid_total Hcs0 (crypto_sign_seed_keypair seed).1) as [text Et]; [done|].
  exists (MkSigningKeyPair text (crypto_sign_seed_keypair seed).2). split_and!; [|by eexists|done..].
  unfold SigningKeyPair_new_from_seed, assert_eq. rewrite decide_True by done. do 2 runs ltac:(done).
  rewrite sign_seed_keypair_spec by (by rewrite ?with_insecure_length, ?length_replicate). runs ltac:(done).
  unfold encode_pub_key_buf. rewrite take_ge by (unfold SEED_SIZE, SIGN_PUBLICKEYBYTES in *; lia). rewrite Et.
  by runs ltac:(done).
Qed.

(** a signature made with the key pair derived from a seed verifies under the pair's
    public key, for every message. *)
Theorem signature_verifies seed data g :
  length seed = SEED_SIZE →
  ∃ k signature, SigningKeyPair_new_from_seed seed g = Done (g, Ok k) ∧
    sign k data g = Done (g, Ok signature) ∧
    pair_verify k data signature g = Done (g, Ok true).
Proof.
  intros Hl. destruct (signing_from_seed seed g Hl) as (k & Ek & _ & Ep & Es).
  exists k, (crypto_sign_detached (sk_private k) data). split_and!; [done|..].
  - unfold sign, sign_sign. by rewrite overwrite_all by (by rewrite sign_detached_length).
  - pose proof (hcid_roundtrip _ _ _ Ep) as Er. pose proof (sign_keypair_length seed) as [L1 _].
    unfold pair_verify, expect_ok, decode_pub_key_buf. rewrite Er. simpl. unfold stateful_bind, mbind, lift.
    rewrite from_array_all by (by rewrite with_insecure_length). simpl. rewrite Es.
    pose proof (sign_correct seed data) as Hc. destruct (crypto_sign_seed_keypair seed). simpl.
    unfold mret, stateful_ret. by rewrite Hc.
Qed.

(** The key pair every seed gives, and what is left in the buffer of the seed. *)
Definition zero_key : bytes := with_insecure KX_PUBLICKEYBYTES.

Lemma encrypting_from_seed seed g :
  length seed = SEED_SIZE →
  ∃ text, hcid_encode Hck0 zero_key = Ok text ∧
    EncryptingKeyPair_new_from_seed seed g =
      Done (g, Ok (MkEncryptingKeyPair text (crypto_kx_seed_keypair zero_key).1, (crypto_kx_seed_keypair zero_key).2)).
Proof.
  intros Hl. destruct (hcid_total Hck0 zero_key) as [text Et]; [done|]. exists text. split; [done|].
  unfold EncryptingKeyPair_new_from_seed, assert_eq. rewrite decide_True by done. do 2 runs ltac:(done).
  rewrite kx_seed_keypair_spec by (by rewrite ?length_replicate). runs ltac:(done). unfold encode_pub_key_buf.
  rewrite take_ge by (by rewrite with_insecure_length). fold zero_key. rewrite Et. by runs ltac:(done).
Qed.

(** the arguments of the library's wrapper are swapped when a key pair for encryption is
    derived: every seed gives one and the same pair, with a public key of zeros, and the
    buffer of the seed is overwritten with a value that does not depend on the seed. *)
Theorem encrypting_key_ignores_seed g :
  ∃ k left, ek_private k = (crypto_kx_seed_keypair zero_key).1 ∧ hcid_encode Hck0 zero_key = Ok (ek_public k) ∧
    ∀ seed, length seed = SEED_SIZE → EncryptingKeyPair_new_from_seed seed g = Done (g, Ok (k, left)).
Proof.
  destruct (hcid_total Hck0 zero_key) as [text Et]; [done|].
  exists (MkEncryptingKeyPair text (crypto_kx_seed_keypair zero_key).1), (crypto_kx_seed_keypair zero_key).2.
  split_and!; [done..|]. intros seed Hl. destruct (encrypting_from_seed seed g Hl) as (text' & Et' & ->). congruence.
Qed.

Lemma encrypting_wf text :
  hcid_encode Hck0 zero_key = Ok text →
  wf_encrypting (MkEncryptingKeyPair text (crypto_kx_seed_keypair zero_key).1).
Proof. intros E. exists zero_key. split_and!; [done..|]. apply kx_keypair_length. Qed.

(** ** A wrong passphrase *)

(** Text that is encrypted under another passphrase decrypts without an error, to bytes
    that were not encrypted. *)
Lemma decrypt_unchecked config passphrase text d h size g :
  blob_of_text text = Ok d → length (salt d) = SALTBYTES → hash_of config passphrase (salt d) = Some h →
  length (cipher d) = (size + ABYTES)%nat → (size `mod` 8 = 0)%nat →
  decrypt_with_passphrase_buf text passphrase config size g =
    Done (g, Ok ((crypto_aead_decrypt h (nonce d) (cipher d)).2 ++
      drop (length (crypto_aead_decrypt h (nonce d) (cipher d)).2) (filler size))) ∧
  length ((crypto_aead_decrypt h (nonce d) (cipher d)).2 ++
      drop (length (crypto_aead_decrypt h (nonce d) (cipher d)).2) (filler size)) = size.
Proof.
  intros Ht Ls Hh Lc H8. pose proof (aead_decrypt_length h (nonce d) (cipher d)) as Lw.
  set (w := crypto_aead_decrypt h (nonce d) (cipher d)) in *.
  assert (length (w.2 ++ drop (length w.2) (filler size)) = size) as Ll.
  { unfold filler. rewrite length_app, length_drop, length_replicate. lia. }
  split; [|done]. unfold decrypt_with_passphrase_buf. rewrite Ht. runs ltac:(done).
  rewrite with_secure_ok by done. runs ltac:(done).
  erewrite stateful_bind_eq; [by rewrite decide_False by naive_solver|]. unfold pw_dec.
  rewrite from_array_all by (by rewrite with_insecure_length). runs ltac:(done).
  runs ltac:(by apply pw_hash_ok). unfold aead_dec. fold w. destruct w as [b written]. simpl in *.
  unfold overwrite. rewrite decide_True by (rewrite length_replicate; lia). done.
Qed.
End facts.

(** ** A toy library

    Cryptography without secrecy that meets the contracts, to run the code on. *)
Module Toy.
#[local] Obligation Tactic := idtac.

Definition pad (n : nat) (l : bytes) : bytes := take n (l ++ replicate n (Ascii.ascii_of_nat 0)).

Lemma pad_length n l : length (pad n l) = n.
Proof. unfold pad. rewrite length_take, length_app, length_replicate. lia. Qed.

Lemma pad_lookup n l i : (i < n)%nat → pad n l !! i = Some (default (Ascii.ascii_of_nat 0) (l !! i)).
Proof.
  intros Hi. unfold pad. rewrite lookup_take_lt by done. destruct (l !! i) as [x|] eqn:E.
  - by rewrite lookup_app_l by (by eapply lookup_lt_Some).
  - apply lookup_ge_None in E. rewrite lookup_app_r by done. by rewrite lookup_replicate_2 by lia.
Qed.

Lemma pad_pad n m l : (n ≤ m)%nat → pad n (pad m l) = pad n l.
Proof.
  intros Hn. apply list_eq. intros i. destruct (decide (i < n)%nat).
  - by rewrite !pad_lookup by lia.
  - rewrite !lookup_ge_None_2 by (rewrite pad_length; lia). done.
Qed.

(** The tag that authenticates a text is the beginning of the key. *)
Definition open_box (key cipher : bytes) : bool * bytes :=
  let n := (length cipher - ABYTES)%nat in
  if decide (drop n cipher = pad ABYTES key) then (true, take n cipher)
  else (false, replicate n (Ascii.ascii_of_nat 0)).

#[export, program] Instance toy_sodium : Sodium := {
  Rng := nat;
  randombytes n g := (replicate n (Ascii.ascii_of_nat g), S g);
  crypto_pwhash len p _ _ _ _ := Some (pad len p);
  crypto_aead_encrypt k _ m := m ++ pad ABYTES k;
  crypto_aead_decrypt k _ c := open_box k c;
  crypto_kdf_derive len _ _ parent := pad len parent;
  crypto_sign_seed_keypair s := (pad 32 s, pad 64 s);
  crypto_sign_detached k _ := pad 64 (pad 32 k);
  crypto_sign_verify_detached s _ public := bool_decide (s = pad 64 public);
  crypto_kx_seed_keypair s := (pad 32 s, pad 32 s);
}.
Next Obligation. intros n g. apply length_replicate. Qed.
Next Obligation. intros len p o m a s h Hs. simplify_eq/=. apply pad_length. Qed.
Next Obligation. intros k n m. simpl. by rewrite length_app, pad_length. Qed.
Next Obligation.
  intros k n c. simpl. unfold open_box. case_decide; simpl; [rewrite length_take|rewrite length_replicate]; lia.
Qed.
Next Obligation.
  intros k n m. simpl. unfold open_box. rewrite length_app, pad_length.
  replace (length m + ABYTES - ABYTES)%nat with (length m) by lia.
  by rewrite drop_app_length, take_app_length, decide_True.
Qed.
Next Obligation. intros. apply pad_length. Qed.
Next Obligation. intros s. split; apply pad_length. Qed.
Next Obligation. intros. apply pad_length. Qed.
Next Obligation. intros s m. simpl. apply bool_decide_true. by rewrite (pad_pad 32 64) by lia. Qed.
Next Obligation. intros s. split; apply pad_length. Qed.

#[export, program] Instance toy_hcid : Hcid := {
  hcid_encode _ key := Ok (String.string_of_list_ascii key);
  hcid_decode _ text := Ok (String.list_ascii_of_string text);
}.
Next Obligation. intros kind key _. by eexists. Qed.
Next Obligation.
  intros kind key text [= <-]. by rewrite String.list_ascii_of_string_of_list_ascii.
Qed.

(** Any value as text: the bits of its number. *)
Definition zero : Ascii.ascii := Ascii.ascii_of_nat 48.
Definition one : Ascii.ascii := Ascii.ascii_of_nat 49.
Fixpoint bits_of (p : positive) : string :=
  match p with
  | xH => EmptyString
  | xO p => String zero (bits_of p)
  | xI p => String one (bits_of p)
  end.
Fixpoint of_bits (s : string) : positive :=
  match s with
  | EmptyString => xH
  | String c s => if decide (c = zero) then xO (of_bits s) else xI (of_bits s)
  end.
Definition text_of `{Countable A} (x : A) : string := bits_of (encode x).
Definition of_text `{Countable A} (s : string) : HcResult A :=
  ok_or (decode (of_bits s)) (SerializationError "unreadable").

Lemma of_text_of `{Countable A} (x : A) : of_text (text_of x) = Ok x.
Proof.
  unfold of_text, text_of. assert (∀ p, of_bits (bits_of p) = p) as ->.
  { intros p. induction p as [p IH|p IH|]; simpl; by rewrite ?IH. }
  by rewrite decode_encode.
Qed.

#[export, program] Instance toy_blobs : BlobText := {
  blob_to_text d := text_of (salt d, nonce d, cipher d);
  blob_of_text s := d ← (of_text s : HcResult (bytes * bytes * bytes)); Ok (MkEncryptedData d.1.1 d.1.2 d.2);
}.
Next Obligation. intros [a b c]. simpl. by rewrite of_text_of. Qed.

Definition passphrase : bytes := String.list_ascii_of_string "open sesame".
Definition seed : bytes := pad 32 (String.list_ascii_of_string "a seed").

Lemma toy_hashable config p : hashable config p.
Proof. intros salt. by eexists. Qed.

(** The keys of the seed, in the library's order of arguments. *)
Definition bundle : KeyBundle :=
  MkKeyBundle (MkSigningKeyPair (String.string_of_list_ascii (pad 32 seed)) (pad 64 seed))
    (MkEncryptingKeyPair (String.string_of_list_ascii (pad 32 seed)) (pad 32 seed)).

Definition g0 : @Rng toy_sodium := 0%nat.

Lemma bundle_blob_roundtrip_witness :
  ∃ g' blob, KeyBundle_as_blob bundle passphrase "" None g0 = Done (g', Ok blob) ∧
    ∀ g2, KeyBundle_from_blob blob passphrase None g2 = Done (g2, Ok bundle).
Proof.
  apply (bundle_blob_roundtrip None passphrase bundle "" g0); [apply toy_hashable| |];
    by exists (pad 32 seed).
Defined.

Lemma signature_verifies_witness :
  ∃ k signature, SigningKeyPair_new_from_seed seed g0 = Done (g0, Ok k) ∧
    sign k passphrase g0 = Done (g0, Ok signature) ∧
    pair_verify k passphrase signature g0 = Done (g0, Ok true).
Proof. apply (signature_verifies seed passphrase g0). reflexivity. Defined.
End Toy.
