(* ===== verification/Keystore.v ===== *)
(** * Keystores

    [conductor_api/src/keystore.rs] and [conductor/passphrase_manager.rs]: named secrets,
    stored encrypted and decrypted into a cache when they are used, and the manager that
    asks for the passphrase and remembers it for a while.  A cached secret is an
    [Arc<Mutex<_>>] that a key derivation may change, so secrets live in a heap and the cache
    holds locations.  Asking the user, the clock and the texts of serde and base64 are
    interfaces. *)
From S2P Require Import Prelude Errors Sodium Keys.

(** [PassphraseService]. *)
Class PassphraseService := {
  Service : Type;
  request_passphrase : Service → HcResult bytes * Service;
}.

Inductive Secret :=
| SigningKey (key : SigningKeyPair)
| EncryptingKey (key : EncryptingKeyPair)
| SeedSecret (buf : bytes).

Inductive KeyType := Signing | Encrypting.

(** [passphrase_manager] is whether the field is set. *)
Record Keystore := MkKeystore {
  passphrase_check : string;
  secrets : gmap string KeyBlob;
  cache : gmap string nat;
  passphrase_manager : bool;
  hash_config : option PwHashConfig;
}.

(** serde on a keystore, base64 of a signature and a derived [Debug] text. *)
Class KeystoreText := {
  keystore_to_text : string → gmap string KeyBlob → string;
  keystore_of_text : string → HcResult (string * gmap string KeyBlob);
  base64 : bytes → string;
  error_debug : HolochainError → string;
  keystore_text_roundtrip check blobs :
    keystore_of_text (keystore_to_text check blobs) = Ok (check, blobs);
}.

Definition PCHECK_HEADER_SIZE : nat := 8.
Definition PCHECK_HEADER : bytes := String.list_ascii_of_string "PHCCHECK".
Definition PCHECK_SIZE : nat := 40.
Definition KEYBUNDLE_SIGNKEY_SUFFIX : string := ":sign_key".
Definition KEYBUNDLE_ENCKEY_SUFFIX : string := ":enc_key".
Definition PRIMARY_KEYBUNDLE_ID : string := "primary_keybundle".
Definition STANDALONE_ROOT_SEED : string := "root_seed".
Definition DEFAULT_PASSPHRASE : bytes := String.list_ascii_of_string "convenient and insecure keystore".
Definition PASSPHRASE_CACHE_DURATION_SECS : Z := 600.

Section keystore.
Context `{Sodium, Hcid, BlobText, PassphraseService, KeystoreText}.

(** What the keystores of a conductor share: the random generator, the passphrase manager
    with the service it asks and the clock it reads (in seconds), and the secrets in
    memory. *)
Record Vault := MkVault {
  rng : Rng;
  passphrase_cache : option bytes;
  last_read : Z;
  service : Service;
  clock : Z;
  heap : list Secret;
}.

Definition with_rng g v := MkVault g (passphrase_cache v) (last_read v) (service v) (clock v) (heap v).
Definition with_heap l v := MkVault (rng v) (passphrase_cache v) (last_read v) (service v) (clock v) l.

(** ** The passphrase manager *)
Definition get_passphrase (v : Vault) : outcome (Vault * HcResult bytes) :=
  match passphrase_cache v with
  | Some passphrase =>
      Done (MkVault (rng v) (Some passphrase) (clock v) (service v) (clock v) (heap v), Ok passphrase)
  | None =>
      match request_passphrase (service v) with
      | (Err e, s) => Done (MkVault (rng v) None (last_read v) s (clock v) (heap v), Err e)
      | (Ok passphrase, s) =>
          Done (MkVault (rng v) (Some passphrase) (clock v) s (clock v) (heap v), Ok passphrase)
      end
  end.

Definition forget_passphrase (v : Vault) : Vault :=
  MkVault (rng v) None (last_read v) (service v) (clock v) (heap v).

(** One turn of the manager's thread. *)
Definition watch_passphrase (v : Vault) : Vault :=
  match passphrase_cache v with
  | Some _ =>
      if decide (PASSPHRASE_CACHE_DURATION_SECS < clock v - last_read v) then forget_passphrase v else v
  | None => v
  end.

(** ** Calls on a keystore *)
Abbreviation keeping A := (stateful (Keystore * Vault) HolochainError A).

(** A call into [dpki], and one of the passphrase manager. *)
Definition dpki {A : Type} (m : crypto A) : keeping A := λ '(ks, v),
  match m (rng v) with
  | Panicked why => Panicked why
  | Done (g, r) => Done ((ks, with_rng g v), r)
  end.
Definition manager : keeping bytes := λ '(ks, v),
  if passphrase_manager ks then
    match get_passphrase v with
    | Panicked why => Panicked why
    | Done (v, r) => Done ((ks, v), r)
    end
  else Done ((ks, v), Err (ErrorGeneric "Expected Some and got None")).
Definition store : keeping Keystore := gets fst.
Definition set_store (f : Keystore → Keystore) : keeping unit := modify (λ '(ks, v), (f ks, v)).

Definition with_check check ks :=
  MkKeystore check (secrets ks) (cache ks) (passphrase_manager ks) (hash_config ks).
Definition with_secret id blob ks :=
  MkKeystore (passphrase_check ks) (<[id := blob]> (secrets ks)) (cache ks) (passphrase_manager ks) (hash_config ks).
Definition with_cached id loc ks :=
  MkKeystore (passphrase_check ks) (secrets ks) (<[id := loc]> (cache ks)) (passphrase_manager ks) (hash_config ks).

(** [Arc::new(Mutex::new(secret))], and reading and writing through the lock. *)
Definition alloc (secret : Secret) : keeping nat := λ '(ks, v),
  Done ((ks, with_heap (heap v ++ [secret]) v), Ok (length (heap v))).
Definition read_secret (loc : nat) : keeping Secret := λ '(ks, v),
  match heap v !! loc with
  | Some secret => Done ((ks, v), Ok secret)
  | None => Panicked "no such location"
  end.
Definition write_secret (loc : nat) (secret : Secret) : keeping unit := λ '(ks, v),
  Done ((ks, with_heap (<[loc := secret]> (heap v)) v), Ok tt).

(** [make_passphrase_check]. *)
Definition make_passphrase_check (passphrase : bytes) (config : option PwHashConfig) : crypto string :=
  check_buf ← randomize PCHECK_SIZE;
  check_buf ← unwrap (buf_write check_buf 0 PCHECK_HEADER) "called `Result::unwrap()` on an `Err` value";
  encrypt_with_passphrase_buf check_buf passphrase config.

(** [Keystore::new]. *)
Definition Keystore_new (config : option PwHashConfig) (v : Vault) : outcome (Vault * HcResult Keystore) :=
  match get_passphrase v with
  | Panicked why => Panicked why
  | Done (v, Err e) => Done (v, Err e)
  | Done (v, Ok passphrase) =>
      match make_passphrase_check passphrase config (rng v) with
      | Panicked why => Panicked why
      | Done (g, Err e) => Done (with_rng g v, Err e)
      | Done (g, Ok check) => Done (with_rng g v, Ok (MkKeystore check ∅ ∅ true config))
      end
  end.

(** [check_passphrase]. *)
Definition check_passphrase (ks : Keystore) (passphrase : bytes) : crypto bool :=
  decrypted_buf ← decrypt_with_passphrase_buf (passphrase_check ks) passphrase (hash_config ks) PCHECK_SIZE;
  decrypted_header ← sodium (buf_write (with_insecure PCHECK_HEADER_SIZE) 0 (take PCHECK_HEADER_SIZE decrypted_buf));
  expected ← must (with_secure PCHECK_HEADER_SIZE);
  expected_header ← sodium (buf_write expected 0 PCHECK_HEADER);
  mret (buf_same decrypted_header expected_header).

Definition change_passphrase (old_passphrase new_passphrase : bytes) : keeping unit :=
  ks ← store;
  good ← dpki (check_passphrase ks old_passphrase);
  if (good : bool) then
    check ← dpki (make_passphrase_check new_passphrase (hash_config ks));
    set_store (with_check check)
  else throw (ErrorGeneric "Bad passphrase").

Definition inner_decrypt (ks : Keystore) (blob : KeyBlob) (passphrase : bytes) : crypto Secret :=
  match blob_type blob with
  | SeedBlob => seed ← Seed_from_blob blob passphrase (hash_config ks); mret (SeedSecret (seed_buf seed))
  | SigningKeyBlob => k ← SigningKeyPair_from_blob blob passphrase (hash_config ks); mret (SigningKey k)
  | EncryptingKeyBlob => k ← EncryptingKeyPair_from_blob blob passphrase (hash_config ks); mret (EncryptingKey k)
  | KeyBundleBlob => throw (ErrorGeneric "Tried to decrypt unsupported BlobType in Keystore: {}")
  end.

(** A call whose error is a value: [let r = f();]. *)
Definition try_call {A : Type} (m : keeping A) : keeping (HcResult A) := λ s,
  match m s with
  | Panicked why => Panicked why
  | Done (s, r) => Done (s, Ok r)
  end.

Definition decrypt (id : string) : keeping unit :=
  ks ← store;
  blob ← lift (ok_or (secrets ks !! id) (ErrorGeneric "Secret not found"));
  is_default ← try_call (dpki (check_passphrase ks DEFAULT_PASSPHRASE));
  maybe_secret ←
    match (is_default : HcResult bool) with
    | Ok true => try_call (dpki (inner_decrypt ks blob DEFAULT_PASSPHRASE))
    | _ => passphrase ← manager; try_call (dpki (inner_decrypt ks blob passphrase))
    end;
  secret ← lift (map_err (λ err, ErrorGeneric ("Could not decrypt '" +:+ id +:+ "': " +:+ error_debug err))
                   (maybe_secret : HcResult Secret));
  loc ← alloc secret;
  set_store (with_cached id loc).

(** [encrypt]: what [check_passphrase] answers is not looked at. *)
Definition encrypt (id : string) : keeping unit :=
  ks ← store;
  loc ← lift (ok_or (cache ks !! id) (ErrorGeneric "Secret not found"));
  passphrase ← manager;
  dpki (check_passphrase ks passphrase);;
  secret ← read_secret loc;
  blob ←
    match secret with
    | SeedSecret buf =>
        dpki (seed ← Seed_new buf OneShotSeed; Seed_as_blob seed passphrase "" (hash_config ks))
    | SigningKey key => dpki (SigningKeyPair_as_blob key passphrase "" (hash_config ks))
    | EncryptingKey key => dpki (EncryptingKeyPair_as_blob key passphrase "" (hash_config ks))
    end;
  set_store (with_secret id blob).

(** [save] and [new_from_file], on the text of the file. *)
Definition save (ks : Keystore) : string := keystore_to_text (passphrase_check ks) (secrets ks).
Definition new_from_file (contents : string) (config : option PwHashConfig) : HcResult Keystore :=
  file ← keystore_of_text contents;
  Ok (MkKeystore file.1 file.2 ∅ true config).

Definition check_dst_identifier (dst_id : string) : keeping unit :=
  ks ← store;
  if decide (is_Some (secrets ks !! dst_id)) then throw (ErrorGeneric "identifier already exists") else mret tt.

(** [self.cache.insert(dst_id, secret); self.encrypt(&dst_id)]. *)
Definition keep (dst_id : string) (loc : nat) : keeping unit :=
  set_store (with_cached dst_id loc);; encrypt dst_id.

Definition add (dst_id : string) (loc : nat) : keeping unit :=
  check_dst_identifier dst_id;; keep dst_id loc.

Definition add_random_seed (dst_id : string) (size : nat) : keeping unit :=
  check_dst_identifier dst_id;;
  seed_buf ← dpki (generate_random_buf size);
  loc ← alloc (SeedSecret seed_buf);
  keep dst_id loc.

Definition get (src_id : string) : keeping nat :=
  ks ← store;
  if decide (is_Some (secrets ks !! src_id)) then
    (if decide (is_Some (cache ks !! src_id)) then mret tt else decrypt src_id);;
    ks ← store;
    match cache ks !! src_id with
    | Some loc => mret loc
    | None => panic "called `Option::unwrap()` on a `None` value"
    end
  else throw (ErrorGeneric "unknown source identifier").

Definition check_identifiers (src_id dst_id : string) : keeping nat :=
  check_dst_identifier dst_id;; get src_id.

Definition add_seed_from_seed (src_id dst_id : string) (context : bytes) (index : Z) : keeping unit :=
  src_loc ← check_identifiers src_id dst_id;
  src_secret ← read_secret src_loc;
  match src_secret with
  | SeedSecret src =>
      seed ← dpki (generate_derived_seed_buf src context index SEED_SIZE);
      loc ← alloc (SeedSecret seed);
      keep dst_id loc
  | _ => throw (ErrorGeneric "source secret is not a root seed")
  end.

(** [add_key_from_seed]: the derivation of a key pair may change the cached seed. *)
Definition add_key_from_seed (src_id dst_id : string) (key_type : KeyType) : keeping string :=
  src_loc ← check_identifiers src_id dst_id;
  src_secret ← read_secret src_loc;
  match src_secret with
  | SeedSecret seed_buf =>
      new ← match key_type with
            | Signing =>
                key ← dpki (SigningKeyPair_new_from_seed seed_buf); mret (SigningKey key, sk_public key)
            | Encrypting =>
                key ← dpki (EncryptingKeyPair_new_from_seed seed_buf);
                write_secret src_loc (SeedSecret key.2);;
                mret (EncryptingKey key.1, ek_public key.1)
            end;
      loc ← alloc new.1;
      keep dst_id loc;;
      mret new.2
  | _ => throw (ErrorGeneric "source secret is not a seed")
  end.

Definition add_keybundle_from_seed (src_id dst_prefix : string) : keeping (string * string) :=
  sign_pub_key ← add_key_from_seed src_id (dst_prefix +:+ KEYBUNDLE_SIGNKEY_SUFFIX) Signing;
  enc_pub_key ← add_key_from_seed src_id (dst_prefix +:+ KEYBUNDLE_ENCKEY_SUFFIX) Encrypting;
  mret (sign_pub_key, enc_pub_key).

Definition add_keybundle (dst_prefix : string) (keybundle : KeyBundle) : keeping unit :=
  sign_secret ← alloc (SigningKey (sign_keys keybundle));
  enc_secret ← alloc (EncryptingKey (enc_keys keybundle));
  add (dst_prefix +:+ KEYBUNDLE_SIGNKEY_SUFFIX) sign_secret;;
  add (dst_prefix +:+ KEYBUNDLE_ENCKEY_SUFFIX) enc_secret.

Definition get_keybundle (src_prefix : string) : keeping KeyBundle :=
  sign_loc ← get (src_prefix +:+ KEYBUNDLE_SIGNKEY_SUFFIX);
  sign_secret ← read_secret sign_loc;
  match sign_secret with
  | SigningKey sign_key =>
      enc_loc ← get (src_prefix +:+ KEYBUNDLE_ENCKEY_SUFFIX);
      enc_secret ← read_secret enc_loc;
      match enc_secret with
      | EncryptingKey enc_key => mret (MkKeyBundle sign_key enc_key)
      | _ => throw (ErrorGeneric "source secret is not an encrypting key")
      end
  | _ => throw (ErrorGeneric "source secret is not a signing key")
  end.

(** [Keystore::sign]. *)
Definition keystore_sign (src_id data : string) : keeping string :=
  loc ← get src_id;
  secret ← read_secret loc;
  match secret with
  | SigningKey key_pair =>
      signature_buf ← dpki (sign key_pair (String.list_ascii_of_string data));
      mret (base64 signature_buf)
  | _ => throw (ErrorGeneric "source secret is not a signing key")
  end.

(** [Keystore::new_standalone]. *)
Definition new_standalone (config : option PwHashConfig) (v : Vault) :
    outcome (Vault * HcResult (Keystore * string)) :=
  match Keystore_new config v with
  | Panicked why => Panicked why
  | Done (v, Err e) => Done (v, Err e)
  | Done (v, Ok keystore) =>
      match (add_random_seed STANDALONE_ROOT_SEED SEED_SIZE;;
             add_keybundle_from_seed STANDALONE_ROOT_SEED PRIMARY_KEYBUNDLE_ID) (keystore, v) with
      | Panicked why => Panicked why
      | Done ((_, v), Err e) => Done (v, Err e)
      | Done ((keystore, v), Ok keys) => Done (v, Ok (keystore, keys.1))
      end
  end.
End keystore.

Abbreviation keeping A := (stateful (Keystore * Vault) HolochainError A).
