(* ===== verification/KeystoreFacts.v ===== *)
(** * Facts about keystores

    A secret that is added to a keystore is found again after the keystore is saved and
    loaded; a new keystore holds the key it reports.  Three defects: a change of the
    passphrase leaves the stored secrets behind, a wrong passphrase yields a wrong seed
    instead of an error, and the derivation of a key bundle overwrites the cached seed. *)
From S2P Require Import Prelude Errors Sodium Keys KeysFacts Keystore.

Section facts.
Context `{Sodium, Hcid, BlobText, PassphraseService, KeystoreText}.

(** The passphrase manager has the passphrase. *)
Definition unlocked (p : bytes) (v : Vault) : Prop := passphrase_cache v = Some p.

(** The keystore's check text was made with the passphrase. *)
Definition checked (ks : Keystore) (p : bytes) : Prop :=
  ∃ tail, length tail = 32%nat ∧ sealed (hash_config ks) p (PCHECK_HEADER ++ tail) (passphrase_check ks).

Definition wf_secret (s : Secret) : Prop :=
  match s with
  | SigningKey k => wf_signing k
  | EncryptingKey k => wf_encrypting k
  | SeedSecret buf => length buf = SEED_SIZE
  end.

(** The blob is the secret, encrypted under the passphrase. *)
Definition stored (ks : Keystore) (p : bytes) (blob : KeyBlob) (s : Secret) : Prop :=
  ∀ g, inner_decrypt ks blob p g = Done (g, Ok s).

(** The default passphrase opens the keystore only if it is the keystore's own. *)
Definition default_only (ks : Keystore) (p : bytes) : Prop :=
  ∀ g, check_passphrase ks DEFAULT_PASSPHRASE g = Done (g, Ok true) → p = DEFAULT_PASSPHRASE.

Lemma dpki_ok {A} (m : crypto A) ks v g a :
  m (rng v) = Done (g, Ok a) → dpki m (ks, v) = Done ((ks, with_rng g v), Ok a).
Proof. unfold dpki. by intros ->. Qed.

Lemma manager_ok ks v p :
  unlocked p v → passphrase_manager ks = true →
  ∃ v', manager (ks, v) = Done ((ks, v'), Ok p) ∧ unlocked p v' ∧ heap v' = heap v ∧ rng v' = rng v.
Proof. intros Hu Hm. unfold manager, get_passphrase. rewrite Hm, Hu. eexists. by split_and!. Qed.

Lemma check_of_bytes ks p g data :
  length data = 40%nat →
  decrypt_with_passphrase_buf (passphrase_check ks) p (hash_config ks) PCHECK_SIZE g = Done (g, Ok data) →
  check_passphrase ks p g = Done (g, Ok (bool_decide (take 8 data = PCHECK_HEADER))).
Proof.
  intros Hl E. unfold check_passphrase. runs ltac:(done). fold PCHECK_HEADER_SIZE.
  rewrite buf_write_all by (rewrite length_take, with_insecure_length; unfold PCHECK_HEADER_SIZE; lia).
  do 2 runs ltac:(done). rewrite buf_write_all by done. by runs ltac:(done).
Qed.

Lemma check_ok ks p g : checked ks p → check_passphrase ks p g = Done (g, Ok true).
Proof.
  intros (tail & Lt & Hs). rewrite (check_of_bytes _ _ _ (PCHECK_HEADER ++ tail)).
  - rewrite take_app_le by done. by rewrite bool_decide_true.
  - rewrite length_app, Lt. done.
  - apply decrypt_ok; [done|..|done]. rewrite length_app, Lt. done.
Qed.

(** Checking any passphrase gives an answer. *)
Lemma check_any ks p p' g : checked ks p → ∃ r, check_passphrase ks p' g = Done (g, r).
Proof.
  intros (tail & Lt & d & h & Ht & Ls & Hh & Hd & Lc).
  destruct (hash_of (hash_config ks) p' (salt d)) as [h'|] eqn:E.
  - destruct (decrypt_unchecked (hash_config ks) p' (passphrase_check ks) d h' PCHECK_SIZE g) as [E1 E2];
      [done..| |done|].
    { rewrite Lc, length_app, Lt. done. }
    eexists. by eapply check_of_bytes.
  - exists (Err (of_sodium_error SodiumOutOfMemory)). unfold check_passphrase, decrypt_with_passphrase_buf, pw_dec.
    unfold mbind, stateful_bind, lift, must. rewrite Ht. simpl.
    rewrite from_array_all by (by rewrite with_insecure_length). simpl.
    unfold pw_hash, pwhash_hash, sodium, lift. unfold hash_of in E. by rewrite E.
Qed.

(** ** Storing and finding secrets *)
Definition blob_of (s : Secret) (p : bytes) (config : option PwHashConfig) : crypto KeyBlob :=
  match s with
  | SeedSecret buf => seed ← Seed_new buf OneShotSeed; Seed_as_blob seed p "" config
  | SigningKey key => SigningKeyPair_as_blob key p "" config
  | EncryptingKey key => EncryptingKeyPair_as_blob key p "" config
  end.

Lemma blob_of_ok ks p s g :
  hashable (hash_config ks) p → wf_secret s →
  ∃ g' blob, blob_of s p (hash_config ks) g = Done (g', Ok blob) ∧ stored ks p blob s.
Proof.
  intros Hh Hs. destruct s as [k|k|buf]; simpl in *.
  - destruct (signing_blob (hash_config ks) p k "" g Hh Hs) as (g' & blob & E & Et & Ho).
    exists g', blob. split; [done|]. intros g2. unfold inner_decrypt. rewrite Et. by runs ltac:(done).
  - destruct (encrypting_blob (hash_config ks) p k "" g Hh Hs) as (g' & blob & E & Et & Ho).
    exists g', blob. split; [done|]. intros g2. unfold inner_decrypt. rewrite Et. by runs ltac:(done).
  - destruct (seed_blob (hash_config ks) p (MkSeed OneShotSeed buf) "" g Hh Hs) as (g' & blob & E & Et & _ & Ho).
    exists g', blob. split.
    + unfold Seed_new, assert_eq. rewrite decide_True by done. by runs ltac:(done).
    + intros g2. unfold inner_decrypt. rewrite Et. by runs ltac:(done).
Qed.

Lemma read_secret_ok ks v loc s : heap v !! loc = Some s → read_secret loc (ks, v) = Done ((ks, v), Ok s).
Proof. unfold read_secret. by intros ->. Qed.

Lemma encrypt_secret ks v p id loc s :
  checked ks p → unlocked p v → passphrase_manager ks = true → hashable (hash_config ks) p →
  cache ks !! id = Some loc → heap v !! loc = Some s → wf_secret s →
  ∃ v' blob, encrypt id (ks, v) = Done ((with_secret id blob ks, v'), Ok tt) ∧
    unlocked p v' ∧ heap v' = heap v ∧ stored ks p blob s.
Proof.
  intros Hc Hu Hm Hh Hl Hs Hw. destruct (manager_ok ks v p Hu Hm) as (v1 & E1 & U1 & Hp1 & _).
  destruct (blob_of_ok ks p s (rng v1) Hh Hw) as (g' & blob & E2 & Hb).
  exists (with_rng g' v1), blob. split_and!; try done. unfold encrypt. runs ltac:(done). rewrite Hl. runs ltac:(done).
  runs ltac:(done). runs ltac:(by apply dpki_ok, check_ok).
  runs ltac:(apply read_secret_ok; simpl; by rewrite Hp1).
  assert (dpki (blob_of s p (hash_config ks)) (ks, with_rng (rng v1) v1) = Done ((ks, with_rng g' v1), Ok blob)) as E3.
  { by unfold dpki; simpl; rewrite E2. }
  destruct s; (erewrite stateful_bind_eq by exact E3); done.
Qed.

(** [keep] puts a secret that is in memory into the keystore. *)
Lemma keep_ok ks v p id loc s :
  checked ks p → unlocked p v → passphrase_manager ks = true → hashable (hash_config ks) p →
  heap v !! loc = Some s → wf_secret s →
  ∃ v' blob, keep id loc (ks, v) = Done ((with_secret id blob (with_cached id loc ks), v'), Ok tt) ∧
    unlocked p v' ∧ heap v' = heap v ∧ stored ks p blob s.
Proof.
  intros Hc Hu Hm Hh Hs Hw.
  destruct (encrypt_secret (with_cached id loc ks) v p id loc s) as (v' & blob & E & Hr); try done.
  { simpl. by rewrite lookup_insert_eq. }
  exists v', blob. split; [|done]. unfold keep. by runs ltac:(done).
Qed.

Lemma bind_panics {A B} (m : keeping A) (k : A → keeping B) s why : m s = Panicked why → (m ≫= k) s = Panicked why.
Proof. intros Hm. unfold mbind, stateful_bind. by rewrite Hm. Qed.

(** A random seed of another size than 32 bytes panics when it is stored. *)
Lemma seed_size_panics buf p config g :
  length buf ≠ SEED_SIZE → ∃ why, blob_of (SeedSecret buf) p config g = Panicked why.
Proof.
  intros Hl. simpl. unfold Seed_new, assert_eq, mbind, stateful_bind. rewrite decide_False by done. by eexists.
Qed.

Lemma add_random_seed_panics ks v p id n :
  secrets ks !! id = None → checked ks p → unlocked p v → passphrase_manager ks = true → n ≠ SEED_SIZE →
  ∃ why, add_random_seed id n (ks, v) = Panicked why.
Proof.
  intros Hs Hc Hu Hm Hn. unfold add_random_seed.
  assert (check_dst_identifier id (ks, v) = Done ((ks, v), Ok tt)) as E0.
  { unfold check_dst_identifier. runs ltac:(done). rewrite decide_False by (rewrite Hs; by intros []). done. }
  runs ltac:(exact E0). unfold generate_random_buf. case_decide as Hbig.
  { unfold mbind, stateful_bind, dpki. simpl. by eexists. }
  destruct (randombytes n (rng v)) as [buf g] eqn:Er.
  assert (dpki (randomize n) (ks, v) = Done ((ks, with_rng g v), Ok buf)) as E1.
  { apply dpki_ok. unfold randomize. by rewrite Er. }
  runs ltac:(exact E1). runs ltac:(done). unfold keep. runs ltac:(done). unfold encrypt. runs ltac:(done).
  simpl. rewrite lookup_insert_eq. runs ltac:(done).
  destruct (manager_ok (with_cached id (length (heap v)) ks) (with_heap (heap v ++ [SeedSecret buf]) (with_rng g v)) p)
    as (v1 & E2 & U1 & Hp1 & _); [done..|].
  runs ltac:(exact E2). runs ltac:(by apply dpki_ok, check_ok).
  runs ltac:(apply read_secret_ok; simpl; by rewrite Hp1; simpl; rewrite list_lookup_middle).
  destruct (seed_size_panics buf p (hash_config ks) (rng v1)) as [why E3].
  { pose proof (randombytes_length n (rng v)) as Hl. rewrite Er in Hl. simpl in Hl. congruence. }
  exists why. apply bind_panics. unfold dpki. cbn [blob_of] in E3. cbn [hash_config with_cached rng with_rng]. by rewrite E3.
Qed.

Lemma decrypt_secret ks v p id blob s p0 :
  checked ks p0 → default_only ks p → unlocked p v → passphrase_manager ks = true →
  secrets ks !! id = Some blob → stored ks p blob s →
  ∃ v', decrypt id (ks, v) = Done ((with_cached id (length (heap v)) ks, v'), Ok tt) ∧
    unlocked p v' ∧ heap v' = heap v ++ [s].
Proof.
  intros Hc Hd Hu Hm Hb Hs. unfold decrypt. runs ltac:(done). rewrite Hb. runs ltac:(done).
  destruct (check_any ks p0 DEFAULT_PASSPHRASE (rng v) Hc) as [r Er].
  assert (try_call (dpki (check_passphrase ks DEFAULT_PASSPHRASE)) (ks, v) = Done ((ks, v), Ok r)) as Et.
  { unfold try_call, dpki. rewrite Er. by destruct v. }
  runs ltac:(exact Et).
  assert (∃ v', (match r with
      | Ok true => try_call (dpki (inner_decrypt ks blob DEFAULT_PASSPHRASE))
      | _ => passphrase ← manager; try_call (dpki (inner_decrypt ks blob passphrase))
      end) (ks, v) = Done ((ks, v'), Ok (Ok s)) ∧ unlocked p v' ∧ heap v' = heap v) as (v' & E & Hu' & Hv).
  { destruct (manager_ok ks v p Hu Hm) as (v1 & E1 & U1 & Hp1 & _).
    assert (∃ v', (passphrase ← manager; try_call (dpki (inner_decrypt ks blob passphrase))) (ks, v) =
      Done ((ks, v'), Ok (Ok s)) ∧ unlocked p v' ∧ heap v' = heap v) as Hask.
    { exists (with_rng (rng v1) v1). split; [|done]. runs ltac:(done). unfold try_call, dpki. by rewrite Hs. }
    destruct r as [[]|]; [|done..]. exists (with_rng (rng v) v). rewrite <-(Hd _ Er). split; [|done].
    unfold try_call, dpki. by rewrite Hs. }
  exists (with_heap (heap v' ++ [s]) v'). runs ltac:(exact E). simpl. runs ltac:(done). rewrite Hv.
  split; [|by simpl; rewrite ?Hv]. unfold alloc. runs ltac:(done). by rewrite Hv.
Qed.

Lemma get_stored ks v p id blob s p0 :
  checked ks p0 → default_only ks p → unlocked p v → passphrase_manager ks = true →
  secrets ks !! id = Some blob → cache ks !! id = None → stored ks p blob s →
  ∃ v', get id (ks, v) = Done ((with_cached id (length (heap v)) ks, v'), Ok (length (heap v))) ∧
    unlocked p v' ∧ heap v' !! length (heap v) = Some s.
Proof.
  intros Hc Hd Hu Hm Hb Hn Hs.
  destruct (decrypt_secret ks v p id blob s p0) as (v' & E & Hu' & Hh); try done.
  exists v'. split_and!; [|done|by rewrite Hh, list_lookup_middle]. unfold get. runs ltac:(done).
  rewrite decide_True by (by rewrite Hb). rewrite decide_False by (rewrite Hn; by intros []).
  runs ltac:(exact E). runs ltac:(done). simpl. by rewrite lookup_insert_eq.
Qed.

Lemma get_cached ks v id loc :
  is_Some (secrets ks !! id) → cache ks !! id = Some loc → get id (ks, v) = Done ((ks, v), Ok loc).
Proof.
  intros Hs Hc. unfold get. runs ltac:(done). rewrite decide_True by done. rewrite decide_True by (by rewrite Hc).
  do 2 runs ltac:(done). simpl. by rewrite Hc.
Qed.

(** C10: a secret added to a keystore is stored encrypted under the keystore's passphrase:
    after the keystore is saved and loaded again, asking for it by name, with the same
    passphrase, gives the same seed or key pair. *)
Theorem added_secret_survives ks v p id loc s :
  checked ks p → default_only ks p → unlocked p v → passphrase_manager ks = true → hashable (hash_config ks) p →
  secrets ks !! id = None → heap v !! loc = Some s → wf_secret s →
  ∃ ks' v', add id loc (ks, v) = Done ((ks', v'), Ok tt) ∧
    ∃ loaded, new_from_file (save ks') (hash_config ks) = Ok loaded ∧
      ∀ v2, unlocked p v2 → ∃ ks3 v3 loc2,
        get id (loaded, v2) = Done ((ks3, v3), Ok loc2) ∧ heap v3 !! loc2 = Some s.
Proof.
  intros Hc Hd Hu Hm Hh Hn Hs Hw.
  destruct (keep_ok ks v p id loc s) as (v' & blob & E & Hu' & Hv & Hb); try done.
  eexists _, v'. split.
  { unfold add, check_dst_identifier. erewrite stateful_bind_eq; [exact E|]. runs ltac:(done).
    by rewrite decide_False by (rewrite Hn; by intros []). }
  eexists. split; [unfold new_from_file, save; by rewrite keystore_text_roundtrip|].
  intros v2 Hv2. simpl.
  destruct (get_stored (MkKeystore (passphrase_check ks) (<[id:=blob]> (secrets ks)) ∅ true (hash_config ks))
    v2 p id blob s p) as (v3 & E3 & _ & Hv3); try done.
  { simpl. by rewrite lookup_insert_eq. }
  by eexists _, v3, _.
Qed.

(** ** Changing the passphrase *)
Lemma make_check_ok config p g :
  hashable config p →
  ∃ g' text tail, make_passphrase_check p config g = Done (g', Ok text) ∧ length tail = 32%nat ∧
    sealed config p (PCHECK_HEADER ++ tail) text.
Proof.
  intros Hh. destruct (randombytes PCHECK_SIZE g) as [buf g1] eqn:Er.
  pose proof (randombytes_length PCHECK_SIZE g) as Lb. rewrite Er in Lb. simpl in Lb.
  destruct (encrypt_ok config p (PCHECK_HEADER ++ drop 8 buf) g1 Hh) as (g2 & text & E & Hs).
  exists g2, text, (drop 8 buf). split_and!; [|rewrite length_drop, Lb; done|done].
  unfold make_passphrase_check. runs ltac:(by apply randomize_ok).
  rewrite buf_write_ok by (rewrite Lb; vm_compute; lia). by runs ltac:(done).
Qed.

Lemma change_passphrase_ok ks v old new :
  checked ks old → hashable (hash_config ks) new →
  ∃ check g, change_passphrase old new (ks, v) = Done ((with_check check ks, with_rng g v), Ok tt) ∧
    checked (with_check check ks) new.
Proof.
  intros Hc Hh. destruct (make_check_ok (hash_config ks) new (rng v) Hh) as (g & text & tail & E & Lt & Hs).
  exists text, g. split; [|by exists tail]. unfold change_passphrase. runs ltac:(done).
  runs ltac:(by apply dpki_ok, check_ok). simpl. runs ltac:(apply dpki_ok; simpl; exact E). by destruct v.
Qed.

(** a change of the passphrase encrypts nothing again: a seed that was stored before
    and is asked for with the new passphrase is not found to be encrypted under another
    one.  The keystore answers without an error, with the bytes the library leaves in the
    buffer when it rejects a text, in place of the seed. *)
Theorem changed_passphrase_loses_seeds ks v old new id st hnt text d h w :
  checked ks old → passphrase_manager ks = true → hashable (hash_config ks) new →
  secrets ks !! id = Some (MkKeyBlob SeedBlob st hnt text) → cache ks !! id = None →
  blob_of_text text = Ok d → length (salt d) = SALTBYTES → length (cipher d) = (SEED_SIZE + ABYTES)%nat →
  hash_of (hash_config ks) new (salt d) = Some h →
  crypto_aead_decrypt h (nonce d) (cipher d) = (false, w) → length w = SEED_SIZE →
  ∃ ks' v', change_passphrase old new (ks, v) = Done ((ks', v'), Ok tt) ∧
    (default_only ks' new → ∀ v2, unlocked new v2 → ∃ ks3 v3 loc,
      get id (ks', v2) = Done ((ks3, v3), Ok loc) ∧ heap v3 !! loc = Some (SeedSecret w)).
Proof.
  intros Hc Hm Hh Hs Hn Ht Ls Lc Hd Hw Lw.
  destruct (change_passphrase_ok ks v old new Hc Hh) as (check & g & E & Hc').
  eexists _, _. split; [exact E|]. intros Hdef v2 Hu.
  destruct (get_stored (with_check check ks) v2 new id (MkKeyBlob SeedBlob st hnt text) (SeedSecret w) new)
    as (v3 & E3 & _ & Hv3); try done; [|by eexists _, v3, _].
  intros g2. unfold inner_decrypt. simpl. rewrite (stateful_bind_eq _ _ _ g2 (MkSeed st w)); [done|].
  unfold Seed_from_blob, unblob.
  rewrite decide_False by (simpl; naive_solver).
  destruct (decrypt_unchecked (hash_config ks) new text d h SEED_SIZE g2) as [E1 _]; [done..|].
  rewrite Hw in E1. simpl in E1. unfold filler in E1. rewrite drop_ge, app_nil_r in E1 by (rewrite length_replicate; lia).
  runs ltac:(exact E1). unfold Seed_new, assert_eq. rewrite decide_True by done. done.
Qed.

(** ** New keystores *)

(** The keystore and the manager have the same passphrase. *)
Definition ready (p : bytes) (ks : Keystore) (v : Vault) : Prop :=
  checked ks p ∧ passphrase_manager ks = true ∧ hashable (hash_config ks) p ∧ unlocked p v.

(** A secret in the cache, whose blob is stored as well. *)
Definition holds (ks : Keystore) (v : Vault) (id : string) (loc : nat) (s : Secret) : Prop :=
  is_Some (secrets ks !! id) ∧ cache ks !! id = Some loc ∧ heap v !! loc = Some s.

Lemma keep_new p ks v id s :
  ready p ks v → wf_secret s →
  ∃ v' blob, keep id (length (heap v)) (ks, with_heap (heap v ++ [s]) v) =
      Done ((with_secret id blob (with_cached id (length (heap v)) ks), v'), Ok tt) ∧
    heap v' = heap v ++ [s] ∧ ready p (with_secret id blob (with_cached id (length (heap v)) ks)) v'.
Proof.
  intros (Hc & Hm & Hh & Hu) Hw.
  destruct (keep_ok ks (with_heap (heap v ++ [s]) v) p id (length (heap v)) s) as (v' & blob & E & Hu' & Hv & _);
    try done.
  { simpl. by rewrite list_lookup_middle. }
  by exists v', blob.
Qed.

Lemma check_dst_ok ks v dst :
  secrets ks !! dst = None → check_dst_identifier dst (ks, v) = Done ((ks, v), Ok tt).
Proof.
  intros Hn. unfold check_dst_identifier. runs ltac:(done).
  by rewrite decide_False by (rewrite Hn; by intros []).
Qed.

Lemma source_ok ks v src dst loc s :
  holds ks v src loc s → secrets ks !! dst = None → check_identifiers src dst (ks, v) = Done ((ks, v), Ok loc).
Proof.
  intros (Hs & Hl & _) Hn. unfold check_identifiers. runs ltac:(by apply check_dst_ok). by apply get_cached.
Qed.

Lemma add_signing p ks v src dst loc seed :
  ready p ks v → holds ks v src loc (SeedSecret seed) → length seed = SEED_SIZE → secrets ks !! dst = None →
  ∃ v' blob k, add_key_from_seed src dst Signing (ks, v) =
      Done ((with_secret dst blob (with_cached dst (length (heap v)) ks), v'), Ok (sk_public k)) ∧
    heap v' = heap v ++ [SigningKey k] ∧ ready p (with_secret dst blob (with_cached dst (length (heap v)) ks)) v' ∧
    hcid_encode Hcs0 (crypto_sign_seed_keypair seed).1 = Ok (sk_public k).
Proof.
  intros Hr Hh Hl Hn. destruct (signing_from_seed seed (rng v) Hl) as (k & Ek & Hw & Ep & _).
  destruct (keep_new p ks v dst (SigningKey k) Hr Hw) as (v' & blob & E & Hv & Hr').
  exists v', blob, k. split; [|done]. unfold add_key_from_seed. runs ltac:(by eapply source_ok).
  runs ltac:(apply read_secret_ok, Hh). erewrite stateful_bind_eq; [|by runs ltac:(by apply dpki_ok)].
  cbn [fst snd]. runs ltac:(done). destruct v. by runs ltac:(exact E).
Qed.

Lemma add_encrypting p ks v src dst loc seed :
  ready p ks v → holds ks v src loc (SeedSecret seed) → length seed = SEED_SIZE → secrets ks !! dst = None →
  ∃ v' blob k, add_key_from_seed src dst Encrypting (ks, v) =
      Done ((with_secret dst blob (with_cached dst (length (heap v)) ks), v'), Ok (ek_public k)) ∧
    heap v' = <[loc := SeedSecret (crypto_kx_seed_keypair zero_key).2]> (heap v) ++ [EncryptingKey k] ∧
    ready p (with_secret dst blob (with_cached dst (length (heap v)) ks)) v'.
Proof.
  intros Hr Hh Hl Hn. destruct (encrypting_from_seed seed (rng v) Hl) as (text & Et & Ek).
  set (k := MkEncryptingKeyPair text _) in *. set (h' := <[loc := SeedSecret (crypto_kx_seed_keypair zero_key).2]> (heap v)).
  destruct (keep_new p ks (with_heap h' v) dst (EncryptingKey k)) as (v' & blob & E & Hv & Hr');
    [done|by apply encrypting_wf|].
  assert (length h' = length (heap v)) as Lh by apply length_insert.
  simpl in *. rewrite Lh in *.
  exists v', blob, k. split; [|done]. unfold add_key_from_seed. runs ltac:(by eapply source_ok).
  runs ltac:(apply read_secret_ok, Hh).
  erewrite stateful_bind_eq; [|runs ltac:(by apply dpki_ok); by runs ltac:(done)].
  cbn [fst snd]. runs ltac:(done). simpl. fold h'. rewrite Lh. destruct v. by runs ltac:(exact E).
Qed.

Lemma new_keystore config p v :
  unlocked p v → hashable config p →
  ∃ v' ks, Keystore_new config v = Done (v', Ok ks) ∧ ready p ks v' ∧ heap v' = heap v ∧ secrets ks = ∅.
Proof.
  intros Hu Hh. unfold Keystore_new, get_passphrase. rewrite Hu. simpl.
  destruct (make_check_ok config p (rng v) Hh) as (g & text & tail & E & Lt & Hs). rewrite E.
  eexists _, _. split; [done|]. split_and!; try done. split_and!; try done. by exists tail.
Qed.

Lemma add_random_seed_ok p ks v id :
  ready p ks v → secrets ks !! id = None →
  ∃ v' blob seed, add_random_seed id SEED_SIZE (ks, v) =
      Done ((with_secret id blob (with_cached id (length (heap v)) ks), v'), Ok tt) ∧
    heap v' = heap v ++ [SeedSecret seed] ∧ length seed = SEED_SIZE ∧
    ready p (with_secret id blob (with_cached id (length (heap v)) ks)) v'.
Proof.
  intros Hr Hn. destruct (randombytes SEED_SIZE (rng v)) as [seed g] eqn:Er.
  pose proof (randombytes_length SEED_SIZE (rng v)) as Ls. rewrite Er in Ls.
  destruct (keep_new p ks (with_rng g v) id (SeedSecret seed)) as (v' & blob & E & Hv & Hr'); [done..|].
  exists v', blob, seed. split; [|done]. unfold add_random_seed. runs ltac:(by apply check_dst_ok).
  runs ltac:(by apply dpki_ok, randomize_ok). by runs ltac:(done).
Qed.

Definition primary_sign : string := PRIMARY_KEYBUNDLE_ID +:+ KEYBUNDLE_SIGNKEY_SUFFIX.
Definition primary_enc : string := PRIMARY_KEYBUNDLE_ID +:+ KEYBUNDLE_ENCKEY_SUFFIX.

Lemma standalone_state config p v :
  unlocked p v → hashable config p →
  ∃ v' ks k e, new_standalone config v = Done (v', Ok (ks, sk_public k)) ∧ ready p ks v' ∧
    holds ks v' STANDALONE_ROOT_SEED (length (heap v)) (SeedSecret (crypto_kx_seed_keypair zero_key).2) ∧
    holds ks v' primary_sign (S (length (heap v))) (SigningKey k) ∧
    holds ks v' primary_enc (S (S (length (heap v)))) (EncryptingKey e) ∧
    ∀ id, id ∉ [STANDALONE_ROOT_SEED; primary_sign; primary_enc] → secrets ks !! id = None.
Proof.
  intros Hu Hh. destruct (new_keystore config p v Hu Hh) as (v0 & ks0 & E0 & R0 & Hv0 & S0).
  destruct (add_random_seed_ok p ks0 v0 STANDALONE_ROOT_SEED R0) as (v1 & b1 & seed & E1 & Hv1 & Ls & R1);
    [by rewrite S0|].
  destruct (add_signing p _ v1 STANDALONE_ROOT_SEED primary_sign (length (heap v0)) seed R1)
    as (v2 & b2 & k & E2 & Hv2 & R2 & _); [|done|by simpl; rewrite S0|].
  { unfold holds. simpl. rewrite !lookup_insert_eq, Hv1, list_lookup_middle by done. by split_and!. }
  destruct (add_encrypting p _ v2 STANDALONE_ROOT_SEED primary_enc (length (heap v0)) seed R2)
    as (v3 & b3 & e & E3 & Hv3 & R3); [|done|by simpl; rewrite S0|].
  { unfold holds. simpl. rewrite Hv2, Hv1, <-app_assoc. simpl. simplify_map_eq.
    split_and!; try done. by apply list_lookup_middle. }
  eexists v3, _, k, e. unfold new_standalone. rewrite E0. erewrite stateful_bind_eq by exact E1.
  unfold add_keybundle_from_seed. runs ltac:(exact E2). runs ltac:(exact E3). split; [done|]. split; [done|].
  assert (length (heap v1) = S (length (heap v)) ∧ length (heap v2) = S (S (length (heap v)))) as [L1 L2].
  { rewrite Hv2, Hv1, Hv0, !length_app. simpl. lia. }
  assert (heap v3 = heap v ++ [SeedSecret (crypto_kx_seed_keypair zero_key).2; SigningKey k; EncryptingKey e]) as Hv'.
  { rewrite Hv3, Hv2, Hv1, Hv0, <-(app_assoc (heap v)), <-(Nat.add_0_r (length (heap v))), insert_app_r. simpl.
    by rewrite <-app_assoc. }
  unfold holds. simpl. rewrite L1, L2, Hv0, S0, Hv'. split_and!; simplify_map_eq; try done.
  - by apply list_lookup_middle.
  - by rewrite lookup_app_r, Nat.sub_succ_l, Nat.sub_diag by lia.
  - by rewrite lookup_app_r, !Nat.sub_succ_l, Nat.sub_diag by lia.
  - intros id Hid. rewrite !lookup_insert_ne by set_solver. done.
Qed.

(** a new standalone keystore reports the public key under which its primary key bundle
    is found in it. *)
Theorem standalone_reports_its_key config p v :
  unlocked p v → hashable config p →
  ∃ v' ks public bundle, new_standalone config v = Done (v', Ok (ks, public)) ∧
    get_keybundle PRIMARY_KEYBUNDLE_ID (ks, v') = Done ((ks, v'), Ok bundle) ∧ get_id bundle = public.
Proof.
  intros Hu Hh. destruct (standalone_state config p v Hu Hh) as (v' & ks & k & e & E & _ & _ & Hs & He & _).
  exists v', ks, (sk_public k), (MkKeyBundle k e). split_and!; [done| |done]. unfold get_keybundle.
  runs ltac:(by apply get_cached; apply Hs). runs ltac:(apply read_secret_ok, Hs).
  runs ltac:(by apply get_cached; apply He). by runs ltac:(apply read_secret_ok, He).
Qed.

(** the derivation of the primary key bundle of a standalone keystore overwrites the
    cached root seed with a value that is known beforehand: a signing key that is then
    derived from the root seed does not depend on the seed at all, and is the same in every
    keystore. *)
Theorem keys_derived_later_are_known config p v id :
  unlocked p v → hashable config p → id ∉ [STANDALONE_ROOT_SEED; primary_sign; primary_enc] →
  ∃ v' ks public, new_standalone config v = Done (v', Ok (ks, public)) ∧
    ∃ ks2 v2 derived, add_key_from_seed STANDALONE_ROOT_SEED id Signing (ks, v') = Done ((ks2, v2), Ok derived) ∧
      hcid_encode Hcs0 (crypto_sign_seed_keypair (crypto_kx_seed_keypair zero_key).2).1 = Ok derived.
Proof.
  intros Hu Hh Hid. destruct (standalone_state config p v Hu Hh) as (v' & ks & k & e & E & Hr & Hroot & _ & _ & Hn).
  destruct (add_signing p ks v' STANDALONE_ROOT_SEED id (length (heap v)) (crypto_kx_seed_keypair zero_key).2)
    as (v2 & blob & k2 & E2 & _ & _ & Ek); [done|done|apply kx_keypair_length|by apply Hn|].
  eexists v', ks, _. split; [done|]. by eexists _, v2, _.
Qed.
End facts.

(** ** A run with the toy library *)
Module Demo.
Import Toy.
#[local] Obligation Tactic := idtac.

#[export] Instance toy_service : PassphraseService := {
  Service := bytes;
  request_passphrase s := (Ok s, s);
}.

Definition blob_parts (b : KeyBlob) : nat * nat * string * string :=
  (match blob_type b with SeedBlob => 0 | KeyBundleBlob => 1 | SigningKeyBlob => 2 | EncryptingKeyBlob => 3 end,
   match blob_seed_type b with
   | RootSeed => 0 | RevocationSeed => 1 | DeviceSeed => 2 | DevicePinSeed => 3 | DnaSeed => 4 | OneShotSeed => 5
   | MockSeed => 6
   end, hint b, blob_data b)%nat.
Definition blob_whole (p : nat * nat * string * string) : KeyBlob :=
  let '(t, s, h, d) := p in
  MkKeyBlob (default SeedBlob ([SeedBlob; KeyBundleBlob; SigningKeyBlob; EncryptingKeyBlob] !! t))
    (default RootSeed
      ([RootSeed; RevocationSeed; DeviceSeed; DevicePinSeed; DnaSeed; OneShotSeed; MockSeed] !! s)) h d.
#[export] Instance KeyBlob_eq_dec : EqDecision KeyBlob.
Proof. solve_decision. Defined.
#[export, program] Instance KeyBlob_countable : Countable KeyBlob := inj_countable' blob_parts blob_whole _.
Next Obligation. by intros [[] [] h d]. Qed.

#[export, program] Instance toy_keystore_text : KeystoreText := {
  keystore_to_text check blobs := text_of (check, blobs);
  keystore_of_text s := of_text s;
  base64 := String.string_of_list_ascii;
  error_debug := HolochainError_fmt;
}.
Next Obligation. intros check blobs. apply of_text_of. Qed.

Definition other : bytes := String.list_ascii_of_string "close sesame".

(** A text encrypted under a passphrase. *)
Definition box (p data : bytes) : EncryptedData :=
  MkEncryptedData (with_insecure 16) (with_insecure 24) (data ++ pad 16 (pad 32 p)).
Definition store_of (p : bytes) (blobs : gmap string KeyBlob) : Keystore :=
  MkKeystore (blob_to_text (box p (PCHECK_HEADER ++ with_insecure 32))) blobs ∅ true None.
Definition vault (p : bytes) : Vault := @MkVault toy_sodium toy_service g0 (Some p) 0 p 0 [SeedSecret seed].
Definition seed_blob_of (p : bytes) : KeyBlob := MkKeyBlob SeedBlob OneShotSeed "" (blob_to_text (box p seed)).

Lemma store_checked p blobs : checked (store_of p blobs) p.
Proof.
  exists (with_insecure 32). split; [done|]. eexists (box p _), _. split_and!; [apply blob_text_roundtrip|done|done| |].
  - exact (aead_correct (pad 32 p) (with_insecure 24) (PCHECK_HEADER ++ with_insecure 32)).
  - unfold box. cbn [cipher]. by rewrite length_app, pad_length.
Qed.

Lemma added_secret_survives_witness :
  ∃ ks' v', add "seed" 0 (store_of passphrase ∅, vault passphrase) = Done ((ks', v'), Ok tt) ∧
    ∃ loaded, new_from_file (save ks') None = Ok loaded ∧
      ∀ v2, unlocked passphrase v2 → ∃ ks3 v3 loc2,
        get "seed" (loaded, v2) = Done ((ks3, v3), Ok loc2) ∧ heap v3 !! loc2 = Some (SeedSecret seed).
Proof.
  apply (added_secret_survives (store_of passphrase ∅) (vault passphrase) passphrase "seed" 0 (SeedSecret seed));
    [apply store_checked| |reflexivity|reflexivity|apply toy_hashable|reflexivity..].
  intros g Hg. vm_compute in Hg. discriminate Hg.
Defined.

(** The seed becomes thirty-two zero bytes. *)
Lemma changed_passphrase_loses_seeds_witness :
  with_insecure 32 ≠ seed ∧
  ∃ ks' v', change_passphrase passphrase other
      (store_of passphrase {["seed" := seed_blob_of passphrase]}, vault passphrase) = Done ((ks', v'), Ok tt) ∧
    (default_only ks' other → ∀ v2, unlocked other v2 → ∃ ks3 v3 loc,
      get "seed" (ks', v2) = Done ((ks3, v3), Ok loc) ∧ heap v3 !! loc = Some (SeedSecret (with_insecure 32))).
Proof.
  split; [by vm_compute|].
  apply (changed_passphrase_loses_seeds (store_of passphrase {["seed" := seed_blob_of passphrase]}) (vault passphrase)
    passphrase other "seed" OneShotSeed "" (blob_to_text (box passphrase seed)) (box passphrase seed) (pad 32 other));
    [apply store_checked|reflexivity|apply toy_hashable|reflexivity|reflexivity|apply blob_text_roundtrip|reflexivity..].
Defined.

Lemma standalone_reports_its_key_witness :
  ∃ v' ks public bundle, new_standalone None (vault passphrase) = Done (v', Ok (ks, public)) ∧
    get_keybundle PRIMARY_KEYBUNDLE_ID (ks, v') = Done ((ks, v'), Ok bundle) ∧ get_id bundle = public.
Proof.
  apply (standalone_reports_its_key None passphrase (vault passphrase)); [reflexivity|apply toy_hashable].
Defined.

Lemma keys_derived_later_are_known_witness :
  ∃ v' ks public, new_standalone None (vault passphrase) = Done (v', Ok (ks, public)) ∧
    ∃ ks2 v2 derived, add_key_from_seed STANDALONE_ROOT_SEED "app" Signing (ks, v') = Done ((ks2, v2), Ok derived) ∧
      hcid_encode Hcs0 (crypto_sign_seed_keypair (crypto_kx_seed_keypair zero_key).2).1 = Ok derived.
Proof.
  apply (keys_derived_later_are_known None passphrase (vault passphrase) "app");
    [reflexivity|apply toy_hashable|by_decide].
Defined.
End Demo.
