(* ===== verification/Conductor.v ===== *)
(** * The conductor

    [conductor_api/src/conductor/base.rs], with the running instances of
    [conductor_api/src/holochain.rs], the DPKI calls of [dpki_instance.rs] and the user
    interface servers of [static_file_server.rs]: what a conductor holds, how it boots from
    its configuration, and how it starts and stops what it runs.

    The operations keep the state reached before an error or a panic.  What they ask of the
    outside (files, DNA and key loaders, network processes, threads, the core of an
    instance) is a [Call], answered by a handler that may answer anything and depends on a
    world of its own.  Paths are text in UTF-8, so [Path::to_str] succeeds. *)
From S2P Require Import Prelude Errors Entries Actions Sodium Keys Keystore Config.

(** ** Errors *)
Inductive HolochainInstanceError :=
| InternalFailure (e : HolochainError)
| InstanceNotActiveYet
| InstanceAlreadyActive
| NoSuchInstance.

Definition instance_error_fmt (e : HolochainInstanceError) : string :=
  "Holochain Instance Error: " +:+
  match e with
  | InternalFailure err => HolochainError_fmt err
  | InstanceNotActiveYet => "Holochain instance is not active yet."
  | InstanceAlreadyActive => "Holochain instance is already active."
  | NoSuchInstance => "Instance does not exist"
  end.

(** [From<HolochainInstanceError> for HolochainError]. *)
Definition of_instance_error (e : HolochainInstanceError) : HolochainError := ErrorGeneric (instance_error_fmt e).

(** [From<NoneError> for HolochainError]. *)
Definition none_error : HolochainError := ErrorGeneric "Expected Some and got None".

(** ** The outside *)

(** The settings a network connection starts from. *)
Inductive P2pConfig :=
| MemoryBackend (server_name : string)
| UniqueMemoryBackend
| IpcUri (uri : option string) (nodes : list string) (file : option string).

Record SpawnResult := MkSpawnResult { ipc_binding : string; p2p_bindings : list string }.

(** What an instance is made with: its agent, its network, its storage, and the instances
    it can call through bridges, by handle. *)
Record InstanceContext := MkInstanceContext {
  ctx_id : string;
  ctx_agent_name : string;
  ctx_agent_key : string;
  ctx_p2p : P2pConfig;
  ctx_storage : StorageConfiguration;
  ctx_bridges : list (string * string);
}.

(** What an interface exposes: instances, and whether the administration as well. *)
Record Api := MkApi { api_instances : gset string; api_admin : bool }.

Abbreviation channel := nat.

Inductive Call : Type → Type :=
| CreateDirAll (path : string) : Call (result string unit)
| CreateFile (path : string) : Call (result string unit)
| WriteFile (path text : string) : Call (result string unit)
| WriteDna (path : string) (dna : Dna) : Call (HcResult unit)
| LoadDna (path : string) : Call (HcResult Dna)
| ReadKeystore (path : string) : Call (HcResult string)
| CopyUiDir (source dest : string) : Call (HcResult unit)
| OpenStorage (storage : StorageConfiguration) : Call (HcResult unit)
| LoadInstance (context : InstanceContext) : Call (HcResult unit)
| NewInstance (dna : Dna) (context : InstanceContext) : Call (result HolochainInstanceError unit)
| PublicToken (context : InstanceContext) : Call (HcResult string)
| SignCall (context : InstanceContext) (function params : string) : Call (HcResult string)
| CallZome (context : InstanceContext) (zome : string) (cap : CapabilityRequest) (function params : string) :
    Call (outcome (HcResult string))
| SpawnNetwork (config : NetworkConfig) : Call (result string SpawnResult)
| RunInterface (driver : InterfaceDriver) (api : Api) : Call (result string channel)
| ServeStatic (port : Z) (root_dir : string) (dna_interface : option InterfaceConfiguration) : Call channel
| Send (target : channel) : Call (result string unit).

(** [iteration_order] is the order of a [HashMap]; the rest are serde, toml, the hash of a
    DNA and derived [Debug] texts. *)
Class Outside := {
  World : Type;
  answer : ∀ {A : Type}, Call A → World → World * A;
  iteration_order : World → gset string → list string;
  dna_address : Dna → string;
  json_merge : string → string → string;
  json_object : string → string → string;
  json_bool : string → HcResult bool;
  config_to_text : Configuration → HcResult string;
  debug_str : string → string;
  iteration_order_spec w s : NoDup (iteration_order w s) ∧ ∀ x, x ∈ iteration_order w s ↔ x ∈ s;
}.

(** ** The state *)

(** [Holochain]; [poisoned] is the state of the lock around it. *)
Record Holochain := MkHolochain { context : InstanceContext; active : bool; poisoned : bool }.

Record StaticServer := MkStaticServer {
  shutdown_signal : option channel;
  ss_config : UiInterfaceConfiguration;
  ss_bundle : UiBundleConfiguration;
  ss_dna_interface : option InterfaceConfiguration;
  running : bool;
}.

Inductive Broadcaster := Ws (interface : channel) | Noop.

Section conductor.
Context `{Sodium, Hcid, BlobText, PassphraseService, KeystoreText, Outside, Petgraph}.

(** [multiplexer] is the configuration that the running signal thread was started with. *)
Record Conductor := MkConductor {
  running_instances : gmap string Holochain;
  instance_signal_receivers : gset string;
  agent_keys : gmap string Keystore;
  config : Configuration;
  static_servers : gmap string StaticServer;
  interface_threads : gmap string channel;
  interface_broadcasters : gmap string Broadcaster;
  multiplexer : option Configuration;
  p2p_config : option P2pConfig;
  network_spawn : option SpawnResult;
  key_hash_config : option PwHashConfig;
  vault : Vault;
  world : World;
}.

Definition set_instances x c := MkConductor x (instance_signal_receivers c) (agent_keys c) (config c)
  (static_servers c) (interface_threads c) (interface_broadcasters c) (multiplexer c) (p2p_config c)
  (network_spawn c) (key_hash_config c) (vault c) (world c).
Definition set_receivers x c := MkConductor (running_instances c) x (agent_keys c) (config c)
  (static_servers c) (interface_threads c) (interface_broadcasters c) (multiplexer c) (p2p_config c)
  (network_spawn c) (key_hash_config c) (vault c) (world c).
Definition set_agent_keys x c := MkConductor (running_instances c) (instance_signal_receivers c) x (config c)
  (static_servers c) (interface_threads c) (interface_broadcasters c) (multiplexer c) (p2p_config c)
  (network_spawn c) (key_hash_config c) (vault c) (world c).
Definition set_config x c := MkConductor (running_instances c) (instance_signal_receivers c) (agent_keys c) x
  (static_servers c) (interface_threads c) (interface_broadcasters c) (multiplexer c) (p2p_config c)
  (network_spawn c) (key_hash_config c) (vault c) (world c).
Definition set_servers x c := MkConductor (running_instances c) (instance_signal_receivers c) (agent_keys c)
  (config c) x (interface_threads c) (interface_broadcasters c) (multiplexer c) (p2p_config c)
  (network_spawn c) (key_hash_config c) (vault c) (world c).
Definition set_threads x c := MkConductor (running_instances c) (instance_signal_receivers c) (agent_keys c)
  (config c) (static_servers c) x (interface_broadcasters c) (multiplexer c) (p2p_config c)
  (network_spawn c) (key_hash_config c) (vault c) (world c).
Definition set_broadcasters x c := MkConductor (running_instances c) (instance_signal_receivers c) (agent_keys c)
  (config c) (static_servers c) (interface_threads c) x (multiplexer c) (p2p_config c)
  (network_spawn c) (key_hash_config c) (vault c) (world c).
Definition set_multiplexer x c := MkConductor (running_instances c) (instance_signal_receivers c) (agent_keys c)
  (config c) (static_servers c) (interface_threads c) (interface_broadcasters c) x (p2p_config c)
  (network_spawn c) (key_hash_config c) (vault c) (world c).
Definition set_p2p x c := MkConductor (running_instances c) (instance_signal_receivers c) (agent_keys c)
  (config c) (static_servers c) (interface_threads c) (interface_broadcasters c) (multiplexer c) x
  (network_spawn c) (key_hash_config c) (vault c) (world c).
Definition set_spawn x c := MkConductor (running_instances c) (instance_signal_receivers c) (agent_keys c)
  (config c) (static_servers c) (interface_threads c) (interface_broadcasters c) (multiplexer c) (p2p_config c)
  x (key_hash_config c) (vault c) (world c).
Definition set_vault x c := MkConductor (running_instances c) (instance_signal_receivers c) (agent_keys c)
  (config c) (static_servers c) (interface_threads c) (interface_broadcasters c) (multiplexer c) (p2p_config c)
  (network_spawn c) (key_hash_config c) x (world c).
Definition set_world x c := MkConductor (running_instances c) (instance_signal_receivers c) (agent_keys c)
  (config c) (static_servers c) (interface_threads c) (interface_broadcasters c) (multiplexer c) (p2p_config c)
  (network_spawn c) (key_hash_config c) (vault c) x.

(** [Conductor::from_config]. *)
Definition from_config (c : Configuration) (v : Vault) (w : World) : Conductor :=
  MkConductor ∅ ∅ ∅ c ∅ ∅ ∅ None None None None v w.

(** ** Operations on it *)
Definition conducting (E A : Type) : Type := Conductor → Conductor * outcome (result E A).

#[global] Instance conducting_ret {E} : MRet (conducting E) := λ A a c, (c, Done (Ok a)).
#[global] Instance conducting_bind {E} : MBind (conducting E) := λ A B f m c,
  match m c with
  | (c, Done (Ok a)) => f a c
  | (c, Done (Err e)) => (c, Done (Err e))
  | (c, Panicked why) => (c, Panicked why)
  end.

Definition ask {E A : Type} (f : Conductor → A) : conducting E A := λ c, (c, Done (Ok (f c))).
Definition change {E : Type} (f : Conductor → Conductor) : conducting E unit := λ c, (f c, Done (Ok tt)).
Definition fail {E A : Type} (e : E) : conducting E A := λ c, (c, Done (Err e)).
Definition die {E A : Type} (why : string) : conducting E A := λ c, (c, Panicked why).
Definition of_result {E A : Type} (r : result E A) : conducting E A := λ c, (c, Done r).
Definition of_outcome {E A : Type} (o : outcome (result E A)) : conducting E A := λ c, (c, o).

(** [?] where the error is converted, and a call whose error is a value. *)
Definition convert {E F A : Type} (f : E → F) (m : conducting E A) : conducting F A := λ c,
  match m c with
  | (c, Done r) => (c, Done (map_err f r))
  | (c, Panicked why) => (c, Panicked why)
  end.
Definition attempt {E F A : Type} (m : conducting E A) : conducting F (result E A) := λ c,
  match m c with
  | (c, Done r) => (c, Done (Ok r))
  | (c, Panicked why) => (c, Panicked why)
  end.

Fixpoint each {E A : Type} (body : A → conducting E unit) (xs : list A) : conducting E unit :=
  match xs with
  | [] => mret tt
  | x :: xs => body x;; each body xs
  end.

(** A call of the outside. *)
Definition outside {E A : Type} (call : Call A) : conducting E A := λ c,
  let '(w, a) := answer call (world c) in (set_world w c, Done (Ok a)).

(** The order in which a [HashMap] with these keys is iterated. *)
Definition in_order {E : Type} (keys : gset string) : conducting E (list string) :=
  ask (λ c, iteration_order (world c) keys).

(** [config.check_consistency()?], in functions that return a text and in those that return
    a [HolochainError]. *)
Definition consistent_or_error {E : Type} (of_text : string → E) (c : Configuration) : conducting E unit :=
  convert of_text (of_outcome (check_consistency c)).

(** ** Paths *)
Definition starts_with_slash (s : string) : bool :=
  match s with String c _ => bool_decide (c = Ascii.ascii_of_nat 47) | EmptyString => false end.
Fixpoint ends_with_slash (s : string) : bool :=
  match s with
  | EmptyString => false
  | String c EmptyString => bool_decide (c = Ascii.ascii_of_nat 47)
  | String _ s => ends_with_slash s
  end.

(** [Path::join]. *)
Definition join (base path : string) : string :=
  if starts_with_slash path then path
  else if bool_decide (base = "") || ends_with_slash base then base +:+ path
  else base +:+ "/" +:+ path.

Definition dna_dir_path (c : Configuration) : string := join (persistence_dir c) "dna".
Definition config_path (c : Configuration) : string := join (persistence_dir c) "conductor-config.toml".
Definition instance_storage_dir_path (c : Configuration) : string := join (persistence_dir c) "storage".

(** ** Saving *)
Definition save_config : conducting HolochainError unit :=
  c ← ask config;
  made ← outside (CreateDirAll (persistence_dir c));
  of_result (map_err (λ _, ErrorGeneric ("Could not directory structure " +:+ debug_str (persistence_dir c))) made);;
  file ← outside (CreateFile (config_path c));
  of_result (map_err (λ _, ErrorGeneric ("Could not create file at " +:+ debug_str (config_path c))) file);;
  text ← of_result (config_to_text c);
  written ← outside (WriteFile (config_path c) text);
  of_result (map_err (λ _, ErrorGeneric ("Could not save config to " +:+ debug_str (config_path c))) written).

(** [save_dna] with [save_dna_to]; the address of a DNA has no dot, so the extension is
    appended. *)
Definition save_dna (dna : Dna) : conducting HolochainError string :=
  c ← ask config;
  let path := join (dna_dir_path c) (dna_address dna) +:+ ".dna.json" in
  made ← outside (CreateDirAll (dna_dir_path c));
  of_result (map_err IoError made);;
  file ← outside (CreateFile path);
  of_result (map_err (λ e, ConfigError ("Error writing DNA to " +:+ path +:+ ", " +:+ e)) file);;
  written ← outside (WriteDna path dna);
  of_result written;;
  mret path.

(** ** Instances *)

(** [Holochain::start] and [stop]. *)
Definition hc_start (hc : Holochain) : result HolochainInstanceError Holochain :=
  if active hc then Err InstanceAlreadyActive else Ok (MkHolochain (context hc) true (poisoned hc)).
Definition hc_stop (hc : Holochain) : result HolochainInstanceError Holochain :=
  if active hc then Ok (MkHolochain (context hc) false (poisoned hc)) else Err InstanceNotActiveYet.

(** [instance.write().unwrap()] and an update of what it guards. *)
Definition update_instance (id : string) (hc : Holochain)
    (f : Holochain → result HolochainInstanceError Holochain) : conducting HolochainInstanceError unit :=
  if poisoned hc then die "called `Result::unwrap()` on an `Err` value: PoisonError"
  else
    hc ← of_result (f hc);
    change (λ c, set_instances (<[id := hc]> (running_instances c)) c).

Definition start_instance (id : string) : conducting HolochainInstanceError unit :=
  found ← ask (λ c, running_instances c !! id);
  hc ← of_result (ok_or found NoSuchInstance);
  update_instance id hc hc_start.

Definition stop_instance (id : string) : conducting HolochainInstanceError unit :=
  found ← ask (λ c, running_instances c !! id);
  hc ← of_result (ok_or found NoSuchInstance);
  update_instance id hc hc_stop.

(** [start_all_instances]: [collect] stops at the first error. *)
Definition start_all_instances : conducting HolochainInstanceError unit :=
  instances ← ask running_instances;
  ids ← in_order (dom instances);
  each (λ id, match instances !! id with
              | Some hc => update_instance id hc hc_start
              | None => mret tt
              end) ids.

(** [stop_all_instances]: an instance that is not active is no error, a poisoned lock is
    one, and [collect] stops there. *)
Definition stop_all_instances : conducting HolochainInstanceError unit :=
  instances ← ask running_instances;
  ids ← in_order (dom instances);
  each (λ id, match instances !! id with
              | Some hc =>
                  if poisoned hc then fail (InternalFailure (ErrorGeneric "Could not get lock on shutdown"))
                  else match hc_stop hc with
                       | Ok hc => change (λ c, set_instances (<[id := hc]> (running_instances c)) c)
                       | Err _ => mret tt
                       end
              | None => mret tt
              end) ids.

(** [make_cap_request_for_call]: the context signs the call, as its agent. *)
Definition make_cap_request_for_call {E : Type} (ctx : InstanceContext) (token function params : string) :
    conducting E CapabilityRequest :=
  signed ← outside (SignCall ctx function params);
  match (signed : HcResult string) with
  | Ok signature => mret (MkCapabilityRequest token (MkProvenance (ctx_agent_key ctx) signature))
  | Err e => die ("signing should work: " +:+ error_debug e)
  end.

(** [Holochain::call]; the call itself is made by the core of the instance, on the thread of
    the caller until its capability is checked: a signature that cannot be read panics there. *)
Definition hc_call (hc : Holochain) (zome : string) (cap : CapabilityRequest) (function params : string) :
    conducting HolochainInstanceError string :=
  if active hc then
    answer ← outside (CallZome (context hc) zome cap function params);
    match (answer : outcome (HcResult string)) with
    | Done r => of_result (map_err InternalFailure r)
    | Panicked why => die why
    end
  else fail InstanceNotActiveYet.

(** [DpkiInstance for Holochain]; [dpki_cap_request] makes the request with the agent's own
    token. *)
Definition dpki_call (hc : Holochain) (function params : string) : conducting HolochainError string :=
  cap_request ← make_cap_request_for_call (context hc) (ctx_agent_key (context hc)) function params;
  convert of_instance_error (hc_call hc "dpki" cap_request function params).
Definition dpki_create_agent_key (hc : Holochain) (agent_name : string) : conducting HolochainError unit :=
  dpki_call hc "create_agent_key" (json_object "agent_name" agent_name);; mret tt.
Definition dpki_init (hc : Holochain) (params : string) : conducting HolochainError unit :=
  dpki_call hc "init" (json_object "params" params);; mret tt.
Definition dpki_is_initialized (hc : Holochain) : conducting HolochainError bool :=
  answer ← dpki_call hc "is_initialized" "{}";
  of_result (json_bool answer).

(** The lock of an instance is poisoned by a panic while it is held for writing. *)
Definition poison (hc : Holochain) : Holochain := MkHolochain (context hc) (active hc) true.
Definition poison_instance (id : string) (c : Conductor) : Conductor :=
  set_instances (alter poison id (running_instances c)) c.

(** What is done while the lock of an instance is held. *)
Definition while_locked {E A : Type} (id : string) (m : conducting E A) : conducting E A := λ c,
  match m c with
  | (c, Panicked why) => (poison_instance id c, Panicked why)
  | (c, Done r) => (c, Done r)
  end.

(** [self.instances.get(&id)?] with its lock taken for writing, for the rest of the scope. *)
Definition with_locked_instance {A : Type} (id : string) (body : Holochain → conducting HolochainError A) :
    conducting HolochainError A :=
  found ← ask (λ c, running_instances c !! id);
  hc ← of_result (ok_or found none_error);
  if poisoned hc then die "called `Result::unwrap()` on an `Err` value: PoisonError"
  else while_locked id (body hc).

Definition dpki_bootstrap : conducting HolochainError unit :=
  configured ← ask (λ c, dpki (config c));
  match (configured : option DpkiConfiguration) with
  | None => mret tt
  | Some d =>
      with_locked_instance (dpki_instance d) (λ hc,
        initialized ← dpki_is_initialized hc;
        if (initialized : bool) then mret tt else dpki_init hc (dpki_params d))
  end.

(** ** Keystores *)

(** A call on a keystore, which comes back with it. *)
Definition on_keystore {A : Type} (ks : Keystore) (m : keeping A) : conducting HolochainError (Keystore * A) := λ c,
  match m (ks, vault c) with
  | Panicked why => (c, Panicked why)
  | Done ((ks, v), r) => (set_vault v c, Done (a ← r; Ok (ks, a)))
  end.

Definition add_agent_keystore {E : Type} (agent_id : string) (ks : Keystore) : conducting E unit :=
  change (λ c, set_agent_keys (<[agent_id := ks]> (agent_keys c)) c).

(** The default key loader, [load_key]. *)
Definition load_key (path : string) : conducting HolochainError Keystore :=
  contents ← outside (ReadKeystore path);
  text ← of_result contents;
  hash_config ← ask key_hash_config;
  of_result (new_from_file text hash_config).

(** The part of [get_keystore_for_agent] that loads a keystore. *)
Definition load_agent_keystore (agent_id : string) : conducting string unit :=
  found ← ask (λ c, agent_by_id (config c) agent_id);
  agent_config ← of_result (ok_or found ("Agent '" +:+ agent_id +:+ "' not found"));
  if decide (ac_holo_remote_key agent_config = Some true) then fail "agent is holo_remote, no keystore"
  else
    ks ← convert (λ _, HolochainError_fmt (ConfigError ("Could not load keystore " +:+ q +:+
      ac_keystore_file agent_config +:+ q))) (load_key (ac_keystore_file agent_config));
    loaded ← convert HolochainError_fmt (on_keystore ks (get_keybundle PRIMARY_KEYBUNDLE_ID));
    if decide (ac_public_address agent_config ≠ get_id loaded.2) then
      fail ("Key from file '" +:+ ac_keystore_file agent_config +:+ "' ('" +:+ get_id loaded.2 +:+
        "') does not match public address " +:+ ac_public_address agent_config +:+ " mentioned in config!")
    else add_agent_keystore agent_id loaded.1.

Definition get_keystore_for_agent (agent_id : string) : conducting string Keystore :=
  present ← ask (λ c, agent_keys c !! agent_id);
  (match (present : option Keystore) with Some _ => mret tt | None => load_agent_keystore agent_id end);;
  found ← ask (λ c, agent_keys c !! agent_id);
  match (found : option Keystore) with
  | Some ks => mret ks
  | None => die "called `Option::unwrap()` on a `None` value"
  end.

Definition get_keybundle_for_agent (agent_id : string) : conducting string KeyBundle :=
  ks ← get_keystore_for_agent agent_id;
  found ← convert HolochainError_fmt (on_keystore ks (get_keybundle PRIMARY_KEYBUNDLE_ID));
  add_agent_keystore agent_id found.1;;
  mret found.2.

Definition check_load_key_for_agent (agent_id : string) : conducting string unit :=
  found ← ask (λ c, agent_by_id (config c) agent_id);
  if decide (found ≫= ac_holo_remote_key = Some true) then mret tt
  else get_keystore_for_agent agent_id;; mret tt.

(** ** Interfaces *)
Definition make_interface_handler (c : Conductor) (interface : InterfaceConfiguration) : Api :=
  MkApi (filter (λ id, id ∈ if_instances interface) (dom (running_instances c))) (if_admin interface).

(** [make_interface]: the drivers that are implemented. *)
Definition implemented (driver : InterfaceDriver) : bool :=
  match driver with Websocket _ | Http _ => true | DomainSocket _ | Custom _ => false end.

Definition spawn_interface_thread (interface : InterfaceConfiguration) : conducting string channel :=
  dispatcher ← ask (λ c, make_interface_handler c interface);
  if implemented (if_driver interface) then
    ran ← outside (RunInterface (if_driver interface) dispatcher);
    match (ran : result string channel) with
    | Err e => die ("called `Result::unwrap()` on an `Err` value: " +:+ debug_str e)
    | Ok kill_switch =>
        let broadcaster := match if_driver interface with Websocket _ => Ws kill_switch | _ => Noop end in
        change (λ c, set_broadcasters (<[if_id interface := broadcaster]> (interface_broadcasters c)) c);;
        mret kill_switch
    end
  else die "not yet implemented".

Definition start_interface (interface : InterfaceConfiguration) : conducting string unit :=
  threads ← ask interface_threads;
  if decide (is_Some (threads !! if_id interface)) then
    fail ("Interface " +:+ if_id interface +:+ " already started!")
  else
    kill_switch ← spawn_interface_thread interface;
    change (λ c, set_threads (<[if_id interface := kill_switch]> (interface_threads c)) c).

Definition start_interface_by_id (id : string) : conducting string unit :=
  found ← ask (λ c, interface_by_id (config c) id);
  interface ← of_result (ok_or found ("Interface does not exist: " +:+ id));
  start_interface interface.

Definition stop_interface_by_id (id : string) : conducting HolochainError unit :=
  found ← ask (λ c, interface_threads c !! id);
  kill_switch ← of_result (ok_or found (ErrorGeneric ("Interface " +:+ id +:+ " not found.")));
  sent ← outside (Send kill_switch);
  of_result (map_err (λ err, ErrorGeneric ("Error stopping interface: " +:+ err)) sent);;
  change (λ c, set_threads (delete id (interface_threads c)) c).

(** [start_all_interfaces]: the new map replaces the old one when every thread runs. *)
Fixpoint spawn_all (interfaces : list InterfaceConfiguration) (threads : gmap string channel) :
    conducting string (gmap string channel) :=
  match interfaces with
  | [] => mret threads
  | interface :: interfaces =>
      kill_switch ← spawn_interface_thread interface;
      spawn_all interfaces (<[if_id interface := kill_switch]> threads)
  end.
Definition start_all_interfaces : conducting string unit :=
  c ← ask config;
  threads ← spawn_all (interfaces c) ∅;
  change (set_threads threads).

Definition stop_all_interfaces {E : Type} : conducting E unit :=
  threads ← ask interface_threads;
  ids ← in_order (dom threads);
  each (λ id, match threads !! id with
              | Some kill_switch => outside (Send kill_switch);; mret tt
              | None => mret tt
              end) ids.

(** ** Signals *)
Inductive Signal := Trace | User.

(** What the signal thread does with a signal, given the configuration it was started
    with. *)
Definition interfaces_with_instance (c : Configuration) (instance_id : string) (signal : Signal) :
    list InterfaceConfiguration :=
  match signal with
  | Trace => if expose_trace_signals c then filter (λ f, if_admin f = true) (interfaces c) else []
  | User => filter (λ f, instance_id ∈ if_instances f) (interfaces c)
  end.
Definition receivers_of_signal (c : Conductor) (instance_id : string) (signal : Signal) : list Broadcaster :=
  match multiplexer c with
  | Some captured =>
      if decide (instance_id ∈ instance_signal_receivers c) then
        omap (λ f, interface_broadcasters c !! if_id f) (interfaces_with_instance captured instance_id signal)
      else []
  | None => []
  end.
Definition start_signal_multiplexer {E : Type} : conducting E unit :=
  change (λ c, set_multiplexer (Some (config c)) c).

(** ** User interfaces *)
Definition server_from_configs (ui : UiInterfaceConfiguration) (bundle : UiBundleConfiguration)
    (dna_interface : option InterfaceConfiguration) : StaticServer :=
  MkStaticServer None ui bundle dna_interface false.

Definition server_start {E : Type} (id : string) (server : StaticServer) : conducting E unit :=
  signal ← outside (ServeStatic (ui_port (ss_config server)) (ub_root_dir (ss_bundle server)) (ss_dna_interface server));
  change (λ c, set_servers (<[id := MkStaticServer (Some signal) (ss_config server) (ss_bundle server)
    (ss_dna_interface server) true]> (static_servers c)) c).

Definition server_stop (id : string) (server : StaticServer) : conducting HolochainInstanceError unit :=
  match shutdown_signal server with
  | Some signal =>
      sent ← outside (Send signal);
      of_result (map_err (λ e, InternalFailure (ErrorGeneric e)) sent);;
      change (λ c, set_servers (<[id := MkStaticServer None (ss_config server) (ss_bundle server)
        (ss_dna_interface server) false]> (static_servers c)) c)
  | None => fail (InternalFailure (ErrorGeneric "server is already stopped"))
  end.

Definition start_all_static_servers : conducting string unit :=
  servers ← ask static_servers;
  ids ← in_order (dom servers);
  each (λ id, match servers !! id with Some server => server_start id server | None => mret tt end) ids.

(** ** Booting *)
Definition shutdown {E : Type} : conducting E unit :=
  _ ← (attempt stop_all_instances : conducting E (result HolochainInstanceError unit));
  stop_all_interfaces;;
  change (set_multiplexer None);;
  change (set_instances ∅).

Definition get_p2p_config (c : Conductor) : P2pConfig :=
  default (MemoryBackend "conductor-default-mock") (p2p_config c).

Definition spawn_network : conducting HolochainError SpawnResult :=
  found ← ask (λ c, network (config c));
  network_config ← of_result (ok_or found (ErrorGeneric "attempt to spawn network when not configured"));
  spawned ← outside (SpawnNetwork network_config);
  of_result (map_err ErrorGeneric spawned).

Definition initialize_p2p_config {E : Type} : conducting E P2pConfig :=
  found ← ask (λ c, network (config c));
  match (found : option NetworkConfig) with
  | None => mret UniqueMemoryBackend
  | Some net_config =>
      uri ← match n3h_ipc_uri net_config ≫= (λ v, if decide (v = "") then None else Some v) with
            | Some uri => mret (Some uri)
            | None =>
                spawned ← attempt spawn_network;
                change (set_spawn (ok (spawned : HcResult SpawnResult)));;
                ask (λ c, ipc_binding <$> network_spawn c)
            end;
      mret (IpcUri uri (bootstrap_nodes net_config) (networking_config_file net_config))
  end.

(** The key an instance signs with: the configured one of a remote agent, or the one of the
    agent's keystore. *)
Definition is_remote (agent : AgentConfiguration) : bool := bool_decide (ac_holo_remote_key agent = Some true).
Definition agent_key (instance : InstanceConfiguration) (agent : AgentConfiguration) : conducting string string :=
  if is_remote agent then mret (ac_public_address agent)
  else keybundle ← get_keybundle_for_agent (ic_agent instance); mret (get_id keybundle).

Definition open_storage (storage : StorageConfiguration) : conducting string unit :=
  match storage with
  | MemoryStorage => mret tt
  | FileStorage _ | PickleStorage _ =>
      opened ← outside (OpenStorage storage);
      of_result (map_err (λ e, "Error creating context: " +:+ HolochainError_fmt e) opened)
  end.

(** The signing callback of an instance. *)
Definition prepare_signing (instance : InstanceConfiguration) (agent : AgentConfiguration) : conducting string unit :=
  if is_remote agent then
    uri ← ask (λ c, signing_service_uri (config c));
    match (uri : option string) with
    | Some _ => mret tt
    | None => die "holo_remote_key needs signing_service_uri set"
    end
  else get_keybundle_for_agent (ic_agent instance);; get_keystore_for_agent (ic_agent instance);; mret tt.

(** The instances that an instance calls through bridges. *)
Fixpoint connect_bridges (c : Configuration) (bridges : list Bridge) : conducting string (list (string * string)) :=
  match bridges with
  | [] => mret []
  | bridge :: bridges =>
      match instance_by_id c (callee_id bridge) with
      | None => die "config.check_consistency()? jumps out if config is broken"
      | Some _ =>
          callee ← ask (λ s, running_instances s !! callee_id bridge);
          match (callee : option Holochain) with
          | None => die "We have to create instances ordered by bridge dependencies"
          | Some _ => rest ← connect_bridges c bridges; mret ((handle bridge, callee_id bridge) :: rest)
          end
      end
  end.

Definition load_or_new (dna : Dna) (ctx : InstanceContext) : conducting string unit :=
  loaded ← outside (LoadInstance ctx);
  match (loaded : HcResult unit) with
  | Ok _ => mret tt
  | Err _ => new ← outside (NewInstance dna ctx); of_result (map_err instance_error_fmt new)
  end.

Definition instantiate_from_config (id : string) (c : Configuration) : conducting string Holochain :=
  consistent_or_error (λ e, e) c;;
  instance ← of_result (ok_or (instance_by_id c id) "Instance not found in config");
  match agent_by_id c (ic_agent instance) with
  | None => die "called `Option::unwrap()` on a `None` value"
  | Some agent =>
      key ← agent_key instance agent;
      p2p ← ask get_p2p_config;
      change (λ s, set_receivers ({[ic_id instance]} ∪ instance_signal_receivers s) s);;
      open_storage (ic_storage instance);;
      prepare_signing instance agent;;
      bridges ← connect_bridges c (bridge_dependencies c (ic_id instance));
      match dna_by_id c (ic_dna instance) with
      | None => die "called `Option::unwrap()` on a `None` value"
      | Some dna_config =>
          loaded ← outside (LoadDna (dc_file dna_config));
          dna ← of_result (map_err (λ _, HolochainError_fmt (ConfigError ("Could not load DNA file " +:+ q +:+
            dc_file dna_config +:+ q))) loaded);
          let ctx := MkInstanceContext (ic_id instance) (ac_name agent) key p2p (ic_storage instance) bridges in
          load_or_new dna ctx;;
          mret (MkHolochain ctx false false)
      end
  end.

(** One turn of the loop that creates the instances. *)
Definition boot_instance (c : Configuration) (id : string) : conducting string unit :=
  instance ← convert (λ error, "Error while trying to create instance " +:+ q +:+ id +:+ q +:+ ": " +:+ error)
    (instantiate_from_config id c);
  change (λ s, set_instances (<[id := instance]> (running_instances s)) s).

Definition boot_ui_interface (c : Configuration) (ui : UiInterfaceConfiguration) : conducting string unit :=
  bundle ← of_result (ok_or (ui_bundle_by_id c (ui_bundle ui)) ("UI interface " +:+ ui_id ui +:+
    " references bundle with id " +:+ ui_bundle ui +:+ " but no such bundle found"));
  dna_interface ←
    match ui_dna_interface ui with
    | None => mret None
    | Some interface_id =>
        match interface_by_id c interface_id with
        | Some interface => mret (Some interface)
        | None => die "called `Option::unwrap()` on a `None` value"
        end
    end;
  change (λ s, set_servers (<[ui_id ui := server_from_configs ui bundle dna_interface]> (static_servers s)) s).

Definition boot_from_config : conducting string unit :=
  c ← ask config;
  consistent_or_error (λ e, e) c;;
  p2p ← ask p2p_config;
  (match (p2p : option P2pConfig) with
   | Some _ => mret tt
   | None => p2p ← initialize_p2p_config; change (set_p2p (Some p2p))
   end);;
  c ← ask config;
  shutdown;;
  start_signal_multiplexer;;
  ids ← convert HolochainError_fmt (of_outcome (instance_ids_sorted_by_bridge_dependencies c));
  each (boot_instance c) ids;;
  each (boot_ui_interface c) (ui_interfaces c);;
  convert HolochainError_fmt dpki_bootstrap.
End conductor.
