(* ===== verification/ConductorAdmin.v ===== *)
(** * Administration of a conductor

    [conductor_api/src/conductor/admin.rs] and [ui_admin.rs]: the operations
    that change the configuration of a conductor while it runs. *)
From S2P Require Import Prelude Errors Entries Sodium Keys Keystore Config Conductor.

Section admin.
Context `{Sodium, Hcid, BlobText, PassphraseService, KeystoreText, Outside, Petgraph}.

(** [new_config.check_consistency()?; self.config = new_config; self.save_config()?]. *)
Definition adopt_config (new_config : Configuration) : conducting HolochainError unit :=
  consistent_or_error ErrorGeneric new_config;;
  change (set_config new_config);;
  save_config.

(** ** DNAs *)
Definition install_dna_from_file (path id : string) (copy : bool) (expected_hash properties : option string) :
    conducting HolochainError string :=
  loaded ← outside (LoadDna path);
  dna ← of_result (map_err (λ e, ConfigError ("Could not load DNA file " +:+ q +:+ path +:+ q +:+ ", Error: " +:+
    HolochainError_fmt e)) loaded);
  (match expected_hash with
   | Some provided_hash =>
       if decide (dna_address dna ≠ provided_hash) then fail (DnaHashMismatch provided_hash (dna_address dna))
       else mret tt
   | None => mret tt
   end);;
  dna ← match properties with
        | Some props =>
            if copy then
              mret (MkDna (dna_name dna) (dna_description dna) (dna_version dna) (dna_uuid dna)
                (dna_spec_version dna) (json_merge (dna_properties dna) props) (dna_zomes dna))
            else fail (ConfigError "Cannot install DNA with properties unless copy flag is true")
        | None => mret dna
        end;
  config_path ← if copy then save_dna dna else mret path;
  c ← ask config;
  adopt_config (with_dnas (dnas c ++ [MkDnaConfiguration id config_path (Some (dna_address dna))]) c);;
  mret (dna_address dna).

(** The configuration without some instances, and these instances stopped. *)
Definition remove_instances (ids : list string) (c : Configuration) : Configuration :=
  foldl save_remove_instance c ids.
Definition stop_instances (ids : list string) : conducting HolochainError unit :=
  each (λ id, _ ← (attempt (stop_instance id) : conducting _ (result HolochainInstanceError unit)); mret tt) ids.

Definition uninstall_dna (id : string) : conducting HolochainError unit :=
  c ← ask config;
  let c := with_dnas (filter (λ dna, dc_id dna ≠ id) (dnas c)) c in
  let ids := ic_id <$> filter (λ i, ic_dna i = id) (instances c) in
  adopt_config (remove_instances ids c);;
  stop_instances ids.

(** ** Instances *)
Definition add_instance (id dna_id agent_id : string) : conducting HolochainError unit :=
  c ← ask config;
  let storage_path := join (instance_storage_dir_path c) id in
  made ← outside (CreateDirAll storage_path);
  of_result (map_err IoError made);;
  let new_config :=
    with_instances (instances c ++ [MkInstanceConfiguration id dna_id agent_id (PickleStorage storage_path)]) c in
  consistent_or_error ErrorGeneric new_config;;
  instance ← convert ErrorGeneric (instantiate_from_config id new_config);
  change (λ s, set_instances (<[id := instance]> (running_instances s)) s);;
  change (set_config new_config);;
  save_config.

Definition remove_instance (id : string) : conducting HolochainError unit :=
  c ← ask config;
  adopt_config (save_remove_instance c id);;
  stop_instances [id];;
  change (λ s, set_instances (delete id (running_instances s)) s).

(** ** Interfaces *)
Definition add_interface (interface : InterfaceConfiguration) : conducting HolochainError unit :=
  c ← ask config;
  if decide (if_id interface ∈ if_id <$> interfaces c) then
    fail (ErrorGeneric ("Interface with ID '" +:+ if_id interface +:+ "' already exists"))
  else
    adopt_config (with_interfaces (interfaces c ++ [interface]) c);;
    convert ErrorGeneric (start_interface_by_id (if_id interface)).

Definition remove_interface (id : string) : conducting HolochainError unit :=
  c ← ask config;
  if decide (id ∉ if_id <$> interfaces c) then fail (ErrorGeneric ("No such interface: '" +:+ id +:+ "'"))
  else
    adopt_config (with_interfaces (filter (λ f, if_id f ≠ id) (interfaces c)) c);;
    _ ← (attempt (stop_interface_by_id id) : conducting _ (HcResult unit));
    mret tt.

(** [let _ = self.stop_interface_by_id(id); self.start_interface_by_id(id)?]. *)
Definition restart_interface (id : string) : conducting HolochainError unit :=
  _ ← (attempt (stop_interface_by_id id) : conducting _ (HcResult unit));
  convert ErrorGeneric (start_interface_by_id id).

(** The interfaces with the instances of one of them changed. *)
Definition update_interface (id : string) (f : list string → list string) (l : list InterfaceConfiguration) :
    list InterfaceConfiguration :=
  (λ i, if decide (if_id i = id) then MkInterfaceConfiguration (if_id i) (if_driver i) (if_admin i) (f (if_instances i))
        else i) <$> l.

Definition add_instance_to_interface (interface_id instance_id : string) : conducting HolochainError unit :=
  c ← ask config;
  interface ← of_result (ok_or (interface_by_id c interface_id)
    (ErrorGeneric ("Interface with ID " +:+ interface_id +:+ " not found")));
  if decide (instance_id ∈ if_instances interface) then
    fail (ErrorGeneric ("Instance '" +:+ instance_id +:+ "' already in interface '" +:+ interface_id +:+ "'"))
  else
    adopt_config (with_interfaces (update_interface interface_id (λ l, l ++ [instance_id]) (interfaces c)) c);;
    restart_interface interface_id.

Definition remove_instance_from_interface (interface_id instance_id : string) : conducting HolochainError unit :=
  c ← ask config;
  interface ← of_result (ok_or (interface_by_id c interface_id)
    (ErrorGeneric ("Interface with ID " +:+ interface_id +:+ " not found")));
  if decide (instance_id ∉ if_instances interface) then
    fail (ErrorGeneric ("No Instance '" +:+ instance_id +:+ "' in interface '" +:+ interface_id +:+ "'"))
  else
    adopt_config (with_interfaces
      (update_interface interface_id (λ l, filter (λ i, i ≠ instance_id) l) (interfaces c)) c);;
    restart_interface interface_id.

(** ** Agents *)

(** [Keystore::new] and [Keystore::new_standalone]. *)
Definition with_vault {A : Type} (m : Vault → outcome (Vault * HcResult A)) : conducting HolochainError A := λ c,
  match m (vault c) with
  | Panicked why => (c, Panicked why)
  | Done (v, r) => (set_vault v c, Done r)
  end.

(** The keystore of a new agent whose key the DPKI application makes. *)
Definition new_dpki_keystore (d : DpkiConfiguration) (id name : string) : conducting HolochainError (Keystore * string) :=
  hash_config ← ask key_hash_config;
  keystore ← with_vault (Keystore_new hash_config);
  with_locked_instance (dpki_instance d) (λ hc, dpki_create_agent_key hc name);;
  dpki_keystore ← convert ErrorGeneric (get_keystore_for_agent (dpki_instance d));
  found ← on_keystore dpki_keystore (get_keybundle id);
  add_agent_keystore (dpki_instance d) found.1;;
  added ← on_keystore keystore (add_keybundle PRIMARY_KEYBUNDLE_ID found.2);
  mret (added.1, get_id found.2).

(** The file of the new agent's keystore and its public address. *)
Definition make_agent_key (id name : string) (holo_remote_key : option string) :
    conducting HolochainError (string * string) :=
  match holo_remote_key with
  | Some public_address => mret ("::ignored::", public_address)
  | None =>
      c ← ask config;
      made ← match Config.dpki c with
             | Some d => new_dpki_keystore d id name
             | None => hash_config ← ask key_hash_config; with_vault (new_standalone hash_config)
             end;
      let '(keystore, public_address) := (made : Keystore * string) in
      let keystore_file := join (instance_storage_dir_path c) public_address in
      dir ← outside (CreateDirAll (instance_storage_dir_path c));
      of_result (map_err IoError dir);;
      file ← outside (CreateFile keystore_file);
      of_result (map_err IoError file);;
      written ← outside (WriteFile keystore_file (save keystore));
      of_result (map_err IoError written);;
      add_agent_keystore id keystore;;
      mret (keystore_file, public_address)
  end.

Definition add_agent (id name : string) (holo_remote_key : option string) : conducting HolochainError string :=
  c ← ask config;
  if decide (id ∈ ac_id <$> agents c) then
    fail (ErrorGeneric ("Agent with ID '" +:+ id +:+ "' already exists"))
  else
    key ← make_agent_key id name holo_remote_key;
    adopt_config (with_agents
      (agents c ++ [MkAgentConfiguration id name key.2 key.1 ((λ _, true) <$> holo_remote_key)]) c);;
    mret key.2.

Definition remove_agent (id : string) : conducting HolochainError unit :=
  c ← ask config;
  if decide (id ∉ ac_id <$> agents c) then
    fail (ErrorGeneric ("Agent with ID '" +:+ id +:+ "' does not exist"))
  else
    let c := with_agents (filter (λ agent, ac_id agent ≠ id) (agents c)) c in
    let ids := ic_id <$> filter (λ i, ic_agent i = id) (instances c) in
    adopt_config (remove_instances ids c);;
    stop_instances ids.

(** ** Bridges *)
Definition same_bridge (caller callee : string) (b : Bridge) : Prop := caller_id b = caller ∧ callee_id b = callee.
#[global] Instance same_bridge_dec caller callee b : Decision (same_bridge caller callee b).
Proof. unfold same_bridge. apply _. Defined.

Definition add_bridge (new_bridge : Bridge) : conducting HolochainError unit :=
  c ← ask config;
  if decide (Exists (same_bridge (caller_id new_bridge) (callee_id new_bridge)) (bridges c)) then
    fail (ErrorGeneric ("Bridge from instance '" +:+ caller_id new_bridge +:+ "' to instance '" +:+
      callee_id new_bridge +:+ "' already exists"))
  else adopt_config (with_bridges (bridges c ++ [new_bridge]) c).

Definition remove_bridge (caller callee : string) : conducting HolochainError unit :=
  c ← ask config;
  if decide (Exists (same_bridge caller callee) (bridges c)) then
    adopt_config (with_bridges (filter (λ b, ¬ same_bridge caller callee b) (bridges c)) c)
  else
    fail (ErrorGeneric ("Bridge from instance '" +:+ caller +:+ "' to instance '" +:+ callee +:+ "' does not exist")).

(** ** User interfaces *)
Definition start_ui_interface (id : string) : conducting HolochainInstanceError unit :=
  found ← ask (λ c, static_servers c !! id);
  server ← of_result (ok_or found NoSuchInstance);
  server_start id server.

Definition stop_ui_interface (id : string) : conducting HolochainInstanceError unit :=
  found ← ask (λ c, static_servers c !! id);
  server ← of_result (ok_or found NoSuchInstance);
  server_stop id server.

Definition install_ui_bundle_from_file (path id : string) (copy : bool) : conducting HolochainError unit :=
  c ← ask config;
  root_dir ←
    (if copy then
       let dest := join (join (persistence_dir c) "static") id in
       copied ← outside (CopyUiDir path dest);
       of_result (map_err (λ e, ErrorGeneric ("Error copying DNA from " +:+ path +:+ " to " +:+ dest +:+ ": " +:+
         HolochainError_fmt e)) copied);;
       mret dest
     else mret path);
  adopt_config (with_ui_bundles (ui_bundles c ++ [MkUiBundleConfiguration id root_dir None]) c).

Definition add_ui_interface (new_interface : UiInterfaceConfiguration) : conducting HolochainError unit :=
  c ← ask config;
  let new_config := with_ui_interfaces (ui_interfaces c ++ [new_interface]) c in
  adopt_config new_config;;
  match ui_bundle_by_id new_config (ui_bundle new_interface) with
  | None => die "called `Option::unwrap()` on a `None` value"
  | Some bundle =>
      change (λ s, set_servers (<[ui_id new_interface := server_from_configs new_interface bundle None]>
        (static_servers s)) s)
  end.

Definition remove_ui_interface (id : string) : conducting HolochainError unit :=
  c ← ask config;
  each (λ ui, _ ← (attempt (stop_ui_interface (ui_id ui)) : conducting _ (result HolochainInstanceError unit)); mret tt)
    (filter (λ ui, ui_id ui = id) (ui_interfaces c));;
  adopt_config (with_ui_interfaces (filter (λ ui, ui_id ui ≠ id) (ui_interfaces c)) c);;
  found ← ask (λ s, static_servers s !! id);
  change (λ s, set_servers (delete id (static_servers s)) s);;
  of_result (ok_or found (ErrorGeneric "Could not remove server"));;
  mret tt.

(** [uninstall_ui_bundle]: the new configuration is made before the interfaces are removed. *)
Definition uninstall_ui_bundle (id : string) : conducting HolochainError unit :=
  c ← ask config;
  let new_config := with_ui_bundles (filter (λ bundle, ub_id bundle ≠ id) (ui_bundles c)) c in
  if decide (length (ui_bundles new_config) = length (ui_bundles c)) then
    fail (ConfigError ("No UI bundles match the given ID " +:+ q +:+ id +:+ q))
  else
    each (λ ui, remove_ui_interface (ui_id ui)) (filter (λ ui, ui_bundle ui = id) (ui_interfaces new_config));;
    adopt_config new_config.

(** ** All of it *)
Inductive AdminOp :=
| InstallDna (path id : string) (copy : bool) (expected_hash properties : option string)
| UninstallDna (id : string)
| AddInstance (id dna_id agent_id : string)
| RemoveInstance (id : string)
| StartInstance (id : string)
| StopInstance (id : string)
| AddInterface (interface : InterfaceConfiguration)
| RemoveInterface (id : string)
| AddInstanceToInterface (interface_id instance_id : string)
| RemoveInstanceFromInterface (interface_id instance_id : string)
| AddAgent (id name : string) (holo_remote_key : option string)
| RemoveAgent (id : string)
| AddBridge (bridge : Bridge)
| RemoveBridge (caller callee : string)
| InstallUiBundle (path id : string) (copy : bool)
| UninstallUiBundle (id : string)
| AddUiInterface (interface : UiInterfaceConfiguration)
| RemoveUiInterface (id : string)
| StartUiInterface (id : string)
| StopUiInterface (id : string).

Definition discard {E F A : Type} (f : E → F) (m : conducting E A) : conducting F unit := convert f m;; mret tt.

(** An operation of the traits [ConductorAdmin] and [ConductorUiAdmin], without its result. *)
Definition perform_admin (op : AdminOp) : conducting HolochainError unit :=
  match op with
  | InstallDna path id copy expected properties =>
      discard (λ e, e) (install_dna_from_file path id copy expected properties)
  | UninstallDna id => uninstall_dna id
  | AddInstance id dna_id agent_id => add_instance id dna_id agent_id
  | RemoveInstance id => remove_instance id
  | StartInstance id => discard of_instance_error (start_instance id)
  | StopInstance id => discard of_instance_error (stop_instance id)
  | AddInterface interface => add_interface interface
  | RemoveInterface id => remove_interface id
  | AddInstanceToInterface interface_id instance_id => add_instance_to_interface interface_id instance_id
  | RemoveInstanceFromInterface interface_id instance_id => remove_instance_from_interface interface_id instance_id
  | AddAgent id name remote => discard (λ e, e) (add_agent id name remote)
  | RemoveAgent id => remove_agent id
  | AddBridge bridge => add_bridge bridge
  | RemoveBridge caller callee => remove_bridge caller callee
  | InstallUiBundle path id copy => install_ui_bundle_from_file path id copy
  | UninstallUiBundle id => uninstall_ui_bundle id
  | AddUiInterface interface => add_ui_interface interface
  | RemoveUiInterface id => remove_ui_interface id
  | StartUiInterface id => discard of_instance_error (start_ui_interface id)
  | StopUiInterface id => discard of_instance_error (stop_ui_interface id)
  end.
End admin.
