(* ===== verification/ConductorFacts.v ===== *)
(** * Facts about conductors

    What the operations of a conductor leave alone, and that the administration keeps the
    configuration consistent and every configured instance in memory, whatever the outside
    answers and also where an operation fails or panics. *)
From S2P Require Import Prelude Errors Entries Sodium Keys Keystore Config ConfigFacts Conductor ConductorAdmin.

Create HintDb conductor.

Section facts.
Context `{Sodium, Hcid, BlobText, PassphraseService, KeystoreText, Outside, Petgraph}.

(** ** Frames *)

(** Every outcome of [m] leaves a state that is related to the one it started in. *)
Definition frame {E A : Type} (R : relation Conductor) (m : conducting E A) : Prop := ∀ s, R s (m s).1.

Section frames.
Context (R : relation Conductor) `{!PreOrder R}.

Lemma frame_ret {E A : Type} (a : A) : frame R (mret a : conducting E A).
Proof. intros s. reflexivity. Qed.
Lemma frame_ask {E A : Type} (f : Conductor → A) : frame R (ask f : conducting E A).
Proof. intros s. reflexivity. Qed.
Lemma frame_fail {E A : Type} (e : E) : frame R (fail e : conducting E A).
Proof. intros s. reflexivity. Qed.
Lemma frame_die {E A : Type} why : frame R (die why : conducting E A).
Proof. intros s. reflexivity. Qed.
Lemma frame_of_result {E A : Type} (r : result E A) : frame R (of_result r).
Proof. intros s. reflexivity. Qed.
Lemma frame_of_outcome {E A : Type} (o : outcome (result E A)) : frame R (of_outcome o).
Proof. intros s. reflexivity. Qed.
Lemma frame_in_order {E : Type} keys : frame R (in_order keys : conducting E _).
Proof. intros s. reflexivity. Qed.
Lemma frame_change {E : Type} f : (∀ s, R s (f s)) → frame R (change f : conducting E unit).
Proof. intros Hf s. apply Hf. Qed.

Lemma frame_bind {E A B : Type} (m : conducting E A) (f : A → conducting E B) :
  frame R m → (∀ a, frame R (f a)) → frame R (m ≫= f).
Proof.
  intros Hm Hf s. unfold mbind, conducting_bind. specialize (Hm s).
  destruct (m s) as [s1 [[a|e]|why]]; simpl in *; [|done..]. by etrans; [|apply Hf].
Qed.

Lemma frame_convert {E F A : Type} (g : E → F) (m : conducting E A) : frame R m → frame R (convert g m).
Proof. intros Hm s. specialize (Hm s). unfold convert. by destruct (m s) as [s1 []]. Qed.

Lemma frame_attempt {E F A : Type} (m : conducting E A) : frame R m → frame R (attempt m : conducting F _).
Proof. intros Hm s. specialize (Hm s). unfold attempt. by destruct (m s) as [s1 []]. Qed.

Lemma frame_while_locked {E A : Type} id (m : conducting E A) :
  (∀ s, R s (poison_instance id s)) → frame R m → frame R (while_locked id m).
Proof.
  intros Hp Hm s. specialize (Hm s). unfold while_locked. destruct (m s) as [s1 []]; simpl in *; [done|].
  by etrans; [|apply Hp].
Qed.

Lemma frame_each {E A : Type} (body : A → conducting E unit) xs :
  (∀ x, frame R (body x)) → frame R (each body xs).
Proof. intros Hb. induction xs as [|x xs IH]; simpl; [apply frame_ret|by apply frame_bind]. Qed.
End frames.

(** The configuration and the set of instances in memory stay. *)
Definition quiet : relation Conductor := λ s s',
  config s' = config s ∧ dom (running_instances s') = dom (running_instances s).

#[global] Instance quiet_preorder : PreOrder quiet.
Proof. split; [done|]. intros s1 s2 s3 [] []. split; congruence. Qed.

Lemma quiet_outside {E A : Type} (call : Call A) : frame quiet (outside call : conducting E A).
Proof. intros s. unfold outside. by destruct (answer call (world s)). Qed.

Lemma quiet_on_keystore {A : Type} ks (m : keeping A) : frame quiet (on_keystore ks m).
Proof. intros s. unfold on_keystore. by destruct (m (ks, vault s)) as [[[] ]|]. Qed.

Lemma quiet_with_vault {A : Type} (m : Vault → outcome (Vault * HcResult A)) : frame quiet (with_vault m).
Proof. intros s. unfold with_vault. by destruct (m (vault s)) as [[]|]. Qed.

(** An instance that is in memory may be replaced. *)
Lemma quiet_update id hc f s : id ∈ dom (running_instances s) → quiet s (update_instance id hc f s).1.
Proof.
  intros Hid. unfold update_instance. destruct (poisoned hc); [done|]. unfold mbind, conducting_bind, of_result.
  destruct (f hc); [|done]. split; [done|]. simpl. rewrite dom_insert_L. set_solver.
Qed.

Lemma quiet_poison id s : quiet s (poison_instance id s).
Proof. split; [done|]. apply dom_alter_L. Qed.

Lemma quiet_on_instance id f :
  frame quiet (found ← ask (λ c, running_instances c !! id); hc ← of_result (ok_or found NoSuchInstance);
    update_instance id hc f).
Proof.
  intros s. unfold mbind, conducting_bind, ask, of_result. destruct (running_instances s !! id) as [hc|] eqn:E; [|done].
  apply quiet_update. by apply elem_of_dom.
Qed.
End facts.

(** Splits a sequence of operations into its calls, and solves those that are known. *)
Ltac framed :=
  repeat (cbv zeta; first
    [ apply frame_ret; apply _ | apply frame_ask; apply _ | apply frame_fail; apply _ | apply frame_die; apply _
    | apply frame_of_result; apply _ | apply frame_of_outcome; apply _ | apply frame_in_order; apply _
    | solve [eauto with conductor]
    | apply frame_bind; [apply _| |intros ?] | apply frame_convert | apply frame_attempt
    | apply frame_each; [apply _|intros ?]
    | apply frame_while_locked; [apply _|solve [eauto with conductor]|]
    | match goal with |- frame _ (match ?x with _ => _ end) => destruct x end
    | apply frame_change; intros ?; solve [done | by split] ]).

#[export] Hint Resolve quiet_outside quiet_on_keystore quiet_with_vault quiet_on_instance quiet_poison : conductor.

Section quiet.
Context `{Sodium, Hcid, BlobText, PassphraseService, KeystoreText, Outside, Petgraph}.

Lemma quiet_check {E : Type} (f : string → E) c : frame quiet (consistent_or_error f c).
Proof. unfold consistent_or_error. framed. Qed.
Hint Resolve quiet_check : conductor.

Lemma quiet_save_config : frame quiet save_config.
Proof. unfold save_config. framed. Qed.
Lemma quiet_save_dna dna : frame quiet (save_dna dna).
Proof. unfold save_dna. framed. Qed.
Lemma quiet_start_instance id : frame quiet (start_instance id).
Proof. apply quiet_on_instance. Qed.
Lemma quiet_stop_instance id : frame quiet (stop_instance id).
Proof. apply quiet_on_instance. Qed.
Hint Resolve quiet_save_config quiet_save_dna quiet_start_instance quiet_stop_instance : conductor.

Lemma quiet_stop_instances ids : frame quiet (stop_instances ids).
Proof. unfold stop_instances. framed. Qed.
Lemma quiet_create_agent_key id name : frame quiet (with_locked_instance id (λ hc, dpki_create_agent_key hc name)).
Proof. unfold with_locked_instance, dpki_create_agent_key, dpki_call, make_cap_request_for_call, hc_call. framed. Qed.
Lemma quiet_dpki_bootstrap : frame quiet dpki_bootstrap.
Proof.
  unfold dpki_bootstrap, with_locked_instance, dpki_is_initialized, dpki_init, dpki_call, make_cap_request_for_call, hc_call.
  framed.
Qed.
Hint Resolve quiet_stop_instances quiet_create_agent_key quiet_dpki_bootstrap : conductor.

Lemma quiet_keystore agent_id : frame quiet (get_keystore_for_agent agent_id).
Proof. unfold get_keystore_for_agent, load_agent_keystore, load_key, add_agent_keystore. framed. Qed.
Hint Resolve quiet_keystore : conductor.
Lemma quiet_keybundle agent_id : frame quiet (get_keybundle_for_agent agent_id).
Proof. unfold get_keybundle_for_agent, add_agent_keystore. framed. Qed.
Hint Resolve quiet_keybundle : conductor.

Lemma quiet_start_interface_by_id id : frame quiet (start_interface_by_id id).
Proof. unfold start_interface_by_id, start_interface, spawn_interface_thread. framed. Qed.
Lemma quiet_stop_interface_by_id id : frame quiet (stop_interface_by_id id).
Proof. unfold stop_interface_by_id. framed. Qed.
Hint Resolve quiet_start_interface_by_id quiet_stop_interface_by_id : conductor.

Lemma quiet_restart id : frame quiet (restart_interface id).
Proof. unfold restart_interface. framed. Qed.
Lemma quiet_start_ui id : frame quiet (start_ui_interface id).
Proof. unfold start_ui_interface, server_start. framed. Qed.
Lemma quiet_stop_ui id : frame quiet (stop_ui_interface id).
Proof. unfold stop_ui_interface, server_stop. framed. Qed.
Lemma quiet_make_agent_key id name remote : frame quiet (make_agent_key id name remote).
Proof. unfold make_agent_key, new_dpki_keystore, add_agent_keystore. framed. Qed.
Hint Resolve quiet_restart quiet_start_ui quiet_stop_ui quiet_make_agent_key : conductor.

Lemma quiet_connect c bridges : frame quiet (connect_bridges c bridges).
Proof. induction bridges; simpl; framed. Qed.
Hint Resolve quiet_connect : conductor.
Lemma quiet_instantiate id c : frame quiet (instantiate_from_config id c).
Proof.
  unfold instantiate_from_config, agent_key, open_storage, prepare_signing, load_or_new. framed.
Qed.
End quiet.

#[export] Hint Resolve quiet_check quiet_save_config quiet_save_dna quiet_start_instance quiet_stop_instance
  quiet_stop_instances quiet_create_agent_key quiet_dpki_bootstrap quiet_keystore quiet_keybundle
  quiet_start_interface_by_id quiet_stop_interface_by_id quiet_restart quiet_start_ui quiet_stop_ui
  quiet_make_agent_key quiet_connect quiet_instantiate : conductor.

(** ** The invariant of a conductor that has booted *)
Section invariant.
Context `{Sodium, Hcid, BlobText, PassphraseService, KeystoreText, Outside, Petgraph}.

Definition ids_of (c : Configuration) : gset string := list_to_set (ic_id <$> instances c).

(** The configuration is consistent and each of its instances is in memory. *)
Definition booted (s : Conductor) : Prop := consistent (config s) ∧ ids_of (config s) ⊆ dom (running_instances s).

(** The invariant, and that no instance of [D] leaves the memory. *)
Definition keeps {E A : Type} (D : gset string) (m : conducting E A) : Prop :=
  ∀ s, booted s → D ⊆ dom (running_instances s) → booted (m s).1 ∧ D ⊆ dom (running_instances (m s).1).

Lemma keeps_quiet {E A : Type} D (m : conducting E A) : frame quiet m → keeps D m.
Proof. intros Hm s [Hc Hi] Hd. destruct (Hm s) as [E1 E2]. unfold booted. by rewrite E1, E2. Qed.

Lemma booted_bind {E A B : Type} D (m : conducting E A) (f : A → conducting E B) :
  keeps D m → (∀ a, keeps D (f a)) → keeps D (m ≫= f).
Proof.
  intros Hm Hf s Hb Hd. specialize (Hm s Hb Hd). unfold mbind, conducting_bind.
  destruct (m s) as [s1 [[a|e]|why]]; simpl in *; [|done..]. destruct Hm; by apply Hf.
Qed.

Lemma keeps_convert {E F A : Type} D (g : E → F) (m : conducting E A) : keeps D m → keeps D (convert g m).
Proof. intros Hm s Hb Hd. specialize (Hm s Hb Hd). unfold convert. by destruct (m s) as [s1 []]. Qed.

Lemma booted_each {E A : Type} D (body : A → conducting E unit) xs :
  (∀ x, keeps D (body x)) → keeps D (each body xs).
Proof. intros Hb. induction xs; simpl; [by intros s|by apply booted_bind]. Qed.

(** Reading the configuration, one learns that its instances are in memory. *)
Lemma keeps_ask_config {E A : Type} D (f : Configuration → conducting E A) :
  (∀ c, keeps (D ∪ ids_of c) (f c)) → keeps D (ask config ≫= f).
Proof.
  intros Hf s Hb Hd. destruct (Hf (config s) s Hb) as [Hb' Hd']; [destruct Hb; set_solver|].
  unfold mbind, conducting_bind, ask. split; [done|set_solver].
Qed.

(** A check that passes says that the configuration is consistent, and changes nothing. *)
Lemma check_cases {E : Type} (f : string → E) c s :
  (consistent_or_error f c s = (s, Done (Ok tt)) ∧ consistent c) ∨
  (∃ e, consistent_or_error f c s = (s, Done (Err e)) ∧ ¬ consistent c).
Proof.
  destruct (check_consistency_spec c) as [[r Hr] Hiff]. unfold consistent_or_error, convert, of_outcome. rewrite Hr in *.
  destruct r as [[]|e]; simpl; [left; by split; [|apply Hiff]|right; eexists; split; [done|]].
  intros Hc%Hiff. done.
Qed.

Lemma keeps_checked {E A : Type} D (f : string → E) c (k : unit → conducting E A) :
  (consistent c → keeps D (k tt)) → keeps D (consistent_or_error f c ≫= k).
Proof.
  intros Hk s Hb Hd. unfold mbind, conducting_bind.
  destruct (check_cases f c s) as [[-> Hc]|(e & -> & _)]; [by apply Hk|done].
Qed.

Lemma keeps_set_config {E : Type} D c : consistent c → ids_of c ⊆ D → keeps D (change (set_config c) : conducting E unit).
Proof. intros Hc Hi s Hb Hd. split; [split; [done|]|done]. simpl. by trans D. Qed.

Lemma keeps_insert {E A : Type} D id hc (k : unit → conducting E A) :
  keeps ({[id]} ∪ D) (k tt) →
  keeps D (change (λ s, set_instances (<[id := hc]> (running_instances s)) s) ≫= k).
Proof.
  intros Hk s [Hc Hi] Hd. unfold mbind, conducting_bind, change.
  destruct (Hk (set_instances (<[id := hc]> (running_instances s)) s)) as [Hb' Hd'].
  - split; [done|]. simpl. rewrite dom_insert_L. set_solver.
  - simpl. rewrite dom_insert_L. set_solver.
  - split; [done|set_solver].
Qed.

Lemma keeps_adopt D c : ids_of c ⊆ D → keeps D (adopt_config c).
Proof.
  intros Hi. unfold adopt_config. apply keeps_checked. intros Hc. apply booted_bind; [by apply keeps_set_config|intros _].
  apply keeps_quiet, quiet_save_config.
Qed.
End invariant.

Ltac kept :=
  repeat (cbv zeta; lazymatch goal with
    | |- keeps _ (mbind _ (ask config)) => apply keeps_ask_config; intros ?
    | |- keeps _ (mbind _ _) => first [apply keeps_quiet; solve [framed] | apply booted_bind; [|intros ?]]
    | |- keeps _ (convert _ _) => apply keeps_convert
    | |- keeps _ (each _ _) => apply booted_each; intros ?
    | |- keeps _ (match ?x with _ => _ end) => destruct x
    | |- keeps _ (adopt_config _) => fail
    | |- keeps _ _ => first [solve [eauto with conductor] | apply keeps_quiet; solve [framed]]
    end).

Section admin_invariant.
Context `{Sodium, Hcid, BlobText, PassphraseService, KeystoreText, Outside, Petgraph}.

Lemma save_remove_ids c id : ids_of (save_remove_instance c id) ⊆ ids_of c.
Proof.
  unfold ids_of, save_remove_instance. simpl. intros x. rewrite !elem_of_list_to_set, !list_elem_of_fmap.
  intros (i & -> & [_ Hi]%list_elem_of_filter). by exists i.
Qed.

Lemma remove_instances_ids ids c : ids_of (remove_instances ids c) ⊆ ids_of c.
Proof.
  unfold remove_instances. revert c. induction ids as [|id ids IH]; intros c; simpl; [done|].
  etrans; [apply IH|apply save_remove_ids].
Qed.

(** The new configuration has the instances of the old one, or fewer. *)
Ltac adopted := apply keeps_adopt; first
  [ apply union_subseteq_r | etrans; [apply remove_instances_ids|apply union_subseteq_r]
  | etrans; [apply save_remove_ids|apply union_subseteq_r] ].

Lemma keeps_remove_ui D id : keeps D (remove_ui_interface id).
Proof. unfold remove_ui_interface. kept; adopted. Qed.

Lemma keeps_add_instance D id dna_id agent_id : keeps D (add_instance id dna_id agent_id).
Proof.
  unfold add_instance. apply keeps_ask_config. intros c. cbv zeta. apply booted_bind; [apply keeps_quiet; framed|intros made].
  apply booted_bind; [apply keeps_quiet; framed|intros _]. apply keeps_checked. intros Hc.
  apply booted_bind; [apply keeps_quiet; framed|intros hc]. apply keeps_insert.
  apply booted_bind; [|intros _; apply keeps_quiet, quiet_save_config]. apply keeps_set_config; [done|].
  unfold ids_of. simpl. rewrite fmap_app, list_to_set_app_L. simpl. fold (ids_of c). set_solver.
Qed.

(** Every operation but the removal of an instance keeps all instances in memory. *)
Lemma admin_keeps op : (∀ id, op ≠ RemoveInstance id) → keeps ∅ (perform_admin op).
Proof.
  intros Hop. destruct op; simpl; [..|]; try by destruct (Hop id).
  all: unfold discard, install_dna_from_file, uninstall_dna, add_interface, remove_interface,
    add_instance_to_interface, remove_instance_from_interface, add_agent, remove_agent, add_bridge, remove_bridge,
    install_ui_bundle_from_file, uninstall_ui_bundle, add_ui_interface.
  all: try apply keeps_add_instance.
  all: try apply keeps_remove_ui.
  all: kept; first [adopted|apply keeps_remove_ui].
Qed.

Lemma removed_id c id : id ∉ ids_of (save_remove_instance c id).
Proof.
  unfold ids_of. simpl. rewrite elem_of_list_to_set, list_elem_of_fmap.
  intros (i & -> & [Hi _]%list_elem_of_filter). done.
Qed.

(** [adopt_config] either refuses and changes nothing, or the configuration is the new one. *)
Lemma adopt_cases c s :
  (∃ e, adopt_config c s = (s, Done (Err e)) ∧ ¬ consistent c) ∨
  (consistent c ∧ config (adopt_config c s).1 = c ∧
   adopt_config c s = save_config (set_config c s)).
Proof.
  unfold adopt_config, mbind, conducting_bind.
  destruct (check_cases ErrorGeneric c s) as [[-> Hc]|(e & -> & Hc)]; [right|left; by eexists].
  pose proof (quiet_save_config (set_config c s)) as [E1 E2]. unfold change. by eauto.
Qed.

Lemma booted_remove_instance id s : booted s → booted (remove_instance id s).1.
Proof.
  intros Hb. unfold remove_instance, mbind, conducting_bind, ask. set (c := config s).
  destruct (keeps_adopt (ids_of c) (save_remove_instance c id) (save_remove_ids c id) s Hb) as [Hb1 _]; [apply Hb|].
  destruct (adopt_cases (save_remove_instance c id) s) as [(e & -> & _)|(_ & Ec & _)]; [done|].
  destruct (adopt_config (save_remove_instance c id) s) as [s1 [[[]|e]|why]]; simpl in *; [|done..].
  destruct (keeps_quiet ∅ _ (quiet_stop_instances [id]) s1 Hb1) as [Hb2 _]; [set_solver|].
  pose proof (quiet_stop_instances [id] s1) as [E2 _].
  destruct (stop_instances [id] s1) as [s2 [[[]|e]|why]]; simpl in *; [|done..].
  destruct Hb2 as [Hc2 Hi2]. split; [done|]. simpl. rewrite dom_delete_L. rewrite E2, Ec in *.
  pose proof (removed_id c id). set_solver.
Qed.

Lemma perform_booted op s : booted s → booted (perform_admin op s).1.
Proof.
  intros Hb. assert ((∃ id, op = RemoveInstance id) ∨ ∀ id, op ≠ RemoveInstance id) as [[id ->]|Hop].
  { destruct op; eauto. }
  - by apply booted_remove_instance.
  - apply (admin_keeps op); [done..|set_solver].
Qed.

(** What a sequence of operations leaves, whether they succeed or not. *)
Definition administered (ops : list AdminOp) (s : Conductor) : Conductor :=
  foldl (λ s op, (perform_admin op s).1) s ops.

(** C4: whatever the outside answers, and whether operations succeed, fail or panic, any
    sequence of them keeps the configuration of a conductor consistent and every instance
    of the configuration in memory. *)
Theorem admin_keeps_booted ops s : booted s → booted (administered ops s).
Proof. revert s. induction ops as [|op ops IH]; intros s Hb; [done|]. apply IH. by apply perform_booted. Qed.
End admin_invariant.
