(* ===== verification/ConductorBoot.v ===== *)
(** * Booting a conductor

    When the outside does what it is asked, a conductor with a consistent configuration
    boots: every instance is created, each after those it calls through bridges, and is
    connected to them.  A conductor with a DPKI application never boots. *)
From S2P Require Import Prelude Errors Entries Sodium Keys Keystore Config ConfigFacts Conductor ConductorAdmin ConductorFacts.

Lemma find_by_unique {A : Type} (id_of : A → string) l x :
  NoDup (id_of <$> l) → x ∈ l → find_by id_of (id_of x) l = Some x.
Proof.
  induction l as [|y l IH]; simpl; [by intros _ ?%elem_of_nil|]. intros [Hy Hn]%NoDup_cons [->|Hx]%elem_of_cons.
  - by rewrite decide_True.
  - rewrite decide_False; [by apply IH|]. intros E. apply Hy. rewrite E. by apply list_elem_of_fmap_2.
Qed.

(** In a list without duplicates, what comes before the head of a suffix is in front of it. *)
Lemma before_split {A : Type} (pre post : list A) a b :
  NoDup (pre ++ b :: post) → before (pre ++ b :: post) a b → a ∈ pre.
Proof.
  intros Hn (i & j & Hi & Hj & Hlt).
  assert (j = length pre) as ->.
  { eapply NoDup_lookup; [done..|]. by apply list_lookup_middle. }
  rewrite lookup_app_l in Hi by done. by eapply list_elem_of_lookup_2.
Qed.

Section boot.
Context `{Sodium, Hcid, BlobText, PassphraseService, KeystoreText, Outside, Petgraph}.

Lemma cbind_ok {E A B : Type} (m : conducting E A) (f : A → conducting E B) s s' a :
  m s = (s', Done (Ok a)) → (m ≫= f) s = f a s'.
Proof. intros Hm. unfold mbind, conducting_bind. by rewrite Hm. Qed.

Lemma outside_ok {E A : Type} (call : Call A) s w a :
  answer call (world s) = (w, a) → (outside call : conducting E A) s = (set_world w s, Done (Ok a)).
Proof. intros Ha. unfold outside. by rewrite Ha. Qed.

(** The outside creates what it is asked for; loading an old instance may fail. *)
Record obliging : Prop := {
  opens storage w : ∃ w', answer (OpenStorage storage) w = (w', Ok tt);
  loads path w : ∃ w' dna, answer (LoadDna path) w = (w', Ok dna);
  creates dna ctx w : ∃ w', answer (NewInstance dna ctx) w = (w', Ok tt);
}.

(** The key of every agent is at hand: a remote one can be asked for signatures, and the
    others have their keystores loaded. *)
Definition keys_ready (c : Configuration) (keys : gmap string Keystore) (v : Vault) : Prop :=
  ∀ agent, agent ∈ agents c →
    if is_remote agent then is_Some (signing_service_uri c)
    else ∃ ks b, keys !! ac_id agent = Some ks ∧
      get_keybundle PRIMARY_KEYBUNDLE_ID (ks, v) = Done ((ks, v), Ok b).

(** The instances an instance is connected to. *)
Definition bridges_of (c : Configuration) (id : string) : list (string * string) :=
  (λ b, (handle b, callee_id b)) <$> bridge_dependencies c id.

(** What booting has made so far. *)
Record progress (c : Configuration) (keys : gmap string Keystore) (v : Vault) (ids : list string) (s : Conductor) : Prop := {
  boot_config : config s = c;
  boot_keys : agent_keys s = keys;
  boot_vault : vault s = v;
  boot_ids : dom (running_instances s) = list_to_set ids;
  boot_fresh id hc : running_instances s !! id = Some hc →
    active hc = false ∧ poisoned hc = false ∧ ctx_id (context hc) = id ∧ ctx_bridges (context hc) = bridges_of c id;
}.

Lemma keybundle_ready s agent_id ks b :
  agent_keys s !! agent_id = Some ks →
  get_keybundle PRIMARY_KEYBUNDLE_ID (ks, vault s) = Done ((ks, vault s), Ok b) →
  get_keystore_for_agent agent_id s = (s, Done (Ok ks)) ∧ get_keybundle_for_agent agent_id s = (s, Done (Ok b)).
Proof.
  intros Hk Hb.
  assert (get_keystore_for_agent agent_id s = (s, Done (Ok ks))) as Hg.
  { unfold get_keystore_for_agent, mbind, conducting_bind, ask. by rewrite Hk; simpl; rewrite Hk. }
  split; [done|]. unfold get_keybundle_for_agent. erewrite cbind_ok by exact Hg.
  unfold on_keystore, convert, mbind, conducting_bind. rewrite Hb. simpl.
  unfold add_agent_keystore, change. simpl. rewrite insert_id by done. by destruct s.
Qed.

Lemma connect_ok c bs s :
  (∀ b, b ∈ bs → callee_id b ∈ ic_id <$> instances c ∧ callee_id b ∈ dom (running_instances s)) →
  connect_bridges c bs s = (s, Done (Ok ((λ b, (handle b, callee_id b)) <$> bs))).
Proof.
  induction bs as [|b bs IH]; intros Hb; simpl; [done|].
  destruct (Hb b) as [Hi Hr]; [left|]. apply find_by_is_some in Hi as [i Hi]. unfold instance_by_id. rewrite Hi.
  apply elem_of_dom in Hr as [hc Hr]. unfold mbind, conducting_bind, ask. rewrite Hr. rewrite IH; [done|].
  intros b' Hb'. apply Hb. by right.
Qed.

Lemma load_or_new_ok dna ctx s :
  obliging → ∃ w, load_or_new dna ctx s = (set_world w s, Done (Ok tt)).
Proof.
  intros Ho. unfold load_or_new, mbind, conducting_bind, outside.
  destruct (answer (LoadInstance ctx) (world s)) as [w [[]|e]]; [by exists w|]. simpl.
  destruct (creates Ho dna ctx w) as [w' ->]. by exists w'.
Qed.

Lemma open_storage_ok storage s :
  obliging → ∃ w, open_storage storage s = (set_world w s, Done (Ok tt)).
Proof.
  intros Ho. destruct storage; simpl; [exists (world s); by destruct s|..];
    unfold mbind, conducting_bind, outside.
  - destruct (opens Ho (FileStorage path) (world s)) as [w ->]. by exists w.
  - destruct (opens Ho (PickleStorage path) (world s)) as [w ->]. by exists w.
Qed.

Lemma keys_ok c s i agent :
  config s = c → keys_ready c (agent_keys s) (vault s) → agent ∈ agents c → ac_id agent = ic_agent i →
  (∃ key, agent_key i agent s = (s, Done (Ok key))) ∧ prepare_signing i agent s = (s, Done (Ok tt)).
Proof.
  intros Hc Hk Ha He. specialize (Hk agent Ha). unfold agent_key, prepare_signing. destruct (is_remote agent).
  - split; [by eexists|]. unfold mbind, conducting_bind, ask. rewrite Hc. by destruct Hk as [uri ->].
  - destruct Hk as (ks & b & Hks & Hb). rewrite He in Hks.
    destruct (keybundle_ready s (ic_agent i) ks b Hks Hb) as [E1 E2]. split.
    + eexists. by erewrite cbind_ok by exact E2.
    + erewrite cbind_ok by exact E2. by erewrite cbind_ok by exact E1.
Qed.

Lemma instantiate_ok c keys v ids s i :
  obliging → consistent c → keys_ready c keys v → progress c keys v ids s → i ∈ instances c →
  (∀ b, b ∈ bridges c → caller_id b = ic_id i → callee_id b ∈ ids) →
  ∃ w ctx, instantiate_from_config (ic_id i) c s =
      (set_world w (set_receivers ({[ic_id i]} ∪ instance_signal_receivers s) s), Done (Ok (MkHolochain ctx false false))) ∧
    ctx_id ctx = ic_id i ∧ ctx_bridges ctx = bridges_of c (ic_id i).
Proof.
  intros Ho Hc Hk Hp Hi Hb. destruct Hp as [Pc Pk Pv Pi _].
  destruct (check_cases (λ e : string, e) c s) as [[E1 _]|(e & _ & Hn)]; [|done].
  destruct (instance_refs c Hc i Hi) as [Ha Hd].
  apply find_by_is_some in Ha as [agent Ea]. pose proof (find_by_some _ _ _ _ Ea) as [Hag Hid].
  apply find_by_is_some in Hd as [dna_config Ed].
  set (s1 := set_receivers ({[ic_id i]} ∪ instance_signal_receivers s) s).
  destruct (open_storage_ok (ic_storage i) s1 Ho) as [w1 E2].
  destruct (keys_ok c s i agent) as [[key E3] _]; [done|by rewrite Pk, Pv|done|done|].
  destruct (keys_ok c (set_world w1 s1) i agent) as [_ E4]; [done|simpl; by rewrite Pk, Pv|done|done|].
  destruct (loads Ho (dc_file dna_config) w1) as (w2 & dna & E5).
  pose (ctx := MkInstanceContext (ic_id i) (ac_name agent) key (get_p2p_config s) (ic_storage i) (bridges_of c (ic_id i))).
  destruct (load_or_new_ok dna ctx (set_world w2 s1) Ho) as [w3 E6].
  exists w3, ctx. split; [|done]. unfold instantiate_from_config. erewrite cbind_ok by exact E1.
  unfold instance_by_id. rewrite (find_by_unique ic_id _ i) by (done || apply Hc). erewrite cbind_ok by done.
  unfold agent_by_id. rewrite Ea. erewrite cbind_ok by exact E3. erewrite cbind_ok by done.
  erewrite cbind_ok by done. fold s1. erewrite cbind_ok by exact E2. erewrite cbind_ok by exact E4.
  erewrite cbind_ok by (apply connect_ok; intros b [Hcb Hbb]%list_elem_of_filter; split;
    [by apply (bridge_refs c Hc b)|simpl; rewrite Pi; apply elem_of_list_to_set; by apply Hb]).
  unfold dna_by_id. rewrite Ed. erewrite cbind_ok by (apply outside_ok; exact E5). erewrite cbind_ok by done.
  cbv zeta. by erewrite cbind_ok by exact E6.
Qed.

Lemma boot_instance_ok c keys v ids s i :
  obliging → consistent c → keys_ready c keys v → progress c keys v ids s → i ∈ instances c →
  (∀ b, b ∈ bridges c → caller_id b = ic_id i → callee_id b ∈ ids) →
  ∃ s', boot_instance c (ic_id i) s = (s', Done (Ok tt)) ∧ progress c keys v (ids ++ [ic_id i]) s'.
Proof.
  intros Ho Hc Hk Hp Hi Hb. destruct (instantiate_ok c keys v ids s i) as (w & ctx & E & Hid & Hbr); [done..|].
  unfold boot_instance, convert. eexists. split; [erewrite cbind_ok by (by rewrite E); done|].
  destruct Hp as [Pc Pk Pv Pi Pf]. split; try done.
  - simpl. rewrite dom_insert_L, Pi, list_to_set_app_L. set_solver.
  - intros id hc. simpl. rewrite lookup_insert_Some. intros [[<- <-]|[_ Hl]]; [done|by apply Pf].
Qed.

(** The loop over the instances, in any valid order. *)
Lemma boot_instances_ok c keys v post : ∀ pre s,
  obliging → consistent c → keys_ready c keys v → order_valid c (pre ++ post) → progress c keys v pre s →
  ∃ s', each (boot_instance c) post s = (s', Done (Ok tt)) ∧ progress c keys v (pre ++ post) s'.
Proof.
  induction post as [|id post IH]; intros pre s Ho Hc Hk Hv Hp.
  { rewrite app_nil_r. by exists s. }
  destruct Hv as [Hperm Hord]. assert (NoDup (pre ++ id :: post)) as Hn.
  { rewrite Hperm. apply (instances_nodup c Hc). }
  assert (id ∈ instance_ids c) as (i & -> & Hi)%list_elem_of_fmap.
  { rewrite <-Hperm. set_solver. }
  destruct (boot_instance_ok c keys v pre s i) as (s1 & E1 & Hp1); [done..| |].
  { intros b Hb Hcaller. eapply before_split; [done|]. rewrite <-Hcaller at 2. by apply Hord. }
  destruct (IH (pre ++ [ic_id i]) s1) as (s2 & E2 & Hp2); [done..| |done|].
  { rewrite <-app_assoc. by split. }
  exists s2. simpl. erewrite cbind_ok by exact E1. by rewrite <-app_assoc in Hp2.
Qed.

(** The user interfaces of a consistent configuration get their servers. *)
Lemma boot_ui_ok c uis : ∀ s,
  consistent c → (∀ u, u ∈ uis → u ∈ ui_interfaces c) →
  ∃ servers, each (boot_ui_interface c) uis s = (set_servers servers s, Done (Ok tt)) ∧
    dom servers = dom (static_servers s) ∪ list_to_set (ui_id <$> uis).
Proof.
  induction uis as [|u uis IH]; intros s Hc Hu.
  { exists (static_servers s). simpl. split; [by destruct s|set_solver]. }
  destruct (ui_refs c Hc u) as [Hbundle Hface]; [apply Hu; left|].
  apply find_by_is_some in Hbundle as [bundle Eb].
  assert (∃ face, (match ui_dna_interface u with
    | None => mret None
    | Some interface_id => match interface_by_id c interface_id with
        | Some interface => mret (Some interface)
        | None => die "called `Option::unwrap()` on a `None` value" end
    end : conducting string _) s = (s, Done (Ok face))) as [face Ef].
  { destruct (ui_dna_interface u) as [id|]; [|by eexists]. destruct (find_by_is_some if_id id (interfaces c)) as [_ Hf].
    destruct Hf as [f Ef]; [by apply Hface|]. unfold interface_by_id. rewrite Ef. by eexists. }
  set (s1 := set_servers (<[ui_id u := server_from_configs u bundle face]> (static_servers s)) s).
  destruct (IH s1 Hc) as (servers & E & Hd); [intros u' Hu'; apply Hu; by right|].
  exists servers. split.
  - simpl. erewrite cbind_ok; [exact E|]. unfold boot_ui_interface, ui_bundle_by_id. rewrite Eb.
    erewrite cbind_ok by done. by erewrite cbind_ok by exact Ef.
  - rewrite Hd. simpl. rewrite dom_insert_L. set_solver.
Qed.

(** ** What is stopped before *)
Definition steady : relation Conductor := λ s s',
  config s' = config s ∧ agent_keys s' = agent_keys s ∧ vault s' = vault s ∧ static_servers s' = static_servers s.

#[global] Instance steady_preorder : PreOrder steady.
Proof. split; [done|]. intros s1 s2 s3 (? & ? & ? & ?) (? & ? & ? & ?). split_and!; congruence. Qed.

(** Comes back without a panic, or with success. *)
Definition returns {E A : Type} (m : conducting E A) : Prop := ∀ s, ∃ s' r, m s = (s', Done r) ∧ steady s s'.
Definition succeeds {E A : Type} (m : conducting E A) : Prop := ∀ s, ∃ s' a, m s = (s', Done (Ok a)) ∧ steady s s'.

Lemma returns_each {E A : Type} (body : A → conducting E unit) xs :
  (∀ x, returns (body x)) → returns (each body xs).
Proof.
  intros Hb. induction xs as [|x xs IH]; intros s; simpl; [by exists s, (Ok tt)|].
  destruct (Hb x s) as (s1 & r & E1 & Hs1). unfold mbind, conducting_bind. rewrite E1. destruct r as [[]|e]; [|by eauto].
  destruct (IH s1) as (s2 & r & E2 & Hs2). exists s2, r. split; [done|by trans s1].
Qed.

Lemma succeeds_each {E A : Type} (body : A → conducting E unit) xs :
  (∀ x, succeeds (body x)) → succeeds (each body xs).
Proof.
  intros Hb. induction xs as [|x xs IH]; intros s; simpl; [by exists s, tt|].
  destruct (Hb x s) as (s1 & [] & E1 & Hs1). destruct (IH s1) as (s2 & [] & E2 & Hs2).
  exists s2, tt. split; [by erewrite cbind_ok by exact E1|by trans s1].
Qed.

Lemma stop_all_instances_returns : returns stop_all_instances.
Proof.
  intros s. unfold stop_all_instances, mbind, conducting_bind, ask, in_order. simpl. apply returns_each.
  intros id s1. destruct (running_instances s !! id) as [hc|]; [|by exists s1, (Ok tt)].
  destruct (poisoned hc); [by eexists s1, _|]. unfold hc_stop. destruct (active hc); by eexists _, _.
Qed.

Lemma stop_all_interfaces_succeeds {E : Type} : succeeds (stop_all_interfaces : conducting E unit).
Proof.
  intros s. unfold stop_all_interfaces, mbind, conducting_bind, ask, in_order. simpl. apply succeeds_each.
  intros id s1. destruct (interface_threads s !! id) as [ch|]; [|by exists s1, tt].
  unfold outside. destruct (answer (Send ch) (world s1)) as [w r]. by eexists _, tt.
Qed.

Lemma shutdown_ok {E : Type} s :
  ∃ s', (shutdown : conducting E unit) s = (s', Done (Ok tt)) ∧ steady s s' ∧ running_instances s' = ∅.
Proof.
  destruct (stop_all_instances_returns s) as (s1 & r & E1 & H1s).
  destruct (@stop_all_interfaces_succeeds E s1) as (s2 & [] & E2 & H2s).
  eexists. split; [unfold shutdown; erewrite cbind_ok by (unfold attempt; rewrite E1; done); by erewrite cbind_ok by exact E2|].
  split; [|done]. by trans s1; [|trans s2].
Qed.

Lemma initialize_p2p_succeeds {E : Type} : succeeds (initialize_p2p_config : conducting E P2pConfig).
Proof.
  intros s. unfold initialize_p2p_config. erewrite cbind_ok by done. destruct (network (config s)) as [n|] eqn:En; [|by eexists _, _].
  destruct (n3h_ipc_uri n ≫= _); [by eexists _, _|]. unfold spawn_network, mbind, conducting_bind, attempt, ask. simpl.
  rewrite En. simpl. unfold outside. destruct (answer (SpawnNetwork n) (world s)) as [w [r|e]]; by eexists _, _.
Qed.

(** C5: a conductor boots from a consistent configuration without a DPKI application when
    the outside opens the storages, loads the DNAs and creates the instances, and the keys
    are at hand: afterwards exactly the configured instances are in memory, each connected
    to the instances its bridges lead to, none of them active yet, and every user interface
    has its server. *)
Theorem boot_succeeds s :
  obliging → consistent (config s) → dpki (config s) = None → keys_ready (config s) (agent_keys s) (vault s) →
  ∃ s', boot_from_config s = (s', Done (Ok tt)) ∧ config s' = config s ∧
    dom (running_instances s') = ids_of (config s) ∧
    (∀ id hc, running_instances s' !! id = Some hc →
      active hc = false ∧ ctx_bridges (context hc) = bridges_of (config s) id) ∧
    list_to_set (ui_id <$> ui_interfaces (config s)) ⊆ dom (static_servers s').
Proof.
  intros Ho Hc Hd Hk. set (c := config s) in *.
  destruct (check_cases (λ e : string, e) c s) as [[E1 _]|(e & _ & Hn)]; [|done].
  assert (∃ s1, (match p2p_config s with
     | Some _ => mret tt
     | None => p2p ← initialize_p2p_config; change (set_p2p (Some p2p))
     end : conducting string unit) s = (s1, Done (Ok tt)) ∧ steady s s1) as (s1 & E2 & S1).
  { destruct (p2p_config s); [by exists s|]. destruct (@initialize_p2p_succeeds string s) as (s1 & p & E & S).
    eexists. split; [by erewrite cbind_ok by exact E|]. by trans s1. }
  destruct (@shutdown_ok string s1) as (s2 & E3 & S2 & R2).
  assert (steady s s2) as (Cc & Ck & Cv & Cs) by (by trans s1).
  pose (s3 := set_multiplexer (Some (config s2)) s2).
  destruct (sorted_spec c (instances_nodup c Hc)) as [(ids & E4 & Hv)|[_ Hno]];
    [intros b Hb; by apply (bridge_refs c Hc)| |by destruct Hno; apply Hc].
  destruct (boot_instances_ok c (agent_keys s) (vault s) ids [] s3) as (s4 & E5 & Hp); [done..| |].
  { unfold s3. split; simpl; [done..|by rewrite R2|]. intros id hc. by rewrite R2, lookup_empty. }
  destruct (boot_ui_ok c (ui_interfaces c) s4 Hc) as (servers & E6 & Hser); [done|].
  exists (set_servers servers s4). destruct Hp as [Pc Pk Pv Pi Pf]. split_and!.
  - unfold boot_from_config. erewrite cbind_ok by done. fold c. erewrite cbind_ok by exact E1.
    erewrite cbind_ok by done. erewrite cbind_ok by exact E2. erewrite cbind_ok by done.
    destruct S1 as [-> _]. fold c. erewrite cbind_ok by exact E3. erewrite cbind_ok by done. fold s3.
    unfold convert at 1, of_outcome. erewrite cbind_ok by (by rewrite E4). erewrite cbind_ok by exact E5.
    erewrite cbind_ok by exact E6. unfold convert, dpki_bootstrap. erewrite cbind_ok by done. simpl. rewrite Pc. by rewrite Hd.
  - done.
  - simpl. rewrite Pi. unfold ids_of. apply set_eq. intros x. rewrite !elem_of_list_to_set. destruct Hv as [Hperm _].
    simpl. by rewrite Hperm.
  - intros id hc Hl. by destruct (Pf id hc Hl) as (? & _ & _ & ?).
  - simpl. rewrite Hser. set_solver.
Qed.

(** ** With a DPKI application *)
Lemma cbind_inv {E A B : Type} (m : conducting E A) (f : A → conducting E B) s s' b :
  (m ≫= f) s = (s', Done (Ok b)) → ∃ s1 a, m s = (s1, Done (Ok a)) ∧ f a s1 = (s', Done (Ok b)).
Proof.
  unfold mbind, conducting_bind. destruct (m s) as [s1 [[a|e]|why]]; intros Hf; [by eauto|done..].
Qed.

Lemma convert_inv {E F A : Type} (g : E → F) (m : conducting E A) s s' a :
  convert g m s = (s', Done (Ok a)) → m s = (s', Done (Ok a)).
Proof. unfold convert. destruct (m s) as [s1 [[x|e]|why]]; simpl; intros; by simplify_eq. Qed.

Lemma while_locked_inv {E A : Type} id (m : conducting E A) s s' a :
  while_locked id m s = (s', Done (Ok a)) → m s = (s', Done (Ok a)).
Proof. unfold while_locked. by destruct (m s) as [s1 []]. Qed.

(** No instance in memory is active, and the configuration is the one it was. *)
Definition idle (s : Conductor) : Prop := ∀ id hc, running_instances s !! id = Some hc → active hc = false.
Definition stays_idle : relation Conductor := λ s s', config s' = config s ∧ (idle s → idle s').
Definition still : relation Conductor := λ s s', config s' = config s ∧ running_instances s' = running_instances s.

#[global] Instance stays_idle_preorder : PreOrder stays_idle.
Proof. split; [done|]. intros s1 s2 s3 [] []. split; [congruence|by auto]. Qed.
#[global] Instance still_preorder : PreOrder still.
Proof. split; [done|]. intros s1 s2 s3 [] []. split; congruence. Qed.

Lemma still_outside {E A : Type} (call : Call A) : frame still (outside call : conducting E A).
Proof. intros s. unfold outside. by destruct (answer call (world s)). Qed.
Lemma still_on_keystore {A : Type} ks (m : keeping A) : frame still (on_keystore ks m).
Proof. intros s. unfold on_keystore. by destruct (m (ks, vault s)) as [[[] ]|]. Qed.
Lemma still_check {E : Type} (f : string → E) c : frame still (consistent_or_error f c).
Proof. apply frame_convert. by intros s. Qed.
Hint Resolve still_outside still_on_keystore still_check : conductor.

Lemma still_connect c bs : frame still (connect_bridges c bs).
Proof. induction bs; simpl; framed. Qed.
Hint Resolve still_connect : conductor.

Lemma still_instantiate id c : frame still (instantiate_from_config id c).
Proof.
  unfold instantiate_from_config, agent_key, open_storage, prepare_signing, load_or_new, get_keybundle_for_agent,
    get_keystore_for_agent, load_agent_keystore, load_key, add_agent_keystore. framed.
Qed.

Lemma still_boot_ui c u : frame still (boot_ui_interface c u).
Proof. unfold boot_ui_interface. framed. Qed.

Lemma boot_instance_idle c id s s' :
  boot_instance c id s = (s', Done (Ok tt)) → stays_idle s s'.
Proof.
  unfold boot_instance. intros (s1 & hc & E1%convert_inv & E2)%cbind_inv. unfold change in E2. simplify_eq.
  destruct (still_instantiate id c s) as [Ec Er]. rewrite E1 in *. simpl in *. split; [done|].
  intros Hi id' hc'. simpl. rewrite lookup_insert_Some. intros [[<- <-]|[_ Hl]]; [|rewrite Er in Hl; by eapply Hi].
  clear -E1. revert E1. unfold instantiate_from_config. intros (? & ? & _ & E)%cbind_inv.
  apply cbind_inv in E as (? & i & _ & E). destruct (agent_by_id c (ic_agent i)); [|done].
  do 6 apply cbind_inv in E as (? & ? & _ & E). destruct (dna_by_id c (ic_dna i)); [|done].
  do 3 apply cbind_inv in E as (? & ? & _ & E). unfold mret, conducting_ret in E. by simplify_eq.
Qed.

Lemma each_idle {A : Type} (body : A → conducting string unit) xs : ∀ s s',
  (∀ x s s', body x s = (s', Done (Ok tt)) → stays_idle s s') → each body xs s = (s', Done (Ok tt)) → stays_idle s s'.
Proof.
  induction xs as [|x xs IH]; intros s s' Hb; simpl.
  - unfold mret, conducting_ret. intros. by simplify_eq.
  - intros (s1 & [] & E1 & E2)%cbind_inv. trans s1; [by eapply Hb|by eapply IH].
Qed.

Lemma dpki_bootstrap_fails s d s' :
  idle s → dpki (config s) = Some d → dpki_bootstrap s ≠ (s', Done (Ok tt)).
Proof.
  intros Hi Hd E. unfold dpki_bootstrap in E. apply cbind_inv in E as (s1 & o & Eo & E). unfold ask in Eo. simplify_eq.
  rewrite Hd in E. unfold with_locked_instance in E.
  apply cbind_inv in E as (s3 & o & Eo & E). unfold ask in Eo. simplify_eq.
  apply cbind_inv in E as (s4 & hc' & E4 & E). unfold of_result in E4.
  destruct (running_instances s3 !! dpki_instance d) as [hc''|] eqn:El; [|done]. simplify_eq/=.
  destruct (poisoned hc'); [done|]. apply while_locked_inv in E.
  apply cbind_inv in E as (s5 & b & E5 & _). unfold dpki_is_initialized in E5.
  apply cbind_inv in E5 as (s6 & t & E6 & _). unfold dpki_call in E6.
  apply cbind_inv in E6 as (s7 & cap & _ & E7%convert_inv). unfold hc_call in E7. by rewrite (Hi _ _ El) in E7.
Qed.

(** Booting comes to the DPKI application with idle instances only. *)
Lemma boot_comes_to_dpki s s' :
  boot_from_config s = (s', Done (Ok tt)) →
  ∃ s1, config s1 = config s ∧ idle s1 ∧ dpki_bootstrap s1 = (s', Done (Ok tt)).
Proof.
  intros Hboot. unfold boot_from_config in Hboot. apply cbind_inv in Hboot as (s0 & c & Ec & E).
  unfold ask in Ec. simplify_eq. apply cbind_inv in E as (s1 & [] & E1 & E).
  destruct (still_check (λ e : string, e) (config s0) s0) as [C1 _]. rewrite E1 in C1. simpl in C1.
  apply cbind_inv in E as (s2 & p & Ep & E). unfold ask in Ep. simplify_eq.
  apply cbind_inv in E as (s3 & [] & E3 & E).
  assert (config s3 = config s2) as C3.
  { destruct (p2p_config s2); [unfold mret, conducting_ret in E3; by simplify_eq|].
    apply cbind_inv in E3 as (s3' & p & E3 & Eset). unfold change in Eset. simplify_eq. simpl.
    destruct (@initialize_p2p_succeeds string s2) as (s4 & p' & E4 & S). rewrite E3 in E4. simplify_eq. apply S. }
  apply cbind_inv in E as (s4 & c & Ec & E). unfold ask in Ec. simplify_eq.
  apply cbind_inv in E as (s5 & [] & E5 & E). destruct (@shutdown_ok string s4) as (s5' & E5' & (C5 & _) & R5).
  rewrite E5 in E5'. simplify_eq. apply cbind_inv in E as (s6 & [] & E6 & E).
  unfold start_signal_multiplexer, change in E6. simplify_eq.
  apply cbind_inv in E as (s7 & ids & E7 & E). apply convert_inv in E7. unfold of_outcome in E7. simplify_eq.
  apply cbind_inv in E as (s8 & [] & E8 & E). apply cbind_inv in E as (s9 & [] & E9 & E).
  apply convert_inv in E. apply each_idle in E8 as [C8 I8]; [|apply boot_instance_idle].
  destruct (frame_each still (boot_ui_interface (config s4)) (ui_interfaces (config s4)) (still_boot_ui _) s8) as [C9 R9].
  rewrite E9 in *. simpl in *. exists s9. split_and!; [congruence| |done].
  intros id hc. rewrite R9. apply I8. intros ? ?. simpl. by rewrite R5, lookup_empty.
Qed.

(** a conductor that is configured with a DPKI application never boots: booting ends by
    asking the application whether it is initialized, and an instance answers no calls
    before it is started. *)
Theorem dpki_never_boots s d s' : dpki (config s) = Some d → boot_from_config s ≠ (s', Done (Ok tt)).
Proof.
  intros Hd (s1 & Hc & Hi & E)%boot_comes_to_dpki. apply (dpki_bootstrap_fails s1 d s'); [done|congruence|done].
Qed.
End boot.
