(* ===== verification/ConductorErrors.v ===== *)
(** * Where the administration of a conductor refuses or goes wrong

    Which instances can be removed, why a bundle in use cannot be uninstalled, what an
    interface with an unsupported driver does to a conductor, and that signals follow the
    configuration a conductor booted with. *)
From S2P Require Import Prelude Errors Entries Sodium Keys KeysFacts Keystore KeystoreFacts Config ConfigFacts Conductor ConductorAdmin ConductorFacts ConductorBoot.

(** ** Orders without one element *)
Lemma before_iff {A : Type} (l : list A) a b : before l a b ↔ ∃ l1 l2, l = l1 ++ a :: l2 ∧ b ∈ l2.
Proof.
  split.
  - intros (i & j & Hi & Hj & Hlt). exists (take i l), (drop (S i) l). split; [by rewrite take_drop_middle|].
    apply list_elem_of_lookup. exists (j - S i)%nat. rewrite lookup_drop. by replace (S i + (j - S i))%nat with j by lia.
  - intros (l1 & l2 & -> & [k Hk]%list_elem_of_lookup). exists (length l1), (length l1 + S k)%nat.
    split_and!; [by apply list_lookup_middle| |lia]. rewrite lookup_app_r by lia.
    by replace (length l1 + S k - length l1)%nat with (S k) by lia.
Qed.

Lemma before_filter {A : Type} (P : A → Prop) `{!∀ x, Decision (P x)} (l : list A) a b :
  P a → P b → before l a b → before (filter P l) a b.
Proof.
  intros Ha Hb (l1 & l2 & -> & Hin)%before_iff. apply before_iff. exists (filter P l1), (filter P l2).
  rewrite filter_app, filter_cons_True by done. split; [done|]. by apply list_elem_of_filter.
Qed.

(** ** Removing instances *)

(** A bridge or the DPKI application refers to the instance. *)
Definition mentioned (c : Configuration) (id : string) : Prop :=
  (∃ b, b ∈ bridges c ∧ (caller_id b = id ∨ callee_id b = id)) ∨ (∃ d, dpki c = Some d ∧ dpki_instance d = id).

Lemma ids_after_removal c id : instance_ids (save_remove_instance c id) = filter (λ x, x ≠ id) (instance_ids c).
Proof.
  unfold instance_ids, save_remove_instance. simpl. induction (instances c) as [|i l IH]; [done|]. rewrite fmap_cons.
  destruct (decide (ic_id i = id)).
  - rewrite !filter_cons_False by auto. done.
  - rewrite !filter_cons_True by done. by rewrite fmap_cons, IH.
Qed.

Lemma removal_consistent c id :
  consistent c → (consistent (save_remove_instance c id) ↔ ¬ mentioned c id).
Proof.
  intros Hc. assert (∀ x, x ∈ instance_ids (save_remove_instance c id) ↔ x ∈ instance_ids c ∧ x ≠ id) as Hids.
  { intros x. rewrite ids_after_removal, list_elem_of_filter. naive_solver. }
  split.
  - intros Hr [(b & Hb & Hm)|(d & Hd & Hm)].
    + destruct (bridge_refs _ Hr b Hb) as [H1%Hids H2%Hids]. naive_solver.
    + pose proof (dpki_ref _ Hr d Hd) as Hx%Hids. naive_solver.
  - intros Hm. destruct Hc as [C1 C2 C3 C4 C5 C6 C7 C8 C9 (o & Hperm & Hord)]. split; simpl; try done.
    + change (NoDup (instance_ids (save_remove_instance c id))). rewrite ids_after_removal. by apply NoDup_filter.
    + rewrite <-list_fmap_compose. done.
    + intros i [_ Hi]%list_elem_of_filter. by apply C5.
    + intros f x (f' & -> & Hf')%list_elem_of_fmap [Hx Hx']%list_elem_of_filter. apply Hids. split; [|done].
      by eapply C6.
    + intros b Hb. destruct (C7 b Hb). split; apply Hids; (split; [done|]); intros Heq; apply Hm; left; exists b; auto.
    + intros u Hu. destruct (C8 u Hu) as [Hbu Hd]. split; [done|]. intros x Hx. rewrite <-list_fmap_compose. by apply Hd.
    + intros d Hd. apply Hids. split; [by apply C9|]. intros Heq. apply Hm. right. by exists d.
    + exists (filter (λ x, x ≠ id) o). split; [by rewrite ids_after_removal, Hperm|]. intros b Hb.
      apply before_filter; [intros Heq; apply Hm; left; exists b; auto..|by apply Hord].
Qed.

Section errors.
Context `{Sodium, Hcid, BlobText, PassphraseService, KeystoreText, Outside, Petgraph}.

(** an instance that a bridge or the DPKI application mentions cannot be removed: the
    request is refused and changes nothing.  Any other instance is taken out of the
    configuration and of every interface. *)
Theorem remove_instance_unless_mentioned s id :
  consistent (config s) →
  (mentioned (config s) id → ∃ e, remove_instance id s = (s, Done (Err e))) ∧
  (¬ mentioned (config s) id → config (remove_instance id s).1 = save_remove_instance (config s) id).
Proof.
  intros Hc. pose proof (removal_consistent (config s) id Hc) as Hiff.
  unfold remove_instance. erewrite cbind_ok by done.
  destruct (adopt_cases (save_remove_instance (config s) id) s) as [(e & E & Hn)|(Hr & Ec & _)].
  - split; [intros _; exists e; unfold mbind, conducting_bind; by rewrite E|]. intros Hm. by destruct Hn; apply Hiff.
  - split; [intros Hm; by apply Hiff in Hr|]. intros _. unfold mbind, conducting_bind.
    destruct (adopt_config (save_remove_instance (config s) id) s) as [s1 [[[]|e]|why]]; simpl in *; [|done..].
    pose proof (quiet_stop_instances [id] s1) as [E2 _].
    destruct (stop_instances [id] s1) as [s2 [[[]|e]|why]]; simpl in *; congruence.
Qed.

(** ** Uninstalling bundles *)
Lemma remove_ui_keeps_bundles id s :
  ui_bundles (config (remove_ui_interface id s).1) = ui_bundles (config s).
Proof.
  unfold remove_ui_interface. erewrite cbind_ok by done. set (c := config s).
  set (stopping := each _ _). assert (frame quiet stopping) as Hq.
  { unfold stopping. apply frame_each; [apply _|]. intros ui. framed. }
  specialize (Hq s) as [E1 _]. unfold mbind at 1, conducting_bind at 1.
  destruct (stopping s) as [s1 [[[]|e]|why]]; simpl in E1 |- *; [|by rewrite E1..].
  set (rest := λ _ : (), _). assert (∀ x, frame quiet (rest x)) as Hr.
  { intros x. unfold rest. framed. }
  unfold mbind, conducting_bind. set (c' := with_ui_interfaces _ _).
  destruct (adopt_cases c' s1) as [(e & -> & _)|(_ & E2 & _)]; [by simpl; rewrite E1|].
  destruct (adopt_config c' s1) as [s2 [[[]|e]|why]]; simpl in *; [|by rewrite E2..].
  destruct (Hr tt s2) as [E3 _]. by rewrite E3, E2.
Qed.

Lemma each_keeps_bundles uis s :
  ui_bundles (config (each (λ ui, remove_ui_interface (ui_id ui)) uis s).1) = ui_bundles (config s).
Proof.
  revert s. induction uis as [|ui uis IH]; intros s; [done|]. simpl. unfold mbind, conducting_bind.
  pose proof (remove_ui_keeps_bundles (ui_id ui) s) as E.
  destruct (remove_ui_interface (ui_id ui) s) as [s1 [[[]|e]|why]]; simpl in *; [|done..]. by rewrite IH.
Qed.

Lemma without_bundle_inconsistent c id u :
  u ∈ ui_interfaces c → ui_bundle u = id →
  ¬ consistent (with_ui_bundles (filter (λ b, ub_id b ≠ id) (ui_bundles c)) c).
Proof.
  intros Hu <- Hc. destruct (ui_refs _ Hc u Hu) as [(b & E & [Hb _]%list_elem_of_filter)%list_elem_of_fmap _].
  by destruct Hb.
Qed.

(** a bundle that a user interface shows is never uninstalled, although the function
    removes the interfaces that show it: it goes on with a configuration that still has
    them, which fails the check. *)
Theorem used_bundle_stays s id u :
  u ∈ ui_interfaces (config s) → ui_bundle u = id →
  (uninstall_ui_bundle id s).2 ≠ Done (Ok tt) ∧
  ui_bundles (config (uninstall_ui_bundle id s).1) = ui_bundles (config s).
Proof.
  intros Hu Hid. pose proof (without_bundle_inconsistent _ id u Hu Hid) as Hn.
  unfold uninstall_ui_bundle. erewrite cbind_ok by done. cbv zeta. case_decide; [done|].
  set (uis := filter _ (ui_interfaces _)). pose proof (each_keeps_bundles uis s) as E.
  unfold mbind, conducting_bind.
  destruct (each _ uis s) as [s1 [[[]|e]|why]]; simpl in *; [|done..].
  destruct (adopt_cases (with_ui_bundles (filter (λ b, ub_id b ≠ id) (ui_bundles (config s))) (config s)) s1)
    as [(e & -> & _)|(Hc & _)]; done.
Qed.

(** ** Drivers that are not implemented *)
Lemma spawn_cases f s :
  (∃ s1 ch, spawn_interface_thread f s = (s1, Done (Ok ch)) ∧ implemented (if_driver f) = true) ∨
  (∃ s1 why, spawn_interface_thread f s = (s1, Panicked why)).
Proof.
  unfold spawn_interface_thread. erewrite cbind_ok by done. destruct (implemented (if_driver f)); [|by eauto].
  unfold mbind, conducting_bind, outside. destruct (answer _ _) as [w [ch|e]]; [left|right]; by eauto.
Qed.

Lemma spawn_all_panics f fs threads s :
  f ∈ fs → implemented (if_driver f) = false → ∃ s1 why, spawn_all fs threads s = (s1, Panicked why).
Proof.
  intros Hf Hi. revert threads s. induction fs as [|g fs IH]; [by apply elem_of_nil in Hf|]. intros threads s. simpl.
  unfold mbind, conducting_bind. destruct (spawn_cases g s) as [(s1 & ch & -> & Hg)|(s1 & why & ->)]; [|by eauto].
  apply elem_of_cons in Hf as [->|Hf]; [congruence|]. by apply IH.
Qed.

Lemma save_config_world : frame (λ s s', interface_threads s' = interface_threads s) save_config.
Proof.
  assert (PreOrder (λ s s' : Conductor, interface_threads s' = interface_threads s)).
  { split; [done|]. intros ??? -> ->. done. }
  assert (∀ A (call : Call A), frame (λ s s' : Conductor, interface_threads s' = interface_threads s)
    (outside call : conducting HolochainError A)).
  { intros A call s. unfold outside. by destruct (answer call (world s)). }
  unfold save_config. framed.
Qed.

(** adding an interface whose driver is not implemented (a domain socket or a custom
    one) panics, but only after the configuration that has it was adopted and saved, and
    from then on starting the interfaces panics as well. *)
Theorem unsupported_driver_poisons_configuration s f s1 :
  let c := with_interfaces (interfaces (config s) ++ [f]) (config s) in
  implemented (if_driver f) = false → if_id f ∉ if_id <$> interfaces (config s) →
  interface_threads s !! if_id f = None → adopt_config c s = (s1, Done (Ok tt)) →
  add_interface f s = (s1, Panicked "not yet implemented") ∧ config s1 = c ∧
  ∀ s2, config s2 = c → ∃ s3 why, start_all_interfaces s2 = (s3, Panicked why).
Proof.
  intros c Hi Hid Ht Ha. destruct (adopt_cases c s) as [(e & E & _)|(Hc & Ec & Es)]; [congruence|].
  pose proof (save_config_world (set_config c s)) as Et. rewrite <-Es, Ha in Et. rewrite Ha in Ec. simpl in Et, Ec.
  split_and!; [|done|].
  - unfold add_interface. erewrite cbind_ok by done. rewrite decide_False by done. erewrite cbind_ok by exact Ha.
    unfold convert, start_interface_by_id. erewrite cbind_ok by done. unfold interface_by_id. rewrite Ec.
    rewrite find_by_unique; [|apply Hc|apply elem_of_app; right; by apply list_elem_of_singleton].
    erewrite cbind_ok by done. unfold start_interface. erewrite cbind_ok by done.
    rewrite decide_False by (rewrite Et, Ht; by intros []).
    unfold mbind, conducting_bind, spawn_interface_thread, ask. by rewrite Hi.
  - intros s2 E2. unfold start_all_interfaces. erewrite cbind_ok by done. rewrite E2.
    destruct (spawn_all_panics f (interfaces c) ∅ s2) as (s3 & why & E3); [|done|].
    + apply elem_of_app. right. by apply list_elem_of_singleton.
    + unfold mbind, conducting_bind. rewrite E3. by eauto.
Qed.
End errors.

(** ** Signals *)

(** The signal thread keeps the configuration it was started with. *)
Definition same_routes `{Sodium, PassphraseService, Outside} : relation Conductor := λ s s',
  multiplexer s' = multiplexer s.

Section signals.
Context `{Sodium, Hcid, BlobText, PassphraseService, KeystoreText, Outside, Petgraph}.

#[local] Instance same_routes_preorder : PreOrder same_routes.
Proof. split; [done|]. intros s1 s2 s3 Hs Ht. unfold same_routes in *. congruence. Qed.

Lemma routes_outside {E A : Type} (call : Call A) : frame same_routes (outside call : conducting E A).
Proof. intros s. unfold outside. by destruct (answer call (world s)). Qed.
Lemma routes_on_keystore {A : Type} ks (m : keeping A) : frame same_routes (on_keystore ks m).
Proof. intros s. unfold on_keystore. by destruct (m (ks, vault s)) as [[[] ]|]. Qed.
Lemma routes_with_vault {A : Type} (m : Vault → outcome (Vault * HcResult A)) : frame same_routes (with_vault m).
Proof. intros s. unfold with_vault. by destruct (m (vault s)) as [[]|]. Qed.
Lemma routes_poison id s : same_routes s (poison_instance id s).
Proof. done. Qed.
Hint Resolve routes_outside routes_on_keystore routes_with_vault routes_poison : conductor.

Lemma routes_connect c bridges : frame same_routes (connect_bridges c bridges).
Proof. induction bridges; simpl; framed. Qed.
Hint Resolve routes_connect : conductor.

Lemma routes_update id hc f : frame same_routes (update_instance id hc f).
Proof. unfold update_instance. framed. Qed.
Lemma routes_adopt c : frame same_routes (adopt_config c).
Proof. unfold adopt_config, save_config, consistent_or_error. framed. Qed.
Lemma routes_keybundle agent_id : frame same_routes (get_keybundle_for_agent agent_id).
Proof.
  unfold get_keybundle_for_agent, get_keystore_for_agent, load_agent_keystore, load_key, add_agent_keystore. framed.
Qed.
Lemma routes_keystore agent_id : frame same_routes (get_keystore_for_agent agent_id).
Proof. unfold get_keystore_for_agent, load_agent_keystore, load_key, add_agent_keystore. framed. Qed.
Hint Resolve routes_update routes_adopt routes_keybundle routes_keystore : conductor.

Lemma routes_instantiate id c : frame same_routes (instantiate_from_config id c).
Proof.
  unfold instantiate_from_config, agent_key, open_storage, prepare_signing, load_or_new, consistent_or_error. framed.
Qed.
Lemma routes_make_agent_key id name remote : frame same_routes (make_agent_key id name remote).
Proof.
  unfold make_agent_key, new_dpki_keystore, add_agent_keystore, with_locked_instance, dpki_create_agent_key, dpki_call,
    make_cap_request_for_call, hc_call. framed.
Qed.
Lemma routes_stop_instances ids : frame same_routes (stop_instances ids).
Proof. unfold stop_instances, stop_instance. framed. Qed.
Lemma routes_restart id : frame same_routes (restart_interface id).
Proof.
  unfold restart_interface, start_interface_by_id, start_interface, spawn_interface_thread, stop_interface_by_id. framed.
Qed.
Lemma routes_start_interface id : frame same_routes (start_interface_by_id id).
Proof. unfold start_interface_by_id, start_interface, spawn_interface_thread. framed. Qed.
Lemma routes_remove_ui id : frame same_routes (remove_ui_interface id).
Proof. unfold remove_ui_interface, stop_ui_interface, server_stop. framed. Qed.
Hint Resolve routes_instantiate routes_make_agent_key routes_stop_instances routes_restart routes_start_interface
  routes_remove_ui : conductor.

Lemma routes_admin op : frame same_routes (perform_admin op).
Proof.
  destruct op; simpl; unfold discard, install_dna_from_file, save_dna, uninstall_dna, add_instance, save_config,
    consistent_or_error, remove_instance, start_instance, stop_instance, add_interface, remove_interface,
    stop_interface_by_id, add_instance_to_interface, remove_instance_from_interface, add_agent, remove_agent, add_bridge,
    remove_bridge, install_ui_bundle_from_file, uninstall_ui_bundle, add_ui_interface, start_ui_interface, server_start,
    stop_ui_interface, server_stop; framed.
Qed.

Lemma administered_routes ops s : multiplexer (administered ops s) = multiplexer s.
Proof.
  revert s. induction ops as [|op ops IH]; intros s; [done|]. simpl. rewrite IH. apply routes_admin.
Qed.

(** signals go by the configuration the conductor booted with.  Whatever is
    administered afterwards, a signal is only sent to interfaces that had the instance
    then: an interface that is added later gets none, and one that loses the instance
    still gets its signals. *)
Theorem signals_follow_the_boot_configuration ops s captured instance_id signal :
  multiplexer s = Some captured →
  let s' := administered ops s in
  receivers_of_signal s' instance_id signal =
  if decide (instance_id ∈ instance_signal_receivers s') then
    omap (λ f, interface_broadcasters s' !! if_id f) (interfaces_with_instance captured instance_id signal)
  else [].
Proof. intros Hm s'. unfold receivers_of_signal, s'. by rewrite administered_routes, Hm. Qed.
End signals.

(** ** A conductor *)
Module ConductorDemo.
Import Toy Demo SearchSort.
#[local] Obligation Tactic := idtac.

Definition no_dna : Dna := MkDna "" "" "" "" "" "{}" [].

(** An outside where everything succeeds and no instance was saved. *)
Definition comply {A : Type} (call : Call A) : A :=
  match call with
  | CreateDirAll _ | CreateFile _ | WriteFile _ _ | Send _ => Ok tt
  | WriteDna _ _ | CopyUiDir _ _ | OpenStorage _ => Ok tt
  | LoadDna _ => Ok no_dna
  | ReadKeystore _ => Err (ErrorGeneric "no keystore")
  | LoadInstance _ => Err (ErrorGeneric "no saved instance")
  | NewInstance _ _ => Ok tt
  | PublicToken _ => Ok "token"
  | SignCall _ _ _ => Ok "signature"
  | CallZome _ _ _ _ _ => Done (Ok "true")
  | SpawnNetwork _ => Ok (MkSpawnResult "ipc" [])
  | RunInterface _ _ => Ok 0%nat
  | ServeStatic _ _ _ => 0%nat
  end.

#[export, program] Instance complying : Outside := {
  World := unit;
  answer A call w := (w, comply call);
  iteration_order _ s := elements s;
  dna_address dna := dna_name dna;
  json_merge _ b := b;
  json_object key value := "{" +:+ key +:+ ":" +:+ value +:+ "}";
  json_bool text := Ok (bool_decide (text = "true"));
  config_to_text c := Ok (persistence_dir c);
  debug_str s := s;
}.
Next Obligation. intros w s. split; [apply NoDup_elements|intros x; apply elem_of_elements]. Qed.

Definition linked : Configuration := example [MkBridge "caller" "callee" "h"].
Definition with_dpki (c : Configuration) : Configuration :=
  MkConfiguration (agents c) (dnas c) (instances c) (interfaces c) (bridges c) (ui_bundles c) (ui_interfaces c)
    (logger_type c) (network c) (persistence_dir c) (signing_service_uri c) (Some (MkDpkiConfiguration "callee" "{}")) false.
Definition fresh (c : Configuration) : Conductor := from_config c (vault passphrase) tt.
Definition started : Conductor := (boot_from_config (fresh linked)).1.

Lemma linked_consistent : consistent linked.
Proof. apply check_consistency_spec. by vm_compute. Qed.

Lemma started_config : config started = linked.
Proof. by vm_compute. Qed.

Lemma obliging_complying : obliging.
Proof. split; intros; repeat eexists. Qed.

Lemma started_booted : booted started.
Proof.
  split; [rewrite started_config; apply linked_consistent|]. rewrite started_config.
  apply (bool_decide_unpack _). by vm_compute.
Qed.

Lemma admin_keeps_booted_witness :
  booted (administered [RemoveBridge "caller" "callee"; RemoveInstance "callee"; StartInstance "caller"] started).
Proof.
  apply (admin_keeps_booted [RemoveBridge "caller" "callee"; RemoveInstance "callee"; StartInstance "caller"] started).
  apply started_booted.
Defined.

Lemma boot_succeeds_witness :
  ∃ s', boot_from_config (fresh linked) = (s', Done (Ok tt)) ∧ config s' = linked ∧
    dom (running_instances s') = ids_of linked ∧
    (∀ id hc, running_instances s' !! id = Some hc →
      active hc = false ∧ ctx_bridges (context hc) = bridges_of linked id) ∧
    list_to_set (ui_id <$> ui_interfaces linked) ⊆ dom (static_servers s').
Proof.
  apply (boot_succeeds (fresh linked) obliging_complying linked_consistent); [reflexivity|].
  intros agent ->%list_elem_of_singleton. by exists "http://localhost".
Defined.

Lemma dpki_never_boots_witness : boot_from_config (fresh (with_dpki linked)) ≠ (started, Done (Ok tt)).
Proof. apply (dpki_never_boots (fresh (with_dpki linked)) (MkDpkiConfiguration "callee" "{}") started). reflexivity. Defined.

Lemma remove_instance_unless_mentioned_witness :
  mentioned (config started) "callee" ∧ ∃ e, remove_instance "callee" started = (started, Done (Err e)).
Proof.
  assert (mentioned (config started) "callee") as Hm.
  { rewrite started_config. left. exists (MkBridge "caller" "callee" "h"). split; [left|by right]. }
  split; [done|]. refine (proj1 (remove_instance_unless_mentioned started "callee" _) Hm).
  rewrite started_config. apply linked_consistent.
Defined.

Lemma used_bundle_stays_witness :
  (uninstall_ui_bundle "bundle" started).2 ≠ Done (Ok tt) ∧
  ui_bundles (config (uninstall_ui_bundle "bundle" started).1) = ui_bundles (config started).
Proof.
  apply (used_bundle_stays started "bundle" (MkUiInterfaceConfiguration "ui" "bundle" 3000 (Some "ws"))); [|reflexivity].
  rewrite started_config. left.
Defined.

Definition socket : InterfaceConfiguration := MkInterfaceConfiguration "sock" (DomainSocket "/tmp/s") false [].
Definition with_socket : Configuration := with_interfaces (interfaces (config started) ++ [socket]) (config started).

Lemma unsupported_driver_poisons_configuration_witness :
  add_interface socket started = ((adopt_config with_socket started).1, Panicked "not yet implemented") ∧
  config (adopt_config with_socket started).1 = with_socket ∧
  ∀ s2, config s2 = with_socket → ∃ s3 why, start_all_interfaces s2 = (s3, Panicked why).
Proof.
  apply (unsupported_driver_poisons_configuration started socket (adopt_config with_socket started).1);
    [reflexivity| |by vm_compute|by vm_compute].
  rewrite started_config. apply (bool_decide_unpack _). by vm_compute.
Defined.

(** The interface that was added after booting runs, but gets no signals. *)
Definition late : InterfaceConfiguration := MkInterfaceConfiguration "late" (Websocket 9999) false ["callee"].

Lemma signals_follow_the_boot_configuration_witness :
  is_Some (interface_broadcasters (administered [AddInterface late] started) !! "late") ∧
  receivers_of_signal (administered [AddInterface late] started) "callee" User = [].
Proof.
  split; [apply (bool_decide_unpack _); by vm_compute|].
  rewrite (signals_follow_the_boot_configuration [AddInterface late] started linked "callee" User);
    [by vm_compute|by vm_compute].
Defined.
End ConductorDemo.
