(* ===== verification/Rpc.v ===== *)
(** * The JSON-RPC interface

    [conductor_api/src/interface.rs]: the methods that a [ConductorApiBuilder] registers,
    how they read their parameters, and how they call the conductor, the instances and the
    keystore.

    A request is a method and its parameters; the text on the wire and the servers that read
    it belong to [jsonrpc_core] and to the interfaces.  The conductor is the one that is
    mounted as a singleton, behind a lock that a panic poisons; so does a call to the lock of
    the instance it calls.  [RpcText] is what serde and
    the derived [Debug] make of values. *)
From S2P Require Import Prelude Errors Entries Actions Sodium Keys Keystore Config Conductor ConductorAdmin.

(** ** JSON *)

(** [serde_json::Value].  An object keeps the order of its keys (the crate is built with
    [preserve_order]); a number is an integer of 64 bits, signed or not, or the text of a
    float. *)
Inductive Value :=
| JNull
| JBool (b : bool)
| JInt (z : Z)
| JFloat (text : string)
| JString (s : string)
| JArray (l : list Value)
| JObject (l : list (string * Value)).

Definition as_str (v : Value) : option string := match v with JString s => Some s | _ => None end.
Definition as_bool (v : Value) : option bool := match v with JBool b => Some b | _ => None end.
Definition as_i64_value (v : Value) : option Z :=
  match v with JInt z => if decide (- 2 ^ 63 ≤ z < 2 ^ 63) then Some z else None | _ => None end.

Definition is_null (v : Value) : bool := match v with JNull => true | _ => false end.

Abbreviation Map := (list (string * Value)).

(** [Map::get]. *)
Fixpoint map_get (key : string) (m : Map) : option Value :=
  match m with
  | [] => None
  | (k, v) :: m => if decide (k = key) then Some v else map_get key m
  end.

Inductive Params := PNone | PArray (l : list Value) | PMap (m : Map).

(** ** Errors *)
Inductive ErrorCode := InvalidParams | InternalError | MethodNotFound.
Record RpcError := MkRpcError { code : ErrorCode; message : string }.

Definition invalid_params (message : string) : RpcError := MkRpcError InvalidParams message.
Definition internal_error : RpcError := MkRpcError InternalError "Internal error".
Definition method_not_found : RpcError := MkRpcError MethodNotFound "Method not found".

(** ** Reading parameters *)
Definition unwrap_params_map (params : Params) : result RpcError Map :=
  match params with PMap m => Ok m | _ => Err (invalid_params "expected params map") end.

Definition get_as {A : Type} (read : Value → option A) (wrong : string) (key : string) (m : Map) : result RpcError A :=
  v ← ok_or (map_get key m) (invalid_params ("`" +:+ key +:+ "` param not provided"));
  ok_or (read v) (invalid_params ("`" +:+ key +:+ "` " +:+ wrong)).
Definition get_as_string : string → Map → result RpcError string := get_as as_str "is not a valid json string".
Definition get_as_bool : string → Map → result RpcError bool := get_as as_bool "has to be a boolean".
Definition get_as_int : string → Map → result RpcError Z := get_as as_i64_value "has to be an integer".

(** [u16::try_from(Self::get_as_int("port", &params_map)?)]. *)
Definition get_port (m : Map) : result RpcError Z :=
  z ← get_as_int "port" m;
  if decide (0 ≤ z < 2 ^ 16) then Ok z else Err (invalid_params "`port` has to be a 16bit integer").

Definition success : Value := JObject [("success", JBool true)].

(** ** What serde makes of values *)
Class RpcText := {
  to_text : Value → string;
  provenance_of_value : Value → result string Provenance;
  interfaces_to_value : list InterfaceConfiguration → result string Value;
  agents_to_value : list AgentConfiguration → result string Value;
  bridges_to_value : list Bridge → result string Value;
  bundle_to_value : UiBundleConfiguration → Value;
  ui_to_value : UiInterfaceConfiguration → Value;
  debug_params : Map → string;
  to_text_null : to_text JNull = "null";
  to_text_empty : to_text (JObject []) = "{}";
}.

(** ** Methods *)

(** A method changes a state, and its answer is a value, an error or a panic. *)
Definition rpc (S A : Type) : Type := S → S * outcome (result RpcError A).

#[global] Instance rpc_ret {S} : MRet (rpc S) := λ A a s, (s, Done (Ok a)).
#[global] Instance rpc_bind {S} : MBind (rpc S) := λ A B f m s,
  match m s with
  | (s, Done (Ok a)) => f a s
  | (s, Done (Err e)) => (s, Done (Err e))
  | (s, Panicked why) => (s, Panicked why)
  end.

Definition reading {S A : Type} (r : result RpcError A) : rpc S A := λ s, (s, Done r).
Definition rpc_panic {S A : Type} (why : string) : rpc S A := λ s, (s, Panicked why).

(** [IoHandler::add_method] and the dispatch of a request. *)
Abbreviation IoHandler S := (gmap string (Params → rpc S Value)).
Definition handle_request {S : Type} (io : IoHandler S) (method : string) (params : Params) : rpc S Value :=
  match io !! method with
  | Some f => f params
  | None => reading (Err method_not_found)
  end.

Section rpc.
Context `{Sodium, Hcid, BlobText, PassphraseService, KeystoreText, Outside, Petgraph, RpcText}.

(** ** The conductor behind its lock *)

(** [CONDUCTOR]; [the_conductor] is the one that made the interface, whether or not it is
    mounted. *)
Record Singleton := MkSingleton { the_conductor : Conductor; mounted : bool; lock_poisoned : bool }.

(** [conductor_call!]. *)
Definition conductor_call {E A : Type} (show : E → string) (m : conducting E A) : rpc Singleton A := λ s,
  if lock_poisoned s then (s, Panicked "called `Result::unwrap()` on an `Err` value: PoisonError")
  else if mounted s then
    match m (the_conductor s) with
    | (c, Panicked why) => (MkSingleton c true true, Panicked why)
    | (c, Done r) => (MkSingleton c true false, Done (map_err (λ e, MkRpcError InternalError (show e)) r))
    end
  else (s, Done (Err (MkRpcError InternalError
         "Admin conductor function called without a conductor mounted as singleton!"))).

Abbreviation method := (Params → rpc Singleton Value).

(** Methods that have an [id] and answer with success. *)
Definition by_id {E : Type} (show : E → string) (f : string → conducting E unit) : method := λ params,
  m ← reading (unwrap_params_map params);
  id ← reading (get_as_string "id" m);
  conductor_call show (f id);;
  mret success.

(** ** DNAs *)
Definition expected_hash_of (m : Map) : result RpcError (option string) :=
  match map_get "expected_hash" m with
  | Some value => s ← ok_or (as_str value) (invalid_params ("`" +:+ to_text value +:+ "` is not a valid json string"));
                  Ok (Some s)
  | None => Ok None
  end.

Definition admin_dna_install : method := λ params,
  m ← reading (unwrap_params_map params);
  id ← reading (get_as_string "id" m);
  path ← reading (get_as_string "path" m);
  let copy := match get_as_bool "copy" m with Ok b => b | Err _ => false end in
  expected_hash ← reading (expected_hash_of m);
  let properties := to_text <$> map_get "properties" m in
  dna_hash ← conductor_call HolochainError_fmt (install_dna_from_file path id copy expected_hash properties);
  mret (JObject [("success", JBool true); ("dna_hash", JString dna_hash)]).

Definition admin_dna_uninstall : method := by_id HolochainError_fmt uninstall_dna.

Definition admin_dna_list : method := λ _,
  dnas ← conductor_call (λ e : string, e) (ask (λ c, dnas (config c)));
  mret (JArray ((λ dna, JObject [("id", JString (dc_id dna));
                                 ("hash", match dc_hash dna with Some h => JString h | None => JNull end)]) <$> dnas)).

(** ** Instances *)
Definition admin_instance_add : method := λ params,
  m ← reading (unwrap_params_map params);
  id ← reading (get_as_string "id" m);
  dna_id ← reading (get_as_string "dna_id" m);
  agent_id ← reading (get_as_string "agent_id" m);
  conductor_call HolochainError_fmt (add_instance id dna_id agent_id);;
  mret success.

Definition admin_instance_remove : method := by_id HolochainError_fmt remove_instance.
Definition admin_instance_start : method := by_id instance_error_fmt start_instance.
Definition admin_instance_stop : method := by_id instance_error_fmt stop_instance.

Definition instance_to_value (i : InstanceConfiguration) : Value :=
  JObject [("id", JString (ic_id i)); ("dna", JString (ic_dna i)); ("agent", JString (ic_agent i))].

Definition admin_instance_list : method := λ _,
  instances ← conductor_call (λ e : string, e) (ask (λ c, instances (config c)));
  mret (JArray (instance_to_value <$> instances)).

(** The active instances; a poisoned lock around one of them panics. *)
Definition active_ids : conducting string (gset string) :=
  running ← ask running_instances;
  if decide (map_Exists (λ _ hc, poisoned hc = true) running) then
    die "called `Result::unwrap()` on an `Err` value: PoisonError"
  else mret (dom (filter (λ p, active p.2 = true) running)).

Definition admin_instance_running : method := λ _,
  ids ← conductor_call (λ e, e) active_ids;
  instances ← conductor_call (λ e : string, e) (ask (λ c, instances (config c)));
  mret (JArray (instance_to_value <$> filter (λ i, ic_id i ∈ (ids : gset string)) instances)).

(** ** Interfaces *)
Definition driver_of (driver_type : string) (port : Z) : result RpcError InterfaceDriver :=
  if decide (driver_type = "websocket") then Ok (Websocket port)
  else if decide (driver_type = "http") then Ok (Http port)
  else Err (invalid_params "`type` has to be either `websocket` or `http`").

Definition admin_interface_add : method := λ params,
  m ← reading (unwrap_params_map params);
  id ← reading (get_as_string "id" m);
  admin ← reading (get_as_bool "admin" m);
  driver_type ← reading (get_as_string "type" m);
  port ← reading (get_port m);
  driver ← reading (driver_of driver_type port);
  conductor_call HolochainError_fmt (add_interface (MkInterfaceConfiguration id driver admin []));;
  mret success.

Definition admin_interface_remove : method := by_id HolochainError_fmt remove_interface.

Definition of_interface (f : string → string → conducting HolochainError unit) : method := λ params,
  m ← reading (unwrap_params_map params);
  interface_id ← reading (get_as_string "interface_id" m);
  instance_id ← reading (get_as_string "instance_id" m);
  conductor_call HolochainError_fmt (f interface_id instance_id);;
  mret success.
Definition admin_interface_add_instance : method := of_interface add_instance_to_interface.
Definition admin_interface_remove_instance : method := of_interface remove_instance_from_interface.

Definition listing {A : Type} (field : Configuration → A) (show : A → result string Value) : method := λ _,
  items ← conductor_call (λ e : string, e) (ask (λ c, field (config c)));
  reading (map_err (λ _, internal_error) (show items)).
Definition admin_interface_list : method := listing interfaces interfaces_to_value.

(** ** Agents and bridges *)
Definition holo_remote_key_of (m : Map) : result RpcError (option string) :=
  match map_get "holo_remote_key" m with
  | Some k => s ← ok_or (as_str k) (invalid_params "holo_remote_key must be a string"); Ok (Some s)
  | None => Ok None
  end.

Definition admin_agent_add : method := λ params,
  m ← reading (unwrap_params_map params);
  id ← reading (get_as_string "id" m);
  name ← reading (get_as_string "name" m);
  holo_remote_key ← reading (holo_remote_key_of m);
  conductor_call HolochainError_fmt (add_agent id name holo_remote_key);;
  mret success.

Definition admin_agent_remove : method := by_id HolochainError_fmt remove_agent.
Definition admin_agent_list : method := listing agents agents_to_value.

Definition admin_bridge_add : method := λ params,
  m ← reading (unwrap_params_map params);
  caller_id ← reading (get_as_string "caller_id" m);
  callee_id ← reading (get_as_string "callee_id" m);
  handle ← reading (get_as_string "handle" m);
  conductor_call HolochainError_fmt (add_bridge (MkBridge caller_id callee_id handle));;
  mret success.

Definition admin_bridge_remove : method := λ params,
  m ← reading (unwrap_params_map params);
  caller_id ← reading (get_as_string "caller_id" m);
  callee_id ← reading (get_as_string "callee_id" m);
  conductor_call HolochainError_fmt (remove_bridge caller_id callee_id);;
  mret success.

Definition admin_bridge_list : method := listing bridges bridges_to_value.

Definition with_admin_dna_functions (io : IoHandler Singleton) : IoHandler Singleton :=
  <["admin/bridge/list" := admin_bridge_list]> (<["admin/bridge/remove" := admin_bridge_remove]>
  (<["admin/bridge/add" := admin_bridge_add]> (<["admin/agent/list" := admin_agent_list]>
  (<["admin/agent/remove" := admin_agent_remove]> (<["admin/agent/add" := admin_agent_add]>
  (<["admin/interface/list" := admin_interface_list]>
  (<["admin/interface/remove_instance" := admin_interface_remove_instance]>
  (<["admin/interface/add_instance" := admin_interface_add_instance]>
  (<["admin/interface/remove" := admin_interface_remove]> (<["admin/interface/add" := admin_interface_add]>
  (<["admin/instance/running" := admin_instance_running]> (<["admin/instance/list" := admin_instance_list]>
  (<["admin/instance/stop" := admin_instance_stop]> (<["admin/instance/start" := admin_instance_start]>
  (<["admin/instance/remove" := admin_instance_remove]> (<["admin/instance/add" := admin_instance_add]>
  (<["admin/dna/list" := admin_dna_list]> (<["admin/dna/uninstall" := admin_dna_uninstall]>
  (<["admin/dna/install_from_file" := admin_dna_install]> io))))))))))))))))))).

(** ** User interfaces *)
Definition admin_ui_install : method := λ params,
  m ← reading (unwrap_params_map params);
  root_dir ← reading (get_as_string "root_dir" m);
  id ← reading (get_as_string "id" m);
  conductor_call HolochainError_fmt (install_ui_bundle_from_file root_dir id false);;
  mret success.

Definition admin_ui_uninstall : method := by_id HolochainError_fmt uninstall_ui_bundle.
Definition admin_ui_list : method := listing ui_bundles (λ l, Ok (JArray (bundle_to_value <$> l))).

Definition admin_ui_interface_add : method := λ params,
  m ← reading (unwrap_params_map params);
  id ← reading (get_as_string "id" m);
  port ← reading (get_port m);
  bundle ← reading (get_as_string "bundle" m);
  let dna_interface := ok (get_as_string "dna_interface" m) in
  conductor_call HolochainError_fmt (add_ui_interface (MkUiInterfaceConfiguration id bundle port dna_interface));;
  mret success.

Definition admin_ui_interface_remove : method := by_id HolochainError_fmt remove_ui_interface.
Definition admin_ui_interface_start : method := by_id instance_error_fmt start_ui_interface.
Definition admin_ui_interface_stop : method := by_id instance_error_fmt stop_ui_interface.
Definition admin_ui_interface_list : method := listing ui_interfaces (λ l, Ok (JArray (ui_to_value <$> l))).

Definition with_admin_ui_functions (io : IoHandler Singleton) : IoHandler Singleton :=
  <["admin/ui_interface/list" := admin_ui_interface_list]>
  (<["admin/ui_interface/stop" := admin_ui_interface_stop]>
  (<["admin/ui_interface/start" := admin_ui_interface_start]>
  (<["admin/ui_interface/remove" := admin_ui_interface_remove]>
  (<["admin/ui_interface/add" := admin_ui_interface_add]> (<["admin/ui/list" := admin_ui_list]>
  (<["admin/ui/uninstall" := admin_ui_uninstall]> (<["admin/ui/install" := admin_ui_install]> io))))))).

(** ** Zome calls and the list of instances *)

(** [ConductorApiBuilder]: the names under which instances are exposed, and the
    configurations that are known.  The instances themselves are shared with the conductor;
    what is behind their locks is read when a request comes. *)
Record ConductorApiBuilder := MkBuilder {
  exposed : gset string;
  instance_configs : gmap string InstanceConfiguration;
}.

Definition builder_new : ConductorApiBuilder := MkBuilder ∅ ∅.
Definition with_named_instance (name : string) (b : ConductorApiBuilder) : ConductorApiBuilder :=
  MkBuilder ({[name]} ∪ exposed b) (instance_configs b).
Definition with_instances (names : gset string) (b : ConductorApiBuilder) : ConductorApiBuilder :=
  set_fold with_named_instance b names.
Definition with_named_instance_config (name : string) (i : InstanceConfiguration) (b : ConductorApiBuilder) :
    ConductorApiBuilder :=
  MkBuilder (exposed b) (<[name := i]> (instance_configs b)).
Definition with_instance_configs (l : list InstanceConfiguration) (b : ConductorApiBuilder) : ConductorApiBuilder :=
  foldl (λ b i, with_named_instance_config (ic_id i) i b) b l.

(** The arguments of a call, as text: [params] is an old name for [args]. *)
Definition call_args_text (m : Map) : string :=
  let call_args := match map_get "args" m with Some v => Some v | None => map_get "params" m end in
  let call_args := if is_null (default (JObject []) call_args) then Some (JObject []) else call_args in
  to_text (default JNull call_args).

(** A call of the outside that a method makes for the conductor's instance. *)
Definition on_behalf {E A : Type} (show : E → RpcError) (m : conducting E A) : rpc Singleton A := λ s,
  match m (the_conductor s) with
  | (c, Done r) => (MkSingleton c (mounted s) (lock_poisoned s), Done (map_err show r))
  | (c, Panicked why) => (MkSingleton c (mounted s) (lock_poisoned s), Panicked why)
  end.

Definition cap_request_of (ctx : InstanceContext) (m : Map) (function args : string) : rpc Singleton CapabilityRequest :=
  token ←
    match get_as_string "token" m with
    | Ok token => mret token
    | Err _ =>
        found ← on_behalf (λ e : RpcError, e) (outside (PublicToken ctx));
        reading (map_err (λ e, invalid_params ("Public token not found: " +:+ HolochainError_fmt e)) found)
    end;
  match map_get "provenance" m with
  | None => on_behalf (λ e : RpcError, e) (make_cap_request_for_call ctx token function args)
  | Some v =>
      provenance ← reading (map_err (λ e, invalid_params ("invalid provenance: " +:+ e)) (provenance_of_value v));
      mret (MkCapabilityRequest token provenance)
  end.

(** Which lock an interface got for the name of an instance when it was made: the one that
    the conductor still has, or one that it has dropped or replaced since.  What is behind
    the latter, and whether it is poisoned, only the interfaces that have it can tell. *)
Inductive Held := Current | Former (hc : Holochain).

Definition behind_lock (held : gmap string Held) (id : string) (c : Conductor) : option Holochain :=
  match held !! id with
  | Some Current => running_instances c !! id
  | Some (Former hc) => Some hc
  | None => None
  end.

(** What is done while the lock of the instance is held for writing. *)
Definition while_holding {A : Type} (held : gmap string Held) (id : string) (m : rpc Singleton A) : rpc Singleton A := λ s,
  match m s with
  | (s, Panicked why) =>
      (match held !! id with
       | Some Current => MkSingleton (poison_instance id (the_conductor s)) (mounted s) (lock_poisoned s)
       | _ => s
       end, Panicked why)
  | (s, Done r) => (s, Done r)
  end.

(** The call itself, from the parameters and the instance. *)
Definition call_instance (hc : Holochain) (m : Map) : rpc Singleton Value :=
  let args := call_args_text m in
  zome ← reading (get_as_string "zome" m);
  function ← reading (get_as_string "function" m);
  cap_request ← cap_request_of (context hc) m function args;
  response ← on_behalf (λ e, invalid_params (instance_error_fmt e)) (hc_call hc zome cap_request function args);
  mret (JString response).

(** [setup_call_api]. *)
Definition call_method (b : ConductorApiBuilder) (held : gmap string Held) : method := λ params,
  m ← reading (unwrap_params_map params);
  id ← reading (get_as_string "instance_id" m);
  if decide (id ∉ exposed b) then reading (Err (invalid_params "instance identifier invalid"))
  else λ s,
    match behind_lock held id (the_conductor s) with
    | None => (s, Done (Err (invalid_params "unknown instance")))
    | Some hc =>
        if poisoned hc then (s, Panicked "called `Result::unwrap()` on an `Err` value: PoisonError")
        else while_holding held id (call_instance hc m) s
    end.

(** [setup_info_api]; the list is made when the interface is, in the order of the map. *)
Definition info_instances (b : ConductorApiBuilder) (order : list string) : method := λ _,
  mret (JArray (instance_to_value <$> omap (λ name, instance_configs b !! name) order)).

Definition spawn (b : ConductorApiBuilder) (held : gmap string Held) (order : list string)
    (io : IoHandler Singleton) : IoHandler Singleton :=
  <["call" := call_method b held]> (<["info/instances" := info_instances b order]> io).

(** [Conductor::make_interface_handler], but for the method that adds agents for tests. *)
Definition interface_builder (s : Conductor) (interface : InterfaceConfiguration) : ConductorApiBuilder :=
  with_instance_configs (instances (config s))
    (with_instances (api_instances (make_interface_handler s interface)) builder_new).
Definition interface_io (s : Conductor) (interface : InterfaceConfiguration) (held : gmap string Held) :
    IoHandler Singleton :=
  let b := interface_builder s interface in
  spawn b held (iteration_order (world s) (exposed b))
    (if if_admin interface then with_admin_ui_functions (with_admin_dna_functions ∅) else ∅).

(** ** The functions of an agent's keystore *)

(** The keystore of an agent behind its lock, with what it needs. *)
Record AgentState := MkAgentState { keystore : Keystore; agent_vault : Vault; keystore_poisoned : bool }.

(** [k.lock().unwrap()] and a call on the keystore. *)
Definition locked {A : Type} (show : HolochainError → RpcError) (m : keeping A) : rpc AgentState A := λ s,
  if keystore_poisoned s then (s, Panicked "called `Result::unwrap()` on an `Err` value: PoisonError")
  else
    match m (keystore s, agent_vault s) with
    | Panicked why => (MkAgentState (keystore s) (agent_vault s) true, Panicked why)
    | Done ((ks, v), r) => (MkAgentState ks v false, Done (map_err show r))
    end.

Abbreviation agent_method := (Params → rpc AgentState Value).

(** The methods of a [HashMap] of secrets list it in an order of its own. *)
Definition keystore_list (order : gset string → list string) : agent_method := λ _,
  ids ← locked (λ _, internal_error) (ks ← store; mret (order (dom (secrets ks))));
  mret (JArray (JString <$> (ids : list string))).

Definition keystore_add_random_seed : agent_method := λ params,
  m ← reading (unwrap_params_map params);
  id ← reading (get_as_string "dst_id" m);
  size ← reading (get_as_int "size" m);
  locked (λ _, internal_error) (add_random_seed id (Z.to_nat (size `mod` 2 ^ 64)));;
  mret success.

Definition keystore_add_seed_from_seed : agent_method := λ params,
  m ← reading (unwrap_params_map params);
  src_id ← reading (get_as_string "src_id" m);
  dst_id ← reading (get_as_string "dst_id" m);
  seed_context ← reading (get_as_string "context" m);
  index ← reading (get_as_int "index" m);
  if decide (length (String.list_ascii_of_string seed_context) ≠ 8%nat) then
    reading (Err (invalid_params "`context` has to be 8 bytes"))
  else
    locked (λ _, internal_error)
      (add_seed_from_seed src_id dst_id (String.list_ascii_of_string seed_context) (index `mod` 2 ^ 64));;
    mret success.

(** [to_lowercase]: no letter outside ASCII becomes one of the two words. *)
Definition lower (c : Ascii.ascii) : Ascii.ascii :=
  let n := Ascii.nat_of_ascii c in
  if decide (65 ≤ n ≤ 90)%nat then Ascii.ascii_of_nat (n + 32) else c.
Definition to_lowercase (s : string) : string :=
  String.string_of_list_ascii (lower <$> String.list_ascii_of_string s).

Definition key_type_of (m : Map) (text : string) : result RpcError KeyType :=
  let text := to_lowercase text in
  if decide (text = "signing") then Ok Signing
  else if decide (text = "encrypting") then Ok Encrypting
  else Err (invalid_params ("`key_type` has to be one of 'signing' or 'encrypting'. params were: " +:+ debug_params m)).

Definition keystore_add_key_from_seed : agent_method := λ params,
  m ← reading (unwrap_params_map params);
  src_id ← reading (get_as_string "src_id" m);
  dst_id ← reading (get_as_string "dst_id" m);
  key_type_string ← reading (get_as_string "key_type" m);
  key_type ← reading (key_type_of m key_type_string);
  pub_key ← locked (λ _, internal_error) (add_key_from_seed src_id dst_id key_type);
  mret (JObject [("pub_key", JString pub_key)]).

Definition keystore_sign_method : agent_method := λ params,
  m ← reading (unwrap_params_map params);
  src_id ← reading (get_as_string "src_id" m);
  payload ← reading (get_as_string "payload" m);
  signature ← locked (λ _, internal_error) (keystore_sign src_id payload);
  mret (JObject [("signature", JString signature)]).

(** The lock around the keystore is free again when the secret is read. *)
Definition keystore_get_public_key : agent_method := λ params,
  m ← reading (unwrap_params_map params);
  src_id ← reading (get_as_string "src_id" m);
  secret ← locked (λ err, invalid_params ("error getting " +:+ q +:+ src_id +:+ q +:+ ": " +:+ HolochainError_fmt err))
    (loc ← get src_id; read_secret loc);
  match secret with
  | SigningKey key => mret (JObject [("pub_key", JString (sk_public key))])
  | EncryptingKey key => mret (JObject [("pub_key", JString (ek_public key))])
  | SeedSecret _ =>
      reading (Err (invalid_params (q +:+ src_id +:+ q +:+ " must be a signing or encrypting key")))
  end.

Definition with_agent_keystore_functions (order : gset string → list string) (io : IoHandler AgentState) :
    IoHandler AgentState :=
  <["agent/keystore/get_public_key" := keystore_get_public_key]>
  (<["agent/keystore/sign" := keystore_sign_method]>
  (<["agent/keystore/add_key_from_seed" := keystore_add_key_from_seed]>
  (<["agent/keystore/add_seed_from_seed" := keystore_add_seed_from_seed]>
  (<["agent/keystore/add_random_seed" := keystore_add_random_seed]>
  (<["agent/keystore/list" := keystore_list order]> io))))).

(** [with_agent_signature_callback]: the key bundle has a lock of its own. *)
Definition bundle_sign (bundle : KeyBundle) (payload : string) : rpc AgentState bytes := λ s,
  match sign (sign_keys bundle) (String.list_ascii_of_string payload) (rng (agent_vault s)) with
  | Panicked why => (s, Panicked why)
  | Done (g, r) =>
      (MkAgentState (keystore s) (with_rng g (agent_vault s)) (keystore_poisoned s),
       match r with
       | Ok signature => Done (Ok signature)
       | Err e => Panicked ("Failed to sign with keybundle.: " +:+ error_debug e)
       end)
  end.
Definition agent_sign (bundle : KeyBundle) : agent_method := λ params,
  m ← reading (unwrap_params_map params);
  payload ← reading (get_as_string "payload" m);
  signature ← bundle_sign bundle payload;
  mret (JObject [("signature", JString (base64 signature))]).

Definition with_agent_signature_callback (bundle : KeyBundle) (io : IoHandler AgentState) : IoHandler AgentState :=
  <["agent/sign" := agent_sign bundle]> io.
End rpc.
