(* ===== verification/RpcFacts.v ===== *)
(** * Facts about the JSON-RPC interface

    Requests to the administration perform the operations that their methods and parameters
    mean, one by one, and answer as they end; interfaces without administration cannot change
    the conductor, but for the lock of an instance that a call poisons; what a panic does to
    the requests that follow; and where parameters are read in a way one would not
    expect. *)
From S2P Require Import Prelude Errors Entries Actions Sodium Keys KeysFacts Keystore KeystoreFacts Config ConfigFacts Conductor ConductorAdmin ConductorFacts ConductorBoot ConductorErrors Rpc.

Section rpc_facts.
Context `{Sodium, Hcid, BlobText, PassphraseService, KeystoreText, Outside, Petgraph, RpcText}.

(** ** What the administration is asked for *)

(** Parameters, by key: a text, a flag, a port, a text that may be missing. *)
Definition text_at (key : string) (m : Map) : option string := map_get key m ≫= as_str.
Definition flag_at (key : string) (m : Map) : option bool := map_get key m ≫= as_bool.
Definition port_at (m : Map) : option Z :=
  match map_get "port" m with
  | Some (JInt z) => if decide (0 ≤ z < 2 ^ 16) then Some z else None
  | _ => None
  end.
Definition optional_text_at (key : string) (m : Map) : option (option string) :=
  match map_get key m with
  | None => Some None
  | Some (JString s) => Some (Some s)
  | Some _ => None
  end.

(** A request asks for an operation, or for a view of the conductor (which the locks of
    the instances or serde may refuse), or its parameters are no good. *)
Inductive Meaning :=
| Operation (op : AdminOp)
| View (view : Conductor → outcome (option Value))
| Refused.

Definition operation (read : Map → option AdminOp) (params : Params) : Meaning :=
  match params with
  | PMap m => match read m with Some op => Operation op | None => Refused end
  | _ => Refused
  end.
Definition view_of (show : Configuration → option Value) (_ : Params) : Meaning :=
  View (λ c, Done (show (config c))).

Definition of_id (op : string → AdminOp) : Params → Meaning :=
  operation (λ m, id ← text_at "id" m; Some (op id)).
Definition of_interface_instance (op : string → string → AdminOp) : Params → Meaning :=
  operation (λ m, interface ← text_at "interface_id" m; instance ← text_at "instance_id" m; Some (op interface instance)).

Definition driver_named (driver_type : string) (port : Z) : option InterfaceDriver :=
  if decide (driver_type = "websocket") then Some (Websocket port)
  else if decide (driver_type = "http") then Some (Http port) else None.

Definition is_running (c : Conductor) (i : InstanceConfiguration) : bool :=
  match running_instances c !! ic_id i with Some hc => active hc | None => false end.
Definition running_view (c : Conductor) : outcome (option Value) :=
  if decide (map_Exists (λ _ hc, poisoned hc = true) (running_instances c)) then
    Panicked "called `Result::unwrap()` on an `Err` value: PoisonError"
  else Done (Some (JArray (instance_to_value <$> filter (λ i, is_running c i = true) (instances (config c))))).

(** The methods and what they mean. *)
Definition meanings : gmap string (Params → Meaning) := list_to_map [
  ("admin/ui_interface/list", view_of (λ c, Some (JArray (ui_to_value <$> ui_interfaces c))));
  ("admin/ui_interface/stop", of_id StopUiInterface);
  ("admin/ui_interface/start", of_id StartUiInterface);
  ("admin/ui_interface/remove", of_id RemoveUiInterface);
  ("admin/ui_interface/add", operation (λ m,
    id ← text_at "id" m; port ← port_at m; bundle ← text_at "bundle" m;
    Some (AddUiInterface (MkUiInterfaceConfiguration id bundle port (text_at "dna_interface" m)))));
  ("admin/ui/list", view_of (λ c, Some (JArray (bundle_to_value <$> ui_bundles c))));
  ("admin/ui/uninstall", of_id UninstallUiBundle);
  ("admin/ui/install", operation (λ m,
    root_dir ← text_at "root_dir" m; id ← text_at "id" m; Some (InstallUiBundle root_dir id false)));
  ("admin/bridge/list", view_of (λ c, ok (bridges_to_value (bridges c))));
  ("admin/bridge/remove", operation (λ m,
    caller ← text_at "caller_id" m; callee ← text_at "callee_id" m; Some (RemoveBridge caller callee)));
  ("admin/bridge/add", operation (λ m,
    caller ← text_at "caller_id" m; callee ← text_at "callee_id" m; handle ← text_at "handle" m;
    Some (AddBridge (MkBridge caller callee handle))));
  ("admin/agent/list", view_of (λ c, ok (agents_to_value (agents c))));
  ("admin/agent/remove", of_id RemoveAgent);
  ("admin/agent/add", operation (λ m,
    id ← text_at "id" m; name ← text_at "name" m; remote ← optional_text_at "holo_remote_key" m;
    Some (AddAgent id name remote)));
  ("admin/interface/list", view_of (λ c, ok (interfaces_to_value (interfaces c))));
  ("admin/interface/remove_instance", of_interface_instance RemoveInstanceFromInterface);
  ("admin/interface/add_instance", of_interface_instance AddInstanceToInterface);
  ("admin/interface/remove", of_id RemoveInterface);
  ("admin/interface/add", operation (λ m,
    id ← text_at "id" m; admin ← flag_at "admin" m; driver_type ← text_at "type" m; port ← port_at m;
    driver ← driver_named driver_type port;
    Some (AddInterface (MkInterfaceConfiguration id driver admin []))));
  ("admin/instance/running", (λ _, View running_view));
  ("admin/instance/list", view_of (λ c, Some (JArray (instance_to_value <$> instances c))));
  ("admin/instance/stop", of_id StopInstance);
  ("admin/instance/start", of_id StartInstance);
  ("admin/instance/remove", of_id RemoveInstance);
  ("admin/instance/add", operation (λ m,
    id ← text_at "id" m; dna_id ← text_at "dna_id" m; agent_id ← text_at "agent_id" m;
    Some (AddInstance id dna_id agent_id)));
  ("admin/dna/list", view_of (λ c, Some (JArray ((λ dna, JObject [("id", JString (dc_id dna));
    ("hash", match dc_hash dna with Some h => JString h | None => JNull end)]) <$> dnas c))));
  ("admin/dna/uninstall", of_id UninstallDna);
  ("admin/dna/install_from_file", operation (λ m,
    id ← text_at "id" m; path ← text_at "path" m; expected_hash ← optional_text_at "expected_hash" m;
    Some (InstallDna path id (default false (flag_at "copy" m)) expected_hash (to_text <$> map_get "properties" m))))
].

(** The answer to an operation that succeeds: installing a DNA tells its hash. *)
Definition response (op : AdminOp) (c : Conductor) : Value :=
  match op with
  | InstallDna path id copy expected properties =>
      match (install_dna_from_file path id copy expected properties c).2 with
      | Done (Ok h) => JObject [("success", JBool true); ("dna_hash", JString h)]
      | _ => success
      end
  | _ => success
  end.

(** What a request does, and its answer; a panic poisons the lock of the conductor. *)
Definition carried_out (s : Singleton) (meaning : Meaning) (s' : Singleton) (o : outcome (result RpcError Value)) : Prop :=
  let c := the_conductor s in
  match meaning with
  | Operation op =>
      match perform_admin op c with
      | (c', Done (Ok _)) => s' = MkSingleton c' true false ∧ o = Done (Ok (response op c))
      | (c', Done (Err e)) =>
          s' = MkSingleton c' true false ∧ o = Done (Err (MkRpcError InternalError (HolochainError_fmt e)))
      | (c', Panicked why) => s' = MkSingleton c' true true ∧ o = Panicked why
      end
  | View view =>
      match view c with
      | Done (Some v) => s' = s ∧ o = Done (Ok v)
      | Done None => s' = s ∧ o = Done (Err internal_error)
      | Panicked why => s' = MkSingleton c true true ∧ o = Panicked why
      end
  | Refused => s' = s ∧ ∃ text, o = Done (Err (invalid_params text))
  end.

(** The rest of a method does what is meant. *)
Definition carries (meaning : Meaning) (m : rpc Singleton Value) : Prop := ∀ s,
  mounted s = true → lock_poisoned s = false → carried_out s meaning (m s).1 (m s).2.

Definition asked (x : option AdminOp) : Meaning := match x with Some op => Operation op | None => Refused end.

(** A parameter is read as it is meant, or refused. *)
Definition agrees {A : Type} (r : result RpcError A) (x : option A) : Prop :=
  match x with Some a => r = Ok a | None => ∃ text, r = Err (invalid_params text) end.

Lemma carries_reading {A : Type} (r : result RpcError A) (x : option A) (read : A → option AdminOp) k :
  agrees r x → (∀ a, carries (asked (read a)) (k a)) → carries (asked (x ≫= read)) (reading r ≫= k).
Proof.
  intros Hr Hk s Hm Hp. destruct x as [a|]; simpl in Hr; [subst r; by apply Hk|].
  destruct Hr as [text ->]. simpl. by eauto.
Qed.

Lemma carries_params read (f : Map → rpc Singleton Value) params :
  (∀ m, carries (asked (read m)) (f m)) → carries (operation read params) (reading (unwrap_params_map params) ≫= f).
Proof.
  intros Hf s Hm Hp. destruct params as [|l|m]; [by split; [|eexists]..|]. by apply Hf.
Qed.

Lemma agrees_as {A : Type} (read : Value → option A) wrong key m :
  agrees (get_as read wrong key m) (map_get key m ≫= read).
Proof.
  unfold get_as. destruct (map_get key m) as [v|]; simpl; [|by eexists]. destruct (read v); simpl; [done|by eexists].
Qed.
Lemma agrees_text key m : agrees (get_as_string key m) (text_at key m).
Proof. apply agrees_as. Qed.
Lemma agrees_flag key m : agrees (get_as_bool key m) (flag_at key m).
Proof. apply agrees_as. Qed.
Lemma agrees_port m : agrees (get_port m) (port_at m).
Proof.
  unfold get_port, get_as_int, get_as, port_at. destruct (map_get "port" m) as [[| |z| | | |]|]; simpl; try by eexists.
  destruct (decide (0 ≤ z < 2 ^ 16)).
  - rewrite (decide_True (P := - 2 ^ 63 ≤ z < 2 ^ 63)) by lia. simpl. by rewrite decide_True.
  - destruct (decide (- 2 ^ 63 ≤ z < 2 ^ 63)); simpl; [rewrite decide_False by done|]; by eexists.
Qed.
Lemma agrees_expected_hash m : agrees (expected_hash_of m) (optional_text_at "expected_hash" m).
Proof.
  unfold expected_hash_of, optional_text_at. destruct (map_get "expected_hash" m) as [[]|]; simpl; by try eexists.
Qed.
Lemma agrees_remote_key m : agrees (holo_remote_key_of m) (optional_text_at "holo_remote_key" m).
Proof.
  unfold holo_remote_key_of, optional_text_at. destruct (map_get "holo_remote_key" m) as [[]|]; simpl; by try eexists.
Qed.
Lemma agrees_driver driver_type port : agrees (driver_of driver_type port) (driver_named driver_type port).
Proof. unfold driver_of, driver_named. repeat case_decide; simpl; by try eexists. Qed.
Lemma copy_default m : match get_as_bool "copy" m with Ok b => b | Err _ => false end = default false (flag_at "copy" m).
Proof. pose proof (agrees_flag "copy" m) as Ha. destruct (flag_at "copy" m); [by rewrite Ha|]. by destruct Ha as [? ->]. Qed.
Lemma ok_text key m : ok (get_as_string key m) = text_at key m.
Proof. pose proof (agrees_text key m) as Ha. destruct (text_at key m); [by rewrite Ha|]. by destruct Ha as [? ->]. Qed.

(** A call that is an operation, and an answer. *)
Lemma carries_call {E A : Type} op (show : E → string) (to : E → HolochainError) (m : conducting E A) k :
  (∀ c, perform_admin op c = discard to m c) → (∀ e, show e = HolochainError_fmt (to e)) →
  (∀ c c' a, m c = (c', Done (Ok a)) → response op c = k a) →
  carries (Operation op) (conductor_call show m ≫= λ a, mret (k a)).
Proof.
  intros Ho Hs Hr s Hm Hp. unfold mbind, rpc_bind, conductor_call. rewrite Hp, Hm. simpl. rewrite Ho.
  unfold discard, mbind, conducting_bind, convert. specialize (Hr (the_conductor s)).
  destruct (m (the_conductor s)) as [c [[a|e]|why]] eqn:Em; simpl; [|by rewrite Hs|done].
  by rewrite (Hr _ _ eq_refl).
Qed.

Lemma discard_unit {E : Type} (m : conducting E unit) c : discard (λ e, e) m c = m c.
Proof. unfold discard, convert, mbind, conducting_bind. by destruct (m c) as [c' [[[]|e]|why]]. Qed.

(** Operations without a result, of the two kinds of errors. *)
Lemma carries_unit op (m : conducting HolochainError unit) :
  perform_admin op = m → (∀ c, response op c = success) →
  carries (Operation op) (conductor_call HolochainError_fmt m ≫= λ _, mret success).
Proof. intros Ho Hr. apply (carries_call op _ (λ e, e) _ (λ _, success)); [|done..]. intros c. by rewrite Ho, discard_unit. Qed.
Lemma carries_instance op (m : conducting HolochainInstanceError unit) :
  perform_admin op = discard of_instance_error m → (∀ c, response op c = success) →
  carries (Operation op) (conductor_call instance_error_fmt m ≫= λ _, mret success).
Proof. intros Ho Hr. apply (carries_call op _ of_instance_error _ (λ _, success)); [by rewrite Ho|done..]. Qed.

(** Views. *)
Lemma singleton_eta s : mounted s = true → lock_poisoned s = false → MkSingleton (the_conductor s) true false = s.
Proof. destruct s. simpl. by intros -> ->. Qed.

Lemma carries_view {A : Type} (show : string → string) (field : Conductor → A) (view : Conductor → outcome (option Value)) k :
  (∀ c, ∃ r, k (field c) = reading r ∧ view c = Done (ok r) ∧ (∀ e, r = Err e → e = internal_error)) →
  carries (View view) (conductor_call show (ask field) ≫= k).
Proof.
  intros Hv s Hm Hp. unfold mbind, rpc_bind, conductor_call. rewrite Hp, Hm. simpl.
  destruct (Hv (the_conductor s)) as (r & -> & -> & He). rewrite singleton_eta by done.
  destruct r as [v|e]; simpl; [done|]. by rewrite (He e eq_refl).
Qed.

Lemma active_iff c i :
  ic_id i ∈ dom (filter (λ p : string * Holochain, active p.2 = true) (running_instances c)) ↔ is_running c i = true.
Proof.
  unfold is_running. rewrite elem_of_dom. split.
  - intros [hc [-> Ha]%map_lookup_filter_Some]. done.
  - destruct (running_instances c !! ic_id i) as [hc|] eqn:E; [|done]. intros Ha. exists hc. by apply map_lookup_filter_Some.
Qed.

Lemma carries_running : carries (View running_view) (admin_instance_running PNone).
Proof.
  intros s Hm Hp. unfold admin_instance_running, mbind, rpc_bind, conductor_call. rewrite Hp, Hm.
  unfold active_ids, mbind, conducting_bind, ask, running_view. simpl.
  destruct (decide (map_Exists _ _)); simpl; [done|]. rewrite !singleton_eta by done. split; [done|].
  do 4 f_equal. apply list_filter_iff. intros i. apply active_iff.
Qed.

Definition administration : IoHandler Singleton := with_admin_ui_functions (with_admin_dna_functions ∅).

Create HintDb administering.
#[local] Hint Resolve agrees_text agrees_flag agrees_port agrees_expected_hash agrees_remote_key agrees_driver : administering.
#[local] Hint Extern 2 (carries _ _) => by apply carries_unit : administering.
#[local] Hint Extern 2 (carries _ _) => by apply carries_instance : administering.

Ltac unfold_method :=
  unfold admin_dna_uninstall, admin_instance_add, admin_instance_remove, admin_instance_start, admin_instance_stop,
    admin_interface_add, admin_interface_remove, admin_interface_add_instance, admin_interface_remove_instance,
    admin_agent_remove, admin_bridge_add, admin_bridge_remove, admin_ui_install, admin_ui_uninstall,
    admin_ui_interface_add, admin_ui_interface_remove, admin_ui_interface_start, admin_ui_interface_stop, by_id,
    of_interface, of_id, of_interface_instance.

(** Reads the parameters of a method one by one. *)
Ltac params_read :=
  apply carries_params; intros m; cbv zeta; repeat (apply carries_reading; [solve [eauto with administering]|intros ?]).

Lemma carries_dna_install params :
  carries (operation (λ m,
    id ← text_at "id" m; path ← text_at "path" m; expected_hash ← optional_text_at "expected_hash" m;
    Some (InstallDna path id (default false (flag_at "copy" m)) expected_hash (to_text <$> map_get "properties" m))) params)
    (admin_dna_install params).
Proof.
  unfold admin_dna_install. params_read. rewrite copy_default.
  apply (carries_call (InstallDna _ _ _ _ _) _ (λ e, e) _
    (λ h, JObject [("success", JBool true); ("dna_hash", JString h)])); [done..|].
  intros c c' h E. simpl. by rewrite E.
Qed.

Lemma carries_agent_add params :
  carries (operation (λ m,
    id ← text_at "id" m; name ← text_at "name" m; remote ← optional_text_at "holo_remote_key" m;
    Some (AddAgent id name remote)) params) (admin_agent_add params).
Proof. unfold admin_agent_add. params_read. by apply (carries_call (AddAgent _ _ _) _ (λ e, e) _ (λ _, success)). Qed.

Lemma carries_listing {A : Type} (field : Configuration → A) show (view : Configuration → option Value) params :
  (∀ c, view c = ok (show (field c))) → carries (view_of view params) (listing field show params).
Proof.
  intros Hv. unfold listing, view_of. apply carries_view. intros c. eexists. split; [done|]. rewrite Hv.
  destruct (show (field (config c))); simpl; naive_solver.
Qed.

Lemma administration_carries :
  map_Forall2 (λ _ f meaning, ∀ params, carries (meaning params) (f params)) administration meanings.
Proof.
  unfold administration, with_admin_ui_functions, with_admin_dna_functions, meanings.
  rewrite !list_to_map_cons, list_to_map_nil. repeat (apply map_Forall2_insert_2; [intros params|]); [..|apply map_Forall2_empty].
  all: lazymatch goal with
    | |- carries _ (admin_dna_install _) => apply carries_dna_install
    | |- carries _ (admin_agent_add _) => apply carries_agent_add
    | |- carries _ (admin_instance_running _) => apply carries_running
    | |- carries _ (admin_dna_list _) => apply carries_view; intros c; by eexists (Ok _)
    | |- carries _ (admin_instance_list _) => apply carries_view; intros c; by eexists (Ok _)
    | |- carries (view_of _ _) _ => by apply carries_listing
    | |- _ => unfold_method; params_read
    end.
  all: try rewrite ok_text; eauto with administering.
Qed.


(** ** Sequences of requests *)
Definition requested (requests : list (string * Params)) (s : Singleton) : Singleton :=
  foldl (λ s r, (handle_request administration r.1 r.2 s).1) s requests.

(** ** After a panic *)

(** No conductor can be reached: its lock is poisoned, or it is not mounted. *)
Definition unavailable (s : Singleton) : Prop := lock_poisoned s = true ∨ mounted s = false.

(** The method reads its parameters and then asks for the conductor. *)
Definition needs_lock (m : rpc Singleton Value) : Prop := ∀ s, unavailable s →
  ∃ o, m s = (s, o) ∧ ∀ v, o ≠ Done (Ok v).

Lemma needs_lock_reading {A : Type} (r : result RpcError A) k :
  (∀ a, needs_lock (k a)) → needs_lock (reading r ≫= k).
Proof. intros Hk s Hp. destruct r as [a|e]; [by apply Hk|by eexists]. Qed.

Lemma needs_lock_call {E A : Type} (show : E → string) (m : conducting E A) k :
  needs_lock (conductor_call show m ≫= k).
Proof.
  intros s Hu. unfold mbind, rpc_bind, conductor_call. destruct (lock_poisoned s) eqn:Hp; [by eexists|].
  destruct Hu as [?|Hm]; [congruence|]. rewrite Hm. by eexists.
Qed.

Ltac asks_conductor :=
  intros params; repeat first [ apply needs_lock_call | apply needs_lock_reading; intros ? | progress cbv zeta ].

Lemma administration_needs_lock : map_Forall (λ _ f, ∀ params, needs_lock (f params)) administration.
Proof.
  unfold administration, with_admin_ui_functions, with_admin_dna_functions.
  repeat (apply map_Forall_insert_2; [|]); [..|apply map_Forall_empty].
  all: unfold admin_dna_install, admin_dna_uninstall, admin_dna_list, admin_instance_add, admin_instance_remove,
    admin_instance_start, admin_instance_stop, admin_instance_list, admin_instance_running, admin_interface_add,
    admin_interface_remove, admin_interface_add_instance, admin_interface_remove_instance, admin_interface_list,
    admin_agent_add, admin_agent_remove, admin_agent_list, admin_bridge_add, admin_bridge_remove, admin_bridge_list,
    admin_ui_install, admin_ui_uninstall, admin_ui_list, admin_ui_interface_add, admin_ui_interface_remove,
    admin_ui_interface_start, admin_ui_interface_stop, admin_ui_interface_list, by_id, of_interface, listing.
  all: asks_conductor.
Qed.

Lemma unavailable_request name params s :
  unavailable s →
  ∃ o, handle_request administration name params s = (s, o) ∧ ∀ v, o ≠ Done (Ok v).
Proof.
  intros Hp. unfold handle_request. destruct (administration !! name) as [f|] eqn:E; [|by eexists].
  by apply (map_Forall_lookup_1 _ _ _ _ administration_needs_lock E params).
Qed.

Lemma requests_keep_unavailable requests s : unavailable s → requested requests s = s.
Proof.
  intros Hp. induction requests as [|[name params] l IH]; [done|].
  change (requested l (handle_request administration name params s).1 = s).
  destruct (unavailable_request name params s Hp) as (o & -> & _). done.
Qed.

(** The parameters of a request for a new websocket interface. *)
Definition websocket_params (id : string) (admin : bool) (port : Z) : Params :=
  PMap [("id", JString id); ("admin", JBool admin); ("type", JString "websocket"); ("port", JInt port)].

Lemma websocket_request id admin port s :
  0 ≤ port < 2 ^ 16 →
  handle_request administration "admin/interface/add" (websocket_params id admin port) s =
  (conductor_call HolochainError_fmt (add_interface (MkInterfaceConfiguration id (Websocket port) admin []));;
   mret success) s.
Proof.
  intros Hp. assert (get_port [("id", JString id); ("admin", JBool admin); ("type", JString "websocket");
    ("port", JInt port)] = Ok port) as Hg.
  { unfold get_port, get_as_int, get_as, as_i64_value. simpl. rewrite decide_True by lia. simpl.
    by rewrite decide_True by lia. }
  unfold handle_request, websocket_params.
  change (administration !! "admin/interface/add") with (Some admin_interface_add).
  unfold admin_interface_add, mbind, rpc_bind, reading. cbn -[get_port]. by rewrite Hg.
Qed.

Lemma run_interface_fails f c c1 e w :
  if_id f ∉ if_id <$> interfaces (config c) → interface_threads c !! if_id f = None →
  adopt_config (with_interfaces (interfaces (config c) ++ [f]) (config c)) c = (c1, Done (Ok tt)) →
  implemented (if_driver f) = true →
  answer (RunInterface (if_driver f) (make_interface_handler c1 f)) (world c1) = (w, Err e) →
  ∃ why, add_interface f c = (set_world w c1, Panicked why) ∧
    config c1 = with_interfaces (interfaces (config c) ++ [f]) (config c).
Proof.
  intros Hid Ht Ha Hi Hr. set (c' := with_interfaces _ _) in *.
  destruct (adopt_cases c' c) as [(e' & E & _)|(Hc & Ec & Es)]; [congruence|].
  pose proof (save_config_world (set_config c' c)) as Et. rewrite <-Es, Ha in Et. rewrite Ha in Ec. simpl in Et, Ec.
  eexists. split; [|done].
  unfold add_interface. erewrite cbind_ok by done. rewrite decide_False by done. fold c'. erewrite cbind_ok by exact Ha.
  unfold convert, start_interface_by_id. erewrite cbind_ok by done. unfold interface_by_id. rewrite Ec.
  rewrite find_by_unique; [|apply Hc|apply elem_of_app; right; by apply list_elem_of_singleton].
  erewrite cbind_ok by done. unfold start_interface. erewrite cbind_ok by done.
  rewrite decide_False by (rewrite Et, Ht; by intros []).
  unfold mbind, conducting_bind, spawn_interface_thread, ask, outside. simpl. rewrite Hi.
  unfold mbind, conducting_bind. by rewrite Hr.
Qed.

(** a request for an interface whose port is in use ends the administration: it panics
    with the lock of the conductor held, after the configuration with the new interface was
    adopted and saved, and no later request to the administration does anything or
    succeeds. *)
Theorem port_in_use_ends_administration s id admin port c1 e w :
  let f := MkInterfaceConfiguration id (Websocket port) admin [] in
  let c := the_conductor s in
  mounted s = true → lock_poisoned s = false → 0 ≤ port < 2 ^ 16 →
  if_id f ∉ if_id <$> interfaces (config c) → interface_threads c !! id = None →
  adopt_config (with_interfaces (interfaces (config c) ++ [f]) (config c)) c = (c1, Done (Ok tt)) →
  answer (RunInterface (Websocket port) (make_interface_handler c1 f)) (world c1) = (w, Err e) →
  let s' := (handle_request administration "admin/interface/add" (websocket_params id admin port) s).1 in
  config (the_conductor s') = with_interfaces (interfaces (config c) ++ [f]) (config c) ∧
  ∀ requests, requested requests s' = s' ∧
    ∀ name params v, (handle_request administration name params (requested requests s')).2 ≠ Done (Ok v).
Proof.
  intros f c Hm Hp Hport Hid Ht Ha Hr s'.
  destruct (run_interface_fails f c c1 e w Hid Ht Ha eq_refl Hr) as (why & Ef & Ec).
  assert (s' = MkSingleton (set_world w c1) true true) as ->.
  { unfold s'. rewrite websocket_request by done. unfold mbind, rpc_bind, conductor_call. rewrite Hp, Hm.
    fold f c. by rewrite Ef. }
  split; [done|]. intros requests. rewrite requests_keep_unavailable by (by left). split; [done|]. intros name params v.
  destruct (unavailable_request name params (MkSingleton (set_world w c1) true true)) as (o & -> & Ho); [by left|apply Ho].
Qed.
(** ** Interfaces without administration *)

(** Only what is outside the conductor can have changed. *)
Definition outside_only : relation Conductor := λ c c', ∃ w, c' = set_world w c.
Definition spectates : relation Singleton := λ s s',
  ∃ w, s' = MkSingleton (set_world w (the_conductor s)) (mounted s) (lock_poisoned s).

#[local] Instance outside_only_preorder : PreOrder outside_only.
Proof. split; [intros []; by eexists|]. intros c1 c2 c3 [w1 ->] [w2 ->]. by eexists. Qed.
#[local] Instance spectates_preorder : PreOrder spectates.
Proof. split; [intros [[] m p]; by eexists|]. intros s1 s2 s3 [w1 ->] [w2 ->]. by eexists. Qed.

Lemma outside_only_call {E A : Type} (call : Call A) : frame outside_only (outside call : conducting E A).
Proof. intros c. unfold outside. destruct (answer call (world c)). by eexists. Qed.
#[local] Hint Resolve outside_only_call : conductor.

Definition watches {A : Type} (m : rpc Singleton A) : Prop := ∀ s, spectates s (m s).1.

Lemma watches_reading {A : Type} (r : result RpcError A) : watches (reading r).
Proof. intros s. reflexivity. Qed.
Lemma watches_panic {A : Type} why : watches (rpc_panic why : rpc Singleton A).
Proof. intros s. reflexivity. Qed.
Lemma watches_ret {A : Type} (a : A) : watches (mret a).
Proof. intros s. reflexivity. Qed.
Lemma watches_bind {A B : Type} (m : rpc Singleton A) (k : A → rpc Singleton B) :
  watches m → (∀ a, watches (k a)) → watches (m ≫= k).
Proof.
  intros Hm Hk s. unfold mbind, rpc_bind. specialize (Hm s).
  destruct (m s) as [s1 [[a|e]|why]]; simpl in *; [|done..]. by etrans; [|apply Hk].
Qed.
Lemma watches_on_behalf {E A : Type} (show : E → RpcError) (m : conducting E A) :
  frame outside_only m → watches (on_behalf show m).
Proof.
  intros Hm s. unfold on_behalf. specialize (Hm (the_conductor s)).
  destruct (m (the_conductor s)) as [c []]; destruct Hm as [w Hw]; simpl in *; subst; by exists w.
Qed.

Lemma watches_cap_request ctx m function args : watches (cap_request_of ctx m function args).
Proof.
  unfold cap_request_of. apply watches_bind; [|intros token].
  - destruct (get_as_string "token" m); [apply watches_ret|]. apply watches_bind; [|intros r; apply watches_reading].
    apply watches_on_behalf, outside_only_call.
  - destruct (map_get "provenance" m); [apply watches_bind; [apply watches_reading|intros p; apply watches_ret]|].
    apply watches_on_behalf. unfold make_cap_request_for_call. framed.
Qed.

Lemma watches_call_instance hc m : watches (call_instance hc m).
Proof.
  unfold call_instance. cbv zeta. do 2 (apply watches_bind; [apply watches_reading|intros ?]).
  apply watches_bind; [apply watches_cap_request|intros cap].
  apply watches_bind; [|intros r; apply watches_ret]. apply watches_on_behalf. unfold hc_call. framed.
Qed.

(** The instances that an interface exposes: those it is configured for, of those that the
    conductor had when it made it. *)
Lemma exposed_iff made interface id :
  id ∈ exposed (interface_builder made interface) ↔ id ∈ if_instances interface ∧ id ∈ dom (running_instances made).
Proof.
  unfold interface_builder.
  assert (∀ l b, exposed (with_instance_configs l b) = exposed b) as ->.
  { intros l. induction l as [|i l IH]; intros b; [done|]. simpl. by rewrite IH. }
  unfold with_instances, make_interface_handler. simpl. set (names := filter _ _).
  trans (id ∈ names); [|unfold names; by rewrite elem_of_filter].
  apply (set_fold_ind_L (λ b X, id ∈ exposed b ↔ id ∈ X)); [done|].
  intros x X b _ IH. simpl. set_solver.
Qed.

(** What a call can do: ask the outside, and poison the lock of the instance it calls. *)
Definition poisons_only (held : gmap string Held) (id : string) (s s' : Singleton)
    (o : outcome (result RpcError Value)) : Prop :=
  ∃ w why, held !! id = Some Current ∧ o = Panicked why ∧
    s' = MkSingleton (poison_instance id (set_world w (the_conductor s))) (mounted s) (lock_poisoned s).

Lemma call_cases b held params s :
  let '(s', o) := call_method b held params s in
  spectates s s' ∨
  ∃ m id, params = PMap m ∧ get_as_string "instance_id" m = Ok id ∧ id ∈ exposed b ∧ poisons_only held id s s' o.
Proof.
  unfold call_method, mbind, rpc_bind, reading. destruct params as [|l|m]; simpl; [left; reflexivity..|].
  destruct (get_as_string "instance_id" m) as [id|e] eqn:Hid; [|left; reflexivity].
  case_decide as He; [left; reflexivity|]. destruct (behind_lock held id _) as [hc|]; [|left; reflexivity].
  destruct (poisoned hc); [left; reflexivity|].
  unfold while_holding. destruct (watches_call_instance hc m s) as [w Hw].
  destruct (call_instance hc m s) as [s1 [r|why]]; simpl in Hw; subst s1; [left; by exists w|].
  destruct (held !! id) as [[|]|] eqn:Hh; [|left; by exists w..].
  right. exists m, id. split_and!; [done..|]. by exists w, why.
Qed.


(** an interface serves calls only to the instances its configuration names: a request
    that names another one is refused and nothing happens. *)
Theorem unlisted_instance_refused made interface held m id s :
  get_as_string "instance_id" m = Ok id → id ∉ if_instances interface →
  handle_request (interface_io made interface held) "call" (PMap m) s =
  (s, Done (Err (invalid_params "instance identifier invalid"))).
Proof.
  intros Hid Hn. unfold handle_request, interface_io, spawn. rewrite lookup_insert_eq. unfold call_method.
  unfold mbind, rpc_bind, reading. simpl. rewrite Hid. rewrite decide_True; [done|].
  rewrite exposed_iff. tauto.
Qed.

(** ** A call that ends the administration *)

(** The parameters of a call that brings a token and a provenance of its own. *)
Definition call_params (id zome function token : string) (provenance args : Value) : Map :=
  [("instance_id", JString id); ("zome", JString zome); ("function", JString function); ("token", JString token);
   ("provenance", provenance); ("args", args)].

Lemma panicking_call made interface held s id zome function token value args hc provenance w why :
  let c := the_conductor s in
  let m := call_params id zome function token value args in
  id ∈ if_instances interface → id ∈ dom (running_instances made) → held !! id = Some Current →
  running_instances c !! id = Some hc → active hc = true → poisoned hc = false →
  provenance_of_value value = Ok provenance →
  answer (CallZome (context hc) zome (MkCapabilityRequest token provenance) function (call_args_text m)) (world c) =
    (w, Panicked why) →
  handle_request (interface_io made interface held) "call" (PMap m) s =
  (MkSingleton (poison_instance id (set_world w c)) (mounted s) (lock_poisoned s), Panicked why).
Proof.
  intros c m Hi Hd Hh Hc Ha Hp Hv Hr. unfold handle_request, interface_io, spawn. rewrite lookup_insert_eq.
  unfold call_method, mbind, rpc_bind, reading. simpl. rewrite decide_False by (rewrite exposed_iff; tauto).
  unfold behind_lock, while_holding. rewrite Hh. fold c. rewrite Hc, Hp.
  unfold call_instance, cap_request_of, mbind, rpc_bind, reading. simpl. rewrite Hv. simpl.
  unfold on_behalf, hc_call. rewrite Ha. unfold mbind, conducting_bind, outside. fold c. fold m. rewrite Hr. done.
Qed.

(** a call through any interface can end the administration, without any right to it.
    When the signature that the caller brings cannot be read, the core of an active
    instance panics with the lock of the instance held; the next request for the running
    instances panics on that lock with the conductor's held; and then no request to the
    administration does anything or succeeds. *)
Theorem plain_call_ends_administration made interface held s id zome function token value args hc provenance w why params :
  let c := the_conductor s in
  let m := call_params id zome function token value args in
  mounted s = true → lock_poisoned s = false →
  id ∈ if_instances interface → id ∈ dom (running_instances made) → held !! id = Some Current →
  running_instances c !! id = Some hc → active hc = true → poisoned hc = false →
  provenance_of_value value = Ok provenance →
  answer (CallZome (context hc) zome (MkCapabilityRequest token provenance) function (call_args_text m)) (world c) =
    (w, Panicked why) →
  let s1 := (handle_request (interface_io made interface held) "call" (PMap m) s).1 in
  let s2 := (handle_request administration "admin/instance/running" params s1).1 in
  ∀ requests, requested requests s2 = s2 ∧
    ∀ name params v, (handle_request administration name params (requested requests s2)).2 ≠ Done (Ok v).
Proof.
  intros c m Hm Hl Hi Hd Hh Hc Ha Hp Hv Hr s1 s2.
  assert (lock_poisoned s2 = true) as Hs2.
  { unfold s2, s1, m. erewrite panicking_call by done. fold c. rewrite Hm, Hl.
    unfold handle_request. change (administration !! "admin/instance/running") with (Some admin_instance_running).
    unfold admin_instance_running, mbind, rpc_bind, conductor_call. simpl.
    unfold active_ids, mbind, conducting_bind, ask. simpl. rewrite decide_True; [done|].
    exists id, (poison hc). by rewrite lookup_alter_eq, Hc. }
  intros requests. rewrite requests_keep_unavailable by (by left). split; [done|]. intros name params' v.
  destruct (unavailable_request name params' s2) as (o & -> & Ho); [by left|apply Ho].
Qed.

(** ** Answers that mislead *)

Definition bridge_params (caller callee handle : string) : Params :=
  PMap [("caller_id", JString caller); ("callee_id", JString callee); ("handle", JString handle)].

Lemma bridge_request caller callee handle s :
  handle_request administration "admin/bridge/add" (bridge_params caller callee handle) s =
  (conductor_call HolochainError_fmt (add_bridge (MkBridge caller callee handle));; mret success) s.
Proof.
  unfold handle_request. change (administration !! "admin/bridge/add") with (Some admin_bridge_add). reflexivity.
Qed.

(** the request to add a bridge is answered with an error, and yet the bridge stays in
    the configuration, when the configuration cannot be saved. *)
Theorem failed_save_applies_change s caller callee handle c1 e :
  let c := the_conductor s in
  let c' := with_bridges (bridges (config c) ++ [MkBridge caller callee handle]) (config c) in
  mounted s = true → lock_poisoned s = false → ¬ Exists (same_bridge caller callee) (bridges (config c)) →
  consistent c' → save_config (set_config c' c) = (c1, Done (Err e)) →
  handle_request administration "admin/bridge/add" (bridge_params caller callee handle) s =
  (MkSingleton c1 true false, Done (Err (MkRpcError InternalError (HolochainError_fmt e)))) ∧ config c1 = c'.
Proof.
  intros c c' Hm Hp Hb Hc Hs. split.
  - rewrite bridge_request. unfold mbind, rpc_bind, conductor_call. rewrite Hp, Hm. fold c.
    assert (add_bridge (MkBridge caller callee handle) c = (c1, Done (Err e))) as ->; [|done].
    unfold add_bridge. erewrite cbind_ok by done. rewrite decide_False by done. fold c'.
    destruct (adopt_cases c' c) as [(e' & _ & Hn)|(_ & _ & Es)]; [done|]. by rewrite Es.
  - pose proof (quiet_save_config (set_config c' c)) as [E _]. by rewrite Hs in E.
Qed.

(** Arguments that are [null] are sent as an empty object, but arguments that are missing
    are sent as [null]. *)
Lemma missing_args_are_null m :
  (map_get "args" m = Some JNull → call_args_text m = "{}") ∧
  (map_get "args" m = None → map_get "params" m = None → call_args_text m = "null").
Proof.
  unfold call_args_text. split; [intros ->|intros -> ->]; simpl; [apply to_text_empty|apply to_text_null].
Qed.

(** Ports outside of 16 bits are refused. *)
Lemma get_port_iff m z : get_port m = Ok z ↔ map_get "port" m = Some (JInt z) ∧ 0 ≤ z < 2 ^ 16.
Proof.
  unfold get_port, get_as_int, get_as. destruct (map_get "port" m) as [v|]; simpl; [|naive_solver].
  destruct v as [| |y| | | |]; simpl; try naive_solver.
  destruct (decide (- 2 ^ 63 ≤ y < 2 ^ 63)); simpl; [destruct (decide (0 ≤ y < 2 ^ 16))|]; simpl; split;
    try naive_solver lia.
Qed.
(** ** Random seeds *)
Definition seed_params (id : string) (size : Z) : Params := PMap [("dst_id", JString id); ("size", JInt size)].

(** The methods of a keystore that is poisoned. *)
Definition needs_keystore (m : rpc AgentState Value) : Prop := ∀ s, keystore_poisoned s = true →
  ∃ o, m s = (s, o) ∧ ∀ v, o ≠ Done (Ok v).

Lemma needs_keystore_reading {A : Type} (r : result RpcError A) k :
  (∀ a, needs_keystore (k a)) → needs_keystore (reading r ≫= k).
Proof. intros Hk s Hp. destruct r as [a|e]; [by apply Hk|by eexists]. Qed.

Lemma needs_keystore_read e : needs_keystore (reading (Err e)).
Proof. intros s Hp. by eexists. Qed.

Lemma needs_keystore_locked {A : Type} show (m : keeping A) k : needs_keystore (locked show m ≫= k).
Proof. intros s Hp. unfold mbind, rpc_bind, locked. rewrite Hp. by eexists. Qed.

Lemma keystore_functions_need order :
  map_Forall (λ _ f, ∀ params, needs_keystore (f params)) (with_agent_keystore_functions order ∅).
Proof.
  unfold with_agent_keystore_functions. repeat (apply map_Forall_insert_2; [|]); [..|apply map_Forall_empty].
  all: unfold keystore_get_public_key, keystore_sign_method, keystore_add_key_from_seed, keystore_add_seed_from_seed,
    keystore_add_random_seed, keystore_list; intros params.
  all: repeat first [ apply needs_keystore_locked | apply needs_keystore_read | apply needs_keystore_reading; intros ?
    | case_decide ].
Qed.

Lemma size_wraps size : - 2 ^ 63 ≤ size < 2 ^ 63 → size ≠ 32 → Z.to_nat (size `mod` 2 ^ 64) ≠ SEED_SIZE.
Proof.
  intros Hr Hs E. assert (size `mod` 2 ^ 64 = 32) as E2.
  { pose proof (Z.mod_pos_bound size (2 ^ 64)). unfold SEED_SIZE in E. lia. }
  destruct (decide (0 ≤ size)) as [Hz|Hz].
  - rewrite Z.mod_small in E2 by lia. done.
  - rewrite <-(Z.mod_add size 1 (2 ^ 64)), Z.mod_small in E2 by lia. lia.
Qed.

(** a request for a random seed of any other size than 32 bytes panics with the lock of
    the keystore held, and from then on no function of the keystore succeeds. *)
Theorem odd_seed_poisons_keystore order s p id size :
  let io := with_agent_keystore_functions order ∅ in
  keystore_poisoned s = false → secrets (keystore s) !! id = None → checked (keystore s) p →
  unlocked p (agent_vault s) → passphrase_manager (keystore s) = true →
  - 2 ^ 63 ≤ size < 2 ^ 63 → size ≠ 32 →
  ∃ why, handle_request io "agent/keystore/add_random_seed" (seed_params id size) s =
    (MkAgentState (keystore s) (agent_vault s) true, Panicked why) ∧
  ∀ name params v, (handle_request io name params (MkAgentState (keystore s) (agent_vault s) true)).2 ≠ Done (Ok v).
Proof.
  intros io Hp Hs Hc Hu Hm Hr Hn.
  destruct (add_random_seed_panics (keystore s) (agent_vault s) p id (Z.to_nat (size `mod` 2 ^ 64)))
    as [why E]; [done..|by apply size_wraps|].
  exists why. split.
  - unfold handle_request, io. change (_ !! "agent/keystore/add_random_seed") with (Some keystore_add_random_seed).
    unfold keystore_add_random_seed, seed_params, mbind, rpc_bind, reading. cbn -[get_as_int Z.pow].
    unfold get_as_int, get_as, as_i64_value. simpl. rewrite decide_True by lia. simpl. unfold locked. by rewrite Hp, E.
  - intros name params v. unfold handle_request. destruct (io !! name) as [f|] eqn:Ef; [|done].
    destruct (map_Forall_lookup_1 _ _ _ _ (keystore_functions_need order) Ef params
      (MkAgentState (keystore s) (agent_vault s) true) eq_refl) as (o & -> & Ho). apply Ho.
Qed.

(** ** Any sequence of requests *)
Lemma request_cases name params s :
  the_conductor (handle_request administration name params s).1 = the_conductor s ∨
  ∃ op, the_conductor (handle_request administration name params s).1 = (perform_admin op (the_conductor s)).1.
Proof.
  assert (unavailable s ∨ mounted s = true ∧ lock_poisoned s = false) as [Hu|[Hm Hp]].
  { unfold unavailable. destruct (lock_poisoned s), (mounted s); auto. }
  { left. destruct (unavailable_request name params s Hu) as (o & -> & _). done. }
  pose proof (administration_carries name) as Hc. unfold handle_request.
  destruct (administration !! name) as [f|], (meanings !! name) as [meaning|]; inversion Hc as [? ? Hf|]; [|by left].
  specialize (Hf params s Hm Hp). unfold carried_out in Hf. destruct (meaning params) as [op|view|].
  - right. exists op. by destruct (perform_admin op _) as [c' [[]|]], Hf as [-> _].
  - left. by destruct (view _) as [[]|], Hf as [-> _].
  - left. by destruct Hf as [-> _].
Qed.

(** Whatever is requested of the administration, the configuration stays consistent and the
    configured instances stay in memory. *)
Theorem requests_keep_booted requests s :
  booted (the_conductor s) → booted (the_conductor (requested requests s)).
Proof.
  revert s. induction requests as [|[name params] l IH]; intros s Hb; [done|].
  apply (IH (handle_request administration name params s).1).
  destruct (request_cases name params s) as [->|[op ->]]; [done|by apply perform_booted].
Qed.
End rpc_facts.

(** ** Concrete requests *)
Module RpcDemo.
Import Toy Demo SearchSort.
#[local] Obligation Tactic := idtac.

(** A text for the values that are compared here. *)
Definition text (v : Value) : string :=
  match v with JNull => "null" | JString s => s | JObject _ => "{}" | _ => "?" end.
Definition read_provenance (v : Value) : result string Provenance :=
  match v with JString s => Ok (MkProvenance s s) | _ => Err "no provenance" end.

#[export, program] Instance toy_rpc_text : RpcText := {
  to_text := text;
  provenance_of_value := read_provenance;
  interfaces_to_value l := Ok (JArray ((λ f, JString (if_id f)) <$> l));
  agents_to_value l := Ok (JArray ((λ a, JString (ac_id a)) <$> l));
  bridges_to_value l := Ok (JArray ((λ b, JString (handle b)) <$> l));
  bundle_to_value b := JString (ub_id b);
  ui_to_value u := JString (ui_id u);
  debug_params _ := "{..}";
}.
Next Obligation. done. Qed.
Next Obligation. done. Qed.

(** An outside where running an interface and writing a file answer as given, and where a
    signature that is no signature panics. *)
Definition flawed (run : result string nat) (write : result string unit) {A : Type} (call : Call A) : A :=
  match call with
  | RunInterface _ _ => run
  | WriteFile _ _ => write
  | CallZome _ _ cap _ _ =>
      if decide (signature (cap_provenance cap) = "no signature") then Panicked "InvalidByte(2, 32)"
      else Done (Ok "true")
  | call => ConductorDemo.comply call
  end.
#[program] Definition flawed_outside (run : result string nat) (write : result string unit) : Outside := {|
  World := unit;
  answer A call w := (w, flawed run write call);
  iteration_order _ s := elements s;
  dna_address dna := dna_name dna;
  json_merge _ b := b;
  json_object key value := key +:+ value;
  json_bool text := Ok (bool_decide (text = "true"));
  config_to_text c := Ok (persistence_dir c);
  debug_str s := s;
|}.
Next Obligation. intros run write w s. split; [apply NoDup_elements|intros x; apply elem_of_elements]. Qed.

Definition linked : Configuration := example [MkBridge "caller" "callee" "h"].

Module Fine.
#[local] Instance fine : Outside := flawed_outside (Ok 0%nat) (Ok tt).
Definition served : Singleton := MkSingleton (from_config linked (vault passphrase) tt) true false.


Definition plain : InterfaceConfiguration := MkInterfaceConfiguration "http" (Http 80) false ["caller"].


(** An instance runs, which the interface was made with. *)
Definition hc : Holochain :=
  MkHolochain (MkInstanceContext "caller" "alice" "key" (MemoryBackend "net") MemoryStorage []) true false.
Definition running : Singleton := MkSingleton (set_instances {["caller" := hc]} (the_conductor served)) true false.
Definition bad_call : Map := call_params "caller" "zome" "function" "token" (JString "no signature") JNull.

Lemma plain_call_ends_administration_witness :
  let s1 := (handle_request (interface_io (the_conductor running) plain {["caller" := Current]}) "call"
    (PMap bad_call) running).1 in
  let s2 := (handle_request administration "admin/instance/running" PNone s1).1 in
  (handle_request administration "admin/bridge/list" PNone s2).2 ≠ Done (Ok (JArray [JString "h"])).
Proof.
  apply (plain_call_ends_administration (the_conductor running) plain {["caller" := Current]} running "caller" "zome"
    "function" "token" (JString "no signature") JNull hc (MkProvenance "no signature" "no signature") tt
    "InvalidByte(2, 32)" PNone eq_refl eq_refl) with (requests := []); [by left|..]; reflexivity.
Defined.

Lemma unlisted_instance_refused_witness :
  handle_request (interface_io (the_conductor served) plain ∅) "call" (PMap [("instance_id", JString "callee")]) served =
  (served, Done (Err (invalid_params "instance identifier invalid"))).
Proof.
  apply (unlisted_instance_refused (the_conductor served) plain ∅ [("instance_id", JString "callee")] "callee" served);
    [reflexivity|]. apply (bool_decide_unpack _). by vm_compute.
Defined.
End Fine.

Module Busy.
#[local] Instance busy : Outside := flawed_outside (Err "address in use") (Ok tt).
Definition served : Singleton := MkSingleton (from_config linked (vault passphrase) tt) true false.
Definition late : InterfaceConfiguration := MkInterfaceConfiguration "late" (Websocket 9999) false [].
Definition with_late : Configuration := with_interfaces (interfaces linked ++ [late]) linked.

Lemma port_in_use_ends_administration_witness :
  config (the_conductor (handle_request administration "admin/interface/add" (websocket_params "late" false 9999) served).1)
    = with_late.
Proof.
  destruct (port_in_use_ends_administration served "late" false 9999 (adopt_config with_late (the_conductor served)).1
    "address in use" tt) as [Hc _]; [reflexivity|reflexivity|lia| |reflexivity|by vm_compute|reflexivity|exact Hc].
  apply (bool_decide_unpack _). by vm_compute.
Defined.
End Busy.

Module Full.
#[local] Instance full : Outside := flawed_outside (Ok 0%nat) (Err "disk full").
Definition served : Singleton := MkSingleton (from_config (example []) (vault passphrase) tt) true false.

Lemma failed_save_applies_change_witness :
  config (the_conductor (handle_request administration "admin/bridge/add"
    (bridge_params "caller" "callee" "h") served).1) = linked.
Proof.
  destruct (failed_save_applies_change served "caller" "callee" "h" (save_config (set_config linked (the_conductor served))).1
    (ErrorGeneric "Could not save config to /tmp/conductor-config.toml")) as [E Hc];
    [reflexivity|reflexivity| | |by vm_compute|by rewrite E].
  - apply (bool_decide_unpack _). by vm_compute.
  - apply check_consistency_spec. by vm_compute.
Defined.
End Full.

Lemma odd_seed_poisons_keystore_witness :
  ∃ why, handle_request (with_agent_keystore_functions elements ∅) "agent/keystore/add_random_seed" (seed_params "seed" 16)
      (MkAgentState (store_of passphrase ∅) (vault passphrase) false) =
    (MkAgentState (store_of passphrase ∅) (vault passphrase) true, Panicked why).
Proof.
  destruct (odd_seed_poisons_keystore elements (MkAgentState (store_of passphrase ∅) (vault passphrase) false) passphrase
    "seed" 16) as (why & E & _); [reflexivity|reflexivity|apply store_checked|reflexivity|reflexivity|lia|lia|].
  by exists why.
Defined.
End RpcDemo.
