(* ===== verification/Dht.v ===== *)
(** * The DHT shard

    [core/src/dht/]: the state slice of the agent's shard of the DHT, its
    reducers and the queries on it, and [core/src/nucleus/actions/get_entry.rs].

    The slice holds [Arc]s to the storages: cloning a slice does not copy them,
    and a write to them stays even when the reducer gives up and the old slice is
    kept.  So the storages live in a [World] that every operation threads; a slice
    names the content storage it uses by a location, since the source chain may
    use the same one. *)
From stdpp Require Import functions.
From S2P Require Import Prelude Errors Strings Eav Entries Cas Protocol Actions.
Open Scope Z_scope.

Section dht.
Context {wire : Wire} {Json : Type}.
Context {C : Type} `{!ContentAddressableStorage C}.
Context {S : Type} `{!EavStorage S}.
Context (clock : nat → Z).

(** ** The shared world *)
Record World := MkWorld {
  w_cas : nat → C;
  w_meta : S;
  w_ticks : nat;
}.

Definition set_cas (w : World) (l : nat) (c : C) : World :=
  MkWorld (<[l := c]> (w_cas w)) (w_meta w) (w_ticks w).

Abbreviation M := (stateful World HolochainError).

(** [Utc::now()]. *)
Definition now : M Z := λ w,
  Done (MkWorld (w_cas w) (w_meta w) (Datatypes.S (w_ticks w)), Ok (clock (w_ticks w))).

Definition cas_write {A} `{!AddressableContent A} (l : nat) (x : A) : M unit := λ w,
  match add_content (w_cas w l) x with
  | Ok c => Done (set_cas w l c, Ok tt)
  | Err e => Done (w, Err e)
  end.

Definition cas_read (l : nat) (a : Address) : M (option Content) := λ w,
  Done (w, cas_fetch (w_cas w l) a).

Definition cas_has (l : nat) (a : Address) : M bool := λ w,
  Done (w, cas_contains (w_cas w l) a).

Definition meta_add (e : Eavi) : M (option Eavi) := λ w,
  '(s, t, r) ← add_eavi clock (w_meta w, w_ticks w) e;
  Done (MkWorld (w_cas w) s t, r).

Definition meta_fetch (q : EaviQuery) : M (list Eavi) := λ w,
  Done (w, fetch_eavi (w_meta w) q).

(** [EntityAttributeValueIndex::new] reads the clock. *)
Definition new_eavi (e : Address) (a : Attribute) (v : Address) : M Eavi :=
  t ← now; lift (eavi_new t e a v).

Definition new_status_eavi (a : Address) (st : CrudStatus.t) : M Eavi :=
  t ← now; lift (create_crud_status_eav t a st).

Definition new_link_eavi (from to : Address) : M Eavi :=
  t ← now; lift (create_crud_link_eav t from to).

(** [result.map_err(f)]. *)
Definition mapping_err {A} (f : HolochainError → HolochainError) (m : M A) : M A := λ w,
  match m w with
  | Done (w', r) => Done (w', map_err f r)
  | Panicked why => Panicked why
  end.

(** ** The slice *)
Record DhtStore := MkDhtStore {
  content_loc : nat;
  d_actions : gmap nat (HcResult Address);
}.

Definition dht_new (l : nat) : DhtStore := MkDhtStore l ∅.

(** ** Inner reducers *)
Definition store_failed (e : HolochainError) : HolochainError :=
  ErrorGeneric ("err/dht: dht::reduce_store_entry_inner() FAILED " +:+ debug_error e).

Definition reduce_store_entry_inner (d : DhtStore) (entry : Entry.t) : M unit :=
  mapping_err store_failed (cas_write (content_loc d) entry) ;;
  status_eav ← new_status_eavi (address entry) CrudStatus.Live;
  mapping_err store_failed (meta_add status_eav ;; mret tt).

Inductive LinkModification := LmAdd | LmRemove.

Definition link_attribute (l : Link) (m : LinkModification) : Attribute :=
  match m with
  | LmAdd => LinkTag (link_type l) (tag l)
  | LmRemove => RemovedLink (link_type l) (tag l)
  end.

Definition reduce_add_remove_link_inner (d : DhtStore) (l : Link) (m : LinkModification) :
    M Address :=
  b ← cas_has (content_loc d) (base l);
  if (b : bool) then
    eav ← new_eavi (base l) (link_attribute l m) (address (add_entry l));
    meta_add eav ;;
    mret (base l)
  else throw (ErrorGeneric "Base for link not found").

Definition reduce_update_entry_inner (old_address new_address : Address) : M Address :=
  new_status_eav ← new_status_eavi old_address CrudStatus.Modified;
  meta_add new_status_eav ;;
  crud_link_eav ← new_link_eavi old_address new_address;
  meta_add crud_link_eav ;;
  mret new_address.

(** The query for all statuses (or update links) of an entry. *)
Definition meta_query (a : Address) (attr : Attribute) : EaviQuery :=
  MkQuery (filter_from_option (Some a)) (filter_from_option (Some attr))
          (filter_from_option None) LatestByAttribute.

Definition status_is (st : CrudStatus.t) (e : Eavi) : bool :=
  bool_decide (CrudStatus.from_str (value e) = Ok st).

Definition generic {A} (msg : string) (m : M A) : M A :=
  mapping_err (λ _, ErrorGeneric msg) m.

Definition reduce_remove_entry_inner (d : DhtStore)
    (latest_deleted_address deletion_address : Address) : M Address :=
  maybe_content ← cas_read (content_loc d) latest_deleted_address;
  content ← lift (ok_or maybe_content (ErrorGeneric "trying to remove a missing entry"));
  entry ← generic "Stored content should be a valid entry" (lift (entry_from_json content));
  if EntryType.is_sys (Entry.entry_type entry) then
    throw (ErrorGeneric "trying to remove a system entry type")
  else
    status_eavs ← meta_fetch (meta_query latest_deleted_address CrudStatusAttr);
    if decide (btree_collect (List.filter (λ e, negb (status_is CrudStatus.Live e)) status_eavs) = [])
    then
      new_status_eav ← generic "Could not create eav"
        (new_status_eavi latest_deleted_address CrudStatus.Deleted);
      meta_add new_status_eav ;;
      crud_link_eav ← generic "Could not create eav"
        (new_link_eavi latest_deleted_address deletion_address);
      meta_add crud_link_eav ;;
      mret latest_deleted_address
    else throw (ErrorGeneric "entry_status != CrudStatus::Live").

(** [DhtStore::add_header_for_entry]. *)
Definition add_header_for_entry (d : DhtStore) (entry : Entry.t) (header : ChainHeader) :
    M unit :=
  eavi ← new_eavi (address entry) EntryHeader (address header);
  cas_write (content_loc d) header ;;
  meta_add eavi ;;
  mret tt.

(** ** Reducers

    A reducer returns the new slice, or none; the world is the one it leaves
    behind in either case. *)
Abbreviation reduction := (World → outcome (World * option DhtStore)).

Definition keep_on_ok (d : DhtStore) (m : M unit) : reduction := λ w,
  match m w with
  | Done (w', Ok _) => Done (w', Some d)
  | Done (w', Err _) => Done (w', None)
  | Panicked why => Panicked why
  end.

Definition record_result (d : DhtStore) (id : nat) (m : M Address) : reduction := λ w,
  match m w with
  | Done (w', r) => Done (w', Some (MkDhtStore (content_loc d) (<[id := r]> (d_actions d))))
  | Panicked why => Panicked why
  end.

Definition reduce_commit_entry (d : DhtStore) (entry : Entry.t) : reduction :=
  keep_on_ok d (reduce_store_entry_inner d entry).

Definition reduce_hold_entry (d : DhtStore) (ewh : EntryWithHeader) : reduction :=
  keep_on_ok d (reduce_store_entry_inner d (ewh_entry ewh) ;;
                add_header_for_entry d (ewh_entry ewh) (ewh_header ewh)).

Definition reduce_add_link (d : DhtStore) (id : nat) (l : Link) : reduction :=
  record_result d id (reduce_add_remove_link_inner d l LmAdd).

Definition reduce_remove_link (d : DhtStore) (id : nat) (l : Link) : reduction :=
  record_result d id (reduce_add_remove_link_inner d l LmRemove).

Definition reduce_update_entry (d : DhtStore) (id : nat) (o n : Address) : reduction :=
  record_result d id (reduce_update_entry_inner o n).

Definition reduce_remove_entry (d : DhtStore) (id : nat) (del deletion : Address) : reduction :=
  record_result d id (reduce_remove_entry_inner d del deletion).

(** [resolve_reducer]: none for the actions of the other slices. *)
Definition resolve_reducer (d : DhtStore) (aw : ActionWrapper Json) : option reduction :=
  match aw_action aw with
  | ACommit entry _ _ => Some (reduce_commit_entry d entry)
  | AHold ewh => Some (reduce_hold_entry d ewh)
  | AUpdateEntry o n => Some (reduce_update_entry d (aw_id aw) o n)
  | ARemoveEntry del deletion => Some (reduce_remove_entry d (aw_id aw) del deletion)
  | AAddLink l => Some (reduce_add_link d (aw_id aw) l)
  | ARemoveLink l => Some (reduce_remove_link d (aw_id aw) l)
  | _ => None
  end.

(** [dht_reducers::reduce]. *)
Definition reduce (d : DhtStore) (aw : ActionWrapper Json) (w : World) :
    outcome (World * DhtStore) :=
  match resolve_reducer d aw with
  | None => Done (w, d)
  | Some reducer =>
      '(w', new) ← reducer w;
      Done (w', default d new)
  end.

(** ** Queries *)

(** The attribute predicate of [DhtStore::get_links]. *)
Definition link_filter (link_type tag : option string) : EavFilter Attribute := λ attr,
  match attr with
  | LinkTag query_link_type query_tag | RemovedLink query_link_type query_tag =>
      match link_type, tag with
      | Some link_type, Some tag =>
          bool_decide (link_type = query_link_type) && bool_decide (tag = query_tag)
      | Some link_type, None => bool_decide (link_type = query_link_type)
      | None, Some tag => bool_decide (tag = query_tag)
      | None, None => true
      end
  | _ => false
  end.

Definition is_link_tag (e : Eavi) : bool :=
  match attribute e with LinkTag _ _ => true | _ => false end.

Definition links_query (a : Address) (link_type tag : option string) : EaviQuery :=
  MkQuery (filter_from_option (Some a)) (link_filter link_type tag)
          (filter_from_option None) LatestByAttribute.

(** [DhtStore::get_links]. *)
Definition get_links (w : World) (a : Address) (link_type tag : option string) :
    HcResult (list Eavi) :=
  filtered ← fetch_eavi (w_meta w) (links_query a link_type tag);
  Ok (btree_collect (List.filter is_link_tag filtered)).

(** [DhtStore::get_headers]. *)
Definition get_headers (d : DhtStore) (w : World) (entry_address : Address) :
    HcResult (list ChainHeader) :=
  eavis ← fetch_eavi (w_meta w) (meta_query entry_address EntryHeader);
  contents ← collect_results (λ a, cas_fetch (w_cas w (content_loc d)) a) (value <$> eavis);
  collect_results header_from_json (omap id contents).

(** [get_entry_from_cas]: content that does not parse counts as absent. *)
Definition get_entry_from_cas (c : C) (a : Address) : HcResult (option Entry.t) :=
  json ← cas_fetch c a;
  Ok (json ≫= λ js, ok (entry_from_json js)).

(** [get_entry_from_dht]. *)
Definition get_entry_from_dht (d : DhtStore) (w : World) (a : Address) :
    HcResult (option Entry.t) :=
  get_entry_from_cas (w_cas w (content_loc d)) a.

(** The status of an entry by life-cycle order. *)
Definition status_of (status_eavs : list Eavi) : CrudStatus.t :=
  if decide (btree_collect (List.filter (status_is CrudStatus.Deleted) status_eavs) ≠ [])
  then CrudStatus.Deleted
  else if decide (btree_collect (List.filter (status_is CrudStatus.Modified) status_eavs) ≠ [])
  then CrudStatus.Modified
  else CrudStatus.Live.

(** [get_entry_crud_meta_from_dht], with its assertion. *)
Definition get_entry_crud_meta_from_dht (w : World) (a : Address) :
    outcome (HcResult (option (CrudStatus.t * option Address))) :=
  match fetch_eavi (w_meta w) (meta_query a CrudStatusAttr) with
  | Err e => Done (Err e)
  | Ok [] => Done (Ok None)
  | Ok status_eavs =>
      match fetch_eavi (w_meta w) (meta_query a CrudLink) with
      | Err e => Done (Err e)
      | Ok [] => Done (Ok (Some (status_of status_eavs, None)))
      | Ok [link_eav] => Done (Ok (Some (status_of status_eavs, Some (value link_eav))))
      | Ok _ => Panicked "link_eavs.len() > 1"
      end
  end.

(** [get_entry_with_meta]. *)
Definition get_entry_with_meta (d : DhtStore) (w : World) (a : Address) :
    outcome (HcResult (option EntryWithMeta)) :=
  match get_entry_from_dht d w a with
  | Err err => Done (Err err)
  | Ok None => Done (Ok None)
  | Ok (Some entry) =>
      r ← get_entry_crud_meta_from_dht w a;
      Done match r with
           | Err e => Err e
           | Ok None => Ok None
           | Ok (Some (crud_status, maybe_link)) =>
               Ok (Some (MkEntryWithMeta entry crud_status maybe_link))
           end
  end.
End dht.
