(* ===== verification/DhtFacts.v ===== *)
(** * Properties of the DHT shard

    Permanence of what is stored under any sequence of actions, the life cycle
    of an entry (live, modified, deleted), of its headers and of its links, and
    the error branches, for every content storage and every triple storage that
    keep the promises of their traits. *)
From stdpp Require Import functions.
From S2P Require Import Prelude Errors Strings Eav Entries Cas Protocol Actions Dht.
Open Scope Z_scope.

Create HintDb dht.

Section facts.
Context {wire : Wire} {Json : Type}.
Context {C : Type} `{!ContentAddressableStorage C}.
Context {S : Type} `{!EavStorage S}.
Context (clock : nat → Z) (clock_i64 : ∀ n, fits_i64 (clock n)).
Implicit Types (w : World (C := C) (S := S)) (d : DhtStore).
Abbreviation World := (@World C S).
Abbreviation M := (stateful World HolochainError).

Definition world_wf w : Prop := storage_wf (w_meta w).
Definition stored w : list Eavi := eavs (w_meta w).
Definition held w (l : nat) (a : Address) : Prop := is_Some (cas_map (w_cas w l) !! a).

(** Nothing is lost: the triples and the addresses of [w] are in [w']. *)
Definition extends w w' : Prop :=
  world_wf w' ∧ (∀ e, e ∈ stored w → e ∈ stored w') ∧ (∀ l a, held w l a → held w' l a).

Lemma extends_refl w : world_wf w → extends w w.
Proof. intros. unfold extends. by split_and!. Qed.

Lemma extends_trans w1 w2 w3 : extends w1 w2 → extends w2 w3 → extends w1 w3.
Proof. intros (?&?&?) (?&?&?). unfold extends. split_and!; eauto. Qed.

(** A computation that loses nothing and, when it succeeds, returns a value in
    [V]. *)
Definition pres {A} (m : M A) (V : A → Prop) : Prop :=
  ∀ w w' r, world_wf w → m w = Done (w', r) →
    extends w w' ∧ ∀ a, r = Ok a → V a.

Lemma pres_bind {A B} (m : M A) (f : A → M B) V V' :
  pres m V → (∀ a, V a → pres (f a) V') → pres (m ≫= f) V'.
Proof.
  intros Hm Hf w w' r Hw H. unfold mbind, stateful_bind in H.
  destruct (m w) as [[w1 [a|e]]|] eqn:E; [| |done].
  - destruct (Hm _ _ _ Hw E) as [He HV].
    destruct (Hf a (HV _ eq_refl) _ _ _ (proj1 He) H) as [He' HV'].
    split; [by eapply extends_trans|done].
  - simplify_eq. destruct (Hm _ _ _ Hw E) as [He _]. by split.
Qed.

Lemma pres_weaken {A} (m : M A) (V V' : A → Prop) :
  pres m V → (∀ a, V a → V' a) → pres m V'.
Proof. intros Hm HV w w' r Hw H. destruct (Hm _ _ _ Hw H). naive_solver. Qed.

Lemma pres_lift {A} (r : HcResult A) : pres (lift r) (λ a, r = Ok a).
Proof. intros w w' r' Hw [= <- <-]. split; [by apply extends_refl|naive_solver]. Qed.

Lemma pres_ret {A} (a : A) : pres (mret a) (λ _, True).
Proof. intros w w' r Hw [= <- <-]. split; [by apply extends_refl|done]. Qed.

Lemma pres_throw {A} e : pres (throw e : M A) (λ _, True).
Proof. intros w w' r Hw [= <- <-]. split; [by apply extends_refl|done]. Qed.

Lemma pres_mapping_err {A} f (m : M A) V : pres m V → pres (mapping_err f m) V.
Proof.
  intros Hm w w' r Hw H. unfold mapping_err in H.
  destruct (m w) as [[w1 r1]|] eqn:E; simplify_eq.
  destruct (Hm _ _ _ Hw E) as [? HV]. split; [done|].
  intros a Ha. destruct r1; simplify_eq/=. by apply HV.
Qed.

Lemma pres_cas_write {A} `{!AddressableContent A} l (x : A) :
  pres (cas_write l x) (λ _, True).
Proof.
  intros w w' r Hw H. split; [|done]. unfold cas_write, add_content in H.
  destruct (cas_add _ _ _) as [c|] eqn:E; simplify_eq; [|by apply extends_refl].
  unfold extends. split_and!; [done|done|]. intros l' a Ha. unfold held in *. simpl.
  destruct (decide (l' = l)) as [->|]; [|by rewrite fn_lookup_insert_ne].
  rewrite fn_lookup_insert. rewrite (cas_add_spec _ _ _ _ E).
  destruct (decide (address x = a)) as [->|].
  - rewrite lookup_insert_eq. eauto.
  - by rewrite lookup_insert_ne.
Qed.

Lemma pres_read {A} (f : World → HcResult A) : pres (λ w, Done (w, f w)) (λ _, True).
Proof. intros w w' r Hw [= <- <-]. split; [by apply extends_refl|done]. Qed.

Lemma pres_now : pres (now clock) fits_i64.
Proof. intros w w' r Hw [= <- <-]. split; [apply (extends_refl w Hw)|by intros ? [= <-]]. Qed.

(** What adding a triple does to the world. *)
Lemma meta_add_spec e w w' r :
  world_wf w → fits_i64 (index e) → meta_add clock e w = Done (w', r) →
  world_wf w' ∧ w_cas w' = w_cas w ∧
  match r with
  | Ok (Some e') =>
      triple e' = triple e ∧ index_free (index e') (stored w) ∧
      (index_free (index e) (stored w) → e' = e) ∧
      (∀ x, x ∈ stored w' ↔ x ∈ stored w ∨ x = e')
  | Ok None => False
  | Err _ => stored w' = stored w
  end.
Proof.
  intros Hw He H. unfold meta_add in H.
  apply outcome_bind_done in H as ([[s t] r1] & Ha & [= <- <-]).
  pose proof (eavs_sorted _ Hw) as Hs.
  apply add_eavi_spec in Ha as [Hwf Ha]; [|done..].
  split_and!; [done|done|]. destruct r1 as [[e'|]|]; [|done|done].
  destruct Ha as (? & Hf & ? & Heq). split_and!; [done..|].
  intros x. unfold stored. simpl. rewrite Heq, btree_insert_elem by done. naive_solver.
Qed.

Lemma pres_meta_add e : fits_i64 (index e) → pres (meta_add clock e) (λ _, True).
Proof.
  intros He w w' r Hw H. split; [|done].
  apply meta_add_spec in H as (Hwf & Hc & H); [|done..].
  unfold extends. split_and!; [done| |unfold held; by rewrite Hc].
  intros x Hx. destruct r as [[e'|]|]; [|done|by rewrite H].
  destruct H as (_ & _ & _ & H). apply H. by left.
Qed.

Lemma eavi_new_ok t e a v x : eavi_new t e a v = Ok x → x = MkEavi e a v t.
Proof. unfold eavi_new. destruct (validate_attribute a); by intros [= <-]. Qed.

Lemma pres_new_eavi e a v :
  pres (new_eavi clock e a v) (λ x, triple x = (e, a, v) ∧ fits_i64 (index x)).
Proof.
  eapply pres_bind; [apply pres_now|]. intros t Ht.
  eapply pres_weaken; [apply pres_lift|]. by intros x ->%eavi_new_ok.
Qed.

Lemma pres_new_status_eavi a st :
  pres (new_status_eavi clock a st)
    (λ x, triple x = (a, CrudStatusAttr, CrudStatus.to_string st) ∧ fits_i64 (index x)).
Proof. apply pres_new_eavi. Qed.

Lemma pres_new_link_eavi from to :
  pres (new_link_eavi clock from to)
    (λ x, triple x = (from, CrudLink, to) ∧ fits_i64 (index x)).
Proof. apply pres_new_eavi. Qed.

#[local] Hint Resolve pres_mapping_err pres_cas_write pres_read pres_ret pres_throw
  pres_lift pres_meta_add pres_new_eavi pres_new_status_eavi pres_new_link_eavi : dht.

(** Walk through a sequence of computations that lose nothing. *)
Ltac solve_pres :=
  repeat first
    [ match goal with |- pres (if ?b then _ else _) _ => destruct b end
    | match goal with |- pres (mbind _ _) _ => eapply pres_bind; [|intros ? ?] end
    | progress unfold generic
    | apply pres_mapping_err
    | solve [eauto with dht]
    | solve [cbv beta in *;
             repeat match goal with H : _ ∧ _ |- _ => destruct H end; eauto with dht] ].

Lemma pres_store_entry d entry :
  pres (reduce_store_entry_inner clock d entry) (λ _, True).
Proof.
  unfold reduce_store_entry_inner. solve_pres.
Qed.

Lemma pres_link d l m : pres (reduce_add_remove_link_inner clock d l m) (λ _, True).
Proof. unfold reduce_add_remove_link_inner, cas_has. solve_pres. Qed.

Lemma pres_update o n : pres (reduce_update_entry_inner clock o n) (λ _, True).
Proof. unfold reduce_update_entry_inner. solve_pres. Qed.

Lemma pres_remove d del deletion :
  pres (reduce_remove_entry_inner clock d del deletion) (λ _, True).
Proof. unfold reduce_remove_entry_inner, cas_read, meta_fetch. solve_pres. Qed.

Lemma pres_header d entry h : pres (add_header_for_entry clock d entry h) (λ _, True).
Proof. unfold add_header_for_entry. solve_pres. Qed.

Lemma keep_on_ok_extends d (m : M unit) w w' o :
  pres m (λ _, True) → world_wf w → keep_on_ok d m w = Done (w', o) →
  extends w w' ∧ content_loc (default d o) = content_loc d.
Proof.
  intros Hm Hw H. unfold keep_on_ok in H.
  destruct (m w) as [[w1 [[]|e]]|] eqn:E; simplify_eq;
    by destruct (Hm _ _ _ Hw E).
Qed.

Lemma record_result_extends d id (m : M Address) w w' o :
  pres m (λ _, True) → world_wf w → record_result d id m w = Done (w', o) →
  extends w w' ∧ content_loc (default d o) = content_loc d.
Proof.
  intros Hm Hw H. unfold record_result in H.
  destruct (m w) as [[w1 r]|] eqn:E; simplify_eq. by destruct (Hm _ _ _ Hw E).
Qed.

(** No action loses anything. *)
Lemma reduce_extends d (aw : ActionWrapper Json) w w' d' :
  world_wf w → reduce clock d aw w = Done (w', d') →
  extends w w' ∧ content_loc d' = content_loc d.
Proof.
  intros Hw H. unfold reduce in H.
  destruct (resolve_reducer clock d aw) as [red|] eqn:E;
    [|simplify_eq; split; [by apply extends_refl|done]].
  apply outcome_bind_done in H as ([w1 o] & Hr & [= <- <-]).
  unfold resolve_reducer in E. destruct (aw_action aw); simplify_eq;
    first [apply keep_on_ok_extends in Hr|apply record_result_extends in Hr]; try done;
    eauto using pres_store_entry, pres_link, pres_update, pres_remove.
  eapply pres_bind; [apply pres_store_entry|]. intros ? _. apply pres_header.
Qed.

(** The actions of a session, one after the other. *)
Fixpoint reduce_all (l : list (ActionWrapper Json)) (w : World) (d : DhtStore) :
    outcome (World * DhtStore) :=
  match l with
  | [] => Done (w, d)
  | aw :: l => '(w', d') ← reduce clock d aw w; reduce_all l w' d'
  end.

Lemma reduce_all_extends l w d w' d' :
  world_wf w → reduce_all l w d = Done (w', d') →
  extends w w' ∧ content_loc d' = content_loc d.
Proof.
  revert w d. induction l as [|aw l IH]; intros w d Hw H; simpl in H.
  - simplify_eq. split; [by apply extends_refl|done].
  - apply outcome_bind_done in H as ([w1 d1] & H1 & H2).
    destruct (reduce_extends _ _ _ _ _ Hw H1) as [He1 Hl1].
    destruct (IH _ _ (proj1 He1) H2) as [He2 Hl2].
    split; [by eapply extends_trans|congruence].
Qed.

(** ** What the status queries see *)

(** Of the triples in one group, the one with the greatest index is fetched. *)
Lemma latest_exists q s e :
  sorted_eavis s → q_index q = LatestByAttribute → e ∈ s → matches q e →
  ∃ e', e' ∈ run q s ∧ entity e' = entity e ∧ value e' = value e ∧ index e ≤ index e'.
Proof.
  intros Hs Hq He Hm.
  set (f := λ x, bool_decide (entity x = entity e) && bool_decide (value x = value e) &&
                 q_attribute q (attribute x)).
  assert (Hf : ∀ x, x ∈ List.filter f s ↔ x ∈ s ∧ same_group q e x).
  { intros x. rewrite elem_of_filter_b. unfold f, same_group.
    rewrite !andb_true_iff, !bool_decide_eq_true. tauto. }
  assert (Hee : e ∈ List.filter f s) by (apply Hf; split; [done|]; by split_and!; [..|apply Hm]).
  destruct (last (List.filter f s)) as [l|] eqn:El.
  - pose proof (sorted_filter f s Hs) as Hsf.
    assert (Hl : l ∈ List.filter f s) by (apply last_Some in El as [s' ->]; set_solver).
    apply Hf in Hl as [Hl1 (Hen & Hva & Hat)].
    exists l. split_and!; [|done|done|by eapply sorted_last].
    apply elem_of_run_latest; [done|done|]. split_and!; [done| |].
    + destruct Hm as (? & ? & ?). unfold matches. by rewrite Hen, Hva.
    + intros x Hx (E1 & E2 & E3). eapply sorted_last; [done|done|].
      apply Hf. split; [done|]. split_and!; [congruence|congruence|done].
  - apply last_None in El. rewrite El in Hee. by apply elem_of_nil in Hee.
Qed.

Lemma matches_meta_query a attr e :
  matches (meta_query a attr) e ↔ entity e = a ∧ attribute e = attr.
Proof.
  unfold matches, meta_query, filter_from_option, filter_single, filter_default. simpl.
  rewrite !bool_decide_eq_true. tauto.
Qed.

(** The values an entry carries under one attribute. *)
Definition has_value w (a : Address) (attr : Attribute) (v : Address) : Prop :=
  ∃ e, e ∈ stored w ∧ triple e = (a, attr, v).

Lemma meta_fetch_values w a attr l v :
  world_wf w → fetch_eavi (w_meta w) (meta_query a attr) = Ok l →
  (∃ e, e ∈ l ∧ value e = v) ↔ has_value w a attr v.
Proof.
  intros Hw%eavs_sorted. rewrite fetch_eavi_spec. intros [= <-]. split.
  - intros (e & He & <-). apply elem_of_run_latest in He as (He & Hm & _); [|done..].
    apply matches_meta_query in Hm as [<- <-]. by exists e.
  - intros (e & He & Ht). unfold triple in Ht. simplify_eq.
    destruct (latest_exists (meta_query (entity e) (attribute e)) _ e Hw eq_refl He)
      as (e' & He' & _ & Hv & _); [by apply matches_meta_query|eauto].
Qed.

(** ** One triple more *)

(** [w'] is [w] with one more triple, at the reading of the clock if that index
    was free. *)
Definition gains w w' (tr : Address * Attribute * Address) : Prop :=
  world_wf w' ∧ w_cas w' = w_cas w ∧
  ∃ e, triple e = tr ∧ index_free (index e) (stored w) ∧
    (index_free (clock (w_ticks w)) (stored w) → index e = clock (w_ticks w)) ∧
    ∀ x, x ∈ stored w' ↔ x ∈ stored w ∨ x = e.

(** The clock is ahead of every index in the store. *)
Definition clock_ahead w : Prop := ∀ e, e ∈ stored w → index e < clock (w_ticks w).

Lemma clock_ahead_free w : clock_ahead w → index_free (clock (w_ticks w)) (stored w).
Proof. intros H x Hx. specialize (H x Hx). lia. Qed.

Lemma gains_has_value w w' a attr v :
  gains w w' (a, attr, v) →
  ∀ a' attr' v', has_value w' a' attr' v' ↔
    has_value w a' attr' v' ∨ (a', attr', v') = (a, attr, v).
Proof.
  intros (_ & _ & e & Ht & _ & _ & Hx) a' attr' v'. unfold has_value. split.
  - intros (x & [Hs| ->]%Hx & Htx); [left; eauto|right; congruence].
  - intros [(x & Hs & Htx)|Heq].
    + exists x. split; [apply Hx; by left|done].
    + exists e. split; [apply Hx; by right|congruence].
Qed.

Lemma new_eavi_ok e a v w w' x :
  new_eavi clock e a v w = Done (w', Ok x) →
  x = MkEavi e a v (clock (w_ticks w)) ∧
  w' = MkWorld (w_cas w) (w_meta w) (Datatypes.S (w_ticks w)).
Proof. intros [= <- H]. by apply eavi_new_ok in H. Qed.

Lemma add_new_gains e a v w w1 w2 x o :
  world_wf w → new_eavi clock e a v w = Done (w1, Ok x) →
  meta_add clock x w1 = Done (w2, Ok o) → gains w w2 (e, a, v).
Proof.
  intros Hw [-> ->]%new_eavi_ok Ha.
  apply meta_add_spec in Ha as (Hw2 & Hc & Ha); [|done|apply clock_i64].
  destruct o as [e'|]; [|done]. destruct Ha as (Ht & Hf & Hsame & Hx).
  split; [done|]. split; [done|]. exists e'. split_and!; [done|done| |done].
  intros Hfree. by rewrite (Hsame Hfree).
Qed.

Lemma link_inner_ok d l m w w' r :
  world_wf w → reduce_add_remove_link_inner clock d l m w = Done (w', Ok r) →
  r = base l ∧ held w (content_loc d) (base l) ∧
  gains w w' (base l, link_attribute l m, address (add_entry l)).
Proof.
  intros Hw H. unfold reduce_add_remove_link_inner in H.
  apply stateful_bind_ok in H as (w1 & b & Hb & H).
  unfold cas_has in Hb. rewrite cas_contains_spec in Hb. simplify_eq.
  destruct (bool_decide _) eqn:Hheld; [|done]. apply bool_decide_eq_true in Hheld.
  apply stateful_bind_ok in H as (w2 & x & Hx & H).
  apply stateful_bind_ok in H as (w3 & o & Ho & [= <- <-]).
  split_and!; [done|done|by eapply add_new_gains].
Qed.

(** ** Links *)
Lemma get_links_elem w a ty tg :
  world_wf w →
  ∃ res, get_links w a ty tg = Ok res ∧ sorted_eavis res ∧
    ∀ e, e ∈ res ↔ e ∈ stored w ∧ entity e = a ∧ is_link_tag e = true ∧
      link_filter ty tg (attribute e) = true ∧
      ∀ e', e' ∈ stored w → entity e' = a → value e' = value e →
        link_filter ty tg (attribute e') = true → index e' ≤ index e.
Proof.
  intros Hs%eavs_sorted. unfold get_links. rewrite fetch_eavi_spec. simpl.
  pose proof (run_sorted (links_query a ty tg) _ Hs) as Hr.
  eexists. split; [done|].
  rewrite btree_collect_sorted by by apply sorted_filter.
  split; [by apply sorted_filter|]. intros e.
  rewrite elem_of_filter_b, elem_of_run_latest by done.
  unfold matches, same_group, links_query, filter_from_option, filter_single, filter_default.
  simpl. rewrite bool_decide_eq_true. unfold stored. split.
  - intros ((Hin & (-> & Hf & _) & Hall) & Hl). split_and!; [done..|]. naive_solver.
  - intros (Hin & <- & Hl & Hf & Hall). split_and!; [done..| |done]. naive_solver.
Qed.

(** Links other than [l] are seen alike before and after a modification of [l]. *)
Lemma gains_other_links w w' a attr v b ty tg res res' :
  world_wf w → gains w w' (a, attr, v) →
  get_links w b ty tg = Ok res → get_links w' b ty tg = Ok res' →
  ∀ e, entity e ≠ a ∨ value e ≠ v → e ∈ res ↔ e ∈ res'.
Proof.
  intros Hw (Hw' & _ & n & Hn & _ & _ & Hx) Hr Hr' e Hne.
  unfold triple in Hn. simplify_eq.
  destruct (get_links_elem w b ty tg Hw) as (r1 & Hr1 & _ & He1).
  destruct (get_links_elem w' b ty tg Hw') as (r2 & Hr2 & _ & He2).
  assert (res = r1 ∧ res' = r2) as [-> ->] by (split; congruence).
  rewrite He1, He2, Hx. split.
  - intros (? & ? & ? & ? & Hall). split_and!; [by left|done..|].
    intros e' [He'| ->]%Hx ???; [by apply Hall|]. exfalso. naive_solver congruence.
  - intros ([?| ->] & ? & ? & ? & Hall); [|naive_solver].
    split_and!; [done..|]. intros e' He' ???. apply Hall; [|done..]. apply Hx. by left.
Qed.

Lemma link_attribute_filter l m ty tg :
  (ty = None ∨ ty = Some (link_type l)) → (tg = None ∨ tg = Some (tag l)) →
  link_filter ty tg (link_attribute l m) = true.
Proof.
  intros [-> | ->] [-> | ->]; destruct m; simpl;
    by rewrite ?bool_decide_eq_true_2.
Qed.

Lemma gains_latest w w' a attr v :
  clock_ahead w → gains w w' (a, attr, v) →
  ∃ n, n ∈ stored w' ∧ triple n = (a, attr, v) ∧ ∀ e, e ∈ stored w' → e ≠ n → index e < index n.
Proof.
  intros Hahead (_ & _ & n & Ht & _ & Hi & Hx).
  specialize (Hi (clock_ahead_free w Hahead)).
  exists n. split_and!; [apply Hx; by right|done|].
  intros e [He| ->]%Hx Hne; [|done]. rewrite Hi. by apply Hahead.
Qed.

Definition link_action (l : Link) (m : LinkModification) : Action Json :=
  match m with LmAdd => AAddLink l | LmRemove => ARemoveLink l end.

(** The triple a link modification writes. *)
Definition link_eavi w (l : Link) (m : LinkModification) : Eavi :=
  MkEavi (base l) (link_attribute l m) (address (add_entry l)) (clock (w_ticks w)).

Lemma reduce_link_eq d id l m w :
  reduce clock d (MkActionWrapper (link_action l m) id) w =
  match reduce_add_remove_link_inner clock d l m w with
  | Done (w', r) => Done (w', MkDhtStore (content_loc d) (<[id := r]> (d_actions d)))
  | Panicked why => Panicked why
  end.
Proof.
  destruct m; unfold reduce; simpl;
    unfold reduce_add_link, reduce_remove_link, record_result;
    by destruct (reduce_add_remove_link_inner _ _ _ _ w) as [[]|].
Qed.

Lemma new_eavi_run e a v w :
  validate_attribute a = Ok tt →
  new_eavi clock e a v w =
  Done (MkWorld (w_cas w) (w_meta w) (Datatypes.S (w_ticks w)),
        Ok (MkEavi e a v (clock (w_ticks w)))).
Proof. intros Hv. unfold new_eavi, eavi_new. by rewrite Hv. Qed.

Lemma link_inner_total d l m w :
  world_wf w → held w (content_loc d) (base l) →
  validate_attribute (link_attribute l m) = Ok tt →
  room_for clock (w_meta w, Datatypes.S (w_ticks w)) (link_eavi w l m) →
  ∃ w', reduce_add_remove_link_inner clock d l m w = Done (w', Ok (base l)).
Proof.
  intros Hw Hb Hv Hroom.
  destruct (add_eavi_total clock (w_meta w) _ (link_eavi w l m) Hw (clock_i64 _) Hv Hroom)
    as (s' & t' & e' & Hadd).
  eexists. unfold reduce_add_remove_link_inner. apply stateful_bind_ok.
  exists w, true. split.
  { unfold cas_has. by rewrite cas_contains_spec, bool_decide_eq_true_2. }
  apply stateful_bind_ok. eexists _, (link_eavi w l m).
  split; [by apply new_eavi_run|].
  apply stateful_bind_ok. eexists _, (Some e'). split; [|done].
  unfold meta_add. cbn [w_meta w_ticks]. by rewrite Hadd.
Qed.

(** C11: when the clock is ahead of every index of the store and the store has room, adding
    (removing) a link whose base is held and whose type is a valid attribute makes it visible
    (invisible) to every query for its base that its type and tag satisfy, and reports the base
    as the result of the action.  Every other link is as visible as it was, the triple of the
    modification is the only new one, no triple and no content is lost or changed, and the
    results of other actions stay. *)
Theorem link_modification_visible d id (l : Link) (m : LinkModification) w :
  world_wf w → clock_ahead w → held w (content_loc d) (base l) →
  validate_attribute (link_attribute l m) = Ok tt →
  room_for clock (w_meta w, Datatypes.S (w_ticks w)) (link_eavi w l m) →
  ∃ w' d', reduce clock d (MkActionWrapper (link_action l m) id) w = Done (w', d') ∧
    d_actions d' !! id = Some (Ok (base l)) ∧
    (∀ ty tg, (ty = None ∨ ty = Some (link_type l)) → (tg = None ∨ tg = Some (tag l)) →
       ∃ res, get_links w' (base l) ty tg = Ok res ∧
         ((∃ e, e ∈ res ∧ value e = address (add_entry l)) ↔ m = LmAdd)) ∧
    (∀ b ty tg res res', get_links w b ty tg = Ok res → get_links w' b ty tg = Ok res' →
       ∀ e, entity e ≠ base l ∨ value e ≠ address (add_entry l) → e ∈ res ↔ e ∈ res') ∧
    (∀ a attr v, has_value w' a attr v ↔
       has_value w a attr v ∨ (a, attr, v) = (base l, link_attribute l m, address (add_entry l))) ∧
    (∀ e, e ∈ stored w → e ∈ stored w') ∧ w_cas w' = w_cas w ∧ content_loc d' = content_loc d ∧
    (∀ id', id' ≠ id → d_actions d' !! id' = d_actions d !! id').
Proof.
  intros Hw Hahead Hb Hv Hroom.
  destruct (link_inner_total d l m w Hw Hb Hv Hroom) as [w' H].
  rewrite reduce_link_eq, H. pose proof H as (_ & _ & Hg)%link_inner_ok; [|done].
  eexists _, _. split_and!; [done|apply lookup_insert_eq| | | | | |done|].
  - intros ty tg Hty Htg.
    destruct (get_links_elem w' (base l) ty tg (proj1 Hg)) as (res & Hres & _ & He).
    exists res. split; [done|].
    destruct (gains_latest _ _ _ _ _ Hahead Hg) as (n & Hn & Htn & Hlast).
    injection Htn as Hen Hat Hva.
    pose proof (link_attribute_filter l m ty tg Hty Htg) as Hf. rewrite <-Hat in Hf. split.
    + intros (e & Hin & Hval). apply He in Hin as (Hin & He1 & Hl & _ & Hall).
      destruct (decide (e = n)) as [->|Hne].
      * destruct m; [done|]. unfold is_link_tag in Hl. by rewrite Hat in Hl.
      * specialize (Hlast e Hin Hne). specialize (Hall n Hn Hen).
        assert (index n ≤ index e) by (apply Hall; [by rewrite Hval|done]). lia.
    + intros ->. exists n. split; [|done]. apply He.
      split_and!; [done|done|unfold is_link_tag; by rewrite Hat|done|].
      intros e' He' _ _ _. destruct (decide (e' = n)) as [->|Hne]; [done|].
      specialize (Hlast e' He' Hne). lia.
  - intros b ty tg res res'. by eapply gains_other_links.
  - by apply gains_has_value.
  - destruct Hg as (_ & _ & e & _ & _ & _ & Hx). intros x Hin. apply Hx. by left.
  - by destruct Hg as (_ & ? & _).
  - intros id' Hid. by apply lookup_insert_ne.
Qed.

(** Modifying a link whose base is not held, or whose type holds a
    forbidden character, records an error for the action and changes no storage:
    the triples and the contents are those of before. *)
Theorem link_modification_errors d id (l : Link) (m : LinkModification) w :
  let aw := MkActionWrapper (link_action l m) id in
  (¬ held w (content_loc d) (base l) →
   ∃ d', reduce clock d aw w = Done (w, d') ∧
     d_actions d' !! id = Some (Err (ErrorGeneric "Base for link not found"))) ∧
  (held w (content_loc d) (base l) →
   validate_attribute (link_attribute l m) ≠ Ok tt →
   ∃ w' d', reduce clock d aw w = Done (w', d') ∧
     w_cas w' = w_cas w ∧ w_meta w' = w_meta w ∧
     d_actions d' !! id = Some (Err (ErrorGeneric "Attribute name invalid"))).
Proof.
  intros aw. unfold aw. rewrite reduce_link_eq.
  unfold reduce_add_remove_link_inner, mbind, stateful_bind, cas_has.
  rewrite cas_contains_spec. split.
  - intros Hb. rewrite bool_decide_eq_false_2 by done. eexists.
    split; [done|apply lookup_insert_eq].
  - intros Hb Hv. rewrite bool_decide_eq_true_2 by done.
    unfold new_eavi, mbind, stateful_bind, now, lift, eavi_new.
    assert (validate_attribute (link_attribute l m) =
            Err (ErrorGeneric "Attribute name invalid")) as ->.
    { destruct m; simpl in *; by destruct (matches_class _ _). }
    eexists _, _. split_and!; [done|done|done|apply lookup_insert_eq].
Qed.

(** ** The life cycle of an entry *)
Lemma btree_collect_nil l : btree_collect l = [] ↔ l = [].
Proof.
  split; [|by intros ->]. destruct l as [|x l]; [done|]. intros H. exfalso.
  assert (Hne : ∀ l s, s ≠ [] → foldl (λ s e, btree_insert e s) s l ≠ []).
  { clear. induction l as [|y l IH]; intros s Hs; simpl; [done|]. apply IH.
    destruct s; simpl; repeat case_decide; done. }
  by apply (Hne l [x]) in H.
Qed.

Lemma status_is_true st e : status_is st e = true ↔ value e = CrudStatus.to_string st.
Proof. unfold status_is. rewrite bool_decide_eq_true. apply crud_status_from_str. Qed.

Lemma filter_b_nil {A} (f : A → bool) l : List.filter f l = [] ↔ ∀ x, x ∈ l → f x = false.
Proof.
  split.
  - intros H x Hx. destruct (f x) eqn:E; [|done].
    assert (x ∈ List.filter f l) as Hf by by apply elem_of_filter_b.
    rewrite H in Hf. by apply elem_of_nil in Hf.
  - intros H. induction l as [|y l IH]; simpl; [done|].
    rewrite (H y) by by left. apply IH. intros x Hx. apply H. by right.
Qed.

(** The status as a function of the status triples that exist. *)
Definition crud_status w (a : Address) (st : CrudStatus.t) : Prop :=
  let has st := has_value w a CrudStatusAttr (CrudStatus.to_string st) in
  match st with
  | CrudStatus.Deleted => has CrudStatus.Deleted
  | CrudStatus.Modified => ¬ has CrudStatus.Deleted ∧ has CrudStatus.Modified
  | CrudStatus.Live => ¬ has CrudStatus.Deleted ∧ ¬ has CrudStatus.Modified ∧
                       ∃ v, has_value w a CrudStatusAttr v
  | _ => False
  end.

Lemma has_status_filter w a l st :
  world_wf w → fetch_eavi (w_meta w) (meta_query a CrudStatusAttr) = Ok l →
  btree_collect (List.filter (status_is st) l) ≠ [] ↔
  has_value w a CrudStatusAttr (CrudStatus.to_string st).
Proof.
  intros Hw Hl. rewrite <-(meta_fetch_values w a CrudStatusAttr l) by done.
  rewrite btree_collect_nil. split.
  - intros Hne. destruct (List.filter (status_is st) l) as [|x r] eqn:E; [done|].
    assert (x ∈ List.filter (status_is st) l) as [Hx Hs]%elem_of_filter_b
      by (rewrite E; by left).
    apply status_is_true in Hs. eauto.
  - intros (e & He & Hv) Hnil. rewrite filter_b_nil in Hnil.
    specialize (Hnil e He). apply status_is_true in Hv. congruence.
Qed.

Lemma status_of_spec w a x l :
  world_wf w → fetch_eavi (w_meta w) (meta_query a CrudStatusAttr) = Ok (x :: l) →
  crud_status w a (status_of (x :: l)).
Proof.
  intros Hw Hl. unfold status_of.
  pose proof (has_status_filter w a _ CrudStatus.Deleted Hw Hl) as HD.
  pose proof (has_status_filter w a _ CrudStatus.Modified Hw Hl) as HM.
  repeat case_decide; simpl; [tauto|tauto|].
  split_and!; [tauto|tauto|]. exists (value x).
  apply (meta_fetch_values w a CrudStatusAttr (x :: l)); [done|done|].
  exists x. split; [by left|done].
Qed.

Lemma crud_status_unique w a st st' : crud_status w a st → crud_status w a st' → st = st'.
Proof. destruct st, st'; simpl; naive_solver. Qed.

(** What [get_entry_crud_meta_from_dht] returns, in terms of what is stored: it
    panics exactly when two different addresses are linked as the new version. *)
Lemma crud_meta_cases w a :
  world_wf w →
  match get_entry_crud_meta_from_dht w a with
  | Panicked _ => (∃ st, crud_status w a st) ∧
      ∃ v1 v2, v1 ≠ v2 ∧ has_value w a CrudLink v1 ∧ has_value w a CrudLink v2
  | Done (Err _) => False
  | Done (Ok None) => ∀ v, ¬ has_value w a CrudStatusAttr v
  | Done (Ok (Some (st, None))) => crud_status w a st ∧ ∀ v, ¬ has_value w a CrudLink v
  | Done (Ok (Some (st, Some v))) =>
      crud_status w a st ∧ ∀ v', has_value w a CrudLink v' ↔ v' = v
  end.
Proof.
  intros Hw. unfold get_entry_crud_meta_from_dht.
  destruct (fetch_eavi _ (meta_query a CrudStatusAttr)) as [l|] eqn:El;
    [|by rewrite fetch_eavi_spec in El].
  destruct (fetch_eavi _ (meta_query a CrudLink)) as [k|] eqn:Ek;
    [|by rewrite fetch_eavi_spec in Ek].
  pose proof (λ v, meta_fetch_values w a CrudStatusAttr l v Hw El) as HS.
  pose proof (λ v, meta_fetch_values w a CrudLink k v Hw Ek) as HL.
  destruct l as [|x l].
  { intros v (e & He & _)%HS. by apply elem_of_nil in He. }
  pose proof (status_of_spec w a x l Hw El) as Hst.
  destruct k as [|y [|z k]].
  - split; [done|]. intros v (e & He & _)%HL. by apply elem_of_nil in He.
  - split; [done|]. intros v. rewrite <-HL. split; [|intros ->; exists y; set_solver].
    by intros (e & ->%list_elem_of_singleton & ->).
  - split; [by eauto|]. exists (value y), (value z). split_and!.
    + intros Hyz. rewrite fetch_eavi_spec in Ek. injection Ek as Ek.
      pose proof (eavs_sorted _ Hw) as Hs.
      pose proof (run_sorted (meta_query a CrudLink) _ Hs) as Hr. rewrite Ek in Hr.
      assert (y ∈ run (meta_query a CrudLink) (eavs (w_meta w))) as Hy by (rewrite Ek; set_solver).
      assert (z ∈ run (meta_query a CrudLink) (eavs (w_meta w))) as Hz by (rewrite Ek; set_solver).
      apply elem_of_run_latest in Hy as (Hy & My & Ly); [|done|done].
      apply elem_of_run_latest in Hz as (Hz & Mz & Lz); [|done|done].
      apply sorted_cons in Hr as [_ Hr]. specialize (Hr z ltac:(by left)).
      apply matches_meta_query in My as [Ey Ay], Mz as [Ez Az].
      assert (index z ≤ index y); [|lia]. apply Ly; [done|].
      split_and!; [congruence|congruence|]. simpl. unfold filter_single.
      by rewrite Az, bool_decide_eq_true_2.
    + apply HL. exists y. set_solver.
    + apply HL. exists z. set_solver.
Qed.

(** Life-cycle order. *)
Definition rank (st : CrudStatus.t) : nat :=
  match st with CrudStatus.Deleted => 2 | CrudStatus.Modified => 1 | _ => 0 end.

Lemma has_value_mono w w' a attr v :
  extends w w' → has_value w a attr v → has_value w' a attr v.
Proof. intros (_ & Hs & _) (e & He & Ht). exists e. eauto. Qed.

Lemma crud_status_mono w w' a st st' :
  extends w w' → crud_status w a st → crud_status w' a st' → (rank st ≤ rank st')%nat.
Proof.
  intros Hx. pose proof (λ v, has_value_mono w w' a CrudStatusAttr v Hx) as Hm.
  destruct st, st'; simpl; try lia; naive_solver.
Qed.

Lemma crud_meta_mono w w' a st x :
  world_wf w → extends w w' →
  get_entry_crud_meta_from_dht w a = Done (Ok (Some (st, x))) →
  match get_entry_crud_meta_from_dht w' a with
  | Done (Ok (Some (st', _))) => (rank st ≤ rank st')%nat
  | Panicked _ => True
  | _ => False
  end.
Proof.
  intros Hw Hx H. pose proof (crud_meta_cases w a Hw) as Hc. rewrite H in Hc.
  pose proof (crud_meta_cases w' a (proj1 Hx)) as Hc'.
  assert (Hst : crud_status w a st) by (destruct x; apply Hc).
  assert (Hany : ∃ v, has_value w a CrudStatusAttr v).
  { destruct st; simpl in Hst; naive_solver. }
  destruct Hany as [v Hv%(has_value_mono _ _ _ _ _ Hx)].
  destruct (get_entry_crud_meta_from_dht w' a) as [[[[st' x']|]|]|]; [|naive_solver..|done].
  eapply crud_status_mono; [done|done|]. destruct x'; apply Hc'.
Qed.

(** Two triples more. *)
Lemma add_two_gains a1 at1 v1 a2 at2 v2 w w1 w2 w3 w4 x1 x2 o1 o2 :
  world_wf w →
  new_eavi clock a1 at1 v1 w = Done (w1, Ok x1) → meta_add clock x1 w1 = Done (w2, Ok o1) →
  new_eavi clock a2 at2 v2 w2 = Done (w3, Ok x2) → meta_add clock x2 w3 = Done (w4, Ok o2) →
  world_wf w4 ∧ w_cas w4 = w_cas w ∧
  ∀ a attr v, has_value w4 a attr v ↔ has_value w a attr v ∨
    (a, attr, v) = (a1, at1, v1) ∨ (a, attr, v) = (a2, at2, v2).
Proof.
  intros Hw H1 H2 H3 H4.
  pose proof (add_new_gains _ _ _ _ _ _ _ _ Hw H1 H2) as G1.
  pose proof (add_new_gains _ _ _ _ _ _ _ _ (proj1 G1) H3 H4) as G2.
  split_and!; [apply G2| |].
  - destruct G1 as (_ & E1 & _), G2 as (_ & E2 & _). congruence.
  - intros a attr v. rewrite (gains_has_value _ _ _ _ _ G2), (gains_has_value _ _ _ _ _ G1).
    tauto.
Qed.

Lemma update_inner_ok o n w w' r :
  world_wf w → reduce_update_entry_inner clock o n w = Done (w', Ok r) →
  r = n ∧ world_wf w' ∧ w_cas w' = w_cas w ∧
  ∀ a attr v, has_value w' a attr v ↔ has_value w a attr v ∨
    (a, attr, v) = (o, CrudStatusAttr, "modified") ∨ (a, attr, v) = (o, CrudLink, n).
Proof.
  intros Hw H. unfold reduce_update_entry_inner in H.
  apply stateful_bind_ok in H as (w1 & x1 & H1 & H).
  apply stateful_bind_ok in H as (w2 & o1 & H2 & H).
  apply stateful_bind_ok in H as (w3 & x2 & H3 & H).
  apply stateful_bind_ok in H as (w4 & o2 & H4 & [= <- <-]).
  split; [done|]. eapply add_two_gains; eauto.
Qed.

Lemma mapping_err_ok {A} f (m : M A) w w' a :
  mapping_err f m w = Done (w', Ok a) ↔ m w = Done (w', Ok a).
Proof. unfold mapping_err. destruct (m w) as [[w1 [b|e]]|]; simpl; naive_solver. Qed.

Lemma remove_inner_ok d del deletion w w' r :
  world_wf w → reduce_remove_entry_inner clock d del deletion w = Done (w', Ok r) →
  r = del ∧
  (∃ c e, cas_map (w_cas w (content_loc d)) !! del = Some c ∧ entry_from_json c = Ok e ∧
     EntryType.is_app (Entry.entry_type e) = true) ∧
  (∀ v, has_value w del CrudStatusAttr v → v = "live") ∧
  world_wf w' ∧ w_cas w' = w_cas w ∧
  ∀ a attr v, has_value w' a attr v ↔ has_value w a attr v ∨
    (a, attr, v) = (del, CrudStatusAttr, "deleted") ∨ (a, attr, v) = (del, CrudLink, deletion).
Proof.
  intros Hw H. unfold reduce_remove_entry_inner in H.
  apply stateful_bind_ok in H as (w1 & mc & Hmc & H).
  unfold cas_read in Hmc. rewrite cas_fetch_spec in Hmc. simplify_eq.
  apply stateful_bind_ok in H as (w2 & c & [= <- Hc] & H).
  apply stateful_bind_ok in H as (w3 & e & He & H).
  apply mapping_err_ok in He. injection He as <- He.
  destruct (EntryType.is_sys _) eqn:Hsys; [done|].
  apply stateful_bind_ok in H as (w4 & l & [= <- Hl] & H).
  destruct (decide _) as [Hnil|]; [|done].
  apply stateful_bind_ok in H as (w5 & x1 & H1%mapping_err_ok & H).
  apply stateful_bind_ok in H as (w6 & o1 & H2 & H).
  apply stateful_bind_ok in H as (w7 & x2 & H3%mapping_err_ok & H).
  apply stateful_bind_ok in H as (w8 & o2 & H4 & [= <- <-]).
  split; [done|]. split; [|split; [|by eapply add_two_gains; eauto]].
  - destruct (cas_map _ !! del) as [c'|] eqn:Ec; simplify_eq/=.
    exists c, e. split_and!; [done|done|]. by apply negb_false_iff in Hsys.
  - intros v (x & Hx & Hv)%(meta_fetch_values _ _ _ _ _ Hw Hl).
    rewrite btree_collect_nil, filter_b_nil in Hnil.
    specialize (Hnil x Hx). apply negb_false_iff, status_is_true in Hnil. by subst.
Qed.

(** ** Holding an entry *)
Lemma cas_write_ok {A} `{!AddressableContent A} l (x : A) w w' :
  cas_write l x w = Done (w', Ok tt) →
  w_meta w' = w_meta w ∧
  cas_map (w_cas w' l) = <[address x := content x]> (cas_map (w_cas w l)) ∧
  (∀ l', l' ≠ l → w_cas w' l' = w_cas w l').
Proof.
  unfold cas_write, add_content. destruct (cas_add _ _ _) as [c|] eqn:E; [|done].
  intros [= <-]. split_and!; [done| |].
  - simpl. rewrite fn_lookup_insert. by apply cas_add_spec.
  - intros l' Hl. simpl. by rewrite fn_lookup_insert_ne.
Qed.

Lemma store_entry_ok d entry w w' :
  world_wf w → reduce_store_entry_inner clock d entry w = Done (w', Ok tt) →
  world_wf w' ∧
  cas_map (w_cas w' (content_loc d)) =
    <[address entry := entry_to_json entry]> (cas_map (w_cas w (content_loc d))) ∧
  ∀ a attr v, has_value w' a attr v ↔ has_value w a attr v ∨
    (a, attr, v) = (address entry, CrudStatusAttr, "live").
Proof.
  intros Hw H. unfold reduce_store_entry_inner in H.
  apply stateful_bind_ok in H as (w1 & [] & H1%mapping_err_ok & H).
  apply stateful_bind_ok in H as (w2 & x & H2 & H%mapping_err_ok).
  apply stateful_bind_ok in H as (w3 & o & H3 & [= <-]).
  apply cas_write_ok in H1 as (Hm & Hc & _).
  assert (Hw1 : world_wf w1) by (unfold world_wf; by rewrite Hm).
  pose proof (add_new_gains _ _ _ _ _ _ _ _ Hw1 H2 H3) as G.
  split_and!; [apply G| |].
  - destruct G as (_ & -> & _). done.
  - intros a attr v. rewrite (gains_has_value _ _ _ _ _ G).
    unfold has_value, stored. by rewrite Hm.
Qed.

Lemma add_header_ok d entry h w w' :
  world_wf w → add_header_for_entry clock d entry h w = Done (w', Ok tt) →
  world_wf w' ∧
  cas_map (w_cas w' (content_loc d)) =
    <[address h := header_to_json h]> (cas_map (w_cas w (content_loc d))) ∧
  ∀ a attr v, has_value w' a attr v ↔ has_value w a attr v ∨
    (a, attr, v) = (address entry, EntryHeader, address h).
Proof.
  intros Hw H. unfold add_header_for_entry in H.
  apply stateful_bind_ok in H as (w1 & x & [-> ->]%new_eavi_ok & H).
  apply stateful_bind_ok in H as (w2 & [] & (Hm & Hc & _)%cas_write_ok & H).
  apply stateful_bind_ok in H as (w3 & o & Ho & [= <-]).
  assert (Hw2 : world_wf w2) by (unfold world_wf; by rewrite Hm).
  apply meta_add_spec in Ho as (Hw3 & Hc3 & Ho); [|done|apply clock_i64].
  destruct o as [e|]; [|done]. destruct Ho as (Ht & _ & _ & Hx).
  change (triple e = (address entry, EntryHeader, address h)) in Ht.
  split_and!; [done|by rewrite Hc3|].
  assert (Hst : stored w2 = stored w) by (unfold stored; by rewrite Hm).
  intros a attr v. unfold has_value. setoid_rewrite Hx. rewrite Hst. split.
  - intros (y & [?| ->] & Hy); [left; eauto|right; congruence].
  - intros [(y & ? & ?)|Heq]; [exists y; auto|exists e; split; [by right|congruence]].
Qed.

Lemma keep_on_ok_some d (m : M unit) w w' d' :
  keep_on_ok d m w = Done (w', Some d') → d' = d ∧ m w = Done (w', Ok tt).
Proof.
  unfold keep_on_ok. destruct (m w) as [[w1 [[]|e]]|]; naive_solver.
Qed.

Lemma status_exists w a v :
  world_wf w → has_value w a CrudStatusAttr v → ∃ st, crud_status w a st.
Proof.
  intros Hw Hv. pose proof (crud_meta_cases w a Hw) as Hc.
  destruct (get_entry_crud_meta_from_dht w a) as [[[[st [x|]]|]|]|]; naive_solver.
Qed.

Lemma crud_status_live w a st :
  crud_status w a st →
  st = CrudStatus.Live ↔
  ¬ has_value w a CrudStatusAttr "deleted" ∧ ¬ has_value w a CrudStatusAttr "modified".
Proof. destruct st; simpl; naive_solver. Qed.

(** All headers of an entry are returned when they are all stored as headers. *)
Lemma get_headers_all d w a :
  world_wf w →
  (∀ v, has_value w a EntryHeader v →
     ∃ h, cas_map (w_cas w (content_loc d)) !! v = Some (header_to_json h)) →
  ∃ hs, get_headers d w a = Ok hs ∧
    ∀ v h, has_value w a EntryHeader v →
      cas_map (w_cas w (content_loc d)) !! v = Some (header_to_json h) → h ∈ hs.
Proof.
  intros Hw Hall. unfold get_headers.
  destruct (fetch_eavi _ _) as [l|] eqn:El; [|by rewrite fetch_eavi_spec in El].
  pose proof (λ v, meta_fetch_values w a EntryHeader l v Hw El) as Hl. simpl.
  destruct (collect_results_total (λ a, cas_fetch (w_cas w (content_loc d)) a) (value <$> l))
    as [cs Hcs]; [intros x _; rewrite cas_fetch_spec; eauto|].
  rewrite Hcs. simpl.
  assert (Hin : ∀ c, c ∈ omap id cs → ∃ h, c = header_to_json h).
  { intros c ([c'|] & Hc & [= ->])%list_elem_of_omap.
    apply collect_results_ok in Hcs. apply list_elem_of_lookup in Hc as [i Hi].
    destruct (Forall2_lookup_r _ _ _ _ _ Hcs Hi) as (v & Hvi & Hv).
    rewrite cas_fetch_spec in Hv. injection Hv as Hv.
    assert (v ∈ value <$> l) as (e & -> & He)%list_elem_of_fmap
      by by eapply list_elem_of_lookup_2.
    destruct (Hall (value e)) as [h Hh]; [apply Hl; eauto|]. exists h. congruence. }
  destruct (collect_results_total header_from_json (omap id cs)) as [hs Hhs].
  { intros c [h ->]%Hin. rewrite header_json_roundtrip. eauto. }
  exists hs. split; [done|]. intros v h (e & He & <-)%Hl Hc.
  eapply collect_results_elem; [exact Hhs| |apply header_json_roundtrip].
  apply list_elem_of_omap. exists (Some (header_to_json h)). split; [|done].
  eapply (collect_results_elem _ _ _ (value e)); [exact Hcs| |by rewrite cas_fetch_spec, Hc].
  apply list_elem_of_fmap. eauto.
Qed.

(** C12: an entry the shard has taken to hold can be fetched from it by its
    address, carries a status from then on (live unless it was modified or
    deleted before), and its header is among the entry's headers.  The address
    of the entry is assumed not to be that of a header of it (a hash collision),
    and the headers it already had to be stored as headers. *)
Theorem hold_entry_held d (ewh : EntryWithHeader) w w' d' :
  let entry := ewh_entry ewh in
  let header := ewh_header ewh in
  world_wf w → address header ≠ address entry →
  (∀ v, has_value w (address entry) EntryHeader v →
     v ≠ address entry ∧
     ∃ h, cas_map (w_cas w (content_loc d)) !! v = Some (header_to_json h)) →
  reduce_hold_entry clock d ewh w = Done (w', Some d') →
  get_entry_from_dht d' w' (address entry) = Ok (Some entry) ∧
  (∃ st, crud_status w' (address entry) st ∧
     (st = CrudStatus.Live ↔
      ¬ has_value w (address entry) CrudStatusAttr "deleted" ∧
      ¬ has_value w (address entry) CrudStatusAttr "modified")) ∧
  ∃ hs, get_headers d' w' (address entry) = Ok hs ∧ header ∈ hs.
Proof.
  intros entry header Hw Hne Hheaders H. unfold reduce_hold_entry in H.
  apply keep_on_ok_some in H as [-> E].
  apply stateful_bind_ok in E as (w1 & [] & H1 & H2).
  apply store_entry_ok in H1 as (Hw1 & Hc1 & Hv1); [|done].
  apply add_header_ok in H2 as (Hw2 & Hc2 & Hv2); [|done].
  fold entry header in Hc1, Hv1, Hc2, Hv2. rewrite Hc1 in Hc2.
  assert (Hv : ∀ a attr v, has_value w' a attr v ↔ has_value w a attr v ∨
    (a, attr, v) = (address entry, CrudStatusAttr, "live") ∨
    (a, attr, v) = (address entry, EntryHeader, address header))
    by (intros a attr v; rewrite Hv2, Hv1; tauto).
  split_and!.
  - unfold get_entry_from_dht, get_entry_from_cas.
    rewrite cas_fetch_spec, Hc2, lookup_insert_ne, lookup_insert_eq by done. simpl.
    by rewrite entry_json_roundtrip.
  - destruct (status_exists w' (address entry) "live" Hw2) as [st Hst];
      [apply Hv; tauto|].
    exists st. split; [done|]. rewrite (crud_status_live _ _ _ Hst), !Hv. naive_solver.
  - destruct (get_headers_all d w' (address entry) Hw2) as (hs & Hhs & Hin).
    + intros v [Hold|[[=]|[= ->]]]%Hv; rewrite Hc2.
      * destruct (Hheaders v Hold) as (Hv' & h & Hh).
        destruct (decide (address header = v)) as [<-|].
        -- rewrite lookup_insert_eq. eauto.
        -- rewrite !lookup_insert_ne by done. eauto.
      * rewrite lookup_insert_eq. eauto.
    + exists hs. split; [done|]. apply (Hin (address header)).
      * apply Hv. tauto.
      * by rewrite Hc2, lookup_insert_eq.
Qed.

(** C13: the status of an entry never goes back: once modified it is never
    live again, once deleted it stays deleted, whatever actions follow. *)
Theorem status_never_goes_back (l : list (ActionWrapper Json)) w d w' d' a st x :
  world_wf w → reduce_all l w d = Done (w', d') →
  get_entry_crud_meta_from_dht w a = Done (Ok (Some (st, x))) →
  match get_entry_crud_meta_from_dht w' a with
  | Done (Ok (Some (st', _))) => (rank st ≤ rank st')%nat
  | Panicked _ => True
  | _ => False
  end.
Proof.
  intros Hw H. destruct (reduce_all_extends l w d w' d' Hw H) as [Hx _].
  by apply crud_meta_mono.
Qed.

Lemma reduce_remove_eq d id del deletion w :
  reduce clock d (MkActionWrapper (Json := Json) (ARemoveEntry del deletion) id) w =
  match reduce_remove_entry_inner clock d del deletion w with
  | Done (w', r) => Done (w', MkDhtStore (content_loc d) (<[id := r]> (d_actions d)))
  | Panicked why => Panicked why
  end.
Proof.
  unfold reduce. simpl. unfold reduce_remove_entry, record_result.
  by destruct (reduce_remove_entry_inner _ _ _ _ w) as [[]|].
Qed.

Lemma reduce_update_eq d id o n w :
  reduce clock d (MkActionWrapper (Json := Json) (AUpdateEntry o n) id) w =
  match reduce_update_entry_inner clock o n w with
  | Done (w', r) => Done (w', MkDhtStore (content_loc d) (<[id := r]> (d_actions d)))
  | Panicked why => Panicked why
  end.
Proof.
  unfold reduce. simpl. unfold reduce_update_entry, record_result.
  by destruct (reduce_update_entry_inner _ _ _ w) as [[]|].
Qed.

(** a removal that reports success found an app entry that had never
    had another status than live; afterwards the entry is deleted and linked to
    the deletion entry, its content is still there, and no other status, link or
    header has changed. *)
Theorem remove_entry_deletes d id del deletion w w' d' r :
  world_wf w →
  reduce clock d (MkActionWrapper (Json := Json) (ARemoveEntry del deletion) id) w =
    Done (w', d') →
  d_actions d' !! id = Some (Ok r) →
  (∃ e, get_entry_from_dht d w del = Ok (Some e) ∧
        EntryType.is_app (Entry.entry_type e) = true) ∧
  (∀ v, has_value w del CrudStatusAttr v → v = "live") ∧
  crud_status w' del CrudStatus.Deleted ∧ has_value w' del CrudLink deletion ∧
  w_cas w' = w_cas w ∧
  ∀ a attr v, a ≠ del ∨ (attr ≠ CrudStatusAttr ∧ attr ≠ CrudLink) →
    has_value w' a attr v ↔ has_value w a attr v.
Proof.
  intros Hw H Hr. rewrite reduce_remove_eq in H.
  destruct (reduce_remove_entry_inner _ _ _ _ w) as [[w1 r1]|] eqn:E; simplify_eq.
  simpl in Hr. rewrite lookup_insert_eq in Hr. simplify_eq.
  apply remove_inner_ok in E as (-> & (c & e & Hc & He & Happ) & Hlive & Hw' & Hcas & Hv);
    [|done].
  split_and!; [|done|apply Hv; tauto|apply Hv; tauto|done|].
  - exists e. split; [|done]. unfold get_entry_from_dht, get_entry_from_cas.
    rewrite cas_fetch_spec, Hc. simpl. by rewrite He.
  - intros a attr v Hne. rewrite Hv. naive_solver.
Qed.

(** removing an entry that is not held, a system entry, or an entry
    with a status other than live reports the matching error and changes
    neither the triples nor the contents. *)
Theorem remove_entry_guards d id del deletion w :
  let aw := MkActionWrapper (Json := Json) (ARemoveEntry del deletion) id in
  let fails msg := ∃ d', reduce clock d aw w = Done (w, d') ∧
    d_actions d' !! id = Some (Err (ErrorGeneric msg)) in
  world_wf w →
  match cas_map (w_cas w (content_loc d)) !! del with
  | None => fails "trying to remove a missing entry"
  | Some c =>
      match entry_from_json c with
      | Err _ => fails "Stored content should be a valid entry"
      | Ok e =>
          if EntryType.is_sys (Entry.entry_type e)
          then fails "trying to remove a system entry type"
          else (∃ v, has_value w del CrudStatusAttr v ∧ v ≠ "live") →
               fails "entry_status != CrudStatus::Live"
      end
  end.
Proof.
  intros aw fails Hw. unfold fails, aw. rewrite reduce_remove_eq.
  unfold reduce_remove_entry_inner, mbind, stateful_bind, cas_read.
  rewrite cas_fetch_spec.
  destruct (cas_map _ !! del) as [c|]; simpl;
    [|eexists; split; [done|apply lookup_insert_eq]].
  unfold generic, mapping_err, lift.
  destruct (entry_from_json c) as [e|err]; simpl;
    [|eexists; split; [done|apply lookup_insert_eq]].
  destruct (EntryType.is_sys _); [eexists; split; [done|apply lookup_insert_eq]|].
  intros (v & Hv & Hne). unfold meta_fetch.
  destruct (fetch_eavi _ _) as [l|] eqn:El; [|by rewrite fetch_eavi_spec in El].
  apply (meta_fetch_values w del CrudStatusAttr l v Hw El) in Hv as (x & Hx & <-).
  rewrite decide_False; [eexists; split; [done|apply lookup_insert_eq]|].
  rewrite btree_collect_nil, filter_b_nil. intros Hall. specialize (Hall x Hx).
  apply negb_false_iff, status_is_true in Hall. done.
Qed.

(** an update that reports success marks the old entry modified (unless
    it is deleted) and links it to the new one; after a second successful update
    of the same entry to another address, whatever happened in between, asking
    for the status of that entry panics on the assertion that there is at most
    one such link. *)
Theorem second_update_panics d id1 id2 o n1 n2 (l : list (ActionWrapper Json))
    w0 w1 w2 w3 d1 d2 d3 :
  world_wf w0 → n1 ≠ n2 →
  reduce clock d (MkActionWrapper (Json := Json) (AUpdateEntry o n1) id1) w0 = Done (w1, d1) →
  d_actions d1 !! id1 = Some (Ok n1) →
  reduce_all l w1 d1 = Done (w2, d2) →
  reduce clock d2 (MkActionWrapper (Json := Json) (AUpdateEntry o n2) id2) w2 = Done (w3, d3) →
  d_actions d3 !! id2 = Some (Ok n2) →
  (crud_status w1 o CrudStatus.Modified ∨ crud_status w1 o CrudStatus.Deleted) ∧
  has_value w1 o CrudLink n1 ∧
  panics (get_entry_crud_meta_from_dht w3 o) = true.
Proof.
  intros Hw Hne H1 R1 Hl H2 R2. rewrite reduce_update_eq in H1, H2.
  destruct (reduce_update_entry_inner clock o n1 w0) as [[? r1]|] eqn:E1; simplify_eq.
  destruct (reduce_update_entry_inner clock o n2 w2) as [[? r2]|] eqn:E2; simplify_eq.
  simpl in R1, R2. rewrite lookup_insert_eq in R1, R2. simplify_eq.
  apply update_inner_ok in E1 as (_ & Hw1 & _ & Hv1); [|done].
  destruct (reduce_all_extends _ _ _ _ _ Hw1 Hl) as [Hx _].
  apply update_inner_ok in E2 as (_ & Hw3 & _ & Hv2); [|apply Hx].
  assert (Hm : has_value w1 o CrudStatusAttr "modified") by (apply Hv1; tauto).
  assert (Hn1 : has_value w1 o CrudLink n1) by (apply Hv1; tauto).
  split_and!; [|done|].
  - destruct (status_exists w1 o "modified" Hw1 Hm) as [st Hst].
    destruct st; [|done|by right|by left|done]. by destruct Hst as (_ & [] & _).
  - pose proof (crud_meta_cases w3 o Hw3) as Hc.
    assert (V1 : has_value w3 o CrudLink n1)
      by (apply Hv2; left; by eapply has_value_mono).
    assert (V2 : has_value w3 o CrudLink n2) by (apply Hv2; tauto).
    assert (V3 : has_value w3 o CrudStatusAttr "modified") by (apply Hv2; tauto).
    destruct (get_entry_crud_meta_from_dht w3 o) as [[[[st [x|]]|]|]|]; [| | |done|done].
    + destruct Hc as [_ Hc]. apply Hc in V1, V2. congruence.
    + destruct Hc as [_ Hc]. by destruct (Hc n1).
    + by destruct (Hc _ V3).
Qed.
End facts.

(** ** The memory storages never run out

    With the memory triple storage no action panics as long as the set has room
    for the two triples an action adds at most. *)
Section memory.
Context {wire : Wire} {Json : Type}.
Context {C : Type} `{!ContentAddressableStorage C}.
Context (clock : nat → Z) (clock_i64 : ∀ n, fits_i64 (clock n)).
Abbreviation World := (@World C EavMemoryStorage.t).
Abbreviation M := (stateful World HolochainError).
Implicit Types (w : World).

Definition triples w : Z := Z.of_nat (length (stored w)).

(** From a world with [n] free places [m] returns, using at most [n]. *)
Definition total {A} (n : Z) (m : M A) (V : A → Prop) : Prop :=
  ∀ w, world_wf w → triples w + n < 2 ^ 64 →
    ∃ w' r, m w = Done (w', r) ∧ world_wf w' ∧ triples w' ≤ triples w + n ∧
      ∀ a, r = Ok a → V a.

Lemma total_bind {A B} n k (m : M A) (f : A → M B) V V' :
  0 ≤ k → total n m V → (∀ a, V a → total k (f a) V') → total (n + k) (m ≫= f) V'.
Proof.
  intros Hk Hm Hf w Hw Hn.
  destruct (Hm w Hw ltac:(lia)) as (w1 & [a|e] & E & Hw1 & Ht & HV).
  - destruct (Hf a (HV _ eq_refl) w1 Hw1 ltac:(lia)) as (w2 & r & E2 & Hw2 & Ht2 & HV2).
    exists w2, r. unfold mbind, stateful_bind. rewrite E. split_and!; [done|done|lia|done].
  - exists w1, (Err e). unfold mbind, stateful_bind. rewrite E. split_and!; [done|done|lia|done].
Qed.

Lemma total_mapping_err {A} n f (m : M A) V : total n m V → total n (mapping_err f m) V.
Proof.
  intros Hm w Hw Hn. destruct (Hm w Hw Hn) as (w1 & r & E & Hw1 & Ht & HV).
  exists w1, (map_err f r). unfold mapping_err. rewrite E. split_and!; [done..|].
  destruct r; naive_solver.
Qed.

Lemma total_pure {A} (f : World → HcResult A) : total 0 (λ w, Done (w, f w)) (λ _, True).
Proof. intros w Hw _. exists w, (f w). split_and!; [done|done|lia|done]. Qed.

Lemma total_cas_write {A} `{!AddressableContent A} l (x : A) :
  total 0 (cas_write l x) (λ _, True).
Proof.
  intros w Hw _. unfold cas_write. destruct (add_content _ _);
    eexists _, _; (split; [done|]); (split; [done|]); split; [|done| |done];
    unfold triples, stored; simpl; lia.
Qed.

Lemma total_new_eavi e a v : total 0 (new_eavi clock e a v) (λ x, fits_i64 (index x)).
Proof.
  intros w Hw _. eexists _, _. split; [reflexivity|]. split; [done|].
  split; [unfold triples, stored; simpl; lia|]. intros x Hx. apply eavi_new_ok in Hx.
  subst. apply clock_i64.
Qed.

Lemma total_meta_add e : fits_i64 (index e) → total 1 (meta_add clock e) (λ _, True).
Proof.
  intros He w Hw Hn. unfold triples, stored in *. simpl in *.
  destruct (increment_key_total e (EavMemoryStorage.storage (w_meta w)) He) as [e' E]; [lia|].
  pose proof E as (_ & Hf & _)%increment_key_done; [|done].
  eexists _, _. unfold meta_add. simpl. unfold EavMemoryStorage.add_eavi. rewrite E. simpl.
  split; [done|]. split; [by apply btree_insert_sorted|]. split; [|done].
  simpl. rewrite btree_insert_length by done. lia.
Qed.

Lemma total_ret {A} (a : A) : total 0 (mret a) (λ _, True).
Proof. apply (total_pure (λ _, Ok a)). Qed.
Lemma total_throw {A} e : total 0 (throw e : M A) (λ _, True).
Proof. apply (total_pure (λ _, Err e)). Qed.
Lemma total_lift {A} (r : HcResult A) : total 0 (lift r) (λ _, True).
Proof. apply (total_pure (λ _, r)). Qed.

Lemma total_weaken {A} n k (m : M A) V :
  n ≤ k → total n m V → total k m (λ _, True).
Proof.
  intros Hnk Hm w Hw Hk. destruct (Hm w Hw ltac:(lia)) as (w1 & r & E & Hw1 & Ht & HV).
  exists w1, r. split_and!; [done|done|lia|done].
Qed.

Lemma total_bind0 {A B} n (m : M A) (f : A → M B) V V' :
  0 ≤ n → total 0 m V → (∀ a, V a → total n (f a) V') → total n (m ≫= f) V'.
Proof. intros Hn. apply (total_bind 0 n); lia. Qed.

Lemma total_bind1 {A B} n (m : M A) (f : A → M B) V V' :
  1 ≤ n → total 1 m V → (∀ a, V a → total (n - 1) (f a) V') → total n (m ≫= f) V'.
Proof.
  intros Hn Hm Hf. replace n with (1 + (n - 1)) by lia. eapply total_bind; [lia|done..].
Qed.

#[local] Hint Resolve total_cas_write total_pure total_ret total_throw total_lift
  total_meta_add total_new_eavi : dht.

Ltac total_leaf := cbv beta in *; eauto with dht.

Ltac solve_total :=
  repeat first
    [ match goal with |- total _ (if ?b then _ else _) _ => destruct b end
    | match goal with |- total _ (mbind _ _) _ =>
        eapply total_bind0; [lia| |intros ? ?];
          [solve [try apply total_mapping_err; total_leaf]|] end
    | match goal with |- total _ (mbind _ _) _ =>
        eapply total_bind1; [lia| |intros ? ?]; [solve [total_leaf]|] end
    | apply total_mapping_err
    | solve [eapply total_weaken; [|total_leaf]; lia] ].

Lemma total_status a st : total 0 (new_status_eavi clock a st) (λ x, fits_i64 (index x)).
Proof. apply total_new_eavi. Qed.
Lemma total_crud_link a b : total 0 (new_link_eavi clock a b) (λ x, fits_i64 (index x)).
Proof. apply total_new_eavi. Qed.

#[local] Hint Resolve total_status total_crud_link : dht.

Lemma total_store d entry : total 1 (reduce_store_entry_inner clock d entry) (λ _, True).
Proof. unfold reduce_store_entry_inner. solve_total. Qed.

Lemma total_header d entry h : total 1 (add_header_for_entry clock d entry h) (λ _, True).
Proof. unfold add_header_for_entry. solve_total. Qed.

Lemma total_link d l m : total 2 (reduce_add_remove_link_inner clock d l m) (λ _, True).
Proof. unfold reduce_add_remove_link_inner, cas_has. solve_total. Qed.

Lemma total_update o n : total 2 (reduce_update_entry_inner clock o n) (λ _, True).
Proof. unfold reduce_update_entry_inner. solve_total. Qed.

Lemma total_remove d del deletion :
  total 2 (reduce_remove_entry_inner clock d del deletion) (λ _, True).
Proof. unfold reduce_remove_entry_inner, cas_read, meta_fetch, generic. solve_total. Qed.

Lemma keep_on_ok_total n d (m : M unit) w :
  total n m (λ _, True) → world_wf w → triples w + n < 2 ^ 64 →
  ∃ w' o, keep_on_ok d m w = Done (w', o).
Proof.
  intros Hm Hw Hn. destruct (Hm w Hw Hn) as (w1 & [a|e] & E & _);
    unfold keep_on_ok; rewrite E; eauto.
Qed.

Lemma record_result_total n d id (m : M Address) w :
  total n m (λ _, True) → world_wf w → triples w + n < 2 ^ 64 →
  ∃ w' o, record_result d id m w = Done (w', o).
Proof.
  intros Hm Hw Hn. destruct (Hm w Hw Hn) as (w1 & r & E & _).
  unfold record_result. rewrite E. eauto.
Qed.

(** With the memory triple storage no action panics or loops, whatever
    the content storage does, while the set has room for two more triples. *)
Theorem memory_reduce_total d (aw : ActionWrapper Json) w :
  world_wf w → triples w + 2 < 2 ^ 64 →
  ∃ w' d', reduce clock d aw w = Done (w', d').
Proof.
  intros Hw Hn. unfold reduce.
  assert (H : ∀ red, resolve_reducer clock d aw = Some red → ∃ w' o, red w = Done (w', o)).
  { unfold resolve_reducer. intros red.
    destruct (aw_action aw); intros [= <-];
      first [eapply (keep_on_ok_total 2)|eapply (record_result_total 2)]; try done;
      eauto using total_link, total_update, total_remove.
    - eapply total_weaken; [|apply total_store]. lia.
    - apply (total_bind 1 1) with (V := λ _, True); [lia|apply total_store|].
      intros _ _. apply total_header. }
  destruct (resolve_reducer clock d aw) as [red|]; [|by eauto].
  destruct (H red eq_refl) as (w' & o & ->). simpl. eauto.
Qed.
End memory.

(** ** Witnesses

    A shard over memory storages, holding one entry, with a ticking clock. *)
Module Demo.
#[local] Existing Instance plain_wire.
Definition clock (n : nat) : Z := as_i64 (1000 + Z.of_nat n).
Lemma clock_i64 n : fits_i64 (clock n).
Proof. apply as_i64_fits. Qed.

Definition entry : Entry.t := Entry.App "post" "hello".
Definition header : ChainHeader :=
  MkHeader (EntryType.App "post") (address entry) [] None None None "2019".
Definition store : DhtStore := dht_new 0.
Definition cas : MemoryStorage.t :=
  MemoryStorage.Mk (<[address entry := content entry]> ∅).
(** the entry held and live *)
Definition world : World :=
  MkWorld (λ _, cas)
    (EavMemoryStorage.Mk [MkEavi (address entry) CrudStatusAttr "live" 7]) 0.
Definition empty : World :=
  MkWorld (λ _, MemoryStorage.new) EavMemoryStorage.new 0.
Definition link : Link := MkLink (address entry) "target" "comment" "first".

Lemma world_ok : world_wf world.
Proof. repeat constructor. Qed.
Lemma ahead : clock_ahead clock world.
Proof. intros e [->|[]%elem_of_nil]%elem_of_cons. reflexivity. Qed.
Lemma base_held : held world 0 (base link).
Proof. eexists. vm_compute. reflexivity. Qed.

Lemma link_modification_visible_witness :
  ∃ w' d', reduce (Json := unit) clock store
      (MkActionWrapper (link_action link LmAdd) 5) world = Done (w', d') ∧
    d_actions d' !! 5%nat = Some (Ok (address entry)).
Proof.
  destruct (link_modification_visible (Json := unit) clock clock_i64 store 5 link LmAdd world)
    as (w' & d' & H1 & H2 & _).
  - exact world_ok.
  - exact ahead.
  - exact base_held.
  - reflexivity.
  - vm_compute. reflexivity.
  - exists w', d'. exact (conj H1 H2).
Defined.

(** The result of a run that does not panic, and what holds of it. *)
Definition holds {A} (P : A → bool) (o : outcome A) : bool :=
  match o with Done a => P a | Panicked _ => false end.

Lemma holds_done {A} (P : A → bool) (o : outcome A) :
  holds P o = true → ∃ a, o = Done a ∧ P a = true.
Proof. destruct o as [a|]; [by exists a|done]. Qed.

Lemma hold_entry_held_witness :
  ∃ w' d' hs, reduce_hold_entry clock store (MkEntryWithHeader entry header) empty =
      Done (w', Some d') ∧
    get_headers d' w' (address entry) = Ok hs ∧ header ∈ hs.
Proof.
  destruct (holds_done (λ r, bool_decide (is_Some r.2))
    (reduce_hold_entry clock store (MkEntryWithHeader entry header) empty))
    as ([w' o] & E & Ho); [vm_compute; reflexivity|].
  apply bool_decide_eq_true in Ho as [d' Ho]. simpl in Ho. subst o.
  destruct (hold_entry_held clock clock_i64 store (MkEntryWithHeader entry header)
    empty w' d') as (_ & _ & hs & H).
  - constructor.
  - vm_compute. discriminate.
  - intros v (e & He & _). inversion He.
  - exact E.
  - exists w', d', hs. exact (conj E H).
Defined.

Definition actions : list (ActionWrapper unit) :=
  [MkActionWrapper (AUpdateEntry (address entry) "new") 1;
   MkActionWrapper (ACommit entry None []) 2;
   MkActionWrapper (AAddLink link) 3].

Lemma status_never_goes_back_witness :
  ∃ w' d', reduce_all clock actions world store = Done (w', d') ∧
    match get_entry_crud_meta_from_dht w' (address entry) with
    | Done (Ok (Some (st', _))) => (rank CrudStatus.Live ≤ rank st')%nat
    | Panicked _ => True
    | _ => False
    end.
Proof.
  destruct (holds_done (λ _, true) (reduce_all clock actions world store))
    as ([w' d'] & E & _); [vm_compute; reflexivity|].
  exists w', d'. split; [exact E|].
  refine (status_never_goes_back clock clock_i64 actions world store w' d'
    (address entry) CrudStatus.Live None world_ok E _).
  vm_compute. reflexivity.
Defined.

Definition result_of (id : nat) (r : @World MemoryStorage.t EavMemoryStorage.t * DhtStore) :
    option (HcResult Address) := d_actions r.2 !! id.

Lemma remove_entry_deletes_witness :
  ∃ w' d', reduce (Json := unit) clock store
      (MkActionWrapper (ARemoveEntry (address entry) "deletion") 5) world = Done (w', d') ∧
    crud_status w' (address entry) CrudStatus.Deleted.
Proof.
  destruct (holds_done (λ r, bool_decide (result_of 5 r = Some (Ok (address entry))))
    (reduce (Json := unit) clock store
      (MkActionWrapper (ARemoveEntry (address entry) "deletion") 5) world))
    as ([w' d'] & E & R); [vm_compute; reflexivity|].
  apply bool_decide_eq_true in R. exists w', d'. split; [exact E|].
  exact (proj1 (proj2 (proj2 (remove_entry_deletes (Json := unit) clock clock_i64 store 5
    (address entry) "deletion" world w' d' (address entry) world_ok E R)))).
Defined.

Lemma remove_entry_guards_witness :
  ∃ d', reduce (Json := unit) clock store
      (MkActionWrapper (ARemoveEntry "missing" "deletion") 5) world = Done (world, d') ∧
    d_actions d' !! 5%nat = Some (Err (ErrorGeneric "trying to remove a missing entry")).
Proof.
  exact (remove_entry_guards (Json := unit) clock clock_i64 store 5 "missing" "deletion" world world_ok).
Defined.

Lemma link_modification_errors_witness :
  ∃ d', reduce (Json := unit) clock store
      (MkActionWrapper (AAddLink (MkLink "nowhere" "t" "ty" "tg")) 5) world = Done (world, d') ∧
    d_actions d' !! 5%nat = Some (Err (ErrorGeneric "Base for link not found")).
Proof.
  refine (proj1 (link_modification_errors (Json := unit) clock store 5
    (MkLink "nowhere" "t" "ty" "tg") LmAdd world) _).
  intros [x H]. vm_compute in H. discriminate H.
Defined.

Definition update (id : nat) (n : Address)
    (r : @World MemoryStorage.t EavMemoryStorage.t * DhtStore) :=
  reduce (Json := unit) clock r.2 (MkActionWrapper (AUpdateEntry (address entry) n) id) r.1.

Lemma second_update_panics_witness :
  ∃ w3 : World (C := MemoryStorage.t) (S := EavMemoryStorage.t),
    panics (get_entry_crud_meta_from_dht w3 (address entry)) = true.
Proof.
  destruct (holds_done (λ r, bool_decide (result_of 1 r = Some (Ok "n1")) &&
      holds (λ r, bool_decide (result_of 2 r = Some (Ok "n2"))) (update 2 "n2" r))
    (update 1 "n1" (world, store))) as ([w1 d1] & E1 & [R1 H2]%andb_prop);
    [vm_compute; reflexivity|].
  apply holds_done in H2 as ([w3 d3] & E2 & R2). apply bool_decide_eq_true in R1, R2.
  exists w3.
  exact (proj2 (proj2 (second_update_panics (Json := unit) clock clock_i64 store 1 2
    (address entry) "n1" "n2" [] world w1 w1 w3 d1 d1 d3 world_ok
    ltac:(discriminate) E1 R1 eq_refl E2 R2))).
Defined.

Lemma memory_reduce_total_witness :
  ∃ w' d', reduce (Json := unit) clock store (MkActionWrapper (AAddLink link) 5) world =
    Done (w', d').
Proof.
  apply (memory_reduce_total (Json := unit) clock clock_i64 store
    (MkActionWrapper (AAddLink link) 5) world world_ok).
  vm_compute. reflexivity.
Defined.
End Demo.
