(* ===== verification/Chain.v ===== *)
(** * The source chain

    [core/src/agent/]: the chain of headers in content storage, its iterators
    and queries ([chain_store.rs]), the agent's state slice and its reducer
    ([state.rs]), and the lookups on the chain of [agent/mod.rs] and
    [nucleus/actions/get_entry.rs].

    An iterator follows addresses found in storage, so nothing in its type makes
    it end.  Its consumers here get as many steps as the storage holds contents,
    plus two: an iterator that is not exhausted by then is on a cycle and would
    never be ([ChainFacts.out_of_steps_never_returns]). *)
From S2P Require Import Prelude Errors Strings Eav Entries Cas Protocol Actions Dht.
#[local] Open Scope N_scope.

(** A call that does not return. *)
Definition diverges {A} : outcome A := Panicked "does not return".

Definition USIZE_MAX : N := 2 ^ 64 - 1.

(** ** Glob patterns

    The [globset] crate: [glob_build name] is
    [GlobBuilder::new(name).literal_separator(true).build()], and
    [globset_build] compiles a set of patterns to a matcher. *)
Class GlobSet := {
  Glob : Type;
  glob_build : string → option Glob;
  globset_build : list Glob → option (string → bool);
}.

Section store.
Context {wire : Wire}.
Context {C : Type} `{!ContentAddressableStorage C}.

(** ** Iterators

    [ChainStoreIterator] and [ChainStoreTypeIterator] differ only in the link
    they follow. *)
Abbreviation Iter := (option ChainHeader).

Definition follow (c : C) (link : ChainHeader → option Address) (h : ChainHeader) :
    outcome Iter :=
  match link h with
  | None => Done None
  | Some a =>
      match cas_fetch c a with
      | Err _ => Panicked "failed to fetch from CAS"
      | Ok None => Done None
      | Ok (Some content) =>
          match header_from_json content with
          | Ok h' => Done (Some h')
          | Err _ => Panicked "failed to load ChainHeader from Content"
          end
      end
  end.

(** [Iterator::next]: the header after the one returned is already loaded. *)
Definition next (c : C) (link : ChainHeader → option Address) (current : Iter) :
    outcome (option ChainHeader * Iter) :=
  match current with
  | None => Done (None, None)
  | Some previous => n ← follow c link previous; Done (Some previous, n)
  end.

(** [Iterator::find]. *)
Fixpoint find (steps : nat) (c : C) (link : ChainHeader → option Address)
    (p : ChainHeader → bool) (current : Iter) : outcome (option ChainHeader) :=
  match steps with
  | O => diverges
  | S steps =>
      '(r, rest) ← next c link current;
      match r with
      | None => Done None
      | Some h => if p h then Done (Some h) else find steps c link p rest
      end
  end.

(** [iter.filter(p).skip(start).take(limit).collect()]. *)
Fixpoint collect (steps : nat) (c : C) (link : ChainHeader → option Address)
    (p : ChainHeader → bool) (start limit : N) (current : Iter) :
    outcome (list ChainHeader) :=
  if decide (limit = 0) then Done [] else
  match steps with
  | O => diverges
  | S steps =>
      '(r, rest) ← next c link current;
      match r with
      | None => Done []
      | Some h =>
          if p h then
            if decide (start = 0) then
              l ← collect steps c link p 0 (limit - 1) rest; Done (h :: l)
            else collect steps c link p (start - 1) limit rest
          else collect steps c link p start limit rest
      end
  end.

(** [iter.last()]. *)
Fixpoint last_of (steps : nat) (c : C) (link : ChainHeader → option Address)
    (seen : option ChainHeader) (current : Iter) : outcome (option ChainHeader) :=
  match steps with
  | O => diverges
  | S steps =>
      '(r, rest) ← next c link current;
      match r with
      | None => Done seen
      | Some h => last_of steps c link (Some h) rest
      end
  end.

Definition budget (c : C) : nat := S (S (size (cas_map c))).

(** [ChainStore::iter]: the iterator starts at the header given. *)
Definition iter (start_chain_header : option ChainHeader) : Iter := start_chain_header.

Definition has_type (t : EntryType.t) (h : ChainHeader) : bool :=
  bool_decide (h_entry_type h = t).

(** [ChainStore::iter_type]. *)
Definition iter_type (c : C) (start_chain_header : option ChainHeader) (t : EntryType.t) :
    outcome Iter :=
  find (budget c) c h_link (has_type t) (iter start_chain_header).

(** ** Queries *)
Record ChainStoreQueryOptions := MkQueryOptions {
  qo_start : N;
  qo_limit : N;
  qo_headers : bool;
}.

Inductive ChainStoreQueryResult :=
| QrAddresses (l : list Address)
| QrHeaders (l : list ChainHeader).

Definition GLOB_CHARS : string := "./*[]{}"%string.

(** Some character of the name is one of these. *)
Definition is_glob_str (s : string) : bool := matches_class GLOB_CHARS s.

(** The [if headers] at the end of each branch of [query]. *)
Definition query_result (headers : bool) (l : list ChainHeader) : ChainStoreQueryResult :=
  if headers then QrHeaders l else QrAddresses (h_entry_address <$> l).

Context `{!GlobSet}.

Definition compile_globs (names : list string) : result RibosomeErrorCode (string → bool) :=
  globs ← collect_results (λ name, ok_or (glob_build name) UnknownEntryType) names;
  ok_or (globset_build globs) UnknownEntryType.

(** [ChainStore::query]. *)
Definition query (c : C) (start_chain_header : option ChainHeader)
    (entry_type_names : list string) (options : ChainStoreQueryOptions) :
    outcome (result RibosomeErrorCode ChainStoreQueryResult) :=
  let limit := if decide (qo_limit options = 0) then USIZE_MAX else qo_limit options in
  let run link p it :=
    l ← collect (budget c) c link p (qo_start options) limit it;
    Done (Ok (query_result (qo_headers options) l)) in
  let globbed rest :=
    match compile_globs rest with
    | Err e => Done (Err e)
    | Ok matcher =>
        run h_link (λ h, matcher (EntryType.to_string (h_entry_type h)))
          (iter start_chain_header)
    end in
  match entry_type_names with
  | [] => run h_link (λ _, true) (iter start_chain_header)
  | [one] =>
      if decide (one = ""%string ∨ one = "**"%string) then
        run h_link (λ _, true) (iter start_chain_header)
      else if is_glob_str one then globbed [one]
      else
        it ← iter_type c start_chain_header (EntryType.from_str one);
        run h_link_same_type (λ _, true) it
  | rest => globbed rest
  end.
End store.

(** ** The agent's state slice *)
Inductive ActionResponse :=
| RespCommit (r : HcResult Address)
| RespFetchEntry (e : option Entry.t)
| RespGetLinks (r : HcResult (list Address))
| RespLinkEntries (r : HcResult Entry.t).

Record AgentState := MkAgentState {
  a_actions : gmap nat ActionResponse;
  chain_loc : nat;
  top_chain_header : option ChainHeader;
  initial_agent_address : Address;
}.

Definition agent_new (l : nat) (initial : Address) : AgentState :=
  MkAgentState ∅ l None initial.

Definition new_with_top_chain_header (l : nat) (h : option ChainHeader) (initial : Address) :
    AgentState := MkAgentState ∅ l h initial.

Record AgentStateSnapshot := MkAgentSnapshot { snap_top_chain_header : option ChainHeader }.

Definition agent_snapshot (s : AgentState) : AgentStateSnapshot :=
  MkAgentSnapshot (top_chain_header s).

Section agent.
Context {wire : Wire} {Json : Type}.
Context {C : Type} `{!ContentAddressableStorage C}.
Context {S : Type} `{!EavStorage S}.
Context (clock : nat → Z).
(** The conductor's signing service: its answer to a payload at a moment. *)
Context (sign : nat → string → HcResult string).
(** The text of a time stamp in seconds ([chrono]). *)
Context (iso8601 : Z → string).
Abbreviation World := (@World C S).
Abbreviation M := (stateful World HolochainError).

(** A query of the storages, which may panic. *)
Definition asking {A} (f : World → outcome (HcResult A)) : M A := λ w,
  r ← f w; Done (w, r).

(** The content storage of the chain. *)
Definition chain_cas (s : AgentState) (w : World) : C := w_cas w (chain_loc s).

(** [iter_type(..).nth(0)]. *)
Definition first_of_type (s : AgentState) (w : World) (t : EntryType.t) :
    outcome (option ChainHeader) :=
  it ← iter_type (chain_cas s w) (top_chain_header s) t;
  '(h, _) ← next (chain_cas s w) h_link_same_type it;
  Done h.

(** [AgentState::get_agent_address]. *)
Definition get_agent_address (s : AgentState) (w : World) : outcome (HcResult Address) :=
  h ← first_of_type s w EntryType.AgentId;
  Done (ok_or
    match h_entry_address <$> h with
    | Some a => Some a
    | None => Some (initial_agent_address s)
    end
    (ErrorGeneric "Agent entry not found")).

(** [AgentState::get_agent]. *)
Definition get_agent (s : AgentState) (w : World) : outcome (HcResult AgentId) :=
  r ← get_agent_address s w;
  match r with
  | Err e => Done (Err e)
  | Ok a =>
      match (maybe ← cas_fetch (chain_cas s w) a;
             json ← ok_or maybe (ErrorGeneric "Agent entry not found");
             entry_from_json json) with
      | Err e => Done (Err e)
      | Ok (Entry.AgentId agent_id) => Done (Ok agent_id)
      | Ok _ => Panicked "unreachable"
      end
  end.

(** [AgentState::get_most_recent_header_for_entry]. *)
Definition get_most_recent_header_for_entry (s : AgentState) (w : World) (e : Entry.t) :
    outcome (option ChainHeader) :=
  it ← iter_type (chain_cas s w) (top_chain_header s) (Entry.entry_type e);
  find (budget (chain_cas s w)) (chain_cas s w) h_link_same_type
    (λ h, bool_decide (h_entry_address h = address e)) it.

(** [find_chain_header]. *)
Definition find_chain_header (s : AgentState) (w : World) (e : Entry.t) :
    outcome (option ChainHeader) :=
  find (budget (chain_cas s w)) (chain_cas s w) h_link
    (λ h, bool_decide (h_entry_address h = address e)) (top_chain_header s).

(** [get_entry_from_agent_chain] and [get_entry_from_agent]. *)
Definition get_entry_from_agent_chain (s : AgentState) (w : World) (a : Address) :
    outcome (HcResult (option Entry.t)) :=
  maybe_header ← find (budget (chain_cas s w)) (chain_cas s w) h_link
    (λ h, bool_decide (h_entry_address h = a)) (top_chain_header s);
  match maybe_header with
  | None => Done (Ok None)
  | Some _ => Done (get_entry_from_cas (chain_cas s w) a)
  end.

Definition get_entry_from_agent (s : AgentState) (w : World) (a : Address) :
    HcResult (option Entry.t) :=
  get_entry_from_cas (chain_cas s w) a.

(** [SystemTime::now().duration_since(UNIX_EPOCH).expect(..).as_secs()]: the
    clock counts nanoseconds. *)
Definition seconds_since_epoch : M Z :=
  t ← now clock;
  if decide (t < 0)%Z then panic "System time must not be before UNIX EPOCH"
  else mret (t `div` 1000000000)%Z.

Definition create_new_chain_header (entry : Entry.t) (s : AgentState)
    (crud_link : option Address) (provenances : list Provenance) : M ChainHeader :=
  agent_address ← asking (get_agent_address s);
  signature ← asking (λ w, Done (sign (w_ticks w) (address entry)));
  secs ← seconds_since_epoch;
  same_type ← asking (λ w, h ← first_of_type s w (Entry.entry_type entry); Done (Ok h));
  mret {|
    h_entry_type := Entry.entry_type entry;
    h_entry_address := address entry;
    h_provenances := provenances ++ [MkProvenance agent_address signature];
    h_link := address <$> top_chain_header s;
    h_link_same_type := address <$> same_type;
    h_link_update_delete := crud_link;
    h_timestamp := iso8601 secs;
  |}.

Definition store_header (s : AgentState) (entry : Entry.t) (h : ChainHeader) : M ChainHeader :=
  cas_write (chain_loc s) entry ;;
  cas_write (chain_loc s) h ;;
  mret h.

(** [reduce_commit_entry]: a header that could not be stored does not become the
    top, but what was written stays. *)
Definition reduce_commit_entry (s : AgentState) (id : nat) (entry : Entry.t)
    (crud_link : option Address) (provenances : list Provenance) (w : World) :
    outcome (World * AgentState) :=
  '(w', r) ← (h ← create_new_chain_header entry s crud_link provenances;
              store_header s entry h) w;
  Done (w', MkAgentState
    (<[id := RespCommit ((λ _, address entry) <$> r)]> (a_actions s)) (chain_loc s)
    match r with Ok h => Some h | Err _ => top_chain_header s end
    (initial_agent_address s)).

(** [agent::state::reduce]. *)
Definition agent_reduce (s : AgentState) (aw : ActionWrapper Json) (w : World) :
    outcome (World * AgentState) :=
  match aw_action aw with
  | ACommit entry crud_link provenances =>
      reduce_commit_entry s (aw_id aw) entry crud_link provenances w
  | _ => Done (w, s)
  end.
End agent.
