(* ===== verification/ChainFacts.v ===== *)
(** * Properties of the source chain

    The chain a storage holds as a list of headers, that the iterators walk
    exactly this list (and the type iterator its sublist of one type), that a
    commit puts one header on top and leaves the rest, and what the queries and
    lookups return. *)
From stdpp Require Import functions.
From S2P Require Import Prelude Errors Strings Eav Entries Cas Protocol Actions Dht Chain.

Create HintDb chain.

(** ** Iterators over a storage *)
Section store.
Context {wire : Wire}.
Context {C : Type} `{!ContentAddressableStorage C}.
Implicit Types (c : C) (h : ChainHeader) (l : list ChainHeader)
  (link : ChainHeader → option Address) (p : ChainHeader → bool).

(** The headers an iterator goes through, in order. *)
Inductive path c link : list ChainHeader → Prop :=
| path_nil : path c link []
| path_cons h l : follow c link h = Done (head l) → path c link l → path c link (h :: l).

#[local] Hint Constructors path : chain.

Lemma path_unique c link l1 l2 :
  path c link l1 → path c link l2 → head l1 = head l2 → l1 = l2.
Proof.
  intros H1. revert l2. induction H1 as [|h l Hf Hp IH]; intros l2 H2 Hh.
  - by destruct l2.
  - destruct H2 as [|h2 l2 Hf2 Hp2]; simplify_eq/=. f_equal. apply IH; [done|].
    rewrite Hf in Hf2. by injection Hf2.
Qed.

Lemma path_suffix c link l1 l2 : path c link (l1 ++ l2) → path c link l2.
Proof.
  induction l1 as [|h l1 IH]; [done|]. simpl. inversion 1; simplify_eq. by apply IH.
Qed.

(** A walk that ends does not meet a header twice. *)
Lemma path_NoDup c link l : path c link l → NoDup l.
Proof.
  induction 1 as [|h l Hf Hp IH]; constructor; [|done]. intros Hin.
  apply list_elem_of_split in Hin as (l1 & l2 & ->).
  assert (h :: l1 ++ h :: l2 = h :: l2) as Heq.
  { eapply path_unique; [by constructor|by eapply path_suffix|done]. }
  apply (f_equal length) in Heq. rewrite !length_cons, length_app in Heq.
  rewrite length_cons in Heq. lia.
Qed.

Lemma find_path c link p l steps :
  path c link l → (length l < steps)%nat →
  find steps c link p (head l) = Done (List.find p l).
Proof.
  intros Hp. revert steps. induction Hp as [|h l Hf Hp IH]; intros [|steps] Hs;
    simpl in *; try lia; [done|].
  rewrite Hf. simpl. destruct (p h); [done|]. apply IH. lia.
Qed.

Lemma collect_path c link p l steps start limit :
  path c link l → (length l < steps)%nat →
  collect steps c link p start limit (head l) =
  Done (take (N.to_nat limit) (drop (N.to_nat start) (List.filter p l))).
Proof.
  intros Hp. revert steps start limit.
  induction Hp as [|h l Hf Hp IH]; intros [|steps] start limit Hs; try (simpl in Hs; lia);
    cbn [collect]; case_decide; simplify_eq; try done.
  - cbn. by rewrite drop_nil, take_nil.
  - cbn [next head]. rewrite Hf. cbn [mbind outcome_bind List.filter].
    simpl in Hs. destruct (p h); [|apply IH; lia]. case_decide as Hst.
    + subst. rewrite IH by lia. simpl.
      replace (N.to_nat limit) with (Datatypes.S (N.to_nat (limit - 1))) by lia. done.
    + rewrite IH by lia.
      by replace (N.to_nat start) with (Datatypes.S (N.to_nat (start - 1))) by lia.
Qed.

Lemma last_of_path c link l steps seen :
  path c link l → (length l < steps)%nat →
  last_of steps c link seen (head l) = Done match last l with Some h => Some h | None => seen end.
Proof.
  intros Hp. revert steps seen. induction Hp as [|h l Hf Hp IH]; intros [|steps] seen Hs;
    try (simpl in Hs; lia); [done|].
  cbn [last_of next head]. rewrite Hf. cbn [mbind outcome_bind]. simpl in Hs.
  rewrite IH by lia. rewrite last_cons. by destruct (last l).
Qed.

(** ** The chain of a storage *)

Definition header_stored c h : Prop := cas_map c !! address h = Some (content h).

Lemma header_stored_inj c h1 h2 : header_stored c h1 → header_stored c h2 → address h1 = address h2 → h1 = h2.
Proof.
  unfold header_stored. intros H1 H2 Ha. rewrite Ha, H2 in H1.
  apply Some_inj in H1. simpl in H1.
  pose proof (header_json_roundtrip h1) as R1. rewrite <-H1, header_json_roundtrip in R1.
  by simplify_eq.
Qed.

Lemma follow_stored c link h h' :
  link h = Some (address h') → header_stored c h' → follow c link h = Done (Some h').
Proof.
  intros Hl Hs. unfold follow. rewrite Hl, cas_fetch_spec.
  unfold header_stored in Hs. simpl in *. by rewrite Hs, header_json_roundtrip.
Qed.

Lemma follow_none c link h : link h = None → follow c link h = Done None.
Proof. intros Hl. unfold follow. by rewrite Hl. Qed.

(** [l], newest first, is the chain in [c] under its first header: each header
    is stored, names the one below, and names the nearest one below of its own
    type. *)
Inductive linked c : list ChainHeader → Prop :=
| linked_nil : linked c []
| linked_cons h l :
    linked c l → header_stored c h →
    h_link h = address <$> head l →
    h_link_same_type h = address <$> List.find (has_type (h_entry_type h)) l →
    linked c (h :: l).

Lemma linked_stored c l h : linked c l → h ∈ l → header_stored c h.
Proof. induction 1; intros Hin; apply elem_of_cons in Hin || inversion Hin; naive_solver. Qed.

Lemma follow_opt c link h o :
  link h = address <$> o → (∀ h', o = Some h' → header_stored c h') → follow c link h = Done o.
Proof.
  intros Hl Ho. destruct o as [h'|]; [by apply follow_stored; [|apply Ho]|by apply follow_none].
Qed.

Lemma linked_path c l : linked c l → path c h_link l.
Proof.
  induction 1 as [|h l Hl IH Hs H1 H2]; constructor; [|done].
  apply follow_opt; [done|]. intros h' Hh. eapply linked_stored; [done|].
  by apply head_Some_elem_of.
Qed.

Lemma find_head_filter p l : List.find p l = head (List.filter p l).
Proof. induction l as [|h l IH]; simpl; [done|]. by destruct (p h). Qed.

Lemma linked_type_path c l t :
  linked c l → path c h_link_same_type (List.filter (has_type t) l).
Proof.
  induction 1 as [|h l Hl IH Hs H1 H2]; simpl; [constructor|].
  unfold has_type at 1. case_bool_decide as Ht; [|done]. constructor; [|done].
  rewrite <-find_head_filter, <-Ht. apply follow_opt; [done|].
  intros h' Hf. apply List.find_some in Hf as [Hin _]. eapply linked_stored; [done|].
  by apply list_elem_of_In.
Qed.

(** The steps given to the consumers are enough. *)
Lemma linked_budget c l : linked c l → (length l < budget c)%nat.
Proof.
  intros Hl. unfold budget.
  enough (length l ≤ size (dom (cas_map c)))%nat as H by (rewrite size_dom in H; lia).
  rewrite <-(length_fmap (address (A := ChainHeader)) l).
  rewrite <-(size_list_to_set (C := gset Address)).
  - apply subseteq_size. intros a Ha. apply elem_of_list_to_set in Ha.
    apply list_elem_of_fmap in Ha as (h & -> & Hin). apply elem_of_dom.
    exists (content h). by eapply linked_stored.
  - apply NoDup_fmap_2_strong; [|by eapply path_NoDup, linked_path].
    intros h1 h2 H1 H2 Heq. eapply header_stored_inj; [..|done]; by eapply linked_stored.
Qed.

(** Contents that stay keep the chain. *)
Lemma linked_mono c c' l :
  cas_map c ⊆ cas_map c' → linked c l → linked c' l.
Proof.
  intros Hc. induction 1 as [|h l Hl IH Hs H1 H2]; constructor; try done.
  unfold header_stored in *. by eapply lookup_weaken.
Qed.

Lemma iter_type_linked c l t :
  linked c l → iter_type c (head l) t = Done (head (List.filter (has_type t) l)).
Proof.
  intros Hl. unfold iter_type, iter. rewrite <-find_head_filter. apply find_path.
  - by apply linked_path.
  - by apply linked_budget.
Qed.

Lemma collect_linked c l p start limit :
  linked c l →
  collect (budget c) c h_link p start limit (head l) =
  Done (take (N.to_nat limit) (drop (N.to_nat start) (List.filter p l))).
Proof. intros. by apply collect_path; [apply linked_path|apply linked_budget]. Qed.

Lemma filter_true l : List.filter (λ _, true) l = l.
Proof. induction l as [|h l IH]; simpl; [done|]. by rewrite IH. Qed.

Lemma collect_linked_type c l t start limit :
  linked c l →
  collect (budget c) c h_link_same_type (λ _, true) start limit
    (head (List.filter (has_type t) l)) =
  Done (take (N.to_nat limit) (drop (N.to_nat start) (List.filter (has_type t) l))).
Proof.
  intros Hl. rewrite collect_path.
  - by rewrite filter_true.
  - by apply linked_type_path.
  - pose proof (linked_budget _ _ Hl). pose proof (List.filter_length_le (has_type t) l). lia.
Qed.

(** ** Iterators that never end *)
Inductive visits c link p : option ChainHeader → list ChainHeader → option ChainHeader → Prop :=
| visits_nil it : visits c link p it [] it
| visits_cons h it hs it' :
    p h = false → follow c link h = Done it → visits c link p it hs it' →
    visits c link p (Some h) (h :: hs) it'.

#[local] Hint Constructors visits : chain.

Lemma visits_app c link p l1 l2 it it' :
  visits c link p it (l1 ++ l2) it' ↔
  ∃ m, visits c link p it l1 m ∧ visits c link p m l2 it'.
Proof.
  revert it. induction l1 as [|h l1 IH]; intros it; simpl; split.
  - eauto with chain.
  - intros (m & H1 & H2). by inversion H1; simplify_eq.
  - inversion 1 as [|? m ? ? Hp Hf Hv]; simplify_eq. apply IH in Hv as (m' & H1 & H2).
    exists m'. eauto with chain.
  - intros (m & H1 & H2). inversion H1; simplify_eq. econstructor; [done..|].
    apply IH. eauto.
Qed.

Lemma visits_first c link p it h hs it' :
  visits c link p it (h :: hs) it' → it = Some h.
Proof. by inversion 1. Qed.

Lemma follow_not_diverges c link h : follow c link h ≠ diverges.
Proof. unfold follow. by repeat case_match. Qed.

Lemma find_some c link p steps h :
  find (S steps) c link p (Some h) =
  it ← follow c link h; if p h then Done (Some h) else find steps c link p it.
Proof. simpl. by destruct (follow c link h). Qed.

(** Out of steps: as many headers were visited, none of them wanted. *)
Lemma find_diverges c link p steps it :
  find steps c link p it = diverges ↔
  ∃ hs it', length hs = steps ∧ visits c link p it hs it'.
Proof.
  revert it. induction steps as [|steps IH]; intros it.
  - split; [|done]. intros _. exists [], it. eauto with chain.
  - destruct it as [h|].
    + rewrite find_some. destruct (follow c link h) as [it1|why] eqn:Hf; simpl.
      * destruct (p h) eqn:Hp.
        { split; [done|]. intros ([|] & it' & [=] & Hv). inversion Hv; congruence. }
        rewrite IH. split.
        -- intros (hs & it' & <- & Hv). exists (h :: hs), it'. eauto with chain.
        -- intros ([|h' hs] & it' & [= <-] & Hv).
           inversion Hv as [|? m ? ? _ Hf' ?]; simplify_eq.
           rewrite Hf in Hf'. simplify_eq. eauto.
      * split; [intros [= ->]; by apply follow_not_diverges in Hf|].
        intros ([|] & it' & [=] & Hv). inversion Hv; congruence.
    + split; [done|]. intros ([|] & it' & [=] & Hv). inversion Hv.
Qed.

Lemma not_NoDup (l : list ChainHeader) :
  ¬ NoDup l → ∃ x l1 l2 l3, l = l1 ++ x :: l2 ++ x :: l3.
Proof.
  induction l as [|h l IH]; intros Hn; [by destruct Hn; constructor|].
  destruct (decide (h ∈ l)) as [Hin|Hin].
  - apply list_elem_of_split in Hin as (l1 & l2 & ->). by exists h, [], l1, l2.
  - destruct IH as (x & l1 & l2 & l3 & ->); [intros H; apply Hn; by constructor|].
    by exists x, (h :: l1), l2, l3.
Qed.

(** The headers after the first one all come from the storage. *)
Lemma visits_loaded c link p h hs it' :
  visits c link p (Some h) (h :: hs) it' →
  hs ⊆ omap (λ x, ok (header_from_json x)) (map_to_list (cas_map c)).*2.
Proof.
  revert h. induction hs as [|h1 hs IH]; intros h Hv; [set_solver|].
  inversion Hv as [|? m ? ? Hp Hf Hv1]; simplify_eq. pose proof Hv1 as Hv2.
  apply visits_first in Hv1 as ->.
  intros x [->|Hx]%elem_of_cons; [|by eapply IH].
  unfold follow in Hf. destruct (link h) as [a|]; [|done]. rewrite cas_fetch_spec in Hf.
  destruct (cas_map c !! a) as [content|] eqn:Ha; [|done].
  destruct (header_from_json content) as [h'|] eqn:Hj; simplify_eq.
  apply list_elem_of_omap. exists content. split; [|by rewrite Hj].
  apply list_elem_of_fmap. exists (a, content). split; [done|]. by apply elem_of_map_to_list.
Qed.

Lemma visits_loop c link p h l n :
  l ≠ [] → visits c link p (Some h) l (Some h) →
  ∃ hs, (n ≤ length hs)%nat ∧ visits c link p (Some h) hs (Some h).
Proof.
  intros Hne Hv. induction n as [|n (hs & Hl & IH)]; [exists []; eauto with chain lia|].
  exists (l ++ hs). split; [|apply visits_app; eauto].
  rewrite length_app. destruct l; simpl; [done|lia].
Qed.

(** A walk longer than the storage is on a cycle, and goes on for ever. *)
Lemma visits_forever c link p it hs it' n :
  visits c link p it hs it' → (budget c ≤ length hs)%nat →
  ∃ hs' it'', length hs' = n ∧ visits c link p it hs' it''.
Proof.
  intros Hv Hl. destruct hs as [|h hs]; [unfold budget in Hl; simpl in Hl; lia|].
  destruct (not_NoDup hs) as (x & l1 & l2 & l3 & ->).
  { intros Hnd. pose proof (visits_first _ _ _ _ _ _ _ Hv) as ->.
    apply visits_loaded in Hv. apply NoDup_submseteq in Hv; [|done].
    apply submseteq_length in Hv.
    rewrite omap_length_le, length_fmap, length_map_to_list in Hv. unfold budget in Hl. simpl in Hl. lia. }
  rewrite app_comm_cons in Hv. apply visits_app in Hv as (m & H1 & Hv).
  pose proof (visits_first _ _ _ _ _ _ _ Hv) as ->.
  rewrite app_comm_cons in Hv. apply visits_app in Hv as (m' & H2 & Hv).
  apply visits_first in Hv as ->.
  destruct (visits_loop c link p x (x :: l2) n) as (loop & Hlen & H3); [done..|].
  assert (visits c link p it ((h :: l1) ++ loop) (Some x)) as H
    by (apply visits_app; eauto).
  rewrite <-(take_drop n ((h :: l1) ++ loop)) in H. apply visits_app in H as (m & H & _).
  eexists _, m. split; [|done]. rewrite length_take, length_app. lia.
Qed.

(** A search along the links of a storage returns (or panics) within
    two steps more than the storage holds contents, or never: the links then lead
    around a cycle without a match. *)
Theorem out_of_steps_never_returns c link p it :
  find (budget c) c link p it = diverges ↔ ∀ steps, find steps c link p it = diverges.
Proof.
  split; [|done]. rewrite find_diverges. intros (hs & it' & Hl & Hv) steps.
  apply find_diverges. eapply visits_forever; [done|lia].
Qed.
End store.

(** ** Queries *)
Section queries.
Context {wire : Wire} `{!GlobSet}.
Context {C : Type} `{!ContentAddressableStorage C}.
Implicit Types (c : C) (l : list ChainHeader).

(** Which headers a list of entry type names asks for. *)
Definition selected_by (names : list string) : result RibosomeErrorCode (ChainHeader → bool) :=
  let globbed := matcher ← compile_globs names;
                 Ok (λ h, matcher (EntryType.to_string (h_entry_type h))) in
  match names with
  | [] => Ok (λ _, true)
  | [one] =>
      if decide (one = "" ∨ one = "**") then Ok (λ _, true)
      else if is_glob_str one then globbed
      else Ok (has_type (EntryType.from_str one))
  | _ => globbed
  end.

(** The elements from position [start] on: all of them if [limit] is zero, at
    most [limit] otherwise. *)
Definition page {A} (start limit : N) (l : list A) : list A :=
  if decide (limit = 0%N) then drop (N.to_nat start) l
  else take (N.to_nat limit) (drop (N.to_nat start) l).

Lemma page_take {A} start limit (l : list A) :
  (N.of_nat (length l) ≤ USIZE_MAX)%N →
  take (N.to_nat (if decide (limit = 0%N) then USIZE_MAX else limit))
    (drop (N.to_nat start) l) = page start limit l.
Proof.
  intros Hl. unfold page. case_decide; [|done]. apply take_ge. rewrite length_drop. lia.
Qed.

Lemma collect_page c l p opts :
  linked c l → (N.of_nat (length l) ≤ USIZE_MAX)%N →
  collect (budget c) c h_link p (qo_start opts)
    (if decide (qo_limit opts = 0%N) then USIZE_MAX else qo_limit opts) (head l) =
  Done (page (qo_start opts) (qo_limit opts) (List.filter p l)).
Proof.
  intros Hl Hn. rewrite collect_linked, page_take; [done| |done].
  pose proof (List.filter_length_le p l). lia.
Qed.

Lemma collect_type_page c l t opts :
  linked c l → (N.of_nat (length l) ≤ USIZE_MAX)%N →
  collect (budget c) c h_link_same_type (λ _, true) (qo_start opts)
    (if decide (qo_limit opts = 0%N) then USIZE_MAX else qo_limit opts)
    (head (List.filter (has_type t) l)) =
  Done (page (qo_start opts) (qo_limit opts) (List.filter (has_type t) l)).
Proof.
  intros Hl Hn. rewrite collect_linked_type, page_take; [done| |done].
  pose proof (List.filter_length_le (has_type t) l). lia.
Qed.

Lemma glob_query c l names opts :
  linked c l → (N.of_nat (length l) ≤ USIZE_MAX)%N →
  match compile_globs names with
  | Err e => Done (Err e)
  | Ok matcher =>
      hs ← collect (budget c) c h_link
        (λ h, matcher (EntryType.to_string (h_entry_type h))) (qo_start opts)
        (if decide (qo_limit opts = 0%N) then USIZE_MAX else qo_limit opts) (head l);
      Done (Ok (query_result (qo_headers opts) hs))
  end =
  Done (p ← (matcher ← compile_globs names;
             Ok (λ h, matcher (EntryType.to_string (h_entry_type h))));
        Ok (query_result (qo_headers opts)
              (page (qo_start opts) (qo_limit opts) (List.filter p l)))).
Proof.
  intros Hl Hn. destruct (compile_globs names) as [m|e]; [|done]. by rewrite collect_page.
Qed.

(** C21: on a well-formed chain a query returns, and it returns the
    requested page of exactly the headers (or their entry addresses) that the
    entry type names select, newest first, whether it walks the whole chain or
    takes the shortcut through the links between entries of one type; a name that
    is not a valid pattern is the only error. *)
Theorem chain_query_spec c l names opts :
  linked c l → (N.of_nat (length l) ≤ USIZE_MAX)%N →
  query c (head l) names opts =
  Done (p ← selected_by names;
        Ok (query_result (qo_headers opts)
              (page (qo_start opts) (qo_limit opts) (List.filter p l)))).
Proof.
  intros Hl Hn. unfold query, selected_by, iter.
  destruct names as [|one [|two rest]]; [by rewrite collect_page| |by apply glob_query].
  case_decide; [by rewrite collect_page|]. destruct (is_glob_str one); [by apply glob_query|].
  rewrite iter_type_linked by done. cbn [mbind outcome_bind]. by rewrite collect_type_page.
Qed.
End queries.

(** ** The agent's chain *)
Section agent.
Context {wire : Wire} {Json : Type}.
Context {C : Type} `{!ContentAddressableStorage C}.
Context {S : Type} `{!EavStorage S}.
Context (clock : nat → Z) (sign : nat → string → HcResult string) (iso8601 : Z → string).
Abbreviation World := (@World C S).
Implicit Types (w : World) (s : AgentState) (l : list ChainHeader) (e : Entry.t).

(** The entry a header is about is stored, under the address and the type the
    header gives. *)
Definition entry_stored (c : C) (h : ChainHeader) : Prop :=
  ∃ e, cas_map c !! h_entry_address h = Some (content e) ∧
    address e = h_entry_address h ∧ Entry.entry_type e = h_entry_type h.

(** The invariant of the slice: the chain under its top header is [l]. *)
Definition chain_inv s w l : Prop :=
  linked (chain_cas s w) l ∧ top_chain_header s = head l ∧
  Forall (entry_stored (chain_cas s w)) l.

Lemma chain_inv_mono s s' w w' l :
  cas_map (chain_cas s w) ⊆ cas_map (chain_cas s' w') →
  top_chain_header s' = top_chain_header s → chain_inv s w l → chain_inv s' w' l.
Proof.
  intros Hc Ht (Hl & Htop & He). split_and!; [by eapply linked_mono|congruence|].
  eapply Forall_impl; [done|]. intros h (e & H1 & H2). exists e. split; [|done].
  by eapply lookup_weaken.
Qed.

Lemma first_of_type_spec s w l t :
  chain_inv s w l → first_of_type s w t = Done (List.find (has_type t) l).
Proof.
  intros (Hl & Htop & _). unfold first_of_type. rewrite Htop, iter_type_linked by done.
  rewrite find_head_filter. pose proof (linked_type_path _ _ t Hl) as Hp.
  destruct Hp as [|h r Hf Hp]; [done|]. cbn [head mbind outcome_bind next]. by rewrite Hf.
Qed.

Lemma agent_address_spec s w l :
  chain_inv s w l →
  get_agent_address s w =
  Done (Ok (default (initial_agent_address s)
              (h_entry_address <$> List.find (has_type EntryType.AgentId) l))).
Proof.
  intros H. unfold get_agent_address. erewrite first_of_type_spec by done.
  by destruct (List.find _ l).
Qed.

(** Content that a value may be stored as without replacing other content. *)
Definition no_collision {A} `{!AddressableContent A} (m : gmap Address Content) (x : A) : Prop :=
  ∀ y, m !! address x = Some y → y = content x.

Lemma insert_no_collision {A} `{!AddressableContent A} m (x : A) :
  no_collision m x → m ⊆ <[address x := content x]> m.
Proof.
  intros Hn. apply map_subseteq_spec. intros a y Ha.
  destruct (decide (address x = a)) as [<-|]; [|by rewrite lookup_insert_ne].
  rewrite lookup_insert_eq. f_equal. symmetry. by apply Hn.
Qed.

Lemma no_collision_insert {A} `{!AddressableContent A} m (x : A) :
  no_collision (<[address x := content x]> m) x.
Proof. intros y. rewrite lookup_insert_eq. congruence. Qed.

(** The header that a commit makes. *)
Definition new_header (agent sg : string) (t : Z) e crud provs l : ChainHeader :=
  MkHeader (Entry.entry_type e) (address e) (provs ++ [MkProvenance agent sg])
    (address <$> head l) (address <$> List.find (has_type (Entry.entry_type e)) l)
    crud (iso8601 (t `div` 1000000000)).

Definition agent_of s l : Address :=
  default (initial_agent_address s)
    (h_entry_address <$> List.find (has_type EntryType.AgentId) l).

Lemma create_header_spec e s crud provs w l :
  chain_inv s w l → 0 ≤ clock (w_ticks w) →
  create_new_chain_header clock sign iso8601 e s crud provs w =
  match sign (w_ticks w) (address e) with
  | Err err => Done (w, Err err)
  | Ok sg => Done (MkWorld (w_cas w) (w_meta w) (Datatypes.S (w_ticks w)),
      Ok (new_header (agent_of s l) sg (clock (w_ticks w)) e crud provs l))
  end.
Proof.
  intros H Ht. pose proof H as (_ & Htop & _).
  unfold create_new_chain_header.
  erewrite stateful_bind_eq by (unfold asking; by erewrite agent_address_spec).
  destruct (sign (w_ticks w) (address e)) as [sg|err] eqn:Hs.
  - erewrite stateful_bind_eq by (unfold asking; cbn [mbind outcome_bind]; by rewrite Hs).
    unfold seconds_since_epoch. erewrite stateful_bind_eq.
    2: { erewrite stateful_bind_eq by done. by rewrite decide_False by lia. }
    erewrite stateful_bind_eq.
    2: { unfold asking. by rewrite (first_of_type_spec _ _ l) by exact H. }
    unfold new_header. by rewrite Htop.
  - by erewrite stateful_bind_err by (unfold asking; cbn [mbind outcome_bind]; by rewrite Hs).
Qed.

Lemma cas_write_cases {A} `{!AddressableContent A} loc (x : A) w :
  (∃ w', cas_write loc x w = Done (w', Ok tt) ∧ w_meta w' = w_meta w ∧
     cas_map (w_cas w' loc) = <[address x := content x]> (cas_map (w_cas w loc))) ∨
  (∃ err, cas_write loc x w = Done (w, Err err) ∧ ∃ c a y, cas_add (C := C) c a y = Err err).
Proof.
  unfold cas_write, add_content.
  destruct (cas_add (w_cas w loc) (address x) (content x)) as [c|err] eqn:E; [left|right; eauto 10].
  eexists; split; [done|]. split; [done|]. cbn [set_cas w_cas]. rewrite fn_lookup_insert.
  by apply cas_add_spec.
Qed.

Lemma store_header_spec s e h w :
  let m := cas_map (chain_cas s w) in
  no_collision m e →
  ∃ w' r, store_header s e h w = Done (w', r) ∧ w_meta w' = w_meta w ∧
    match r with
    | Ok h' => h' = h ∧
        cas_map (chain_cas s w') = <[address h := content h]> (<[address e := content e]> m)
    | Err err => m ⊆ cas_map (chain_cas s w') ∧ no_collision (cas_map (chain_cas s w')) e ∧
        ∃ c a y, cas_add (C := C) c a y = Err err
    end.
Proof.
  intros m Hn. unfold store_header, chain_cas in *.
  destruct (cas_write_cases (chain_loc s) e w) as [(w1 & E1 & T1 & M1)|(err & E1 & X1)].
  2: { erewrite stateful_bind_err by done. by exists w, (Err err). }
  erewrite stateful_bind_eq by done.
  destruct (cas_write_cases (chain_loc s) h w1) as [(w2 & E2 & T2 & M2)|(err & E2 & X2)].
  - erewrite stateful_bind_eq by done. exists w2, (Ok h).
    split_and!; [done|by rewrite T2|done|by rewrite M2, M1].
  - erewrite stateful_bind_err by done. exists w1, (Err err). split_and!; [done|done| | |done].
    + rewrite M1. by apply insert_no_collision.
    + rewrite M1. by apply no_collision_insert.
Qed.

(** Neither the entry nor its header would replace other content. *)
Definition commit_fits s w l e crud provs : Prop :=
  no_collision (cas_map (chain_cas s w)) e ∧
  ∀ sg, sign (w_ticks w) (address e) = Ok sg →
    no_collision (<[address e := content e]> (cas_map (chain_cas s w)))
      (new_header (agent_of s l) sg (clock (w_ticks w)) e crud provs l).

Lemma chain_inv_push s s' w w' l e h :
  chain_inv s w l →
  cas_map (chain_cas s' w') =
    <[address h := content h]> (<[address e := content e]> (cas_map (chain_cas s w))) →
  no_collision (cas_map (chain_cas s w)) e →
  no_collision (<[address e := content e]> (cas_map (chain_cas s w))) h →
  top_chain_header s' = Some h →
  h_link h = address <$> head l →
  h_link_same_type h = address <$> List.find (has_type (h_entry_type h)) l →
  h_entry_address h = address e → h_entry_type h = Entry.entry_type e →
  chain_inv s' w' (h :: l).
Proof.
  intros (Hl & Htop & He) Hm N1 N2 Ht L1 L2 A1 T1.
  pose proof (insert_no_collision _ _ N1) as S1.
  pose proof (insert_no_collision _ _ N2) as S2. rewrite <-Hm in S2.
  assert (cas_map (chain_cas s w) ⊆ cas_map (chain_cas s' w')) as Hs by (by etrans).
  split_and!; [|done|].
  - constructor; [by eapply linked_mono| |done|done].
    unfold header_stored. rewrite Hm. by rewrite lookup_insert_eq.
  - constructor.
    + exists e. split_and!; [|done|done]. rewrite A1. eapply lookup_weaken; [|exact S2].
      by rewrite lookup_insert_eq.
    + eapply Forall_impl; [done|]. intros h' (e' & H1 & H2). exists e'. split; [|done].
      by eapply lookup_weaken.
Qed.

Lemma commit_entry_spec s w l id e crud provs :
  chain_inv s w l → 0 ≤ clock (w_ticks w) → commit_fits s w l e crud provs →
  ∃ w' s' r,
    reduce_commit_entry clock sign iso8601 s id e crud provs w = Done (w', s') ∧
    a_actions s' = <[id := RespCommit r]> (a_actions s) ∧
    chain_loc s' = chain_loc s ∧ w_meta w' = w_meta w ∧
    no_collision (cas_map (chain_cas s' w')) e ∧
    match r with
    | Ok a => a = address e ∧ ∃ sg, sign (w_ticks w) (address e) = Ok sg ∧
        chain_inv s' w' (new_header (agent_of s l) sg (clock (w_ticks w)) e crud provs l :: l)
    | Err err => chain_inv s' w' l ∧
        (sign (w_ticks w) (address e) = Err err ∨ ∃ c a y, cas_add (C := C) c a y = Err err)
    end.
Proof.
  intros H Ht [N1 N2]. unfold reduce_commit_entry.
  destruct (sign (w_ticks w) (address e)) as [sg|err] eqn:Hsg.
  - specialize (N2 sg eq_refl). erewrite stateful_bind_eq
      by (erewrite create_header_spec by done; by rewrite Hsg).
    set (h := new_header _ _ _ _ _ _ _) in *.
    set (w1 := MkWorld _ _ _).
    destruct (store_header_spec s e h w1 N1) as (w' & r & -> & Hw & Hr).
    cbn [mbind outcome_bind]. eexists w', _, ((λ _, address e) <$> r).
    do 4 (split; [done|]). destruct r as [h'|err]; cbn [fmap result_fmap].
    + destruct Hr as [-> Hm]. split; [|split; [done|exists sg; split; [done|by eapply chain_inv_push]]].
      intros y Hy. unfold chain_cas in Hy, Hm. cbn [chain_loc] in Hy. rewrite Hm in Hy.
      destruct (decide (address h = address e)) as [Heq|].
      * rewrite Heq, lookup_insert_eq in Hy. injection Hy as <-. symmetry. apply N2.
        by rewrite Heq, lookup_insert_eq.
      * rewrite lookup_insert_ne, lookup_insert_eq in Hy by done. by injection Hy.
    + destruct Hr as (Hm & Hn & Hx). split; [done|]. split; [by eapply chain_inv_mono|by right].
  - erewrite stateful_bind_err by (erewrite create_header_spec by done; by rewrite Hsg).
    cbn [mbind outcome_bind]. eexists w, _, (Err err). do 5 (split; [done|]).
    split; [by eapply chain_inv_mono|by left].
Qed.

(** committing an entry to a well-formed chain returns, and either
    puts exactly one header on top of the unchanged chain (with the entry's type
    and address, the addresses of the header below and of the nearest one of the
    same type, and the agent's signature over the entry's address as last
    provenance), stores the entry, and answers with its address; or, when signing
    or a storage fails, answers with that error and leaves the chain as it was. *)
Theorem commit_on_top s w l id e crud provs :
  chain_inv s w l → 0 ≤ clock (w_ticks w) → commit_fits s w l e crud provs →
  ∃ w' s' r,
    agent_reduce (Json := Json) clock sign iso8601 s
      (MkActionWrapper (ACommit e crud provs) id) w = Done (w', s') ∧
    a_actions s' = <[id := RespCommit r]> (a_actions s) ∧
    match r with
    | Ok a => a = address e ∧ ∃ sg, sign (w_ticks w) (address e) = Ok sg ∧
        chain_inv s' w' (new_header (agent_of s l) sg (clock (w_ticks w)) e crud provs l :: l)
    | Err err => chain_inv s' w' l ∧
        (sign (w_ticks w) (address e) = Err err ∨ ∃ c a y, cas_add (C := C) c a y = Err err)
    end.
Proof.
  intros H Ht Hf. destruct (commit_entry_spec s w l id e crud provs H Ht Hf)
    as (w' & s' & r & E & Ha & _ & _ & _ & Hr). by exists w', s', r.
Qed.

(** An action reduced by the slice, under a hash without collisions. *)
Inductive agent_step : World * AgentState → World * AgentState → Prop :=
| agent_step_intro (aw : ActionWrapper Json) w s w' s' :
    agent_reduce clock sign iso8601 s aw w = Done (w', s') →
    (∀ l e crud provs, chain_inv s w l → aw_action aw = ACommit e crud provs →
       commit_fits s w l e crud provs) →
    agent_step (w, s) (w', s').

(** The last provenance of a header signs the address of its entry. *)
Definition signed (h : ChainHeader) : Prop :=
  ∃ t a sg, last (h_provenances h) = Some (MkProvenance a sg) ∧
    sign t (h_entry_address h) = Ok sg.

Lemma agent_step_append w s w' s' l :
  (∀ n, 0 ≤ clock n) → chain_inv s w l → agent_step (w, s) (w', s') →
  ∃ new, chain_inv s' w' (new ++ l) ∧ Forall signed new.
Proof.
  intros Hc H Hs. inversion Hs as [aw ? ? ? ? E Hf]; simplify_eq.
  unfold agent_reduce in E. destruct (aw_action aw) as [e crud provs| | | | | | | | | | | |
    | | | | | | | | | | | | | | | | | |] eqn:Ha; try by (simplify_eq; exists []).
  destruct (commit_entry_spec s w l (aw_id aw) e crud provs H (Hc _) (Hf _ _ _ _ H eq_refl))
    as (w1 & s1 & r & E1 & _ & _ & _ & _ & Hr). rewrite E in E1. simplify_eq.
  destruct r as [a|err].
  - destruct Hr as (-> & sg & Hsg & Hi). eexists [_]. split; [done|].
    constructor; [|done]. eexists _, _, sg. split; [|done]. cbn [h_provenances new_header].
    by rewrite last_snoc.
  - exists []. split; [apply Hr|done].
Qed.

(** C20: the source chain is append-only: along any sequence of actions
    the chain stays well formed, every header that was on it stays in its place,
    and every header put on top carries a signature over its entry's address that
    the signing service gave. *)
Theorem chain_append_only w s w' s' l :
  (∀ n, 0 ≤ clock n) → chain_inv s w l → rtc agent_step (w, s) (w', s') →
  ∃ new, chain_inv s' w' (new ++ l) ∧ Forall signed new.
Proof.
  intros Hc H Hr. remember (w, s) as x eqn:Ex. remember (w', s') as y eqn:Ey.
  revert w s l Ex H. induction Hr as [|x [w1 s1] y Hs Hr IH]; intros w s l -> H; simplify_eq.
  - by exists [].
  - destruct (agent_step_append _ _ _ _ _ Hc H Hs) as (n1 & H1 & F1).
    destruct (IH eq_refl _ _ _ eq_refl H1) as (n2 & H2 & F2).
    exists (n2 ++ n1). rewrite <-app_assoc. split; [done|by apply Forall_app].
Qed.

(** ** Lookups *)
Lemma find_linked_top s w l p :
  chain_inv s w l →
  find (budget (chain_cas s w)) (chain_cas s w) h_link p (top_chain_header s) =
  Done (List.find p l).
Proof.
  intros (Hl & -> & _). by apply find_path; [apply linked_path|apply linked_budget].
Qed.

Lemma find_filter_type t p l h :
  List.find p l = Some h → h_entry_type h = t →
  (∀ h', h' ∈ l → p h' = true → h_entry_type h' = t) →
  List.find p (List.filter (has_type t) l) = Some h.
Proof.
  intros Hf Ht. induction l as [|h1 l IH]; intros Hall; [done|]. simpl in *.
  destruct (p h1) eqn:Hp.
  - simplify_eq. unfold has_type at 1. rewrite bool_decide_true by done. simpl. by rewrite Hp.
  - destruct (has_type t h1); simpl; rewrite ?Hp; apply IH; try done;
      intros h' ?; apply Hall; by right.
Qed.

(** Two entries stored at the same address are the same. *)
Lemma entry_content_inj (e1 e2 : Entry.t) : content e1 = content e2 → e1 = e2.
Proof.
  intros H. pose proof (entry_json_roundtrip e1) as R. simpl in H.
  rewrite H, entry_json_roundtrip in R. by simplify_eq.
Qed.

Lemma entry_type_of_stored c h e :
  entry_stored c h → cas_map c !! address e = Some (content e) →
  h_entry_address h = address e → h_entry_type h = Entry.entry_type e.
Proof.
  intros (e' & Hm & Ha & Ht) He Heq. rewrite Heq, He in Hm.
  apply Some_inj, entry_content_inj in Hm. by subst.
Qed.

Lemma recent_header_spec s w l e h :
  chain_inv s w l → cas_map (chain_cas s w) !! address e = Some (content e) →
  List.find (λ h, bool_decide (h_entry_address h = address e)) l = Some h →
  get_most_recent_header_for_entry s w e = Done (Some h).
Proof.
  intros (Hl & Htop & He) Hs Hf. rewrite Forall_forall in He.
  assert (∀ h', h' ∈ l → bool_decide (h_entry_address h' = address e) = true →
            h_entry_type h' = Entry.entry_type e) as Ht.
  { intros h' Hin Hb%bool_decide_eq_true. eapply entry_type_of_stored; eauto. }
  unfold get_most_recent_header_for_entry. rewrite Htop, iter_type_linked by done.
  cbn [mbind outcome_bind]. rewrite find_path.
  - f_equal. pose proof (List.find_some _ _ Hf) as [Hin%list_elem_of_In Hb].
    apply find_filter_type; eauto.
  - by apply linked_type_path.
  - pose proof (linked_budget _ _ Hl).
    pose proof (List.filter_length_le (has_type (Entry.entry_type e)) l). lia.
Qed.

(** looking an address up on a well-formed chain finds nothing when
    no header is about it, and otherwise the entry stored there; the newest
    header of that entry is found alike by walking the whole chain and by
    following the links between entries of its type. *)
Theorem chain_lookup_spec s w l a :
  chain_inv s w l →
  match List.find (λ h, bool_decide (h_entry_address h = a)) l with
  | None => get_entry_from_agent_chain s w a = Done (Ok None)
  | Some h => ∃ e,
      get_entry_from_agent_chain s w a = Done (Ok (Some e)) ∧
      address e = a ∧ Entry.entry_type e = h_entry_type h ∧
      find_chain_header s w e = Done (Some h) ∧
      get_most_recent_header_for_entry s w e = Done (Some h)
  end.
Proof.
  intros H. pose proof H as (_ & _ & He). rewrite Forall_forall in He.
  unfold get_entry_from_agent_chain, find_chain_header. rewrite (find_linked_top _ _ _ _ H).
  destruct (List.find _ l) as [h|] eqn:Hf; [|done].
  pose proof (List.find_some _ _ Hf) as [Hin%list_elem_of_In <-%bool_decide_eq_true].
  destruct (He _ Hin) as (e & Hm & Ha & Ht). exists e.
  assert (get_entry_from_cas (chain_cas s w) (h_entry_address h) = Ok (Some e)) as Hg.
  { unfold get_entry_from_cas. rewrite cas_fetch_spec, Hm. cbn. by rewrite entry_json_roundtrip. }
  rewrite Ha. split_and!; [by rewrite <-Hg|done|done| |].
  - by rewrite (find_linked_top _ _ _ _ H), Hf.
  - eapply recent_header_spec; [done| |]; by rewrite Ha.
Qed.

(** On a well-formed chain the agent is always found and no code
    declared unreachable is reached: it is the one of the newest agent entry on
    the chain, or, as long as there is none, the initial agent, if stored. *)
Theorem get_agent_spec s w l :
  chain_inv s w l →
  (List.find (has_type EntryType.AgentId) l = None → ∃ ag,
     agent_address ag = initial_agent_address s ∧
     cas_map (chain_cas s w) !! initial_agent_address s = Some (content (Entry.AgentId ag))) →
  ∃ ag, get_agent s w = Done (Ok ag) ∧ agent_address ag = agent_of s l.
Proof.
  intros H Hi. pose proof H as (_ & _ & He). rewrite Forall_forall in He.
  unfold get_agent, agent_of. erewrite agent_address_spec by done. cbn [mbind outcome_bind].
  destruct (List.find _ l) as [h|] eqn:Hf; cbn [fmap option_fmap option_map from_option id].
  - pose proof (List.find_some _ _ Hf) as [Hin%list_elem_of_In Ht%bool_decide_eq_true].
    destruct (He _ Hin) as (e & Hm & Ha & Het). rewrite Ht in Het.
    destruct e as [| |ag| | | | | | | |]; try done.
    exists ag. rewrite cas_fetch_spec, Hm. cbn. by rewrite entry_json_roundtrip.
  - destruct (Hi eq_refl) as (ag & Ha & Hm). exists ag.
    rewrite cas_fetch_spec, Hm. cbn. by rewrite entry_json_roundtrip.
Qed.
End agent.

(** ** Instances at concrete inputs *)
Module Demo.
#[local] Existing Instance plain_wire.
Definition clock (n : nat) : Z := 1000000000 * Z.of_nat n.
Definition sign (n : nat) (p : string) : HcResult string := Ok ("signed " +:+ p).
Definition iso8601 (secs : Z) : string := pretty secs.
(** a matcher of exact names *)
#[local] Instance exact_names : GlobSet := {|
  Glob := string;
  glob_build name := if decide (name = "[") then None else Some name;
  globset_build names := Some (λ s, bool_decide (s ∈ names));
|}.

Definition agent : AgentId := MkAgentId "alice" "HcAlice".
Definition post : Entry.t := Entry.App "post" "hello".
Definition world : World :=
  MkWorld (λ _ : nat, MemoryStorage.new) EavMemoryStorage.new 0.
Definition slice : AgentState := agent_new 0 "HcAlice".

(** the agent's entry, a post, and another post *)
Definition header1 : ChainHeader :=
  MkHeader EntryType.AgentId "HcAlice" [MkProvenance "HcAlice" "s"] None None None "0".
Definition header2 : ChainHeader :=
  MkHeader (EntryType.App "post") (address post) [MkProvenance "HcAlice" "s"]
    (Some (address header1)) None None "1".
Definition header3 : ChainHeader :=
  MkHeader (EntryType.App "post") (address (Entry.App "post" "bye")) []
    (Some (address header2)) (Some (address header2)) None "2".
Definition headers : list ChainHeader := [header3; header2; header1].
Definition cas : MemoryStorage.t := MemoryStorage.Mk (list_to_map
  ([(address (Entry.AgentId agent), content (Entry.AgentId agent));
    (address post, content post);
    (address (Entry.App "post" "bye"), content (Entry.App "post" "bye"))] ++
   ((λ h, (address h, content h)) <$> headers))).
Definition used : World := MkWorld (λ _ : nat, cas) EavMemoryStorage.new 3.
Definition slice3 : AgentState := new_with_top_chain_header 0 (Some header3) "HcAlice".

Lemma headers_linked : linked cas headers.
Proof. repeat constructor; vm_compute; reflexivity. Qed.

Lemma slice3_ok : chain_inv slice3 used headers.
Proof.
  split; [exact headers_linked|]. split; [reflexivity|]. repeat constructor.
  - exists (Entry.App "post" "bye"). split_and!; vm_compute; reflexivity.
  - exists post. split_and!; vm_compute; reflexivity.
  - exists (Entry.AgentId agent). split_and!; vm_compute; reflexivity.
Qed.

Lemma slice3_fits :
  commit_fits clock sign iso8601 slice3 used headers (Entry.App "post" "again") None [].
Proof.
  split; [|intros sg [= <-]]; intros y Hy; vm_compute in Hy; discriminate Hy.
Qed.

Lemma clock_pos n : 0 ≤ clock n.
Proof. unfold clock. lia. Qed.

Lemma chain_query_spec_witness :
  query cas (Some header3) ["post"] (MkQueryOptions 1 0 true) = Done (Ok (QrHeaders [header2])).
Proof.
  refine (eq_trans (chain_query_spec cas headers ["post"] (MkQueryOptions 1 0 true) _ _) _).
  - exact headers_linked.
  - vm_compute. discriminate.
  - vm_compute. reflexivity.
Defined.

Lemma commit_on_top_witness :
  ∃ w' s' r, agent_reduce (Json := unit) clock sign iso8601 slice3
      (MkActionWrapper (ACommit (Entry.App "post" "again") None []) 9) used = Done (w', s') ∧
    a_actions s' = <[9%nat := RespCommit r]> ∅.
Proof.
  destruct (commit_on_top (Json := unit) clock sign iso8601 slice3 used headers 9
    (Entry.App "post" "again") None []) as (w' & s' & r & H1 & H2 & _).
  - exact slice3_ok.
  - exact (clock_pos _).
  - exact slice3_fits.
  - exists w', s', r. exact (conj H1 H2).
Defined.

Lemma slice3_chain l : chain_inv slice3 used l → l = headers.
Proof.
  intros (Hl & Ht & _). eapply path_unique; [by apply linked_path| |].
  - apply linked_path. exact headers_linked.
  - symmetry. exact Ht.
Qed.

Lemma chain_append_only_witness :
  ∃ w' s' new, rtc (agent_step (Json := unit) clock sign iso8601) (used, slice3) (w', s') ∧
    chain_inv s' w' (new ++ headers).
Proof.
  destruct (commit_entry_spec clock sign iso8601 slice3 used headers 9
    (Entry.App "post" "again") None [] slice3_ok (clock_pos _) slice3_fits)
    as (w' & s' & r & E & _).
  assert (rtc (agent_step (Json := unit) clock sign iso8601) (used, slice3) (w', s')) as Hrtc.
  { apply rtc_once.
    apply (agent_step_intro _ _ _ (MkActionWrapper (ACommit (Entry.App "post" "again") None []) 9)).
    - exact E.
    - intros l e crud provs ->%slice3_chain [= <- <- <-]. exact slice3_fits. }
  destruct (chain_append_only (Json := unit) clock sign iso8601 used slice3 w' s' headers)
    as (new & Hn & _).
  - exact clock_pos.
  - exact slice3_ok.
  - exact Hrtc.
  - exists w', s', new. exact (conj Hrtc Hn).
Defined.

Lemma chain_lookup_spec_witness :
  ∃ e, get_entry_from_agent_chain slice3 used (address post) = Done (Ok (Some e)) ∧
    find_chain_header slice3 used e = Done (Some header2).
Proof.
  destruct (chain_lookup_spec slice3 used headers (address post) slice3_ok)
    as (e & H1 & _ & _ & H2 & _).
  exists e. exact (conj H1 H2).
Defined.

Lemma get_agent_spec_witness :
  ∃ ag, get_agent slice3 used = Done (Ok ag) ∧ agent_address ag = "HcAlice".
Proof.
  destruct (get_agent_spec slice3 used headers slice3_ok) as (ag & H).
  - discriminate.
  - exists ag. exact H.
Defined.
End Demo.
