(* ===== verification/Network.v ===== *)
(** * The network slice

    [core/src/network/state.rs], the reducers of [core/src/network/reducers/],
    [entry_with_header.rs], and the futures of [core/src/network/actions/] that
    poll the slice.

    The connection to the network module ([P2pNetwork]: a channel to another
    thread) is an interface that says which messages were accepted; the
    conversions between payloads and [serde_json::Value] are another. *)
From S2P Require Import Prelude Errors Strings Eav Entries Cas Protocol Actions Dht Chain.

(** [P2pNetwork]: [net_sent] are the messages accepted so far, oldest first. *)
Class P2pNetwork (Json Net : Type) := {
  net_new : string → result string Net;
  net_send : Net → JsonProtocol Json → Net * result string unit;
  net_sent : Net → list (JsonProtocol Json);
  net_new_spec config n : net_new config = Ok n → net_sent n = [];
  net_send_spec n m :
    net_sent (net_send n m).1 =
    match (net_send n m).2 with Ok _ => net_sent n ++ [m] | Err _ => net_sent n end;
}.

(** [serde_json] on the payloads of messages. *)
Class JsonPayloads (Json : Type) := {
  json_of_message : DirectMessage → Json;
  message_of_json : Json → option DirectMessage;
  json_of_ewh : EntryWithHeader → Json;
  ewh_of_json : Json → option EntryWithHeader;
  json_of_fetched : option EntryWithMetaAndHeader → Json;
  fetched_of_json : Json → option (option EntryWithMetaAndHeader);
  json_of_addresses : list Address → Json;
  addresses_of_json : Json → option (list Address);
  debug_entry : Entry.t → string;
  message_json_roundtrip m : message_of_json (json_of_message m) = Some m;
  ewh_json_roundtrip e : ewh_of_json (json_of_ewh e) = Some e;
  fetched_json_roundtrip e : fetched_of_json (json_of_fetched e) = Some e;
  addresses_json_roundtrip l : addresses_of_json (json_of_addresses l) = Some l;
}.

(** ** State *)
Inductive NetworkResponse :=
| NrPublish (r : HcResult Address)
| NrRespondFetch (r : HcResult unit)
| NrRespondGetLinks (r : HcResult unit).

(** A request is pending ([None]) until it has a result. *)
Abbreviation Pending A := (option (HcResult A)).

(** The unique id that only serves to compare states is left out. *)
Record NetworkState {Net : Type} := MkNetworkState {
  n_actions : gmap nat NetworkResponse;
  network : option Net;
  n_dna_address : option Address;
  n_agent_id : option string;
  get_entry_with_meta_results : gmap GetEntryKey (Pending (option EntryWithMetaAndHeader));
  get_links_results : gmap GetLinksKey (Pending (list Address));
  get_validation_package_results : gmap Address (Pending (option ValidationPackage));
  direct_message_connections : gmap string DirectMessage;
  custom_direct_message_replys : gmap string (HcResult string);
}.
Arguments NetworkState Net : clear implicits.

Definition network_new {Net} : NetworkState Net :=
  MkNetworkState _ ∅ None None None ∅ ∅ ∅ ∅ ∅.

Definition is_some {A} (o : option A) : bool :=
  match o with Some _ => true | None => false end.

(** [NetworkState::initialized]. *)
Definition initialized {Net} (s : NetworkState Net) : HcResult unit :=
  if is_some (network s) && is_some (n_dna_address s) && is_some (n_agent_id s)
  then Ok tt else Err (ErrorGeneric "Network not initialized").

(** Updates of one field. *)
Definition set_action {Net} (id : nat) (r : NetworkResponse) (s : NetworkState Net) :=
  MkNetworkState Net (<[id := r]> (n_actions s)) (network s) (n_dna_address s) (n_agent_id s)
    (get_entry_with_meta_results s) (get_links_results s) (get_validation_package_results s)
    (direct_message_connections s) (custom_direct_message_replys s).
Definition set_network {Net} (n : Net) (s : NetworkState Net) :=
  MkNetworkState Net (n_actions s) (Some n) (n_dna_address s) (n_agent_id s)
    (get_entry_with_meta_results s) (get_links_results s) (get_validation_package_results s)
    (direct_message_connections s) (custom_direct_message_replys s).
Definition set_entry_result {Net} k r (s : NetworkState Net) :=
  MkNetworkState Net (n_actions s) (network s) (n_dna_address s) (n_agent_id s)
    (<[k := r]> (get_entry_with_meta_results s)) (get_links_results s)
    (get_validation_package_results s)
    (direct_message_connections s) (custom_direct_message_replys s).
Definition set_links_result {Net} k r (s : NetworkState Net) :=
  MkNetworkState Net (n_actions s) (network s) (n_dna_address s) (n_agent_id s)
    (get_entry_with_meta_results s) (<[k := r]> (get_links_results s))
    (get_validation_package_results s)
    (direct_message_connections s) (custom_direct_message_replys s).
Definition set_package_result {Net} k r (s : NetworkState Net) :=
  MkNetworkState Net (n_actions s) (network s) (n_dna_address s) (n_agent_id s)
    (get_entry_with_meta_results s) (get_links_results s)
    (<[k := r]> (get_validation_package_results s))
    (direct_message_connections s) (custom_direct_message_replys s).
Definition set_connections {Net} (m : gmap string DirectMessage) (s : NetworkState Net) :=
  MkNetworkState Net (n_actions s) (network s) (n_dna_address s) (n_agent_id s)
    (get_entry_with_meta_results s) (get_links_results s) (get_validation_package_results s)
    m (custom_direct_message_replys s).
Definition set_reply {Net} (id : string) (r : HcResult string) (s : NetworkState Net) :=
  MkNetworkState Net (n_actions s) (network s) (n_dna_address s) (n_agent_id s)
    (get_entry_with_meta_results s) (get_links_results s) (get_validation_package_results s)
    (direct_message_connections s) (<[id := r]> (custom_direct_message_replys s)).

(** ** Reducers *)
Section reducers.
Context {wire : Wire} {Json : Type} {Net : Type}.
Context `{!JsonPayloads Json} `{!P2pNetwork Json Net}.
Abbreviation NetworkState := (NetworkState Net).
Abbreviation M := (stateful NetworkState HolochainError).

Definition unwrapped {A} (f : NetworkState → option A) : M A := λ s,
  match f s with
  | Some a => Done (s, Ok a)
  | None => Panicked "called Option::unwrap() on a None value"
  end.

Definition ensure_initialized : M unit := λ s, Done (s, initialized s).

(** [reducers::send]. *)
Definition send (m : JsonProtocol Json) : M unit := λ s,
  match network s with
  | None => Done (s, Err (ErrorGeneric "Network not initialized"))
  | Some n => let '(n', r) := net_send n m in Done (set_network n' s, map_err IoError r)
  end.

(** [send_message]; [id] is the fresh process-unique id. *)
Definition send_message (id : string) (to_agent_id : Address) (message : DirectMessage) :
    M unit :=
  dna_address ← unwrapped n_dna_address;
  from_agent_id ← unwrapped n_agent_id;
  send (SendMessage (MkMessageData dna_address id to_agent_id from_agent_id
          (json_of_message message))) ;;
  modify (λ s, set_connections (<[id := message]> (direct_message_connections s)) s).

(** The fields that identify this node in a message. *)
Definition my_ids : M (Address * string) :=
  dna_address ← unwrapped n_dna_address;
  agent_id ← unwrapped n_agent_id;
  mret (dna_address, agent_id).

(** Pending when the request went out, failed otherwise. *)
Definition request {A} (m : M unit) (set : Pending A → NetworkState → NetworkState) :
    NetworkState → outcome NetworkState := λ s,
  '(s', r) ← m s;
  Done (set match r with Ok _ => None | Err err => Some (Err err) end s').

Definition reduce_fetch_entry_inner (key : GetEntryKey) : M unit :=
  ensure_initialized ;;
  '(dna_address, agent_id) ← my_ids;
  send (FetchEntry (MkFetchEntryData dna_address (gek_id key) agent_id (gek_address key))).

Definition reduce_get_entry (key : GetEntryKey) : NetworkState → outcome NetworkState :=
  request (reduce_fetch_entry_inner key) (set_entry_result key).

Definition reduce_get_entry_timeout (key : GetEntryKey) (s : NetworkState) : NetworkState :=
  match get_entry_with_meta_results s !! key with
  | Some None => set_entry_result key (Some (Err Timeout)) s
  | _ => s
  end.

(** [None] travels as a star. *)
Definition star_of (o : option string) : string := default "*" o.
Definition of_star (s : string) : option string :=
  if decide (s = "*") then None else Some s.

Definition reduce_get_links_inner (key : GetLinksKey) : M unit :=
  ensure_initialized ;;
  '(dna_address, agent_id) ← my_ids;
  send (FetchMeta (MkFetchMetaData dna_address (glk_id key) agent_id (glk_base_address key)
          ("link__" +:+ star_of (glk_link_type key) +:+ "__" +:+ star_of (glk_tag key)))).

Definition reduce_get_links (key : GetLinksKey) : NetworkState → outcome NetworkState :=
  request (reduce_get_links_inner key) (set_links_result key).

Definition reduce_get_links_timeout (key : GetLinksKey) (s : NetworkState) : NetworkState :=
  match get_links_results s !! key with
  | Some None => set_links_result key (Some (Err Timeout)) s
  | _ => s
  end.

Definition get_validation_package_inner (id : string) (header : ChainHeader) : M unit :=
  ensure_initialized ;;
  provenance ← lift (ok_or (head (h_provenances header))
                       (ErrorGeneric "No source found in ChainHeader"));
  send_message id (source provenance) (DmRequestValidationPackage (h_entry_address header)).

Definition reduce_get_validation_package (id : string) (header : ChainHeader) :
    NetworkState → outcome NetworkState :=
  request (get_validation_package_inner id header)
    (set_package_result (h_entry_address header)).

Definition reduce_handle_custom_send_response (msg_id : string) (r : result string string) :
    NetworkState → NetworkState :=
  set_reply msg_id (map_err ErrorGeneric r).

Definition reduce_handle_get_links_result_inner (d : FetchMetaResultData Json) :
    M (list Address) :=
  ensure_initialized ;;
  match fmr_content_list d with
  | [content] => lift (ok_or (addresses_of_json content) (ErrorGeneric
      "Failed to deserialize Vec<Address> from HandleGetLinkResult DhtMetaData content"))
  | _ => panic "assertion failed: content_list.len() == 1"
  end.

Definition reduce_handle_get_links_result (d : FetchMetaResultData Json)
    (link_type tag : string) (s : NetworkState) : outcome NetworkState :=
  '(s', r) ← reduce_handle_get_links_result_inner d s;
  Done (set_links_result
    (MkGetLinksKey (fmr_entry_address d) (of_star link_type) (of_star tag) (fmr_request_id d))
    (Some r) s').

Definition reduce_handle_get_result_inner (d : FetchEntryResultData Json) :
    M (option EntryWithMetaAndHeader) :=
  ensure_initialized ;;
  lift (ok_or (fetched_of_json (fer_entry_content d)) (ErrorGeneric
    "Failed to deserialize EntryWithMeta from HandleFetchResult action argument")).

Definition reduce_handle_get_result (d : FetchEntryResultData Json) (s : NetworkState) :
    outcome NetworkState :=
  '(s', r) ← reduce_handle_get_result_inner d s;
  Done (set_entry_result (MkGetEntryKey (fer_entry_address d) (fer_request_id d)) (Some r) s').

Definition reduce_handle_get_validation_package (a : Address) (p : option ValidationPackage) :
    NetworkState → NetworkState :=
  set_package_result a (Some (Ok p)).

(** [reduce_init]: the slice is set up only when the first message went out. *)
Definition reduce_init (settings : NetworkSettings) (s : NetworkState) : outcome NetworkState :=
  match net_new (ns_p2p_config settings) with
  | Err e => Panicked e
  | Ok n =>
      let '(n', r) := net_send n
        (TrackDna (MkTrackDnaData (ns_dna_address settings) (ns_agent_id settings))) in
      Done match r with
           | Ok _ => MkNetworkState Net (n_actions s) (Some n') (Some (ns_dna_address settings))
               (Some (ns_agent_id settings))
               (get_entry_with_meta_results s) (get_links_results s)
               (get_validation_package_results s) (direct_message_connections s)
               (custom_direct_message_replys s)
           | Err _ => s
           end
  end.

Definition reduce_resolve_direct_connection (id : string) (s : NetworkState) : NetworkState :=
  set_connections (delete id (direct_message_connections s)) s.

(** The outcome of an inner reducer, recorded under the action. *)
Definition respond {A} (m : M unit) (id : nat) (a : A) (resp : HcResult A → NetworkResponse)
    (s : NetworkState) : outcome NetworkState :=
  '(s', r) ← m s;
  Done (set_action id (resp match r with
                            | Ok _ => Ok a
                            | Err e => Err (ErrorGeneric (HolochainError_fmt e))
                            end) s').

Definition reduce_respond_fetch_data_inner (d : FetchEntryData)
    (maybe_entry : option EntryWithMetaAndHeader) : M unit :=
  ensure_initialized ;;
  '(dna_address, agent_id) ← my_ids;
  send (HandleFetchEntryResult (MkFetchEntryResultData dna_address (fe_request_id d)
          (fe_requester_agent_id d) agent_id (fe_entry_address d)
          (json_of_fetched maybe_entry))).

Definition reduce_respond_fetch_data (id : nat) (d : FetchEntryData)
    (maybe_entry : option EntryWithMetaAndHeader) : NetworkState → outcome NetworkState :=
  respond (reduce_respond_fetch_data_inner d maybe_entry) id tt NrRespondFetch.

Definition reduce_respond_get_links_inner (d : FetchMetaData) (links : list Address) : M unit :=
  ensure_initialized ;;
  '(dna_address, agent_id) ← my_ids;
  send (HandleFetchMetaResult (MkFetchMetaResultData dna_address (fm_request_id d)
          (fm_requester_agent_id d) agent_id (fm_entry_address d) (fm_attribute d)
          [json_of_addresses links])).

Definition reduce_respond_get_links (id : nat) (d : FetchMetaData) (links : list Address) :
    NetworkState → outcome NetworkState :=
  respond (reduce_respond_get_links_inner d links) id tt NrRespondGetLinks.

Definition send_direct_message_inner (d : DirectMessageData) : M unit :=
  ensure_initialized ;;
  '(dna_address, agent_id) ← my_ids;
  let data := MkMessageData dna_address (dmd_msg_id d) (dmd_address d) agent_id
                (json_of_message (dmd_message d)) in
  if dmd_is_response d then send (HandleSendMessageResult data)
  else
    modify (λ s, set_connections
      (<[dmd_msg_id d := dmd_message d]> (direct_message_connections s)) s) ;;
    send (SendMessage data).

(** An error is only logged. *)
Definition reduce_send_direct_message (d : DirectMessageData) (s : NetworkState) :
    outcome NetworkState :=
  '(s', _) ← send_direct_message_inner d s; Done s'.

Definition reduce_send_direct_message_timeout (id : string) (s : NetworkState) : NetworkState :=
  match custom_direct_message_replys s !! id with
  | Some _ => s
  | None => set_reply id (Err Timeout) s
  end.

(** ** Publishing *)
Definition publish_entry (ewh : EntryWithHeader) : M unit :=
  '(dna_address, agent_id) ← my_ids;
  send (PublishEntry (MkEntryData dna_address agent_id (address (ewh_entry ewh))
          (json_of_ewh ewh))).

Definition publish_meta (entry_address : Address) (attribute : string) (ewh : EntryWithHeader) :
    M unit :=
  '(dna_address, agent_id) ← my_ids;
  send (PublishMeta (MkDhtMetaData dna_address agent_id entry_address attribute
          [json_of_ewh ewh])).

Definition publish_update_delete_meta (entry_address : Address) (crud_status : string)
    (ewh : EntryWithHeader) : M unit :=
  publish_meta entry_address crud_status ewh.

Definition publish_link_meta (ewh : EntryWithHeader) : M unit :=
  match ewh_entry ewh with
  | Entry.LinkAdd d => publish_meta (base (link d)) (Attribute_fmt LinkAttr) ewh
  | Entry.LinkRemove d => publish_meta (base (link d)) (Attribute_fmt LinkRemoveAttr) ewh
  | e => throw (ErrorGeneric
      ("Received bad entry type. Expected Entry::LinkAdd received " +:+ debug_entry e))
  end.

(** What follows once the entry was fetched with its header. *)
Definition publish_by_type (ewh : EntryWithHeader) : M unit :=
  match Entry.entry_type (ewh_entry ewh) with
  | EntryType.AgentId => publish_entry ewh
  | EntryType.App _ =>
      publish_entry ewh ;;
      match h_link_update_delete (ewh_header ewh) with
      | Some _ => publish_update_delete_meta (address (ewh_entry ewh))
                    (CrudStatus.to_string CrudStatus.Modified) ewh
      | None => mret tt
      end
  | EntryType.LinkAdd | EntryType.LinkRemove => publish_entry ewh ;; publish_link_meta ewh
  | EntryType.Deletion =>
      publish_entry ewh ;;
      publish_update_delete_meta (address (ewh_entry ewh))
        (CrudStatus.to_string CrudStatus.Deleted) ewh
  | _ => throw (NotImplemented "reduce_publish_inner")
  end.

Section root.
Context {C : Type} `{!ContentAddressableStorage C}.
Context {S : Type} `{!EavStorage S}.
Abbreviation World := (@World C S).
Implicit Types (agent : AgentState) (w : World).

Definition fetch_entry_from_cas agent w (a : Address) : HcResult Entry.t :=
  maybe ← cas_fetch (chain_cas agent w) a;
  json ← ok_or maybe (ErrorGeneric "Entry not found");
  entry_from_json json.

Definition fetch_entry_with_header agent w (a : Address) : outcome (HcResult EntryWithHeader) :=
  match fetch_entry_from_cas agent w a with
  | Err e => Done (Err e)
  | Ok entry =>
      h ← find_chain_header agent w entry;
      Done (h ← ok_or h (ErrorGeneric "No header found for entry");
            Ok (MkEntryWithHeader entry h))
  end.

(** The root state is read, the slice is not changed. *)
Definition fetching agent w (a : Address) : M EntryWithHeader := λ s,
  r ← fetch_entry_with_header agent w a; Done (s, r).

Definition reduce_publish_inner agent w (a : Address) : M unit :=
  ensure_initialized ;;
  ewh ← fetching agent w a;
  publish_by_type ewh.

Definition reduce_publish agent w (id : nat) (a : Address) :
    NetworkState → outcome NetworkState :=
  respond (reduce_publish_inner agent w a) id a NrPublish.

(** [resolve_reducer] and [reduce]; [agent] and the storages are those of the
    root state, [uid] the unique id drawn if one is needed. *)
Definition network_reduce agent w (uid : string) (aw : ActionWrapper Json) (s : NetworkState) :
    outcome NetworkState :=
  match aw_action aw with
  | AFetchEntry key => reduce_get_entry key s
  | AGetEntryTimeout key => Done (reduce_get_entry_timeout key s)
  | AGetLinks key => reduce_get_links key s
  | AGetLinksTimeout key => Done (reduce_get_links_timeout key s)
  | AGetValidationPackage header => reduce_get_validation_package uid header s
  | AHandleCustomSendResponse id r => Done (reduce_handle_custom_send_response id r s)
  | AHandleFetchResult d => reduce_handle_get_result d s
  | AHandleGetLinksResult d link_type tag => reduce_handle_get_links_result d link_type tag s
  | AHandleGetValidationPackage a p => Done (reduce_handle_get_validation_package a p s)
  | AInitNetwork settings => reduce_init settings s
  | APublish a => reduce_publish agent w (aw_id aw) a s
  | AResolveDirectConnection id => Done (reduce_resolve_direct_connection id s)
  | ARespondFetch d maybe_entry => reduce_respond_fetch_data (aw_id aw) d maybe_entry s
  | ARespondGetLinks d links => reduce_respond_get_links (aw_id aw) d links s
  | ASendDirectMessage d => reduce_send_direct_message d s
  | ASendDirectMessageTimeout id => Done (reduce_send_direct_message_timeout id s)
  | _ => Done s
  end.
End root.

(** ** Futures

    [poll] of the futures that wait for a result in the slice: ready with a
    result, or pending ([None]). *)
Definition ready_when {A} (s : NetworkState) (r : option (HcResult A)) : option (HcResult A) :=
  match initialized s with
  | Err e => Some (Err e)
  | Ok _ => r
  end.

Definition poll_get_entry (key : GetEntryKey) (s : NetworkState) :
    option (HcResult (option EntryWithMetaAndHeader)) :=
  ready_when s (get_entry_with_meta_results s !! key ≫= id).

Definition poll_get_links (key : GetLinksKey) (s : NetworkState) :
    option (HcResult (list Address)) :=
  ready_when s (get_links_results s !! key ≫= id).

Definition poll_get_validation_package (a : Address) (s : NetworkState) :
    option (HcResult (option ValidationPackage)) :=
  ready_when s (get_validation_package_results s !! a ≫= id).

Definition poll_send_response (id : string) (s : NetworkState) : option (HcResult string) :=
  match initialized s with
  | Err e => Some (Err (ErrorGeneric (HolochainError_fmt e)))
  | Ok _ => custom_direct_message_replys s !! id
  end.

Definition poll_publish (id : nat) (s : NetworkState) : option (HcResult Address) :=
  ready_when s
    match n_actions s !! id with
    | Some (NrPublish r) => Some r
    | _ => None
    end.
End reducers.
