(* ===== verification/Nucleus.v ===== *)
(** * The nucleus slice

    [core/src/nucleus/state.rs] and the reducers of
    [core/src/nucleus/reducers/]: the initialisation status of the instance, the
    results of zome calls and validations, and the validations that wait for
    dependencies. *)
From S2P Require Import Prelude Errors Strings Eav Entries Cas Protocol Actions.

Inductive NucleusStatus :=
| NsNew
| NsInitializing
| NsInitialized (init : Initialization)
| NsInitializationFailed (why : string).

#[global] Instance NucleusStatus_eq_dec : EqDecision NucleusStatus.
Proof. solve_decision. Defined.

(** [PendingValidationKey::new]. *)
Definition pending_validation_key (a : Address) (workflow : ValidatingWorkflow) : string :=
  ValidatingWorkflow_fmt workflow +:+ ":" +:+ a.

Record NucleusState := MkNucleusState {
  status : NucleusStatus;
  pending_validations : gmap string PendingValidation;
  dna : option Dna;
  zome_calls : gmap ZomeFnCall (option (HcResult string));
  validation_results : gmap (nat * Address) ValidationResult;
  validation_packages : gmap nat (HcResult ValidationPackage);
}.

Definition nucleus_new : NucleusState := MkNucleusState NsNew ∅ None ∅ ∅ ∅.

Definition zome_call_result (s : NucleusState) (call : ZomeFnCall) : option (HcResult string) :=
  zome_calls s !! call ≫= id.

Definition has_initialized (s : NucleusState) : bool :=
  match status s with NsInitialized _ => true | _ => false end.

Definition initialization (s : NucleusState) : option Initialization :=
  match status s with NsInitialized init => Some init | _ => None end.

Definition has_initialization_failed (s : NucleusState) : bool :=
  match status s with NsInitializationFailed _ => true | _ => false end.

(** ** Snapshots *)
Record NucleusStateSnapshot := MkNucleusSnapshot {
  snap_status : NucleusStatus;
  snap_pending_validations : gmap string PendingValidation;
}.

Definition nucleus_snapshot (s : NucleusState) : NucleusStateSnapshot :=
  MkNucleusSnapshot (status s) (pending_validations s).

Definition nucleus_of_snapshot (snap : NucleusStateSnapshot) : NucleusState :=
  MkNucleusState (snap_status snap) (snap_pending_validations snap) None ∅ ∅ ∅.

(** ** Reducers *)
Definition set_status (st : NucleusStatus) (s : NucleusState) : NucleusState :=
  MkNucleusState st (pending_validations s) (dna s) (zome_calls s) (validation_results s)
    (validation_packages s).

Definition set_pending (m : gmap string PendingValidation) (s : NucleusState) : NucleusState :=
  MkNucleusState (status s) m (dna s) (zome_calls s) (validation_results s)
    (validation_packages s).

Section reducers.
Context {wire : Wire} {Json : Type}.

Definition reduce_add_pending_validation (p : PendingValidation) (s : NucleusState) :
    NucleusState :=
  set_pending (<[pending_validation_key (address (ewh_entry (pv_entry_with_header p)))
                   (pv_workflow p) := p]> (pending_validations s)) s.

Definition reduce_remove_pending_validation (a : Address) (workflow : ValidatingWorkflow)
    (s : NucleusState) : NucleusState :=
  set_pending (delete (pending_validation_key a workflow) (pending_validations s)) s.

Definition reduce_initialize_chain (new_dna : Dna) (s : NucleusState) : NucleusState :=
  match status s with
  | NsInitializing => set_status (NsInitializationFailed "Nucleus already initializing") s
  | NsInitialized _ => set_status (NsInitializationFailed "Nucleus already initialized") s
  | NsNew | NsInitializationFailed _ =>
      MkNucleusState NsInitializing (pending_validations s) (Some new_dna) (zome_calls s)
        (validation_results s) (validation_packages s)
  end.

Definition reduce_return_initialization_result (r : result string Initialization)
    (s : NucleusState) : NucleusState :=
  if decide (status s ≠ NsInitializing) then
    set_status (NsInitializationFailed
      "reduce of ReturnInitializationResult attempted when status != Initializing") s
  else
    match r with
    | Ok init => set_status (NsInitialized init) s
    | Err err => set_status (NsInitializationFailed err) s
    end.

Definition reduce_return_zome_function_result (fr : ExecuteZomeFnResponse)
    (s : NucleusState) : NucleusState :=
  MkNucleusState (status s) (pending_validations s) (dna s)
    (<[ezr_call fr := Some (ezr_result fr)]> (zome_calls s)) (validation_results s)
    (validation_packages s).

Definition reduce_return_validation_result (key : nat * Address) (r : ValidationResult)
    (s : NucleusState) : NucleusState :=
  MkNucleusState (status s) (pending_validations s) (dna s) (zome_calls s)
    (<[key := r]> (validation_results s)) (validation_packages s).

Definition reduce_return_validation_package (id : nat) (r : HcResult ValidationPackage)
    (s : NucleusState) : NucleusState :=
  MkNucleusState (status s) (pending_validations s) (dna s) (zome_calls s)
    (validation_results s) (<[id := r]> (validation_packages s)).

(** [resolve_reducer] and [reduce]. *)
Definition nucleus_reduce (s : NucleusState) (aw : ActionWrapper Json) : NucleusState :=
  match aw_action aw with
  | AAddPendingValidation p => reduce_add_pending_validation p s
  | ARemovePendingValidation a workflow => reduce_remove_pending_validation a workflow s
  | AReturnInitializationResult r => reduce_return_initialization_result r s
  | AInitializeChain new_dna => reduce_initialize_chain new_dna s
  | AReturnZomeFunctionResult fr => reduce_return_zome_function_result fr s
  | AReturnValidationResult key r => reduce_return_validation_result key r s
  | AReturnValidationPackage id r => reduce_return_validation_package id r s
  | _ => s
  end.
End reducers.

(** ** Lemmas *)
Lemma pending_key_inj a1 a2 w1 w2 :
  pending_validation_key a1 w1 = pending_validation_key a2 w2 → a1 = a2 ∧ w1 = w2.
Proof.
  destruct w1, w2; unfold pending_validation_key; simpl; intros H; simplify_eq; done.
Qed.

Section facts.
Context {wire : Wire} {Json : Type}.
Implicit Types (s : NucleusState) (aw : ActionWrapper Json) (l : list (ActionWrapper Json)).

Definition nucleus_run (l : list (ActionWrapper Json)) (s : NucleusState) : NucleusState :=
  fold_left nucleus_reduce l s.

(** Whether an action belongs to the initialisation of the instance. *)
Definition init_action aw : bool :=
  match aw_action aw with
  | AInitializeChain _ | AReturnInitializationResult _ => true
  | _ => false
  end.

Lemma nucleus_reduce_other aw s :
  init_action aw = false →
  status (nucleus_reduce s aw) = status s ∧ dna (nucleus_reduce s aw) = dna s.
Proof. unfold init_action, nucleus_reduce. by destruct (aw_action aw). Qed.

Lemma nucleus_run_snoc l aw s : nucleus_run (l ++ [aw]) s = nucleus_reduce (nucleus_run l s) aw.
Proof. unfold nucleus_run. by rewrite fold_left_app. Qed.

(** While an initialisation is in progress, it was the last thing to be started. *)
Lemma initializing_trace l :
  status (nucleus_run l nucleus_new) = NsInitializing →
  ∃ l1 l2 d id, l = l1 ++ MkActionWrapper (AInitializeChain d) id :: l2 ∧
    forallb (λ aw, negb (init_action aw)) l2 = true ∧
    dna (nucleus_run l nucleus_new) = Some d.
Proof.
  induction l as [|aw l IH] using rev_ind; [done|]. rewrite nucleus_run_snoc.
  destruct (init_action aw) eqn:Ha.
  - intros Hs. destruct aw as [act id]. unfold init_action, nucleus_reduce in *. simpl in *.
    destruct act; try done.
    + exists l, [], dna0, id. split_and!; [done|done|].
      unfold reduce_initialize_chain in *.
      by destruct (status (nucleus_run l nucleus_new)); simplify_eq/=.
    + unfold reduce_return_initialization_result in Hs. by repeat case_match.
  - destruct (nucleus_reduce_other _ (nucleus_run l nucleus_new) Ha) as [-> ->].
    intros (l1 & l2 & d & id & -> & H2 & H3)%IH.
    exists l1, (l2 ++ [aw]), d, id. rewrite <-app_assoc. split_and!; [done| |done].
    by rewrite forallb_app, H2; simpl; rewrite Ha.
Qed.

(** an instance counts as initialized only when the last two actions of
    its initialisation were the start with the DNA it now has and, after it, the
    successful result it reports; nothing else of the initialisation happened in
    between or since. *)
Theorem initialized_trace l init :
  status (nucleus_run l nucleus_new) = NsInitialized init →
  ∃ l1 l2 l3 d id1 id2,
    l = l1 ++ MkActionWrapper (AInitializeChain d) id1 :: l2 ++
        MkActionWrapper (AReturnInitializationResult (Ok init)) id2 :: l3 ∧
    forallb (λ aw, negb (init_action aw)) (l2 ++ l3) = true ∧
    dna (nucleus_run l nucleus_new) = Some d.
Proof.
  induction l as [|aw l IH] using rev_ind; [done|]. rewrite nucleus_run_snoc.
  destruct (init_action aw) eqn:Ha.
  - intros Hs. destruct aw as [act id]. unfold init_action, nucleus_reduce in *. simpl in *.
    destruct act; try done.
    { unfold reduce_initialize_chain in Hs. by repeat case_match. }
    unfold reduce_return_initialization_result in *.
    case_decide as Hi; [done|].
    destruct (initializing_trace l Hi) as (l1 & l2 & d & id1 & -> & H2 & H3).
    destruct r as [init'|]; simplify_eq/=. exists l1, l2, [], d, id1, id.
    rewrite <-app_assoc. split_and!; [done|by rewrite app_nil_r|done].
  - destruct (nucleus_reduce_other _ (nucleus_run l nucleus_new) Ha) as [-> ->].
    intros (l1 & l2 & l3 & d & id1 & id2 & -> & H2 & H3)%IH.
    exists l1, l2, (l3 ++ [aw]), d, id1, id2. split_and!; [| |done].
    + rewrite <-app_assoc. simpl. by rewrite <-app_assoc.
    + by rewrite app_assoc, forallb_app, H2; simpl; rewrite Ha.
Qed.

(** The validation that waits for an entry in a workflow after some actions. *)
Fixpoint waiting (a : Address) (workflow : ValidatingWorkflow) (l : list (ActionWrapper Json)) :
    option PendingValidation :=
  match l with
  | [] => None
  | aw :: l =>
      (* [l] is in reverse order *)
      match aw_action aw with
      | AAddPendingValidation p =>
          if decide (address (ewh_entry (pv_entry_with_header p)) = a ∧ pv_workflow p = workflow)
          then Some p else waiting a workflow l
      | ARemovePendingValidation a' workflow' =>
          if decide (a' = a ∧ workflow' = workflow) then None else waiting a workflow l
      | _ => waiting a workflow l
      end
  end.

(** The pending validations are, for every entry and every workflow
    separately, what was added last and not removed since: the text used as key
    never mixes up two of them. *)
Theorem pending_validations_spec l a workflow :
  pending_validations (nucleus_run (rev l) nucleus_new) !! pending_validation_key a workflow =
  waiting a workflow l.
Proof.
  induction l as [|aw l IH]; [done|]. simpl. rewrite nucleus_run_snoc.
  unfold nucleus_reduce. destruct (aw_action aw); try exact IH.
  - unfold reduce_initialize_chain. destruct (status _); exact IH.
  - unfold reduce_return_initialization_result. repeat case_match; exact IH.
  - unfold reduce_add_pending_validation. cbn [set_pending pending_validations]. case_decide as Hd.
    + destruct Hd as [<- <-]. by rewrite lookup_insert_eq.
    + rewrite lookup_insert_ne; [done|]. intros H%pending_key_inj. by apply Hd.
  - unfold reduce_remove_pending_validation. cbn [set_pending pending_validations].
    case_decide as Hd.
    + destruct Hd as [<- <-]. by rewrite lookup_delete_eq.
    + rewrite lookup_delete_ne; [done|]. intros H%pending_key_inj. by apply Hd.
Qed.
End facts.

Module Demo.
#[local] Existing Instance plain_wire.
Definition init : Initialization := MkInitialization None (Some "welcome").
Definition actions : list (ActionWrapper unit) :=
  [MkActionWrapper (AReturnInitializationResult (Err "too early")) 0;
   MkActionWrapper (AInitializeChain dna_new) 1;
   MkActionWrapper (ARemovePendingValidation "a" WfHoldLink) 2;
   MkActionWrapper (AReturnInitializationResult (Ok init)) 3].

Lemma initialized_trace_witness :
  ∃ l1 l2 l3 d id1 id2,
    actions = l1 ++ MkActionWrapper (AInitializeChain d) id1 :: l2 ++
      MkActionWrapper (AReturnInitializationResult (Ok init)) id2 :: l3 ∧
    forallb (λ aw, negb (init_action aw)) (l2 ++ l3) = true ∧
    dna (nucleus_run actions nucleus_new) = Some d.
Proof. apply (initialized_trace actions init). reflexivity. Defined.
End Demo.
