(* ===== verification/State.v ===== *)
(** * The state of an instance

    [core/src/state.rs]: the four slices, the root reducer that hands every
    action to each of them, and restoring the state from its snapshots.  [Context]
    is what the operations here use of [core/src/context.rs]: the agent and the
    two content storages, by location (they may be the same one). *)
From S2P Require Import Prelude Errors Strings Eav Entries Cas Protocol Actions Dht Chain Network Nucleus.

Record Context := MkContext {
  ctx_agent_id : AgentId;
  ctx_chain_storage : nat;
  ctx_dht_storage : nat;
}.

Section state.
Context {wire : Wire} {Json : Type} {Net : Type}.
Context `{!JsonPayloads Json} `{!P2pNetwork Json Net}.
Context {C : Type} `{!ContentAddressableStorage C}.
Context {S : Type} `{!EavStorage S}.
Context (clock : nat → Z) (sign : nat → string → HcResult string) (iso8601 : Z → string).
Abbreviation World := (@World C S).

(** [history] is the set of the actions seen, by their unique id. *)
Record State := MkState {
  s_nucleus : NucleusState;
  s_agent : AgentState;
  s_dht : DhtStore;
  s_network : NetworkState Net;
  history : gset nat;
}.

(** [State::new]. *)
Definition state_new (ctx : Context) : State :=
  MkState nucleus_new
    (agent_new (ctx_chain_storage ctx) (agent_address (ctx_agent_id ctx)))
    (dht_new (ctx_dht_storage ctx)) network_new ∅.

(** [State::get_dna]: the oldest DNA entry of the chain, read from [cas]. *)
Definition get_dna (agent : AgentState) (w : World) (cas : nat) : outcome (HcResult Dna) :=
  it ← iter_type (chain_cas agent w) (top_chain_header agent) EntryType.Dna;
  h ← last_of (budget (chain_cas agent w)) (chain_cas agent w) h_link_same_type None it;
  Done (
    header ← ok_or h (ErrorGeneric
      "No DNA entry found in source chain while creating state from agent");
    json ← cas_fetch (w_cas w cas) (h_entry_address header);
    content ← ok_or json (ErrorGeneric
      "No DNA entry found in storage while creating state from agent");
    entry ← entry_from_json content;
    match entry with
    | Entry.Dna d => Ok d
    | _ => Err (SerializationError "Tried to get Dna from non-Dna Entry")
    end).

(** [State::new_with_agent_and_nucleus]. *)
Definition new_with_agent_and_nucleus (ctx : Context) (agent : AgentState)
    (nucleus : NucleusState) (w : World) : outcome State :=
  d ← get_dna agent w (ctx_dht_storage ctx);
  Done (MkState
    (MkNucleusState (status nucleus) (pending_validations nucleus) (ok d) (zome_calls nucleus)
       (validation_results nucleus) (validation_packages nucleus))
    agent (dht_new (ctx_dht_storage ctx)) network_new ∅).

(** [State::try_from_snapshots]. *)
Definition try_from_snapshots (ctx : Context) (agent_snap : AgentStateSnapshot)
    (nucleus_snap : NucleusStateSnapshot) (w : World) : outcome (HcResult State) :=
  s ← new_with_agent_and_nucleus ctx
    (new_with_top_chain_header (ctx_dht_storage ctx) (snap_top_chain_header agent_snap)
       (agent_address (ctx_agent_id ctx)))
    (nucleus_of_snapshot nucleus_snap) w;
  Done (Ok s).

(** [State::reduce]: the slices are reduced in the order of the fields, each
    seeing the old root state; the storages are shared. *)
Definition state_reduce (uid : string) (s : State) (aw : ActionWrapper Json) (w : World) :
    outcome (World * State) :=
  let nucleus' := nucleus_reduce (s_nucleus s) aw in
  '(w1, agent') ← agent_reduce clock sign iso8601 (s_agent s) aw w;
  '(w2, dht') ← Dht.reduce clock (s_dht s) aw w1;
  network' ← network_reduce (s_agent s) w2 uid aw (s_network s);
  Done (w2, MkState nucleus' agent' dht' network' ({[aw_id aw]} ∪ history s)).

(** [State::get_headers]: the headers of the entry on the agent's own chain,
    then those the DHT shard knows besides them. *)
Definition state_get_headers (s : State) (w : World) (entry_address : Address) :
    outcome (HcResult (list ChainHeader)) :=
  let c := chain_cas (s_agent s) w in
  headers ← collect (budget c) c h_link
    (λ h, bool_decide (h_entry_address h = entry_address)) 0 USIZE_MAX
    (top_chain_header (s_agent s));
  Done (
    eavis ← fetch_eavi (w_meta w) (meta_query entry_address EntryHeader);
    contents ← collect_results (λ a, cas_fetch (w_cas w (content_loc (s_dht s))) a)
      (List.filter (λ a, negb (bool_decide (a ∈ (address <$> headers)))) (value <$> eavis));
    dht_headers ← collect_results header_from_json (omap id contents);
    Ok (headers ++ dht_headers)).
End state.
Arguments State Net : clear implicits.
