(* ===== verification/NetworkFacts.v ===== *)
(** * Properties of the network slice

    Which actions can panic, what a request leaves behind until it is decided
    (and that it always is, once its timeout fired), that an answer reaches the
    request it belongs to, and which messages publishing an entry sends. *)
From S2P Require Import Prelude Errors Strings Eav Entries Cas Protocol Actions Dht Chain ChainFacts Network.

Create HintDb net.

Section facts.
Context {wire : Wire} {Json : Type} {Net : Type}.
Context `{!JsonPayloads Json} `{!P2pNetwork Json Net}.
Context {C : Type} `{!ContentAddressableStorage C}.
Context {S : Type} `{!EavStorage S}.
Abbreviation World := (@World C S).
Abbreviation NetworkState := (NetworkState Net).
Abbreviation M := (stateful NetworkState HolochainError).
Implicit Types (s : NetworkState) (agent : AgentState) (w : World)
  (aw : ActionWrapper Json).

(** ** What sending leaves alone *)

(** Everything but the connection itself and the open direct messages. *)
Definition rest s :=
  (n_actions s, is_some (network s), n_dna_address s, n_agent_id s,
   get_entry_with_meta_results s, get_links_results s, get_validation_package_results s,
   custom_direct_message_replys s).

Definition keeps {A} (m : M A) : Prop := ∀ s s' r, m s = Done (s', r) → rest s' = rest s.

Lemma keeps_bind {A B} (m : M A) (f : A → M B) :
  keeps m → (∀ a, keeps (f a)) → keeps (m ≫= f).
Proof.
  intros Hm Hf s s' r H. unfold mbind, stateful_bind in H.
  destruct (m s) as [[s1 [a|e]]|] eqn:E; [| |done].
  - rewrite (Hf _ _ _ _ H). by eapply Hm.
  - simplify_eq. by eapply Hm.
Qed.

Lemma keeps_unwrapped {A} (f : NetworkState → option A) : keeps (unwrapped f).
Proof. intros s s' r. unfold unwrapped. by destruct (f s); intros; simplify_eq. Qed.

Lemma keeps_pure {A} (f : NetworkState → outcome (HcResult A)) :
  keeps (λ s, r ← f s; Done (s, r)).
Proof. intros s s' r H. by apply outcome_bind_done in H as (? & _ & [= <- _]). Qed.

Lemma keeps_same {A} (f : NetworkState → HcResult A) : keeps (λ s, Done (s, f s)).
Proof. by intros s s' r [= <- _]. Qed.

Lemma keeps_send (m : JsonProtocol Json) : keeps (send m).
Proof.
  intros s s' r. unfold send. destruct (network s) as [n|] eqn:En.
  - destruct (net_send n m). intros [= <- _]. unfold rest. by rewrite En.
  - by intros [= <- _].
Qed.

Lemma keeps_connections f :
  keeps (modify (λ s, set_connections (f (direct_message_connections s)) s)).
Proof. by intros s s' r [= <- _]. Qed.

Lemma keeps_panic {A} why : keeps (panic why : M A).
Proof. done. Qed.

#[local] Hint Resolve keeps_unwrapped keeps_pure keeps_same keeps_send keeps_connections
  keeps_panic : net.

(** Walk through a sequence of computations that only send. *)
Ltac solve_keeps :=
  unfold my_ids, ensure_initialized, lift, throw, mret, stateful_ret;
  repeat first
    [ match goal with |- keeps (mbind _ _) => apply keeps_bind; [|intros ?] end
    | match goal with |- keeps (match ?x with _ => _ end) => destruct x end
    | solve [eauto with net]
    | solve [apply (keeps_same (λ _, _))]
    | solve [apply (keeps_connections (λ m, <[_ := _]> m))] ].

Lemma keeps_fetch_entry key : keeps (reduce_fetch_entry_inner key).
Proof. unfold reduce_fetch_entry_inner. solve_keeps. Qed.
Lemma keeps_get_links key : keeps (reduce_get_links_inner key).
Proof. unfold reduce_get_links_inner. solve_keeps. Qed.
Lemma keeps_get_package id h : keeps (get_validation_package_inner id h).
Proof. unfold get_validation_package_inner, send_message. solve_keeps. Qed.
Lemma keeps_links_result d : keeps (reduce_handle_get_links_result_inner d).
Proof. unfold reduce_handle_get_links_result_inner. solve_keeps. Qed.
Lemma keeps_get_result d : keeps (reduce_handle_get_result_inner d).
Proof. unfold reduce_handle_get_result_inner. solve_keeps. Qed.
Lemma keeps_respond_fetch d e : keeps (reduce_respond_fetch_data_inner d e).
Proof. unfold reduce_respond_fetch_data_inner. solve_keeps. Qed.
Lemma keeps_respond_links d l : keeps (reduce_respond_get_links_inner d l).
Proof. unfold reduce_respond_get_links_inner. solve_keeps. Qed.
Lemma keeps_direct_message d : keeps (send_direct_message_inner d).
Proof. unfold send_direct_message_inner. solve_keeps. Qed.
Lemma keeps_publish agent w a : keeps (reduce_publish_inner agent w a).
Proof.
  unfold reduce_publish_inner, fetching, publish_by_type, publish_update_delete_meta,
    publish_link_meta, publish_entry, publish_meta. solve_keeps.
Qed.

(** ** Panics *)
Lemma initialized_spec s :
  initialized s = Ok tt ↔
  is_Some (network s) ∧ is_Some (n_dna_address s) ∧ is_Some (n_agent_id s).
Proof.
  unfold initialized. destruct (network s), (n_dna_address s), (n_agent_id s); simpl; split;
    intros H; try done; try (by split_and!; eexists);
    destruct H as ([] & [] & []); done.
Qed.

Lemma initialized_rest s s' : rest s' = rest s → initialized s' = initialized s.
Proof. unfold rest, initialized. intros [= _ Hn Hd Ha _ _ _ _]. by rewrite Hn, Hd, Ha. Qed.

(** On an initialized slice the computation returns. *)
Definition returns {A} (m : M A) : Prop :=
  ∀ s, initialized s = Ok tt → ∃ s' r, m s = Done (s', r) ∧ initialized s' = Ok tt.

Lemma returns_bind {A B} (m : M A) (f : A → M B) :
  returns m → (∀ a, returns (f a)) → returns (m ≫= f).
Proof.
  intros Hm Hf s Hs. destruct (Hm s Hs) as (s1 & [a|e] & E & H1).
  - rewrite (stateful_bind_eq _ _ _ _ _ E). by apply Hf.
  - rewrite (stateful_bind_err _ _ _ _ _ E). eauto.
Qed.

Lemma returns_same {A} (f : NetworkState → HcResult A) : returns (λ s, Done (s, f s)).
Proof. intros s Hs. eauto. Qed.

Lemma returns_my_ids : returns my_ids.
Proof.
  intros s Hs. pose proof Hs as (_ & [d Hd] & [a Ha])%initialized_spec. exists s, (Ok (d, a)).
  split; [|done]. unfold my_ids, unwrapped, mbind, stateful_bind. by rewrite Hd, Ha.
Qed.

Lemma returns_send (m : JsonProtocol Json) : returns (send m).
Proof.
  intros s Hs. unfold send. pose proof Hs as ([n Hn] & _ & _)%initialized_spec. rewrite Hn.
  destruct (net_send n m) as [n' r]. eexists _, _. split; [done|].
  apply initialized_spec in Hs as (_ & ? & ?). apply initialized_spec. by split_and!.
Qed.

Lemma returns_connections f :
  returns (modify (λ s, set_connections (f (direct_message_connections s)) s)).
Proof. intros s Hs. by eexists _, _. Qed.

Lemma guarded_returns {A} (m : M A) s :
  returns m → ∃ s' r, (ensure_initialized ;; m) s = Done (s', r).
Proof.
  intros Hm. destruct (initialized s) as [[]|e] eqn:Hs.
  - destruct (Hm s Hs) as (s' & r & E & _). exists s', r.
    rewrite <-E. apply (stateful_bind_eq ensure_initialized (λ _, m) s s tt). unfold ensure_initialized. by rewrite Hs.
  - exists s, (Err e). apply stateful_bind_err. unfold ensure_initialized. by rewrite Hs.
Qed.

#[local] Hint Resolve returns_same returns_my_ids returns_send returns_connections : net.

Ltac solve_returns :=
  unfold lift, throw, mret, stateful_ret;
  repeat first
    [ match goal with |- returns (mbind _ _) => apply returns_bind; [|intros ?] end
    | match goal with |- returns (match ?x with _ => _ end) => destruct x end
    | solve [eauto with net]
    | solve [apply (returns_same (λ _, _))]
    | solve [apply (returns_connections (λ m, <[_ := _]> m))] ].

Lemma send_message_my_ids id to m :
  returns (send_message id to m).
Proof.
  intros s Hs. pose proof Hs as (_ & [d Hd] & [a Ha])%initialized_spec. unfold send_message.
  erewrite stateful_bind_eq by (unfold unwrapped; by rewrite Hd).
  erewrite stateful_bind_eq by (unfold unwrapped; by rewrite Ha).
  revert s Hs Hd Ha. intros s Hs _ _. revert s Hs. change (returns
    (send (SendMessage (MkMessageData d id to a (json_of_message m))) ;;
     modify (λ s, set_connections (<[id := m]> (direct_message_connections s)) s) : M unit)).
  solve_returns.
Qed.
#[local] Hint Resolve send_message_my_ids : net.

Lemma publish_by_type_returns ewh : returns (publish_by_type ewh).
Proof.
  unfold publish_by_type, publish_update_delete_meta, publish_link_meta, publish_entry,
    publish_meta. solve_returns.
Qed.

Lemma request_done {A} (m : M unit) (set : Pending A → NetworkState → NetworkState) s :
  (∃ s' r, m s = Done (s', r)) → ∃ s', request m set s = Done s'.
Proof. intros (s' & r & E). unfold request. rewrite E. by eexists. Qed.

Lemma respond_done {A} (m : M unit) id (a : A) resp s :
  (∃ s' r, m s = Done (s', r)) → ∃ s', respond m id a resp s = Done s'.
Proof. intros (s' & r & E). unfold respond. rewrite E. by eexists. Qed.

(** The panics of an action that the slice itself is responsible for. *)
Definition network_panics agent w aw s : Prop :=
  match aw_action aw with
  | AInitNetwork settings => ∃ e, net_new (Json := Json) (Net := Net) (ns_p2p_config settings) = Err e
  | AHandleGetLinksResult d _ _ => initialized s = Ok tt ∧ length (fmr_content_list d) ≠ 1%nat
  | APublish a => initialized s = Ok tt ∧ ∃ why, fetch_entry_with_header agent w a = Panicked why
  | _ => False
  end.

Lemma publish_panics agent w id a s :
  (∃ why, reduce_publish agent w id a s = Panicked why) ↔
  initialized s = Ok tt ∧ ∃ why, fetch_entry_with_header agent w a = Panicked why.
Proof.
  unfold reduce_publish, respond, reduce_publish_inner.
  destruct (initialized s) as [[]|e] eqn:Hs.
  2: { erewrite stateful_bind_err by (unfold ensure_initialized; by rewrite Hs).
       split; [by intros [? ?]|by intros [? ?]]. }
  erewrite stateful_bind_eq by (unfold ensure_initialized; by rewrite Hs).
  destruct (fetch_entry_with_header agent w a) as [[ewh|e]|why] eqn:Hf.
  - erewrite stateful_bind_eq by (unfold fetching; by rewrite Hf).
    destruct (publish_by_type_returns ewh s Hs) as (s' & r & -> & _).
    split; [by intros [? ?]|by intros (_ & ? & ?)].
  - erewrite stateful_bind_err by (unfold fetching; by rewrite Hf).
    split; [by intros [? ?]|by intros (_ & ? & ?)].
  - split; [eauto|]. intros _. exists why. unfold fetching, mbind at 2, stateful_bind. by rewrite Hf.
Qed.

Lemma links_result_panics d link_type tag s :
  (∃ why, reduce_handle_get_links_result d link_type tag s = Panicked why) ↔
  initialized s = Ok tt ∧ length (fmr_content_list d) ≠ 1%nat.
Proof.
  unfold reduce_handle_get_links_result, reduce_handle_get_links_result_inner.
  destruct (initialized s) as [[]|e] eqn:Hs.
  2: { erewrite stateful_bind_err by (unfold ensure_initialized; by rewrite Hs).
       split; [by intros [? ?]|by intros [? ?]]. }
  erewrite stateful_bind_eq by (unfold ensure_initialized; by rewrite Hs).
  destruct (fmr_content_list d) as [|x [|y l]]; simpl; split.
  all: first [by intros [? ?]|by intros _; split|by intros _; eexists].
Qed.

Lemma done_not_panics {A} (o : outcome A) :
  (∃ a, o = Done a) → (∃ why, o = Panicked why) ↔ False.
Proof. intros [a ->]. split; [by intros [? ?]|done]. Qed.

(** reducing an action panics exactly in three cases: setting up
    the connection fails; an answer about links does not hold exactly one content;
    or reading the entry to publish from the chain panics.  In particular the
    identity of the node is never unwrapped while it is unset. *)
Theorem network_panics_iff agent w uid aw s :
  (∃ why, network_reduce agent w uid aw s = Panicked why) ↔ network_panics agent w aw s.
Proof.
  unfold network_reduce, network_panics. destruct (aw_action aw);
    try (by apply done_not_panics; eauto).
  - unfold reduce_init. destruct (net_new _) as [n|e].
    + destruct (net_send _ _) as [n' r]. split; [by intros [? ?]|by intros [? ?]].
    + split; eauto.
  - apply publish_panics.
  - apply done_not_panics, request_done, guarded_returns. solve_returns.
  - apply done_not_panics, respond_done, guarded_returns. solve_returns.
  - apply done_not_panics. unfold reduce_handle_get_result, reduce_handle_get_result_inner.
    destruct (guarded_returns (lift (ok_or (fetched_of_json (fer_entry_content d)) (ErrorGeneric
      "Failed to deserialize EntryWithMeta from HandleFetchResult action argument"))) s)
      as (s' & r & ->); [solve_returns|]. by eexists.
  - apply done_not_panics, request_done, guarded_returns. solve_returns.
  - apply done_not_panics, respond_done, guarded_returns. solve_returns.
  - apply links_result_panics.
  - apply done_not_panics. unfold reduce_send_direct_message, send_direct_message_inner.
    match goal with |- context [(ensure_initialized ;; ?m) s] =>
      destruct (guarded_returns m s) as (s' & r & ->) end; [solve_returns|by eexists].
  - apply done_not_panics, request_done, guarded_returns. solve_returns.
Qed.

(** ** Requests and their timeouts *)
Definition step aw s s' : Prop :=
  ∃ agent w uid, network_reduce agent w uid aw s = Done s'.

Lemma request_spec {A} (m : M unit) (set : Pending A → NetworkState → NetworkState) s s' :
  keeps m → request m set s = Done s' →
  ∃ s1 r, rest s1 = rest s ∧ s' = set r s1.
Proof.
  intros Hm H. unfold request in H. apply outcome_bind_done in H as ([s1 r] & E & [= <-]).
  eexists s1, _. split; [by eapply Hm|done].
Qed.

Lemma respond_spec {A} (m : M unit) id (a : A) resp s s' :
  keeps m → respond m id a resp s = Done s' →
  ∃ s1 r, rest s1 = rest s ∧ s' = set_action id r s1.
Proof.
  intros Hm H. unfold respond in H. apply outcome_bind_done in H as ([s1 r] & E & [= <-]).
  eexists s1, _. split; [by eapply Hm|done].
Qed.

Lemma entry_results_rest s s' :
  rest s' = rest s → get_entry_with_meta_results s' = get_entry_with_meta_results s.
Proof. unfold rest. by intros [= _ _ _ _ H _ _ _]. Qed.

(** How an action changes the result of an entry request. *)
Lemma entry_result_step aw s s' k :
  step aw s s' →
  (get_entry_with_meta_results s' !! k = get_entry_with_meta_results s !! k) ∨
  (aw_action aw = AFetchEntry k ∧ is_Some (get_entry_with_meta_results s' !! k)) ∨
  (aw_action aw = AGetEntryTimeout k ∧ get_entry_with_meta_results s !! k = Some None ∧
     get_entry_with_meta_results s' !! k = Some (Some (Err Timeout))) ∨
  (∃ r, get_entry_with_meta_results s' !! k = Some (Some r)).
Proof.
  intros (agent & w & uid & H). unfold network_reduce in H.
  destruct (aw_action aw); simplify_eq; try (by left);
    try (apply respond_spec in H as (s1 & r & E & ->);
         [left; cbn; by rewrite (entry_results_rest _ _ E)|];
         first [apply keeps_publish|apply keeps_respond_fetch|apply keeps_respond_links]).
  - unfold reduce_init in H. repeat case_match; simplify_eq; by left.
  - apply request_spec in H as (s1 & r & E & ->); [|apply keeps_fetch_entry].
    destruct (decide (key = k)) as [->|].
    + right; left. split; [done|]. cbn. rewrite lookup_insert_eq. eauto.
    + left. cbn. rewrite lookup_insert_ne by done. by rewrite (entry_results_rest _ _ E).
  - unfold reduce_handle_get_result in H. apply outcome_bind_done in H as ([s1 r] & E & [= <-]).
    apply keeps_get_result in E. cbn.
    destruct (decide (MkGetEntryKey (fer_entry_address d) (fer_request_id d) = k)) as [->|].
    + right; right; right. exists r. by rewrite lookup_insert_eq.
    + left. rewrite lookup_insert_ne by done. by rewrite (entry_results_rest _ _ E).
  - unfold reduce_get_entry_timeout.
    destruct (get_entry_with_meta_results s !! key) as [[r|]|] eqn:E; try (by left).
    destruct (decide (key = k)) as [->|].
    + right; right; left. cbn. by rewrite lookup_insert_eq.
    + left. cbn. by rewrite lookup_insert_ne.
  - apply request_spec in H as (s1 & r & E & ->); [|apply keeps_get_links].
    left. cbn. by rewrite (entry_results_rest _ _ E).
  - unfold reduce_get_links_timeout. by repeat case_match; left.
  - unfold reduce_handle_get_links_result in H.
    apply outcome_bind_done in H as ([s1 r] & E & [= <-]).
    apply keeps_links_result in E. left. cbn. by rewrite (entry_results_rest _ _ E).
  - unfold reduce_send_direct_message in H. apply outcome_bind_done in H as ([s1 r] & E & [= <-]).
    apply keeps_direct_message in E. left. by rewrite (entry_results_rest _ _ E).
  - unfold reduce_send_direct_message_timeout. by case_match; left.
  - apply request_spec in H as (s1 & r & E & ->); [|apply keeps_get_package].
    left. cbn. by rewrite (entry_results_rest _ _ E).
Qed.

Inductive runs : list (ActionWrapper Json) → NetworkState → NetworkState → Prop :=
| runs_nil s : runs [] s s
| runs_cons aw l s s1 s' : step aw s s1 → runs l s1 s' → runs (aw :: l) s s'.

Lemma runs_app l1 l2 s s' : runs (l1 ++ l2) s s' → ∃ s1, runs l1 s s1 ∧ runs l2 s1 s'.
Proof.
  revert s. induction l1 as [|aw l1 IH]; intros s H; simpl in H.
  - exists s. split; [constructor|done].
  - inversion H as [|? ? ? s1 ? Hs Hr]; simplify_eq. apply IH in Hr as (s2 & H1 & H2).
    exists s2. split; [by econstructor|done].
Qed.

Definition requested (k : GetEntryKey) s : Prop := is_Some (get_entry_with_meta_results s !! k).
Definition decided (k : GetEntryKey) s : Prop :=
  ∃ r, get_entry_with_meta_results s !! k = Some (Some r).

Lemma requested_runs k l s s' : runs l s s' → requested k s → requested k s'.
Proof.
  unfold requested. induction 1 as [|aw l s s1 s' Hs Hr IH]; [done|]. intros Hq. apply IH.
  apply (entry_result_step _ _ _ k) in Hs as [E|[[_ E]|[(_ & _ & E)|[r E]]]]; rewrite ?E in *; eauto.
Qed.

Lemma decided_runs k l s s' :
  runs l s s' → Forall (λ aw, aw_action aw ≠ AFetchEntry k) l → decided k s → decided k s'.
Proof.
  unfold decided. induction 1 as [|aw l s s1 s' Hs Hr IH]; [done|].
  intros [Ha Hl]%Forall_cons [r0 Hd]. apply IH; [done|].
  apply (entry_result_step _ _ _ k) in Hs as [E|[[? _]|[(_ & _ & E)|[r E]]]]; [|done|eauto..].
  rewrite E. eauto.
Qed.

(** once its timeout fired, a request for an entry is decided for
    good: whatever else happens before and after, waiting for it returns. *)
Theorem entry_request_decided k id1 id2 l1 l2 l3 s s' :
  runs (l1 ++ MkActionWrapper (AFetchEntry k) id1 :: l2 ++
        MkActionWrapper (AGetEntryTimeout k) id2 :: l3) s s' →
  Forall (λ aw, aw_action aw ≠ AFetchEntry k) l3 →
  ∃ r, poll_get_entry k s' = Some r.
Proof.
  intros (s1 & _ & H)%runs_app Hl. inversion H as [|? ? ? s2 ? Hs Hr]; simplify_eq.
  assert (requested k s2) as Hq.
  { destruct Hs as (agent & w & uid & E). cbn in E.
    apply request_spec in E as (? & r & _ & ->); [|apply keeps_fetch_entry].
    unfold requested. cbn. rewrite lookup_insert_eq. eauto. }
  apply runs_app in Hr as (s3 & H2 & H3). apply (requested_runs k) in H2; [|done].
  inversion H3 as [|? ? ? s4 ? Hs4 Hr4]; simplify_eq.
  assert (decided k s4) as Hd.
  { destruct Hs4 as (agent & w & uid & [= <-]). destruct H2 as [[r|] Hr].
    - exists r. unfold reduce_get_entry_timeout. by rewrite Hr.
    - exists (Err Timeout). unfold reduce_get_entry_timeout. rewrite Hr. cbn.
      by rewrite lookup_insert_eq. }
  apply (decided_runs k) in Hr4 as [r Hr]; [|done|done].
  unfold poll_get_entry, ready_when. rewrite Hr. destruct (initialized s'); cbn; eauto.
Qed.

(** ** Messages *)
Definition sent s : list (JsonProtocol Json) := default [] (net_sent <$> network s).

(** The connection accepts every message. *)
Definition accepts_all : Prop := ∀ (n : Net) (m : JsonProtocol Json), (net_send n m).2 = Ok tt.

(** An initialized slice, with its identity and what it has sent. *)
Definition node s (dna agent_id : string) (ms : list (JsonProtocol Json)) : Prop :=
  is_Some (network s) ∧ n_dna_address s = Some dna ∧ n_agent_id s = Some agent_id ∧ sent s = ms.

Lemma send_node m s dna ag ms :
  accepts_all → node s dna ag ms →
  ∃ s', send m s = Done (s', Ok tt) ∧ node s' dna ag (ms ++ [m]) ∧
    get_entry_with_meta_results s' = get_entry_with_meta_results s ∧
    get_links_results s' = get_links_results s.
Proof.
  intros Hacc ([n Hn] & Hd & Ha & Hs). unfold send. rewrite Hn.
  pose proof (net_send_spec n m) as Hspec. specialize (Hacc n m).
  destruct (net_send n m) as [n' r]; simplify_eq/=. exists (set_network n' s).
  split_and!; [done| |done|done]. unfold node, sent in *. cbn. rewrite Hn in *.
  split_and!; [by eexists|done|done|done].
Qed.

Lemma node_initialized s dna ag ms : node s dna ag ms → initialized s = Ok tt.
Proof. intros (Hn & Hd & Ha & _). apply initialized_spec. by rewrite Hd, Ha. Qed.

Lemma guarded_node {A} (f : Address * string → M A) s dna ag ms :
  node s dna ag ms →
  (ensure_initialized ;; ids ← my_ids; f ids) s = f (dna, ag) s.
Proof.
  intros Hn. erewrite stateful_bind_eq.
  2: { unfold ensure_initialized. by erewrite node_initialized. }
  destruct Hn as (_ & Hd & Ha & _). apply stateful_bind_eq.
  unfold my_ids, unwrapped, mbind, stateful_bind. by rewrite Hd, Ha.
Qed.

(** a request for an entry and its answer meet: the requesting node
    sends the request and waits; a node that answers it sends back what it has;
    and when that answer comes in, the waiting request returns exactly it. *)
Theorem fetch_entry_roundtrip a b dna ag_a ag_b ms_a ms_b key e id1 id2 id3 agent w uid :
  accepts_all → node a dna ag_a ms_a → node b dna ag_b ms_b →
  ∃ a1 b1 d r,
    network_reduce agent w uid (MkActionWrapper (AFetchEntry key) id1) a = Done a1 ∧
    node a1 dna ag_a (ms_a ++ [FetchEntry d]) ∧ poll_get_entry key a1 = None ∧
    network_reduce agent w uid (MkActionWrapper (ARespondFetch d e) id2) b = Done b1 ∧
    node b1 dna ag_b (ms_b ++ [HandleFetchEntryResult r]) ∧
    fer_requester_agent_id r = ag_a ∧
    ∀ a2, initialized a2 = Ok tt →
      ∃ a3, network_reduce agent w uid (MkActionWrapper (AHandleFetchResult r) id3) a2 = Done a3 ∧
        poll_get_entry key a3 = Some (Ok e).
Proof.
  intros Hacc Ha Hb.
  set (d := MkFetchEntryData dna (gek_id key) ag_a (gek_address key)).
  set (r := MkFetchEntryResultData dna (gek_id key) ag_a ag_b (gek_address key)
              (json_of_fetched e)).
  destruct (send_node (FetchEntry d) _ _ _ _ Hacc Ha) as (a1 & E1 & Hn1 & _).
  destruct (send_node (HandleFetchEntryResult r) _ _ _ _ Hacc Hb) as (b1 & E2 & Hn2 & _).
  exists (set_entry_result key None a1), (set_action id2 (NrRespondFetch (Ok tt)) b1), d, r.
  split_and!; [|exact Hn1| | |exact Hn2|done|].
  - cbn. unfold reduce_get_entry, request, reduce_fetch_entry_inner.
    erewrite (guarded_node (λ '(dna, ag), send (FetchEntry
      (MkFetchEntryData dna (gek_id key) ag (gek_address key))))) by done.
    cbn beta iota. fold d. by rewrite E1.
  - unfold poll_get_entry, ready_when.
    rewrite (node_initialized (set_entry_result key None a1) dna ag_a _ Hn1). cbn.
    by rewrite lookup_insert_eq.
  - cbn. unfold reduce_respond_fetch_data, respond, reduce_respond_fetch_data_inner.
    erewrite (guarded_node (λ '(dna, ag), send (HandleFetchEntryResult
      (MkFetchEntryResultData dna (fe_request_id d) (fe_requester_agent_id d) ag
         (fe_entry_address d) (json_of_fetched e))))) by done.
    cbn beta iota. cbn [d fe_request_id fe_requester_agent_id fe_entry_address]. fold r.
    by rewrite E2.
  - intros a2 H2. eexists. split.
    + cbn. unfold reduce_handle_get_result, reduce_handle_get_result_inner.
      erewrite stateful_bind_eq by (unfold ensure_initialized; by rewrite H2).
      unfold lift. cbn. by rewrite fetched_json_roundtrip.
    + unfold poll_get_entry, ready_when. cbn. destruct key.
      unfold initialized in *. cbn. rewrite lookup_insert_eq. cbn.
      by destruct (is_some _ && _ && _).
Qed.

(** ** Publishing *)

(** The messages that publish an entry, by its type. *)
Definition publishing (dna ag : string) (ewh : EntryWithHeader) : list (JsonProtocol Json) :=
  let entry := PublishEntry (MkEntryData dna ag (address (ewh_entry ewh)) (json_of_ewh ewh)) in
  let meta a attr := PublishMeta (MkDhtMetaData dna ag a attr [json_of_ewh ewh]) in
  match ewh_entry ewh with
  | Entry.AgentId _ => [entry]
  | Entry.App _ _ => entry ::
      match h_link_update_delete (ewh_header ewh) with
      | Some _ => [meta (address (ewh_entry ewh)) "modified"]
      | None => []
      end
  | Entry.LinkAdd l => [entry; meta (base (link l)) "link"]
  | Entry.LinkRemove l => [entry; meta (base (link l)) "link_remove"]
  | Entry.Deletion _ => [entry; meta (address (ewh_entry ewh)) "deleted"]
  | _ => []
  end.

(** The types that are published at all. *)
Definition publishable (e : Entry.t) : bool :=
  match e with
  | Entry.AgentId _ | Entry.App _ _ | Entry.LinkAdd _ | Entry.LinkRemove _
  | Entry.Deletion _ => true
  | _ => false
  end.

Lemma publish_entry_node ewh s dna ag ms :
  accepts_all → node s dna ag ms →
  ∃ s', publish_entry ewh s = Done (s', Ok tt) ∧
    node s' dna ag (ms ++ [PublishEntry
      (MkEntryData dna ag (address (ewh_entry ewh)) (json_of_ewh ewh))]).
Proof.
  intros Hacc Hn. unfold publish_entry. erewrite stateful_bind_eq.
  2: { destruct Hn as (_ & Hd & Ha & _).
       unfold my_ids, unwrapped, mbind, stateful_bind. by rewrite Hd, Ha. }
  edestruct send_node as (s' & E & H & _); [done|done|]. by exists s'.
Qed.

Lemma publish_meta_node a attr ewh s dna ag ms :
  accepts_all → node s dna ag ms →
  ∃ s', publish_meta a attr ewh s = Done (s', Ok tt) ∧
    node s' dna ag (ms ++ [PublishMeta (MkDhtMetaData dna ag a attr [json_of_ewh ewh])]).
Proof.
  intros Hacc Hn. unfold publish_meta. erewrite stateful_bind_eq.
  2: { destruct Hn as (_ & Hd & Ha & _).
       unfold my_ids, unwrapped, mbind, stateful_bind. by rewrite Hd, Ha. }
  edestruct send_node as (s' & E & H & _); [done|done|]. by exists s'.
Qed.

Lemma publish_pair_node a attr ewh s dna ag ms :
  accepts_all → node s dna ag ms →
  ∃ s', (publish_entry ewh ;; publish_meta a attr ewh) s = Done (s', Ok tt) ∧
    node s' dna ag (ms ++ [PublishEntry
      (MkEntryData dna ag (address (ewh_entry ewh)) (json_of_ewh ewh));
      PublishMeta (MkDhtMetaData dna ag a attr [json_of_ewh ewh])]).
Proof.
  intros Hacc Hn. destruct (publish_entry_node ewh _ _ _ _ Hacc Hn) as (s1 & E1 & H1).
  destruct (publish_meta_node a attr ewh _ _ _ _ Hacc H1) as (s2 & E2 & H2). exists s2.
  rewrite (stateful_bind_eq _ _ _ _ _ E1). rewrite <-app_assoc in H2. done.
Qed.

Lemma publish_by_type_node ewh s dna ag ms :
  accepts_all → node s dna ag ms →
  ∃ s', publish_by_type ewh s =
      Done (s', if publishable (ewh_entry ewh) then Ok tt
                else Err (NotImplemented "reduce_publish_inner")) ∧
    node s' dna ag (ms ++ publishing dna ag ewh).
Proof.
  intros Hacc Hn. unfold publish_by_type, publishing, publish_update_delete_meta,
    publish_link_meta.
  destruct (ewh_entry ewh) as [t v| |ag_id| |la|lr| | | | |] eqn:He; cbn [Entry.entry_type publishable];
    try (exists s; by rewrite app_nil_r);
    try (rewrite <-He; by apply publish_pair_node).
  - destruct (h_link_update_delete (ewh_header ewh)); [rewrite <-He; by apply publish_pair_node|].
    destruct (publish_entry_node ewh _ _ _ _ Hacc Hn) as (s1 & E1 & H1). exists s1.
    rewrite He in H1. by rewrite (stateful_bind_eq _ _ _ _ _ E1).
  - destruct (publish_entry_node ewh _ _ _ _ Hacc Hn) as (s1 & E1 & H1). exists s1.
    by rewrite He in H1.
Qed.

Lemma fetch_with_header_spec agent w l a h :
  chain_inv agent w l →
  List.find (λ h, bool_decide (h_entry_address h = a)) l = Some h →
  ∃ e, fetch_entry_with_header agent w a = Done (Ok (MkEntryWithHeader e h)) ∧
    address e = a ∧ Entry.entry_type e = h_entry_type h.
Proof.
  intros H Hf. pose proof H as (_ & _ & He). rewrite Forall_forall in He.
  pose proof (List.find_some _ _ Hf) as [Hin%list_elem_of_In <-%bool_decide_eq_true].
  destruct (He _ Hin) as (e & Hm & Ha & Ht). exists e. split; [|done].
  unfold fetch_entry_with_header.
  assert (fetch_entry_from_cas agent w (h_entry_address h) = Ok e) as ->.
  { unfold fetch_entry_from_cas. rewrite cas_fetch_spec, Hm. cbn. apply entry_json_roundtrip. }
  unfold find_chain_header. rewrite (find_linked_top _ _ _ _ H), Ha, Hf. done.
Qed.

(** Publishing an entry of a well-formed chain sends, with the newest
    header of the entry, exactly the messages its type calls for: the entry, and
    for an update, a deletion, a link or its removal one message about it; an
    entry of another type is refused and nothing is sent. *)
Theorem publish_sends agent w l a h id uid s dna ag ms :
  accepts_all → node s dna ag ms → chain_inv agent w l →
  List.find (λ h, bool_decide (h_entry_address h = a)) l = Some h →
  ∃ s' e,
    network_reduce agent w uid (MkActionWrapper (APublish a) id) s = Done s' ∧
    address e = a ∧ Entry.entry_type e = h_entry_type h ∧
    node s' dna ag (ms ++ publishing dna ag (MkEntryWithHeader e h)) ∧
    poll_publish id s' = Some
      (if publishable e then Ok a
       else Err (ErrorGeneric (HolochainError_fmt (NotImplemented "reduce_publish_inner")))).
Proof.
  intros Hacc Hn Hc Hf. destruct (fetch_with_header_spec _ _ _ _ _ Hc Hf) as (e & Hfe & Ha & Ht).
  destruct (publish_by_type_node (MkEntryWithHeader e h) _ _ _ _ Hacc Hn) as (s1 & E1 & H1).
  exists (set_action id (NrPublish (if publishable e then Ok a
    else Err (ErrorGeneric (HolochainError_fmt (NotImplemented "reduce_publish_inner"))))) s1), e.
  split_and!; [|done|done|exact H1|].
  - cbn. unfold reduce_publish, respond, reduce_publish_inner. erewrite stateful_bind_eq.
    2: { unfold ensure_initialized. by erewrite node_initialized. }
    erewrite stateful_bind_eq by (unfold fetching; by rewrite Hfe). rewrite E1. cbn.
    by destruct (publishable e).
  - unfold poll_publish, ready_when.
    erewrite (node_initialized (set_action _ _ _)) by exact H1. cbn.
    by rewrite lookup_insert_eq.
Qed.
End facts.

(** ** Instances at concrete inputs *)

(** A model of the payload conversions: a value is itself. *)
Inductive PlainJson :=
| JMessage (m : DirectMessage)
| JEwh (e : EntryWithHeader)
| JFetched (e : option EntryWithMetaAndHeader)
| JAddresses (l : list Address).

#[refine] Instance plain_payloads : JsonPayloads PlainJson := {|
  json_of_message := JMessage;
  message_of_json j := match j with JMessage m => Some m | _ => None end;
  json_of_ewh := JEwh;
  ewh_of_json j := match j with JEwh e => Some e | _ => None end;
  json_of_fetched := JFetched;
  fetched_of_json j := match j with JFetched e => Some e | _ => None end;
  json_of_addresses := JAddresses;
  addresses_of_json j := match j with JAddresses l => Some l | _ => None end;
  debug_entry e := EntryType.to_string (Entry.entry_type e);
|}.
Proof. all: done. Defined.
#[export] Remove Hints plain_payloads : typeclass_instances.

(** A connection that accepts every message. *)
#[refine] Instance open_network {Json} : P2pNetwork Json (list (JsonProtocol Json)) := {|
  net_new _ := Ok [];
  net_send n m := (n ++ [m], Ok tt);
  net_sent n := n;
|}.
Proof.
  - by intros _ n [= <-].
  - done.
Defined.
#[export] Remove Hints open_network : typeclass_instances.

Module Demo.
#[local] Existing Instance plain_wire.
#[local] Existing Instance plain_payloads.
#[local] Existing Instance open_network.
Import ChainFacts.Demo.

Definition ready (agent_id : string) : NetworkState (list (JsonProtocol PlainJson)) :=
  MkNetworkState _ ∅ (Some []) (Some "dna") (Some agent_id) ∅ ∅ ∅ ∅ ∅.

Lemma ready_node ag : node (ready ag) "dna" ag [].
Proof. split_and!; [by eexists|done|done|done]. Qed.

Lemma open_accepts : accepts_all (Json := PlainJson) (Net := list (JsonProtocol PlainJson)).
Proof. done. Qed.

Definition key : GetEntryKey := MkGetEntryKey "address" "request 1".

Lemma fetch_entry_roundtrip_witness :
  ∃ a1 d, network_reduce (S := EavMemoryStorage.t) slice3 used "uid" (MkActionWrapper (AFetchEntry key) 1)
      (ready "HcAlice") = Done a1 ∧
    sent a1 = [FetchEntry d] ∧ poll_get_entry key a1 = None.
Proof.
  destruct (fetch_entry_roundtrip (S := EavMemoryStorage.t) (ready "HcAlice") (ready "HcBob") "dna" "HcAlice" "HcBob" [] []
    key None 1 2 3 slice3 used "uid" open_accepts (ready_node _) (ready_node _))
    as (a1 & b1 & d & r & H1 & (_ & _ & _ & H2) & H3 & _).
  exists a1, d. exact (conj H1 (conj H2 H3)).
Defined.

Lemma publish_sends_witness :
  ∃ s' e, network_reduce (S := EavMemoryStorage.t) slice3 used "uid"
      (MkActionWrapper (APublish (address post)) 4) (ready "HcAlice") = Done s' ∧
    address e = address post ∧ poll_publish 4 s' = Some
      (if publishable e then Ok (address post)
       else Err (ErrorGeneric (HolochainError_fmt (NotImplemented "reduce_publish_inner")))).
Proof.
  destruct (publish_sends (S := EavMemoryStorage.t) slice3 used headers (address post) header2 4 "uid"
    (ready "HcAlice") "dna" "HcAlice" []) as (s' & e & H1 & H2 & _ & _ & H3).
  - exact open_accepts.
  - exact (ready_node _).
  - exact slice3_ok.
  - vm_compute. reflexivity.
  - exists s', e. exact (conj H1 (conj H2 H3)).
Defined.

Lemma entry_request_decided_witness :
  ∃ s' r, runs (S := EavMemoryStorage.t) (C := MemoryStorage.t)
      [MkActionWrapper (AFetchEntry key) 1; MkActionWrapper (AGetEntryTimeout key) 2]
      (ready "HcAlice") s' ∧ poll_get_entry key s' = Some r.
Proof.
  assert (runs (S := EavMemoryStorage.t) (C := MemoryStorage.t)
    [MkActionWrapper (AFetchEntry key) 1; MkActionWrapper (AGetEntryTimeout key) 2]
    (ready "HcAlice") (reduce_get_entry_timeout key (set_entry_result key None
      (set_network [FetchEntry (MkFetchEntryData "dna" "request 1" "HcAlice" "address")]
        (ready "HcAlice"))))) as Hr.
  { eapply runs_cons; [|eapply runs_cons; [|apply runs_nil]].
    - exists slice3, used, "uid". reflexivity.
    - exists slice3, used, "uid". reflexivity. }
  destruct (entry_request_decided key 1 2 [] [] [] _ _ Hr) as (r & H).
  - constructor.
  - eexists _, r. exact (conj Hr H).
Defined.
End Demo.
