(* ===== verification/StateFacts.v ===== *)
(** * Properties of the instance state

    A committed entry reaches the source chain and the DHT shard, also when
    both use the same storage; and an instance restored from its snapshots has the
    chain, the DNA and the status it had. *)
From stdpp Require Import functions.
From S2P Require Import Prelude Errors Strings Eav Entries Cas Protocol Actions Dht DhtFacts Chain ChainFacts Network NetworkFacts Nucleus State.

(** ** Committing, over the memory storages *)
Section commit.
Context {wire : Wire} {Json : Type} {Net : Type}.
Context `{!JsonPayloads Json} `{!P2pNetwork Json Net}.
Context (clock : nat → Z) (clock_i64 : ∀ n, fits_i64 (clock n)).
Context (sign : nat → string → HcResult string) (iso8601 : Z → string).
Abbreviation World := (@World MemoryStorage.t EavMemoryStorage.t).
Implicit Types (w : World) (s : State Net) (e : Entry.t).

Lemma store_entry_memory d e w :
  world_wf w → triples w + 1 < 2 ^ 64 →
  ∃ w', reduce_store_entry_inner clock d e w = Done (w', Ok tt).
Proof.
  intros Hw Hn. unfold reduce_store_entry_inner.
  erewrite stateful_bind_eq by done. erewrite stateful_bind_eq by done.
  set (x := MkEavi _ _ _ _). set (w1 := MkWorld _ _ _).
  destruct (increment_key_total x (EavMemoryStorage.storage (w_meta w1))) as [x' Hx].
  - apply clock_i64.
  - unfold triples, stored in Hn. simpl in *. lia.
  - eexists. unfold mapping_err. erewrite stateful_bind_eq; [reflexivity|].
    unfold meta_add. simpl. unfold EavMemoryStorage.add_eavi.
    simpl in Hx. unfold increment_key_till_no_collision in *. by rewrite Hx.
Qed.

Lemma store_entry_elsewhere d e w w' l :
  world_wf w → reduce_store_entry_inner clock d e w = Done (w', Ok tt) →
  l ≠ content_loc d → w_cas w' l = w_cas w l.
Proof.
  intros Hw H Hl. unfold reduce_store_entry_inner in H.
  apply stateful_bind_ok in H as (w1 & [] & H1%mapping_err_ok & H).
  apply stateful_bind_ok in H as (w2 & x & H2 & H%mapping_err_ok).
  apply stateful_bind_ok in H as (w3 & o & H3 & [= <-]).
  apply cas_write_ok in H1 as (Hm & _ & Hc).
  assert (Hw1 : world_wf w1) by (unfold world_wf; by rewrite Hm).
  destruct (add_new_gains _ clock_i64 _ _ _ _ _ _ _ _ Hw1 H2 H3) as (_ & -> & _).
  by apply Hc.
Qed.

Lemma chain_inv_store d e agent w w' l :
  world_wf w → reduce_store_entry_inner clock d e w = Done (w', Ok tt) →
  no_collision (cas_map (chain_cas agent w)) e → chain_inv agent w l → chain_inv agent w' l.
Proof.
  intros Hw H Hn. apply chain_inv_mono; [|done]. unfold chain_cas in *.
  destruct (decide (chain_loc agent = content_loc d)) as [Heq|].
  - apply store_entry_ok in H as (_ & Hc & _); [|done|done]. rewrite Heq in *. rewrite Hc.
    exact (insert_no_collision _ e Hn).
  - by erewrite (store_entry_elsewhere _ _ _ w').
Qed.

End commit.

(** ** Snapshots *)
Section snapshots.
Context {wire : Wire} {Json : Type} {Net : Type}.
Context `{!JsonPayloads Json} `{!P2pNetwork Json Net}.
Context {C : Type} `{!ContentAddressableStorage C}.
Context {S : Type} `{!EavStorage S}.
Abbreviation World := (@World C S).
Implicit Types (w : World) (s : State Net) (l : list ChainHeader).

Lemma find_last_filter t l h : last (List.filter (has_type t) l) = Some h → h ∈ l ∧ h_entry_type h = t.
Proof.
  intros Hl. assert (h ∈ List.filter (has_type t) l) as Hin
    by (apply last_Some in Hl as [l' ->]; set_solver).
  apply list_elem_of_In, List.filter_In in Hin as [Hin Ht%bool_decide_eq_true].
  split; [by apply list_elem_of_In|done].
Qed.

Lemma get_dna_spec agent w l :
  chain_inv agent w l →
  match last (List.filter (has_type EntryType.Dna) l) with
  | None => ∃ err, get_dna agent w (chain_loc agent) = Done (Err err)
  | Some h => ∃ d, get_dna agent w (chain_loc agent) = Done (Ok d) ∧
      cas_map (chain_cas agent w) !! h_entry_address h = Some (entry_to_json (Entry.Dna d))
  end.
Proof.
  intros (Hl & Htop & He). rewrite Forall_forall in He. unfold get_dna.
  rewrite Htop, iter_type_linked by done. cbn [mbind outcome_bind]. rewrite last_of_path.
  2: by apply linked_type_path.
  2: { pose proof (linked_budget _ _ Hl).
       pose proof (List.filter_length_le (has_type EntryType.Dna) l). lia. }
  destruct (last _) as [h|] eqn:Hh; [|by eexists].
  apply find_last_filter in Hh as [Hin Ht]. destruct (He _ Hin) as (e & Hm & Ha & Het).
  rewrite Ht in Het. destruct e; try done. eexists. split; [|exact Hm].
  unfold chain_cas in Hm. cbn [ok_or mbind result_bind outcome_bind].
  rewrite cas_fetch_spec, Hm. cbn.
  by rewrite entry_json_roundtrip.
Qed.

(** C22: an instance whose chain is kept in the storage of the DHT shard is restored from its
    snapshots with the same source chain, initialisation status and pending validations, and with
    the DNA that is stored for the oldest DNA header of the chain; so the instance's own DNA is
    restored when it is the one that its chain begins with.  Results of calls and validations
    start out empty. *)
Theorem snapshot_restores ctx s w l :
  chain_inv (s_agent s) w l → chain_loc (s_agent s) = ctx_dht_storage ctx →
  ∃ s' : State Net,
    try_from_snapshots ctx (agent_snapshot (s_agent s)) (nucleus_snapshot (s_nucleus s)) w =
      Done (Ok s') ∧
    chain_inv (s_agent s') w l ∧
    status (s_nucleus s') = status (s_nucleus s) ∧
    pending_validations (s_nucleus s') = pending_validations (s_nucleus s) ∧
    match last (List.filter (has_type EntryType.Dna) l) with
    | Some h =>
        ∃ d, dna (s_nucleus s') = Some d ∧
          cas_map (chain_cas (s_agent s) w) !! h_entry_address h = Some (entry_to_json (Entry.Dna d)) ∧
          ∀ d0, dna (s_nucleus s) = Some d0 →
            cas_map (chain_cas (s_agent s) w) !! h_entry_address h = Some (entry_to_json (Entry.Dna d0)) →
            dna (s_nucleus s') = dna (s_nucleus s)
    | None => dna (s_nucleus s') = None
    end ∧
    zome_calls (s_nucleus s') = ∅ ∧ history s' = ∅.
Proof.
  intros Hc Hloc. unfold try_from_snapshots, new_with_agent_and_nucleus.
  set (agent := new_with_top_chain_header _ _ _).
  assert (chain_inv agent w l) as Ha.
  { apply (chain_inv_mono (s_agent s) agent w w l); [|done|exact Hc].
    unfold chain_cas. by rewrite Hloc. }
  pose proof (get_dna_spec agent w l Ha) as Hd. cbn [chain_loc agent new_with_top_chain_header] in Hd.
  destruct (last _) as [h|].
  - destruct Hd as (d & E & Hd). rewrite E. eexists. split; [done|].
    assert (Hd' : cas_map (chain_cas (s_agent s) w) !! h_entry_address h = Some (entry_to_json (Entry.Dna d))).
    { rewrite <- Hd. unfold chain_cas. by rewrite Hloc. }
    split_and!; try done. exists d. split_and!; [done..|]. intros d0 Hd0 Hs. simpl. rewrite Hd0.
    rewrite Hd' in Hs. injection Hs as Hj. apply (f_equal entry_from_json) in Hj.
    rewrite !entry_json_roundtrip in Hj. by injection Hj as ->.
  - destruct Hd as [err E]. rewrite E. eexists. split; [done|]. by split_and!.
Qed.
End snapshots.

(** ** Instances at concrete inputs *)
Module Demo.
#[local] Existing Instance plain_wire.
#[local] Existing Instance plain_payloads.
#[local] Existing Instance open_network.
Import ChainFacts.Demo.

Definition wall (n : nat) : Z := as_i64 (1000000000 * Z.of_nat n).
Lemma wall_i64 n : fits_i64 (wall n).
Proof. apply as_i64_fits. Qed.
Definition state : State (list (JsonProtocol PlainJson)) :=
  MkState nucleus_new slice3 (dht_new 0) network_new ∅.


(** A chain that begins with its DNA. *)
Definition dna_header : ChainHeader := MkHeader EntryType.Dna (address (Entry.Dna dna_new)) [] None None None "0".
Definition dna_cas : MemoryStorage.t := MemoryStorage.Mk (list_to_map
  [(address (Entry.Dna dna_new), content (Entry.Dna dna_new)); (address dna_header, content dna_header)]).
Definition dna_world : World := MkWorld (λ _ : nat, dna_cas) EavMemoryStorage.new 1.
Definition dna_state : State (list (JsonProtocol PlainJson)) :=
  MkState (MkNucleusState NsInitializing ∅ (Some dna_new) ∅ ∅ ∅)
    (new_with_top_chain_header 0 (Some dna_header) "HcAlice") (dht_new 0) network_new ∅.

Lemma dna_chain : chain_inv (s_agent dna_state) dna_world [dna_header].
Proof.
  split; [repeat constructor; vm_compute; reflexivity|]. split; [reflexivity|]. repeat constructor.
  exists (Entry.Dna dna_new). split_and!; vm_compute; reflexivity.
Qed.

Lemma snapshot_restores_witness :
  ∃ s' : State (list (JsonProtocol PlainJson)),
    try_from_snapshots (MkContext agent 1 0) (agent_snapshot (s_agent dna_state))
      (nucleus_snapshot (s_nucleus dna_state)) dna_world = Done (Ok s') ∧
    chain_inv (s_agent s') dna_world [dna_header] ∧ dna (s_nucleus s') = Some dna_new.
Proof.
  destruct (snapshot_restores (MkContext agent 1 0) dna_state dna_world [dna_header])
    as (s' & H1 & H2 & _ & _ & (d & _ & _ & H3) & _).
  - exact dna_chain.
  - reflexivity.
  - exists s'. split; [exact H1|]. split; [exact H2|]. apply (H3 dna_new); vm_compute; reflexivity.
Defined.
End Demo.
