(* ===== verification/Workflow.v ===== *)
(** * Programs of an instance

    The code that runs beside the redux loop of an instance (the workflows of
    [core/src/workflows/], the action creators and the threads they spawn) sees
    the state of the instance through its [Context]: it reads the state, sends
    actions into the channel of the loop, spawns threads, calls into the wasm of
    the DNA and waits for futures that poll the state.  A [Prog] is such a
    program, with one constructor for each of these effects; [block_on] and
    [await!] both run the inner future to its end, so they are the monadic bind.

    [wp] is a program logic for them: what a program guarantees about the actions
    it sends and about its result, whatever the rest of the system does. *)
From S2P Require Import Prelude Errors Strings Eav Entries Cas Protocol Actions Dht Chain Network Nucleus State.

(** ** Callbacks into the DNA

    [core_types/src/validation.rs] and
    [wasm_utils/src/api_serialization/validation.rs]. *)
Inductive EntryLifecycle := LcChain | LcDht | LcMeta.

Record ValidationData := MkValidationData {
  vd_package : ValidationPackage;
  vd_lifecycle : EntryLifecycle;
}.

(** [ValidationData::sources]. *)
Definition sources (d : ValidationData) : list Address :=
  source <$> h_provenances (vp_chain_header (vd_package d)).

Inductive EntryValidationData :=
| EvCreate (entry : Entry.t) (d : ValidationData)
| EvModify (new_entry old_entry : Entry.t) (old_entry_header : ChainHeader) (d : ValidationData)
| EvDelete (old_entry : Entry.t) (old_entry_header : ChainHeader) (d : ValidationData).

Inductive LinkValidationData :=
| LvAdd (l : LinkData) (d : ValidationData)
| LvRemove (l : LinkData) (d : ValidationData).

Inductive LinkDirection := DirTo | DirFrom.

(** The parameters of a callback, before they become JSON. *)
Inductive CallbackParams :=
| CpEntryValidation (d : EntryValidationData)
| CpLinkValidation (entry_type : string) (l : Link) (direction : LinkDirection)
    (d : LinkValidationData)
| CpEntryPackage (app_entry_type : string)
| CpLinkPackage (entry_type link_type : string) (direction : LinkDirection)
| CpReceive (from : Address) (payload : string)
| CpGenesis.

(** [CallbackFnCall]; the unique id that only tells calls apart is left out. *)
Record CallbackFnCall := MkCallbackFnCall {
  cb_zome_name : string;
  cb_fn_name : string;
  cb_parameters : CallbackParams;
}.

(** What the ribosome is asked to run: a zome function for a caller, a callback, or a
    function of some wasm code outside of any node. *)
Inductive WasmCallData :=
| WcZome (call : ZomeFnCall)
| WcCallback (call : CallbackFnCall)
| WcDirect (name : string) (wasm : list Ascii.ascii).

(** [JsonString::is_null]. *)
Definition is_null (json : string) : bool := bool_decide (json = "null").

(** ** Programs *)
Section prog.
Context {wire : Wire} {Json Net : Type}.
Context {C : Type} `{!ContentAddressableStorage C}.
Context {S : Type} `{!EavStorage S}.
Abbreviation World := (@World C S).

(** What [context.state()] gives: the state with the storages it refers to, or
    nothing in a context without a state. *)
Definition View : Type := option (World * State Net).

Inductive Prog (A : Type) : Type :=
| Ret (a : A)
| Panic (why : string)
| GetState (k : View → Prog A)
| Fresh (k : nat → Prog A)
| Dispatch (aw : ActionWrapper Json) (k : Prog A)
| RunDna (call : WasmCallData) (k : HcResult string → Prog A)
| Spawn (t : Prog unit) (k : Prog A)
| Atomic {X : Type} (f : World → outcome (World * X)) (k : X → Prog A)
| Await {X : Type} (poll : View → outcome (option X)) (k : X → Prog A).

End prog.
Arguments Prog Json Net C S A : clear implicits.
Arguments View Net C S : clear implicits.
Arguments Ret {Json Net C S A} a.
Arguments Panic {Json Net C S A} why.
Arguments GetState {Json Net C S A} k.
Arguments Fresh {Json Net C S A} k.
Arguments Dispatch {Json Net C S A} aw k.
Arguments RunDna {Json Net C S A} call k.
Arguments Spawn {Json Net C S A} t k.
Arguments Atomic {Json Net C S A X} f k.
Arguments Await {Json Net C S A X} poll k.

Section monad.
Context {Json Net C S : Type}.
Abbreviation Prog := (Prog Json Net C S).

Fixpoint prog_bind {A B} (f : A → Prog B) (p : Prog A) : Prog B :=
  match p with
  | Ret a => f a
  | Panic why => Panic why
  | GetState k => GetState (λ v, prog_bind f (k v))
  | Fresh k => Fresh (λ id, prog_bind f (k id))
  | Dispatch aw k => Dispatch aw (prog_bind f k)
  | RunDna call k => RunDna call (λ r, prog_bind f (k r))
  | Spawn t k => Spawn t (prog_bind f k)
  | Atomic g k => Atomic g (λ x, prog_bind f (k x))
  | Await poll k => Await poll (λ x, prog_bind f (k x))
  end.

(** One program after the other, for the elements of a list. *)
Fixpoint for_all {A B} (f : A → Prog B) (l : list A) : Prog (list B) :=
  match l with
  | [] => Ret []
  | x :: l => prog_bind (λ y, prog_bind (λ ys, Ret (y :: ys)) (for_all f l)) (f x)
  end.
End monad.

(** Sequencing of programs that do not return early, whatever their results. *)
Notation "x <~ p ; q" := (prog_bind (λ x, q) p)
  (at level 100, p at next level, q at level 200, right associativity).
Notation "p ';~' q" := (prog_bind (λ _, q) p)
  (at level 100, q at level 200, right associativity).

(** A program with a result: [?] returns early with the error. *)
Definition workflow (Json Net C S E A : Type) : Type := Prog Json Net C S (result E A).

#[global] Instance workflow_ret {Json Net C S E} : MRet (workflow Json Net C S E) :=
  λ A a, Ret (Ok a).
#[global] Instance workflow_bind {Json Net C S E} : MBind (workflow Json Net C S E) :=
  λ A B f (m : Prog _ _ _ _ _),
    prog_bind (λ r, match r with Ok a => f a | Err e => Ret (Err e) end) m.

Section basics.
Context {Json Net C S : Type}.
Abbreviation Prog := (Prog Json Net C S).
Abbreviation workflow := (workflow Json Net C S).
Abbreviation View := (View Net C S).

Definition returns {E A} (a : A) : workflow E A := Ret (Ok a).
Definition fails {E A} (e : E) : workflow E A := Ret (Err e).
(** A computation that may panic. *)
Definition computed {A} (o : outcome A) : Prog A :=
  match o with Done a => Ret a | Panicked why => Panic why end.
(** [map_err] with a function that may have effects. *)
Definition mapping_error {E F A} (f : E → Prog F) (m : workflow E A) : workflow F A :=
  r <~ m;
  match r with Ok a => Ret (Ok a) | Err e => e' <~ f e; Ret (Err e') end.

(** [context.state().unwrap()]. *)
Definition the_state : Prog (World * State Net) :=
  GetState (λ v, match v with
                 | Some s => Ret s
                 | None => Panic "called Option::unwrap() on a None value"
                 end).

(** [ActionWrapper::new] and [dispatch_action]. *)
Definition action_new (a : Action Json) : Prog (ActionWrapper Json) :=
  Fresh (λ id, Ret (MkActionWrapper a id)).
Definition dispatch_action (aw : ActionWrapper Json) : Prog unit := Dispatch aw (Ret tt).
Definition dispatch_new (a : Action Json) : Prog (ActionWrapper Json) :=
  aw <~ action_new a; dispatch_action aw ;~ Ret aw.

(** [thread::spawn] and [ribosome::run_dna]. *)
Definition spawn (t : Prog unit) : Prog unit := Spawn t (Ret tt).
Definition run_dna (call : WasmCallData) : workflow HolochainError string := RunDna call Ret.
Definition await {E X} (poll : View → outcome (option (result E X))) : workflow E X :=
  Await poll Ret.

(** Polling a part of the state that must be there. *)
Definition polling {X} (f : World * State Net → outcome (option X)) : View → outcome (option X) :=
  λ v, s ← expect v "called Option::unwrap() on a None value"; f s.

(** Polling a part of the state, pending without a state. *)
Definition polling_if {X} (f : World * State Net → outcome (option X)) :
    View → outcome (option X) :=
  λ v, match v with Some s => f s | None => Done None end.
End basics.

(** ** Runs *)
Section logic.
Context {Json Net C S : Type}.
Abbreviation Prog := (Prog Json Net C S).
Abbreviation View := (View Net C S).
Abbreviation World := (@World C S).

(** What a thread does and observes. *)
Inductive Event :=
| EvState (v : View)
| EvFresh (id : nat)
| EvDispatch (aw : ActionWrapper Json)
| EvDna (call : WasmCallData) (r : HcResult string)
| EvSpawn (t : Prog unit)
| EvWorld (w : World).

(** The latest event comes first. *)
Abbreviation trace := (list Event).

(** One step of a program: a future that is pending does not step. *)
Definition pstep {A} (p : Prog A) (ev : Event) (q : Prog A) : Prop :=
  match p with
  | Ret _ | Panic _ => False
  | GetState k => ∃ v, ev = EvState v ∧ q = k v
  | Fresh k => ∃ id, ev = EvFresh id ∧ q = k id
  | Dispatch aw k => ev = EvDispatch aw ∧ q = k
  | RunDna call k => ∃ r, ev = EvDna call r ∧ q = k r
  | Spawn t k => ev = EvSpawn t ∧ q = k
  | Atomic f k => ∃ w, ev = EvWorld w ∧
      match f w with Done (_, x) => q = k x | Panicked why => q = Panic why end
  | Await poll k => ∃ v, ev = EvState v ∧
      match poll v with
      | Done (Some x) => q = k x
      | Done None => False
      | Panicked why => q = Panic why
      end
  end.

(** A guarantee says which actions may be sent after a trace, and a condition on
    threads which may be spawned. *)
Implicit Type G : trace → ActionWrapper Json → Prop.
Implicit Type T : trace → Prog unit → Prop.

Inductive runs {A} (p : Prog A) : trace → Prog A → Prop :=
| runs_nil : runs p [] p
| runs_step τ q ev q' : runs p τ q → pstep q ev q' → runs p (ev :: τ) q'.

(** A run on given observations, as far as they fit. *)
Inductive input :=
| InView (v : View)
| InId (id : nat)
| InDna (r : HcResult string)
| InGo.

Fixpoint feed {A} (τ : trace) (p : Prog A) (l : list input) {struct l} : trace * Prog A :=
  match l with
  | [] => (τ, p)
  | i :: l =>
      match p, i with
      | GetState k, InView v => feed (EvState v :: τ) (k v) l
      | Fresh k, InId id => feed (EvFresh id :: τ) (k id) l
      | Dispatch aw k, InGo => feed (EvDispatch aw :: τ) k l
      | RunDna call k, InDna r => feed (EvDna call r :: τ) (k r) l
      | Spawn t k, InGo => feed (EvSpawn t :: τ) k l
      | Await poll k, InView v =>
          match poll v with
          | Done (Some x) => feed (EvState v :: τ) (k x) l
          | _ => (τ, p)
          end
      | _, _ => (τ, p)
      end
  end.

Lemma feed_runs {A} (p q : Prog A) τ l :
  runs p τ q → runs p (feed τ q l).1 (feed τ q l).2.
Proof.
  revert τ q. induction l as [|i l IH]; intros τ q Hr; [exact Hr|].
  destruct q, i; simpl; try exact Hr.
  - apply IH. eapply runs_step; [done|]. by eexists.
  - apply IH. eapply runs_step; [done|]. by eexists.
  - apply IH. by eapply runs_step.
  - apply IH. eapply runs_step; [done|]. by eexists.
  - apply IH. by eapply runs_step.
  - destruct (poll v) as [[x|]|] eqn:Hp; try done. apply IH. eapply runs_step; [done|].
    exists v. by rewrite Hp.
Qed.

(** A program that only reads, run on a state that does not change: its result, or
    [None] when it does anything else or waits forever. *)
Fixpoint observe {A} (v : View) (p : Prog A) : option (outcome A) :=
  match p with
  | Ret a => Some (Done a)
  | Panic why => Some (Panicked why)
  | GetState k => observe v (k v)
  | Await poll k =>
      match poll v with
      | Done (Some x) => observe v (k x)
      | Done None => None
      | Panicked why => Some (Panicked why)
      end
  | _ => None
  end.

Lemma observe_bind {A B} v (p : Prog A) (f : A → Prog B) :
  observe v (prog_bind f p) =
  match observe v p with
  | Some (Done a) => observe v (f a)
  | Some (Panicked why) => Some (Panicked why)
  | None => None
  end.
Proof.
  revert f. induction p as [A a|A why|A k IH|A k IH|A aw k IH|A call k IH|A t _ k IH|A X g k IH|A X poll k IH];
    intros f; simpl; auto.
  destruct (poll v) as [[x|]|why]; auto.
Qed.

(** It is a run in which every event reads that state. *)
Lemma observe_runs {A} v (p : Prog A) a :
  observe v p = Some (Done a) → ∃ τ, runs p τ (Ret a) ∧ Forall (λ ev, ev = EvState v) τ.
Proof.
  assert (∀ q : Prog A, ∀ τ, runs p τ q → Forall (λ ev, ev = EvState v) τ →
    observe v q = Some (Done a) → ∃ τ, runs p τ (Ret a) ∧ Forall (λ ev, ev = EvState v) τ) as H.
  2: { intros Ho. by apply (H p []); [constructor| |]. }
  induction q as [A a'|A why|A k IH|A k IH|A aw k IH|A call k IH|A t _ k IH|A X g k IH|A X poll k IH];
    intros τ Hr Hf Ho; simpl in Ho; try done.
  - injection Ho as [= ->]. by exists τ.
  - apply (IH v _ _ (EvState v :: τ)); [|by constructor|done]. eapply runs_step; [done|]. by exists v.
  - destruct (poll v) as [[x|]|why] eqn:Hp; try done.
    apply (IH x _ _ (EvState v :: τ)); [|by constructor|done]. eapply runs_step; [done|].
    exists v. by rewrite Hp.
Qed.

(** ** The logic

    [wp G T p Q τ]: after [τ], and whatever it observes, [p] sends only actions
    that [G] allows, spawns only threads that [T] allows and returns only what [Q]
    allows. *)
Fixpoint wp {A : Type} G T (p : Prog A) (Q : A → trace → Prop) (τ : trace) : Prop :=
  match p with
  | Ret a => Q a τ
  | Panic _ => True
  | GetState k => ∀ v, wp G T (k v) Q (EvState v :: τ)
  | Fresh k => ∀ id, wp G T (k id) Q (EvFresh id :: τ)
  | Dispatch aw k => G τ aw ∧ wp G T k Q (EvDispatch aw :: τ)
  | RunDna call k => ∀ r, wp G T (k r) Q (EvDna call r :: τ)
  | Spawn t k => T τ t ∧ wp G T k Q (EvSpawn t :: τ)
  | Atomic f k => ∀ w, match f w with
                       | Done (_, x) => wp G T (k x) Q (EvWorld w :: τ)
                       | Panicked _ => True
                       end
  | Await poll k => ∀ v, match poll v with
                         | Done (Some x) => wp G T (k x) Q (EvState v :: τ)
                         | _ => True
                         end
  end.

(** [only P p]: every action sent by [p], or by a thread it spawns, satisfies [P]. *)
Fixpoint only {A : Type} (P : Action Json → Prop) (p : Prog A) : Prop :=
  match p with
  | Ret _ | Panic _ => True
  | GetState k => ∀ v, only P (k v)
  | Fresh k => ∀ id, only P (k id)
  | Dispatch aw k => P (aw_action aw) ∧ only P k
  | RunDna call k => ∀ r, only P (k r)
  | Spawn t k => only P t ∧ only P k
  | Atomic f k => ∀ x, only P (k x)
  | Await poll k => ∀ x, only P (k x)
  end.

Lemma wp_step {A} G T (p q : Prog A) Q τ ev :
  wp G T p Q τ → pstep p ev q → wp G T q Q (ev :: τ).
Proof.
  destruct p; simpl.
  - done.
  - done.
  - intros H (v & -> & ->). by apply H.
  - intros H (id & -> & ->). by apply H.
  - by intros [_ H] [-> ->].
  - intros H (r & -> & ->). by apply H.
  - by intros [_ H] [-> ->].
  - intros H (w & -> & Hf). specialize (H w). repeat case_match; by subst.
  - intros H (v & -> & Hf). specialize (H v). repeat case_match; by subst.
Qed.

Lemma wp_dispatch {A} G T (p q : Prog A) Q τ aw :
  wp G T p Q τ → pstep p (EvDispatch aw) q → G τ aw.
Proof. destruct p; naive_solver. Qed.

Lemma wp_spawn {A} G T (p q : Prog A) Q τ t :
  wp G T p Q τ → pstep p (EvSpawn t) q → T τ t.
Proof. destruct p; naive_solver. Qed.

(** Every action of a trace was allowed when it was sent, and every thread when it
    was spawned. *)
Definition obeys G T (τ : trace) : Prop :=
  ∀ τ1 ev τ2, τ = τ2 ++ ev :: τ1 →
    match ev with
    | EvDispatch aw => G τ1 aw
    | EvSpawn t => T τ1 t
    | _ => True
    end.

Lemma obeys_nil G T : obeys G T [].
Proof. intros τ1 aw τ2. by destruct τ2. Qed.

Lemma obeys_cons G T ev τ :
  match ev with EvDispatch aw => G τ aw | EvSpawn t => T τ t | _ => True end →
  obeys G T τ → obeys G T (ev :: τ).
Proof.
  intros H1 H2 τ1 ev' [|ev2 τ2] E; simplify_eq/=; [by apply H1|]. by eapply H2.
Qed.

Lemma obeys_dispatch G T τ aw :
  obeys G T τ → EvDispatch aw ∈ τ → ∃ τ1 τ2, τ = τ2 ++ EvDispatch aw :: τ1 ∧ G τ1 aw.
Proof.
  intros H (τ2 & τ1 & ->)%list_elem_of_split. exists τ1, τ2. split; [done|].
  exact (H τ1 _ τ2 eq_refl).
Qed.

Lemma obeys_spawn G T τ t :
  obeys G T τ → EvSpawn t ∈ τ → ∃ τ1 τ2, τ = τ2 ++ EvSpawn t :: τ1 ∧ T τ1 t.
Proof.
  intros H (τ2 & τ1 & ->)%list_elem_of_split. exists τ1, τ2. split; [done|].
  exact (H τ1 _ τ2 eq_refl).
Qed.

(** Soundness. *)
Lemma wp_runs {A} G T (p q : Prog A) Q τ :
  wp G T p Q [] → runs p τ q → wp G T q Q τ ∧ obeys G T τ.
Proof.
  intros Hp. induction 1 as [|τ q ev q' _ [Hw Ho] Hstep].
  - split; [done|apply obeys_nil].
  - split; [by eapply wp_step|]. apply obeys_cons; [|done].
    destruct ev; try done; [by eapply wp_dispatch|by eapply wp_spawn].
Qed.

(** ** Rules *)
Lemma wp_mono {A} G T (p : Prog A) (Q Q' : A → trace → Prop) τ :
  (∀ a τ', Q a τ' → Q' a τ') → wp G T p Q τ → wp G T p Q' τ.
Proof.
  intros HQ. revert Q Q' τ HQ.
  induction p as [A a|A why|A k IH|A k IH|A aw k IH|A call k IH|A t _ k IH|A X f k IH|A X poll k IH];
    intros Q Q' τ HQ; simpl.
  - apply HQ.
  - done.
  - intros H v. by eapply IH, H.
  - intros H id. by eapply IH, H.
  - intros [H1 H2]. split; [done|]. by eapply IH.
  - intros H r. by eapply IH, H.
  - intros [H1 H2]. split; [done|]. by eapply IH.
  - intros H w. specialize (H w). repeat case_match; [|done]. by eapply IH.
  - intros H v. specialize (H v). repeat case_match; [|done..]. by eapply IH.
Qed.

Lemma wp_bind {A B} G T (p : Prog A) (f : A → Prog B) Q τ :
  wp G T p (λ a τ', wp G T (f a) Q τ') τ → wp G T (prog_bind f p) Q τ.
Proof.
  revert f τ.
  induction p as [A a|A why|A k IH|A k IH|A aw k IH|A call k IH|A t _ k IH|A X g k IH|A X poll k IH];
    intros f τ; simpl.
  - done.
  - done.
  - intros H v. by apply IH, H.
  - intros H id. by apply IH, H.
  - intros [H1 H2]. split; [done|]. by apply IH.
  - intros H r. by apply IH, H.
  - intros [H1 H2]. split; [done|]. by apply IH.
  - intros H w. specialize (H w). repeat case_match; [|done]. by apply IH.
  - intros H v. specialize (H v). repeat case_match; [|done..]. by apply IH.
Qed.

Lemma only_bind {A B} P (p : Prog A) (f : A → Prog B) :
  only P p → (∀ a, only P (f a)) → only P (prog_bind f p).
Proof.
  revert f.
  induction p as [A a|A why|A k IH|A k IH|A aw k IH|A call k IH|A t _ k IH|A X g k IH|A X poll k IH];
    intros f; simpl; try naive_solver.
Qed.

Lemma subseteq_later (ev : Event) (τ τ' : trace) : τ ⊆ τ' → τ ⊆ ev :: τ'.
Proof. set_solver. Qed.

(** A program whose actions all have [P] can be used without looking inside. *)
Lemma wp_only {A} P G T (p : Prog A) (Q : A → trace → Prop) τ :
  (∀ τ aw, P (aw_action aw) → G τ aw) → (∀ τ t, only P t → T τ t) →
  only P p → (∀ a τ', τ ⊆ τ' → Q a τ') →
  wp G T p Q τ.
Proof.
  intros HG HT Hp HQ.
  assert (∀ τ', τ ⊆ τ' → wp G T p Q τ') as H; [|by apply H].
  revert τ Q HQ Hp.
  induction p as [A a|A why|A k IH|A k IH|A aw k IH|A call k IH|A t _ k IH|A X g k IH|A X poll k IH];
    intros τ Q HQ Hp τ' He; simpl in *.
  - by apply HQ.
  - done.
  - intros v. eapply IH; [done..|]. by apply subseteq_later.
  - intros id. eapply IH; [done..|]. by apply subseteq_later.
  - destruct Hp. split; [by apply HG|]. eapply IH; [done..|]. by apply subseteq_later.
  - intros r. eapply IH; [done..|]. by apply subseteq_later.
  - destruct Hp. split; [by apply HT|]. eapply IH; [done..|]. by apply subseteq_later.
  - intros w. repeat case_match; [|done]. eapply IH; [done..|]. by apply subseteq_later.
  - intros v. repeat case_match; [|done..]. eapply IH; [done..|]. by apply subseteq_later.
Qed.

Lemma wp_try {E A B} G T (m : workflow Json Net C S E A) (f : A → workflow Json Net C S E B) Q τ :
  wp G T (m : Prog _)
    (λ r τ', match r with Ok a => wp G T (f a : Prog _) Q τ' | Err e => Q (Err e) τ' end) τ →
  wp G T (m ≫= f : workflow Json Net C S E B) Q τ.
Proof.
  intros H. apply wp_bind. eapply wp_mono; [|exact H]. intros [a|e] τ'; simpl; auto.
Qed.

Lemma wp_getstate {A} G T (k : View → Prog A) Q τ :
  (∀ v, wp G T (k v) Q (EvState v :: τ)) → wp G T (GetState k) Q τ.
Proof. done. Qed.

Lemma wp_the_state G T Q τ :
  (∀ w s, Q (w, s) (EvState (Some (w, s)) :: τ)) → wp G T (the_state : Prog _) Q τ.
Proof. intros HQ [[w s]|]; [apply HQ|done]. Qed.

Lemma wp_wait {X} G T (poll : View → outcome (option X)) Q τ :
  (∀ r τ', Q r τ') → wp G T (Await poll Ret : Prog _) Q τ.
Proof. intros HQ v. destruct (poll v) as [[r|]|]; [apply HQ|done..]. Qed.

Lemma only_try {E A B} P (m : workflow Json Net C S E A) (f : A → workflow Json Net C S E B) :
  only P (m : Prog _) → (∀ a, only P (f a : Prog _)) →
  only P (m ≫= f : workflow Json Net C S E B).
Proof. intros Hm Hf. apply only_bind; [done|]. intros [a|e]; [apply Hf|done]. Qed.
End logic.

(** ** The basic programs send nothing but the action given *)
Create HintDb only.

Section only_basics.
Context {Json Net C S : Type} (P : Action Json → Prop).
Abbreviation Prog := (Prog Json Net C S).

Lemma only_ret {A} (a : A) : only P (Ret a : Prog A).
Proof. done. Qed.
Lemma only_computed {A} (o : outcome A) : only P (computed o : Prog A).
Proof. by destruct o. Qed.
Lemma only_the_state : only P (the_state : Prog _).
Proof. by intros [?|]. Qed.
Lemma only_getstate {A} (k : View Net C S → Prog A) :
  (∀ v, only P (k v)) → only P (GetState k).
Proof. done. Qed.
Lemma only_dispatch_new a : P a → only P (dispatch_new a : Prog _).
Proof. done. Qed.
Lemma only_spawn t : only P t → only P (spawn t : Prog unit).
Proof. done. Qed.
Lemma only_await {E A} (poll : View Net C S → outcome (option (result E A))) :
  only P (await poll : Prog _).
Proof. done. Qed.
Lemma only_mapping_error {E F A} (f : E → Prog F) (m : workflow Json Net C S E A) :
  only P (m : Prog _) → (∀ e, only P (f e)) → only P (mapping_error f m : Prog _).
Proof.
  intros Hm Hf. apply only_bind; [done|]. intros [a|e]; [done|]. by apply only_bind.
Qed.
Lemma only_for_all {A B} (f : A → Prog B) l : (∀ x, only P (f x)) → only P (for_all f l).
Proof.
  intros Hf. induction l as [|x l IH]; [done|]. apply only_bind; [done|]. intros y.
  by apply only_bind.
Qed.
End only_basics.
#[export] Hint Resolve only_ret only_computed only_the_state only_getstate only_dispatch_new
  only_spawn only_await only_mapping_error only_for_all : only.

(** Through binds and case distinctions to the basic programs. *)
Ltac solve_only :=
  repeat match goal with
  | |- only _ (prog_bind _ _) => apply only_bind
  | |- only _ (mbind _ _) => apply only_try
  | |- only _ (match ?x with _ => _ end) => destruct x
  | |- only _ (spawn _) => apply only_spawn
  | |- only _ (mapping_error _ _) => apply only_mapping_error
  | |- only _ (for_all _ _) => apply only_for_all
  | |- only _ (GetState _) => apply only_getstate
  | |- only _ (dispatch_new _) => apply only_dispatch_new; exact I
  | |- only _ (Fresh Ret) => done
  | |- only _ (Atomic _ Ret) => done
  | |- only _ (returns _) => exact I
  | |- only _ (fails _) => exact I
  | |- only _ (Panic _) => exact I
  | |- only _ (let _ := _ in _) => cbv zeta
  | |- ∀ _, _ => intros ?
  | _ => solve [eauto 3 with only]
  end.

(** An event of a trace that is written out, and a trace that continues another. *)
Ltac in_trace := repeat first [by apply list_elem_of_here|apply list_elem_of_further]; done.
Ltac continues := repeat apply subseteq_later; done.
