(* ===== verification/Lookup.v ===== *)
(** * Looking up entries and links

    [core/src/workflows/get_entry_result.rs] and [get_link_result.rs] with the
    action creators [core/src/network/actions/get_entry.rs] and [get_links.rs]
    they use, and the results of
    [wasm_utils/src/api_serialization/get_entry.rs] and [get_links.rs]. *)
From S2P Require Import Prelude Errors Strings Time Eav Entries Cas Protocol Actions Dht Chain Network Nucleus State Workflow.

(** ** Requests and results *)
Inductive StatusRequestKind := SrkInitial | SrkLatest | SrkAll.

#[global] Instance StatusRequestKind_eq_dec : EqDecision StatusRequestKind.
Proof. solve_decision. Defined.

Record GetEntryOptions := MkGetEntryOptions {
  geo_status_request : StatusRequestKind;
  geo_entry : bool;
  geo_headers : bool;
  geo_timeout : Timeout;
}.

Definition get_entry_options_default : GetEntryOptions :=
  MkGetEntryOptions SrkLatest true false timeout_default.

Record GetEntryArgs := MkGetEntryArgs { gea_address : Address; gea_options : GetEntryOptions }.

Record EntryResultMeta := MkEntryResultMeta {
  erm_address : Address;
  erm_entry_type : EntryType.t;
  erm_crud_status : CrudStatus.t;
}.

Record GetEntryResultItem := MkGetEntryResultItem {
  geri_meta : option EntryResultMeta;
  geri_entry : option Entry.t;
  geri_headers : list ChainHeader;
}.

Record EntryHistory := MkEntryHistory {
  eh_items : list GetEntryResultItem;
  eh_crud_links : gmap Address Address;
}.

Inductive GetEntryResult :=
| GerSingle (item : GetEntryResultItem)
| GerAll (history : EntryHistory).

Section results.
Context {wire : Wire}.

(** [GetEntryResultItem::new]. *)
Definition item_new (o : option (EntryWithMeta * list ChainHeader)) : GetEntryResultItem :=
  match o with
  | Some (ewm, headers) =>
      MkGetEntryResultItem
        (Some (MkEntryResultMeta (address (ewm_entry ewm)) (Entry.entry_type (ewm_entry ewm))
                 (ewm_crud_status ewm)))
        (Some (ewm_entry ewm)) headers
  | None => MkGetEntryResultItem None None []
  end.

(** [EntryHistory::push]. *)
Definition history_push (h : EntryHistory) (ewm : EntryWithMeta) (headers : list ChainHeader) :
    EntryHistory :=
  MkEntryHistory (eh_items h ++ [item_new (Some (ewm, headers))])
    match ewm_maybe_link_update_delete ewm with
    | Some new_address => <[address (ewm_entry ewm) := new_address]> (eh_crud_links h)
    | None => eh_crud_links h
    end.

(** [GetEntryResult::push], [new], [found], [clear] and [latest]. *)
Definition result_push (r : GetEntryResult) (ewm : EntryWithMeta) (headers : list ChainHeader) :
    GetEntryResult :=
  match r with
  | GerSingle _ => GerSingle (item_new (Some (ewm, headers)))
  | GerAll history => GerAll (history_push history ewm headers)
  end.

Definition result_new (kind : StatusRequestKind)
    (o : option (EntryWithMeta * list ChainHeader)) : GetEntryResult :=
  match kind with
  | SrkAll =>
      let r := GerAll (MkEntryHistory [] ∅) in
      match o with Some (ewm, headers) => result_push r ewm headers | None => r end
  | _ => GerSingle (item_new o)
  end.

Definition result_found (r : GetEntryResult) : bool :=
  match r with
  | GerSingle item => is_some (geri_meta item)
  | GerAll history => negb (bool_decide (eh_items history = []))
  end.

Definition result_clear (r : GetEntryResult) : GetEntryResult :=
  match r with
  | GerSingle _ => GerSingle (item_new None)
  | GerAll history => GerAll (MkEntryHistory [] (eh_crud_links history))
  end.

Definition result_latest (r : GetEntryResult) : option Entry.t :=
  match r with
  | GerSingle item => geri_entry item
  | GerAll history => last (eh_items history) ≫= geri_entry
  end.
End results.

Inductive LinksStatusRequestKind := LsrLive | LsrDeleted | LsrAll.

#[global] Instance LinksStatusRequestKind_eq_dec : EqDecision LinksStatusRequestKind.
Proof. solve_decision. Defined.

Record GetLinksOptions := MkGetLinksOptions {
  glo_status_request : LinksStatusRequestKind;
  glo_headers : bool;
  glo_timeout : Timeout;
}.

Record GetLinksArgs := MkGetLinksArgs {
  gla_entry_address : Address;
  gla_link_type : option string;
  gla_tag : option string;
  gla_options : GetLinksOptions;
}.

Record LinksResult := MkLinksResult {
  lr_address : Address;
  lr_headers : list ChainHeader;
  lr_tag : string;
}.

(** ** Workflows

    [id_text] is the text of a process-unique id, [debug_errors] the derived
    [Debug] text of the failed lookups. *)
Section lookup.
Context {wire : Wire} {Json Net : Type}.
Context {C : Type} `{!ContentAddressableStorage C}.
Context {S : Type} `{!EavStorage S}.
Context (id_text : nat → string) (debug_errors : list HolochainError → string).
Abbreviation Prog := (Prog Json Net C S).
Abbreviation workflow := (workflow Json Net C S HolochainError).

(** [GetEntryFuture::poll] and [GetLinksFuture::poll]. *)
Definition get_entry_future (key : GetEntryKey) : View Net C S → outcome
    (option (HcResult (option EntryWithMetaAndHeader))) :=
  polling (λ ws, Done (poll_get_entry key (s_network ws.2))).

Definition get_links_future (key : GetLinksKey) : View Net C S → outcome
    (option (HcResult (list Address))) :=
  polling (λ ws, Done (poll_get_links key (s_network ws.2))).

(** [network::actions::get_entry::get_entry]: a thread sleeps for the timeout,
    that is any time, and then gives the request up. *)
Definition network_get_entry (a : Address) (timeout : Timeout) :
    workflow (option EntryWithMetaAndHeader) :=
  id <~ Fresh Ret;
  let key := MkGetEntryKey a (id_text id) in
  dispatch_new (AFetchEntry key) ;~
  spawn (dispatch_new (AGetEntryTimeout key) ;~ Ret tt) ;~
  await (get_entry_future key).

(** [network::actions::get_links::get_links]. *)
Definition network_get_links (a : Address) (link_type tag : option string) (timeout : Timeout) :
    workflow (list Address) :=
  id <~ Fresh Ret;
  let key := MkGetLinksKey a link_type tag (id_text id) in
  dispatch_new (AGetLinks key) ;~
  spawn (dispatch_new (AGetLinksTimeout key) ;~ Ret tt) ;~
  await (get_links_future key).

(** [nucleus::actions::get_entry::get_entry_with_meta], which reads the state
    once for the entry and once for its metadata. *)
Definition read_entry_with_meta (a : Address) : workflow (option EntryWithMeta) :=
  ws <~ the_state;
  match get_entry_from_dht (s_dht ws.2) ws.1 a with
  | Err err => fails err
  | Ok None => returns None
  | Ok (Some entry) =>
      ws <~ the_state;
      crud ← (computed (get_entry_crud_meta_from_dht ws.1 a) : workflow _);
      returns match crud with
           | Some (crud_status, maybe_link) =>
               Some (MkEntryWithMeta entry crud_status maybe_link)
           | None => None
           end
  end.

(** [get_entry_with_meta_workflow]: the local shard, then the network. *)
Definition get_entry_with_meta_workflow (a : Address) (timeout : Timeout) :
    workflow (option EntryWithMetaAndHeader) :=
  maybe_entry_with_meta ← read_entry_with_meta a;
  match maybe_entry_with_meta with
  | None => network_get_entry a timeout
  | Some entry =>
      GetState (λ v,
        match v with
        | None => fails (ErrorGeneric "Could not get state")
        | Some (w, s) =>
            headers <~ computed (state_get_headers s w a);
            match headers with
            | Ok headers => returns (Some (MkEntryWithMetaAndHeader entry headers))
            | Err _ => network_get_entry a timeout
            end
        end)
  end.

(** The loop of [get_entry_result_workflow]: it follows the update links for as
    long as there is one, here for at most [steps] entries. *)
Fixpoint get_entry_loop (steps : nat) (options : GetEntryOptions) (entry_result : GetEntryResult)
    (a : Address) : workflow GetEntryResult :=
  match steps with
  | O => Panic "does not return"
  | Datatypes.S steps =>
      maybe_entry ← get_entry_with_meta_workflow a (geo_timeout options);
      match maybe_entry with
      | None => returns entry_result
      | Some e =>
          let ewm := ewmh_entry_with_meta e in
          if decide (geo_status_request options = SrkLatest ∧
                     ewm_crud_status ewm = CrudStatus.Deleted)
          then returns (result_clear entry_result)
          else
            let entry_result := result_push entry_result ewm
              (if geo_headers options then ewmh_headers e else []) in
            if decide (geo_status_request options = SrkInitial) then returns entry_result
            else
              match ewm_maybe_link_update_delete ewm with
              | Some next =>
                  if decide (ewm_crud_status ewm ≠ CrudStatus.Deleted)
                  then get_entry_loop steps options entry_result next
                  else returns entry_result
              | None => returns entry_result
              end
      end
  end.

Definition get_entry_result_workflow (steps : nat) (args : GetEntryArgs) :
    workflow GetEntryResult :=
  get_entry_loop steps (gea_options args)
    (result_new (geo_status_request (gea_options args)) None) (gea_address args).

(** The entry behind one link. *)
Definition link_result (options : GetLinksOptions) (link : Address) :
    Prog (HcResult LinksResult) :=
  r <~ get_entry_with_meta_workflow link (glo_timeout options);
  Ret match r with
      | Ok (Some e) =>
          match ewm_entry (ewmh_entry_with_meta e) with
          | Entry.LinkAdd link_data =>
              Ok (MkLinksResult (target (Entries.link link_data))
                    (if glo_headers options then ewmh_headers e else [])
                    (tag (Entries.link link_data)))
          | _ => Err (ErrorGeneric ("Unknown Error retrieveing link. Most likely EAV entry " +:+
                                    "points to non-link entry type"))
          end
      | Ok None => Err (ErrorGeneric
          ("Could not get link entry for address stored in the EAV entry " +:+ link))
      | Err e => Err (ErrorGeneric ("Error retrieveing link: " +:+ debug_error e))
      end.

Definition is_err {E A} (r : result E A) : option E :=
  match r with Ok _ => None | Err e => Some e end.

(** [get_link_result_workflow]. *)
Definition get_link_result_workflow (args : GetLinksArgs) : workflow (list LinksResult) :=
  if decide (glo_status_request (gla_options args) ≠ LsrLive) then
    fails (ErrorGeneric "Status rather than live not implemented")
  else
    links ← network_get_links (gla_entry_address args) (gla_link_type args) (gla_tag args)
              (glo_timeout (gla_options args));
    results <~ for_all (link_result (gla_options args)) links;
    match omap is_err results with
    | [] => returns (omap ok results)
    | errors => fails (ErrorGeneric ("Could not get links: " +:+ debug_errors errors))
    end.
End lookup.
