(* ===== verification/Validation.v ===== *)
(** * Validation

    [core/src/nucleus/validation/], the callbacks it runs
    ([core/src/nucleus/actions/run_validation_callback.rs],
    [core/src/nucleus/ribosome/callback/links_utils.rs] and
    [validation_package.rs]), the construction of validation packages
    ([core/src/nucleus/actions/build_validation_package.rs]), and
    [core/src/entry/mod.rs]. *)
From S2P Require Import Prelude Errors Strings Time Eav Entries Cas Protocol Actions Dht Chain Network Nucleus State Workflow Lookup.

(** base64, hcid and libsodium. *)
Class Crypto := {
  base64_encode : list Ascii.ascii → string;
  base64_decode : string → option (list Ascii.ascii);
  decode_pub_key : string → HcResult (list Ascii.ascii);
  sign_verify (signature message public_key : list Ascii.ascii) : bool;
  base64_roundtrip bytes : base64_decode (base64_encode bytes) = Some bytes;
}.

(** [dpki::utils::verify], with [verify_bufs], and [Verify for Provenance]. *)
Definition verify `{Crypto} (source data signature : string) : HcResult bool :=
  signature_bytes ← ok_or (base64_decode signature)
    (ErrorGeneric "Signature syntactically invalid");
  pub_key ← decode_pub_key source;
  Ok (sign_verify signature_bytes (String.list_ascii_of_string data) pub_key).

Definition provenance_verify `{Crypto} (p : Provenance) (data : string) : HcResult bool :=
  verify (source p) data (signature p).

(** serde on the definitions of validation packages, which the wasm of the DNA
    returns as text, and a derived [Debug] text. *)
Class CallbackText := {
  vpd_to_json : ValidationPackageDefinition → string;
  vpd_of_json : string → option ValidationPackageDefinition;
  debug_entry_type : EntryType.t → string;
  vpd_json_roundtrip d : vpd_of_json (vpd_to_json d) = Some d;
  vpd_json_not_null d : vpd_to_json d ≠ "null";
}.

(** ** Checks without effects *)

(** [validate_header_address]. *)
Definition validate_header_address {wire : Wire} (entry : Entry.t) (header : ChainHeader) :
    ValidationResult :=
  if decide (address entry = h_entry_address header) then Ok tt
  else Err (VeFail "Wrong header for entry").

(** One step of [validate_provenances]. *)
Definition validate_provenance `{Crypto} (header : ChainHeader) (p : Provenance) :
    ValidationResult :=
  match provenance_verify p (h_entry_address header) with
  | Err _ => Err (VeFail ("Signature of entry " +:+ h_entry_address header +:+ " from author "
      +:+ source p +:+ " failed to verify public signing key. Key might be invalid."))
  | Ok true => Ok tt
  | Ok false => Err (VeFail ("Signature of entry " +:+ h_entry_address header +:+
      " from author " +:+ source p +:+ " invalid"))
  end.

(** [validate_provenances]. *)
Definition validate_provenances `{Crypto} (d : ValidationData) : ValidationResult :=
  let header := vp_chain_header (vd_package d) in
  collect_results (validate_provenance header) (h_provenances header) ;;
  Ok tt.

(** [LinkDefinitionPath]. *)
Record LinkDefinitionPath := MkLinkDefinitionPath {
  ldp_zome_name : string;
  ldp_entry_type_name : string;
  ldp_direction : LinkDirection;
  ldp_link_type : string;
}.

(** The definition among those of an app entry type; a system type has none. *)
Definition definition_of (d : Dna) (t : EntryType.t) (direction : LinkDirection)
    (find_in : EntryTypeDef → option string) : outcome (HcResult (option LinkDefinitionPath)) :=
  match t with
  | EntryType.App app_entry_type =>
      def ← get_entry_type_def d app_entry_type;
      match def with
      | None => Done (Err (ErrorGeneric "Unknown entry type"))
      | Some def =>
          match find_in def with
          | None => Done (Ok None)
          | Some link_type =>
              zome_name ← get_zome_name_for_app_entry_type d app_entry_type;
              Done (Ok match zome_name with
                       | Some z => Some (MkLinkDefinitionPath z app_entry_type direction link_type)
                       | None => None
                       end)
          end
      end
  | _ => Done (Ok None)
  end.

(** [find_link_definition_in_dna], once the DNA is known.  The argument of [or]
    is evaluated in any case, with its early return. *)
Definition find_link_definition (d : Dna) (base_type : EntryType.t) (link_type : string)
    (target_type : EntryType.t) : outcome (HcResult LinkDefinitionPath) :=
  to_def ← definition_of d base_type DirTo (λ def, lt_link_type <$> List.find (λ l,
    bool_decide (lt_target_type l = EntryType.to_string target_type) &&
    bool_decide (lt_link_type l = link_type)) (etd_links_to def));
  match to_def with
  | Err e => Done (Err e)
  | Ok to_def =>
      from_def ← definition_of d target_type DirFrom (λ def, lf_link_type <$> List.find (λ l,
        bool_decide (lf_base_type l = EntryType.to_string base_type) &&
        bool_decide (lf_link_type l = link_type)) (etd_linked_from def));
      match from_def with
      | Err e => Done (Err e)
      | Ok from_def =>
          Done (ok_or match to_def with Some p => Some p | None => from_def end
                  (ErrorGeneric "Unknown entry type"))
      end
  end.

(** What a validation callback's answer means. *)
Definition callback_verdict (r : HcResult string) : ValidationResult :=
  match r with
  | Ok call_result => if is_null call_result then Ok tt else Err (VeFail call_result)
  | Err (RibosomeFailed error_string) =>
      if decide (error_string = "Argument deserialization failed")
      then Err (VeError "JSON object does not match entry schema")
      else Err (VeError error_string)
  | Err error => Err (VeError (HolochainError_fmt error))
  end.

(** ** Validation workflows *)
Section validation.
Context {wire : Wire} {Json Net : Type}.
Context {C : Type} `{!ContentAddressableStorage C}.
Context {S : Type} `{!EavStorage S}.
Context {crypto : Crypto} {cbtext : CallbackText}.
Context (clock : nat → Z) (sign : nat → string → HcResult string) (iso8601 : Z → string).
Context (id_text : nat → string) (steps : nat).
Abbreviation Prog := (Prog Json Net C S).
Abbreviation workflow := (workflow Json Net C S).
Abbreviation World := (@World C S).

(** [Context::get_dna] reads the state up to twelve times until there is a DNA. *)
Fixpoint context_get_dna_tries (tries : nat) : Prog (option Dna) :=
  GetState (λ v,
    match v with
    | None => Panic "Callback called without application state!"
    | Some (_, s) =>
        match dna (s_nucleus s), tries with
        | Some d, _ => Ret (Some d)
        | None, O => Ret None
        | None, Datatypes.S tries => context_get_dna_tries tries
        end
    end).

Definition context_get_dna : Prog (option Dna) := context_get_dna_tries 11.

Definition expect_dna (why : string) : Prog Dna :=
  d <~ context_get_dna; computed (expect d why).

(** [CanPublish for EntryType]. *)
Definition can_publish (t : EntryType.t) : Prog bool :=
  match t with
  | EntryType.Dna | EntryType.CapTokenGrant | EntryType.CapTokenClaim => Ret false
  | _ =>
      if EntryType.is_sys t then Ret true
      else
        d <~ expect_dna "DNA must be present to test if entry is publishable.";
        maybe_def <~ computed (get_entry_type_def d (EntryType.to_string t));
        Ret match maybe_def with
            | None => false
            | Some def => sharing_can_publish (etd_sharing def)
            end
  end.

(** [links_utils::get_link_entries]. *)
Definition get_link_entries (l : Link) : workflow HolochainError (Entry.t * Entry.t) :=
  base_result ← get_entry_result_workflow id_text steps
    (MkGetEntryArgs (base l) get_entry_options_default);
  if negb (result_found base_result) then fails (ErrorGeneric "Base for link not found")
  else
    base_entry <~ computed (expect (result_latest base_result) "unwrap on None");
    target_result ← get_entry_result_workflow id_text steps
      (MkGetEntryArgs (target l) get_entry_options_default);
    if negb (result_found target_result) then fails (ErrorGeneric "Target for link not found")
    else
      target_entry <~ computed (expect (result_latest target_result) "unwrap on None");
      returns (base_entry, target_entry).

(** [links_utils::find_link_definition_in_dna]. *)
Definition find_link_definition_in_dna (base_type : EntryType.t) (link_type : string)
    (target_type : EntryType.t) : workflow HolochainError LinkDefinitionPath :=
  d <~ expect_dna "No DNA found?!";
  computed (find_link_definition d base_type link_type target_type).

(** [ValidationCallbackFuture::poll]. *)
Definition validation_callback_future (key : nat * Address) :
    View Net C S → outcome (option ValidationResult) :=
  polling_if (λ ws, Done (validation_results (s_nucleus ws.2) !! key)).

(** The thread of [run_validation_callback]. *)
Definition validation_thread (key : nat * Address) (call : CallbackFnCall) : Prog unit :=
  r <~ run_dna (WcCallback call);
  dispatch_new (AReturnValidationResult key (callback_verdict r)) ;~ Ret tt.

Definition run_validation_callback (a : Address) (call : CallbackFnCall) :
    workflow ValidationError unit :=
  id <~ Fresh Ret;
  spawn (validation_thread (id, a) call) ;~
  await (validation_callback_future (id, a)).

(** [get_entry_with_header]. *)
Definition get_entry_with_header (a : Address) :
    workflow HolochainError (EntryWithMeta * ChainHeader) :=
  pair ← get_entry_with_meta_workflow id_text a timeout_default;
  match pair with
  | None => fails (ErrorGeneric "Could not get chain")
  | Some e =>
      match last (ewmh_headers e) with
      | None => fails (ErrorGeneric "Could not get last entry from chain")
      | Some latest_header => returns (ewmh_entry_with_meta e, latest_header)
      end
  end.

(** [entry_to_validation_data]. *)
Definition entry_to_validation_data (entry : Entry.t) (maybe_link_update_delete : option Address)
    (validation_data : ValidationData) : workflow HolochainError EntryValidationData :=
  match entry with
  | Entry.App _ _ =>
      match maybe_link_update_delete with
      | Some link_update =>
          r <~ get_entry_with_header link_update;
          Ret match r with
              | Ok (old, header) => Ok (EvModify entry (ewm_entry old) header validation_data)
              | Err _ => Err (ErrorGeneric "Could not find Entry")
              end
      | None => returns (EvCreate entry validation_data)
      end
  | Entry.Deletion deletion_address =>
      r <~ get_entry_with_header deletion_address;
      Ret match r with
          | Ok (old, header) => Ok (EvDelete (ewm_entry old) header validation_data)
          | Err _ => Err (ErrorGeneric "Could not find Entry")
          end
  | Entry.CapTokenGrant _ => returns (EvCreate entry validation_data)
  | _ => fails (NotImplemented "Not implemented")
  end.

(** [.map_err(|_| e)]. *)
Definition or_fail {E F A} (e : F) (m : workflow E A) : workflow F A :=
  mapping_error (λ _, Ret e) m.

(** [get_entry_from_dht] on the current state. *)
Definition read_entry_from_dht (a : Address) : workflow HolochainError (option Entry.t) :=
  ws <~ the_state; Ret (get_entry_from_dht (s_dht ws.2) ws.1 a).

(** [validate_app_entry]. *)
Definition validate_app_entry (entry : Entry.t) (app_entry_type : string)
    (link : option Address) (validation_data : ValidationData) : workflow ValidationError unit :=
  d <~ expect_dna "Callback called without DNA set!";
  zome_name <~ computed (get_zome_name_for_app_entry_type d app_entry_type);
  match zome_name with
  | None => fails VeNotImplemented
  | Some zome_name =>
      match link with
      | Some expected =>
          or_fail (VeUnresolvedDependencies [expected]) (read_entry_from_dht expected)
      | None => returns None
      end ;;
      params ← or_fail (VeFail "Could not get entry validation")
        (entry_to_validation_data entry link validation_data);
      run_validation_callback (address entry)
        (MkCallbackFnCall zome_name "__hdk_validate_app_entry" (CpEntryValidation params))
  end.

(** [validate_link_entry]. *)
Definition validate_link_entry (entry : Entry.t) (validation_data : ValidationData) :
    workflow ValidationError unit :=
  match entry with
  | Entry.LinkAdd data | Entry.LinkRemove data =>
      let l := Entries.link data in
      pair ← or_fail (VeUnresolvedDependencies [base l; target l]) (get_link_entries l);
      path ← or_fail VeNotImplemented
        (find_link_definition_in_dna (Entry.entry_type pair.1) (link_type l)
           (Entry.entry_type pair.2));
      let link_data := match entry with
                       | Entry.LinkAdd data => LvAdd data validation_data
                       | _ => LvRemove data validation_data
                       end in
      run_validation_callback (address entry)
        (MkCallbackFnCall (ldp_zome_name path) "__hdk_validate_link"
           (CpLinkValidation (ldp_entry_type_name path) l (ldp_direction path) link_data))
  | _ => fails (VeError "Could not extract link_add from entry")
  end.

(** [validate_remove_entry]. *)
Definition validate_remove_entry (entry : Entry.t) (validation_data : ValidationData) :
    workflow ValidationError unit :=
  d <~ expect_dna "Callback called without DNA set";
  match entry with
  | Entry.Deletion deletion_address =>
      maybe_entry ← or_fail (VeUnresolvedDependencies [deletion_address])
        (read_entry_from_dht deletion_address);
      match maybe_entry with
      | None => fails (VeFail "Could not obtain entry for link_update_delte")
      | Some (Entry.App app_entry_type _) =>
          zome_name <~ computed (get_zome_name_for_app_entry_type d app_entry_type);
          match zome_name with
          | None => fails VeNotImplemented
          | Some zome_name =>
              params ← or_fail (VeFail "Could not get entry validation")
                (entry_to_validation_data entry None validation_data);
              run_validation_callback (address entry)
                (MkCallbackFnCall zome_name "__hdk_validate_app_entry"
                   (CpEntryValidation params))
          end
      | Some _ => fails (VeFail "Entry type should be App Type")
      end
  | _ => Panic "failed unwrapping entry to Entry::Deletion"
  end.

(** [validate_entry]. *)
Definition validate_entry (entry : Entry.t) (link : option Address)
    (validation_data : ValidationData) : workflow ValidationError unit :=
  match (validate_header_address entry (vp_chain_header (vd_package validation_data)) ;;
         validate_provenances validation_data) with
  | Err e => fails e
  | Ok _ =>
      match Entry.entry_type entry with
      | EntryType.Dna => returns tt
      | EntryType.App app_entry_type => validate_app_entry entry app_entry_type link validation_data
      | EntryType.LinkAdd | EntryType.LinkRemove => validate_link_entry entry validation_data
      | EntryType.Deletion => validate_remove_entry entry validation_data
      | EntryType.CapTokenGrant => returns tt
      | EntryType.AgentId => returns tt
      | _ => fails VeNotImplemented
      end
  end.

(** ** Validation packages *)
Inductive CallbackResult :=
| CrPass
| CrFail (error_string : string)
| CrNotImplemented (reason : string)
| CrValidationPackageDefinition (def : ValidationPackageDefinition)
| CrReceiveResult (response : string).

(** The end of [get_validation_package_definition]. *)
Definition package_definition_of (json : string) : HcResult CallbackResult :=
  if is_null json then Err (SerializationError
    "__hdk_get_validation_package_for_entry_type returned empty result")
  else match vpd_of_json json with
       | Some package => Ok (CrValidationPackageDefinition package)
       | None => Err (SerializationError
           "validation_package result could not be deserialized as ValidationPackage")
       end.

(** The link branches of [get_validation_package_definition]. *)
Definition link_package_definition (data : LinkData) : workflow HolochainError CallbackResult :=
  let l := Entries.link data in
  pair ← get_link_entries l;
  path ← find_link_definition_in_dna (Entry.entry_type pair.1) (link_type l)
           (Entry.entry_type pair.2);
  json ← run_dna (WcCallback (MkCallbackFnCall (ldp_zome_name path) "__hdk_get_validation_package_for_link"
           (CpLinkPackage (ldp_entry_type_name path) (ldp_link_type path) (ldp_direction path))));
  Ret (package_definition_of json).

(** [get_validation_package_definition]. *)
Definition get_validation_package_definition (entry : Entry.t) :
    workflow HolochainError CallbackResult :=
  d <~ expect_dna "Callback called without DNA set!";
  match entry with
  | Entry.App app_entry_type _ =>
      zome_name <~ computed (get_zome_name_for_app_entry_type d app_entry_type);
      match zome_name with
      | None => returns (CrNotImplemented "get_validation_package_definition/1")
      | Some zome_name =>
          json ← run_dna (WcCallback (MkCallbackFnCall zome_name
            "__hdk_get_validation_package_for_entry_type" (CpEntryPackage app_entry_type)));
          Ret (package_definition_of json)
      end
  | Entry.LinkAdd data | Entry.LinkRemove data => link_package_definition data
  | Entry.Deletion _ => Ret (package_definition_of (vpd_to_json VpdChainFull))
  | Entry.CapTokenGrant _ => Ret (package_definition_of (vpd_to_json VpdEntry))
  | Entry.AgentId _ => Ret (package_definition_of (vpd_to_json VpdEntry))
  | _ => fails (NotImplemented "get_validation_package_definition/3")
  end.

(** The headers of the whole chain. *)
Definition chain_headers (ws : World * State Net) : outcome (list ChainHeader) :=
  let c := chain_cas (s_agent ws.2) ws.1 in
  collect (budget c) c h_link (λ _, true) 0 USIZE_MAX (iter (top_chain_header (s_agent ws.2))).

(** [all_chain_headers]. *)
Definition all_chain_headers : Prog (list ChainHeader) :=
  ws <~ the_state; computed (chain_headers ws).

(** The entry of a header that is on the chain. *)
Definition chain_entry (ws : World * State Net) (h : ChainHeader) : outcome Entry.t :=
  match cas_fetch (chain_cas (s_agent ws.2) ws.1) (h_entry_address h) with
  | Err _ => Panicked "Could not fetch from CAS"
  | Ok None => Panicked "Could not find CAS for existing chain header"
  | Ok (Some json) =>
      expect (ok (entry_from_json json)) "Could not convert to serialized entry"
  end.

(** The loop of [all_public_chain_entries]. *)
Fixpoint public_entries (ws : World * State Net) (headers : list ChainHeader) :
    Prog (list Entry.t) :=
  match headers with
  | [] => Ret []
  | h :: headers =>
      b <~ can_publish (h_entry_type h);
      if (b : bool) then
        e <~ computed (chain_entry ws h);
        rest <~ public_entries ws headers;
        Ret (e :: rest)
      else public_entries ws headers
  end.

(** [all_public_chain_entries]. *)
Definition all_public_chain_entries : Prog (list Entry.t) :=
  ws <~ the_state;
  headers <~ computed (chain_headers ws);
  public_entries ws headers.

(** The package that a definition asks for. *)
Definition package_of (entry_header : ChainHeader) (def : ValidationPackageDefinition) :
    Prog ValidationPackage :=
  match def with
  | VpdEntry => Ret (only_header entry_header)
  | VpdChainEntries =>
      entries <~ all_public_chain_entries;
      Ret (MkValidationPackage entry_header (Some entries) None None)
  | VpdChainHeaders =>
      headers <~ all_chain_headers;
      Ret (MkValidationPackage entry_header None (Some headers) None)
  | VpdChainFull =>
      entries <~ all_public_chain_entries;
      headers <~ all_chain_headers;
      Ret (MkValidationPackage entry_header (Some entries) (Some headers) None)
  | VpdCustom custom => Ret (MkValidationPackage entry_header None None (Some custom))
  end.

(** The thread of [build_validation_package]. *)
Definition package_thread (id : nat) (entry : Entry.t) (entry_header : ChainHeader) : Prog unit :=
  package <~ (callback_result ← get_validation_package_definition entry;
              match callback_result with
              | CrFail error_string => fails (ErrorGeneric error_string)
              | CrValidationPackageDefinition def => p <~ package_of entry_header def; returns p
              | CrNotImplemented reason => fails (ErrorGeneric
                  ("ValidationPackage callback not implemented for " +:+
                   debug_entry_type (Entry.entry_type entry) +:+ " (" +:+ reason +:+ ")"))
              | _ => Panic "unreachable"
              end : workflow HolochainError ValidationPackage);
  dispatch_new (AReturnValidationPackage id package) ;~ Ret tt.

(** [ValidationPackageFuture::poll]. *)
Definition validation_package_future (key : nat) :
    View Net C S → outcome (option (HcResult ValidationPackage)) := λ v,
  match v with
  | Some ws => Done (validation_packages (s_nucleus ws.2) !! key)
  | None => Done (Some (Err (ErrorGeneric "State not initialized")))
  end.

(** The check on the entry type at the start of [build_validation_package]. *)
Definition check_package_type (entry : Entry.t) : workflow HolochainError unit :=
  match Entry.entry_type entry with
  | EntryType.App app_entry_type =>
      ws <~ the_state;
      d <~ computed (expect (dna (s_nucleus ws.2)) "called Option::unwrap() on a None value");
      zome_name <~ computed (get_zome_name_for_app_entry_type d app_entry_type);
      match zome_name with
      | None => fails (ValidationFailed ("Unknown app entry type '" +:+ app_entry_type +:+ "'"))
      | Some _ => returns tt
      end
  | EntryType.LinkAdd | EntryType.LinkRemove | EntryType.Deletion
  | EntryType.CapTokenGrant | EntryType.AgentId => returns tt
  | t => fails (ValidationFailed
           ("Attempted to validate system entry type " +:+ debug_entry_type t))
  end.

(** [build_validation_package]: an entry that is not on the chain yet gets a
    header of its own for the package. *)
Definition build_validation_package (entry : Entry.t) (provenances : list Provenance) :
    workflow HolochainError ValidationPackage :=
  id <~ Fresh Ret;
  check_package_type entry ;;
  ws <~ the_state;
  maybe_entry_header <~ computed (find_chain_header (s_agent ws.2) ws.1 entry);
  entry_header ← match maybe_entry_header with
                 | Some h => returns h
                 | None => GetState (λ v,
                     match v with
                     | None => fails (ErrorGeneric "Expected Some and got None")
                     | Some (_, s) =>
                         Atomic (create_new_chain_header clock sign iso8601 entry (s_agent s)
                                   None provenances) Ret
                     end)
                 end;
  spawn (package_thread id entry entry_header) ;~
  await (validation_package_future id).
End validation.

(** ** Simple instances

    Text that stands for itself, and a signature that names the key. *)
#[refine] Instance plain_crypto : Crypto := {|
  base64_encode := String.string_of_list_ascii;
  base64_decode s := Some (String.list_ascii_of_string s);
  decode_pub_key s := Ok (String.list_ascii_of_string s);
  sign_verify signature message public_key := bool_decide
    (String.string_of_list_ascii signature =
     String.string_of_list_ascii public_key +:+ " signed " +:+ String.string_of_list_ascii message);
|}.
Proof. intros bytes. by rewrite String.list_ascii_of_string_of_list_ascii. Defined.
#[export] Remove Hints plain_crypto : typeclass_instances.

#[refine] Instance plain_callback_text : CallbackText := {|
  vpd_to_json d := match d with
                   | VpdEntry => "e"
                   | VpdChainEntries => "ce"
                   | VpdChainHeaders => "ch"
                   | VpdChainFull => "cf"
                   | VpdCustom custom => "custom " +:+ custom
                   end;
  vpd_of_json s := match s with
                   | "e" => Some VpdEntry
                   | "ce" => Some VpdChainEntries
                   | "ch" => Some VpdChainHeaders
                   | "cf" => Some VpdChainFull
                   | _ => Some (VpdCustom (String.substring 7 (String.length s - 7) s))
                   end%string;
  debug_entry_type := EntryType.to_string;
|}.
Proof.
  - intros [| | | |custom]; [done..|]. simpl. do 2 f_equal. rewrite Nat.sub_0_r.
    induction custom as [|c s IH]; simpl; [done|]. by rewrite IH.
  - by intros [].
Defined.
#[export] Remove Hints plain_callback_text : typeclass_instances.
