(* ===== verification/Workflows.v ===== *)
(** * Workflows

    [core/src/workflows/] with the action creators of [core/src/agent/actions/],
    [core/src/dht/actions/], [core/src/network/actions/] and
    [core/src/nucleus/actions/] they use, and the retries of
    [core/src/scheduled_jobs/pending_validations.rs]. *)
From S2P Require Import Prelude Errors Strings Time Eav Entries Cas Protocol Actions Dht Chain Network Nucleus State Workflow Lookup Validation.

Section workflows.
Context {wire : Wire} {Json Net : Type}.
Context `{!JsonPayloads Json}.
Context {C : Type} `{!ContentAddressableStorage C}.
Context {S : Type} `{!EavStorage S}.
Context {crypto : Crypto} {cbtext : CallbackText}.
Context (clock : nat → Z) (sign : nat → string → HcResult string) (iso8601 : Z → string).
Context (id_text : nat → string) (steps : nat).
Abbreviation World := (@World C S).
Abbreviation Prog := (Prog Json Net C S).
Abbreviation workflow := (workflow Json Net C S HolochainError).
Abbreviation View := (View Net C S).

(** ** Action creators *)

(** [commit_entry] and [CommitFuture::poll]. *)
Definition commit_future (id : nat) : View → outcome (option (HcResult Address)) :=
  polling (λ ws, match a_actions (s_agent ws.2) !! id with
                 | Some (RespCommit r) => Done (Some r)
                 | Some _ => Panicked "unreachable"
                 | None => Done None
                 end).

Definition commit_entry (entry : Entry.t) (maybe_link_update_delete : option Address) :
    workflow Address :=
  aw <~ dispatch_new (ACommit entry maybe_link_update_delete []);
  await (commit_future (aw_id aw)).

(** [publish] and [PublishFuture::poll]. *)
Definition publish (a : Address) : workflow Address :=
  aw <~ dispatch_new (APublish a);
  await (polling (λ ws, Done (poll_publish (aw_id aw) (s_network ws.2)))).

(** [get_validation_package] and [GetValidationPackageFuture::poll]. *)
Definition get_validation_package (header : ChainHeader) : workflow (option ValidationPackage) :=
  dispatch_new (AGetValidationPackage header) ;~
  await (polling (λ ws, Done (poll_get_validation_package (h_entry_address header)
                                (s_network ws.2)))).

(** [HoldEntryFuture::poll]: the entry is in the storage of the shard. *)
Definition hold_future (a : Address) : View → outcome (option (HcResult Address)) := λ v,
  match v with
  | Some (w, s) =>
      match cas_contains (w_cas w (content_loc (s_dht s))) a with
      | Ok true => Done (Some (Ok a))
      | Ok false => Done None
      | Err _ => Panicked "called Result::unwrap() on an Err value"
      end
  | None => Done (Some (Err (ErrorGeneric "State not initialized")))
  end.

(** [hold_entry]. *)
Definition hold_entry (ewh : EntryWithHeader) : workflow Address :=
  dispatch_new (AHold ewh) ;~
  await (hold_future (address (ewh_entry ewh))).

(** [UpdateEntryFuture::poll], and the futures that drop the address. *)
Definition dht_future (id : nat) : View → outcome (option (HcResult Address)) :=
  polling_if (λ ws, Done (d_actions (s_dht ws.2) !! id)).

Definition dht_done_future (id : nat) : View → outcome (option (HcResult unit)) :=
  polling_if (λ ws, Done match d_actions (s_dht ws.2) !! id with
                         | Some (Ok _) => Some (Ok tt)
                         | Some (Err e) => Some (Err e)
                         | None => None
                         end).

Definition add_link (l : Link) : workflow unit :=
  aw <~ dispatch_new (AAddLink l); await (dht_done_future (aw_id aw)).

Definition remove_link (l : Link) : workflow unit :=
  aw <~ dispatch_new (ARemoveLink l); await (dht_done_future (aw_id aw)).

Definition update_entry (old_address new_address : Address) : workflow Address :=
  aw <~ dispatch_new (AUpdateEntry old_address new_address); await (dht_future (aw_id aw)).

Definition dht_remove_entry (deleted_address deletion_address : Address) : workflow unit :=
  aw <~ dispatch_new (ARemoveEntry deleted_address deletion_address);
  await (dht_done_future (aw_id aw)).

(** [add_pending_validation] and [remove_pending_validation]. *)
Definition add_pending_validation (ewh : EntryWithHeader) (dependencies : list Address)
    (wf : ValidatingWorkflow) : Prog unit :=
  dispatch_new (AAddPendingValidation (MkPendingValidation ewh dependencies wf)) ;~ Ret tt.

Definition remove_pending_validation (a : Address) (wf : ValidatingWorkflow) : Prog unit :=
  dispatch_new (ARemovePendingValidation a wf) ;~ Ret tt.

(** [custom_send] and [SendResponseFuture::poll]. *)
Definition custom_send (to_agent : Address) (m : CustomDirectMessage) (timeout : Timeout) :
    workflow string :=
  id <~ Fresh Ret;
  let msg_id := id_text id in
  dispatch_new (ASendDirectMessage (MkDirectMessageData to_agent (DmCustom m) msg_id false)) ;~
  spawn (dispatch_new (ASendDirectMessageTimeout msg_id) ;~ Ret tt) ;~
  await (polling (λ ws, Done (poll_send_response msg_id (s_network ws.2)))).

(** ** Authoring *)

(** [author_entry]; the result carries the address of the entry. *)
Definition author_entry (entry : Entry.t) (maybe_link_update_delete : option Address)
    (provenances : list Provenance) : workflow Address :=
  validation_package ← build_validation_package clock sign iso8601 id_text steps entry
                         provenances;
  mapping_error (λ e, Ret (error_of_validation_error e))
    (validate_entry id_text steps entry maybe_link_update_delete
       (MkValidationData validation_package LcChain)) ;;
  addr ← commit_entry entry maybe_link_update_delete;
  b <~ can_publish (Entry.entry_type entry);
  if (b : bool) then publish (address entry) ;; returns addr else returns addr.

(** ** Holding *)

(** Steps 1 to 3 of [hold_entry_workflow] and [hold_link_workflow]: what cannot be
    validated yet is put off; a failed validation gives the same error. *)
Definition validate_or_put_off (ewh : EntryWithHeader) (wf : ValidatingWorkflow)
    (lifecycle : EntryLifecycle) : workflow unit :=
  maybe_validation_package ←
    mapping_error (λ _, add_pending_validation ewh [] wf ;~ Ret ValidationPending)
      (get_validation_package (ewh_header ewh));
  validation_package ← match maybe_validation_package with
                       | Some p => returns p
                       | None => add_pending_validation ewh [] wf ;~ fails ValidationPending
                       end;
  mapping_error (λ err,
      match err with
      | VeUnresolvedDependencies dependencies => add_pending_validation ewh dependencies wf
      | _ => Ret tt
      end ;~ Ret ValidationPending)
    (validate_entry id_text steps (ewh_entry ewh) None
       (MkValidationData validation_package lifecycle)).

(** [hold_entry_workflow]. *)
Definition hold_entry_workflow (ewh : EntryWithHeader) : workflow unit :=
  validate_or_put_off ewh WfHoldEntry LcDht ;;
  hold_entry ewh ;;
  returns tt.

(** [hold_link_workflow]. *)
Definition hold_link_workflow (ewh : EntryWithHeader) : workflow unit :=
  match ewh_entry ewh with
  | Entry.LinkAdd link_add =>
      validate_or_put_off ewh WfHoldLink LcMeta ;;
      add_link (Entries.link link_add) ;;
      returns tt
  | _ => fails (ErrorGeneric "hold_link_workflow expects entry to be an Entry::LinkAdd")
  end.

(** The start of the three workflows below: package, then validation. *)
Definition package_and_validate (ewh : EntryWithHeader) (link : HcResult (option Address)) :
    workflow unit :=
  maybe_validation_package ← get_validation_package (ewh_header ewh);
  match maybe_validation_package with
  | None => fails (ErrorGeneric "Could not get validation package from source")
  | Some validation_package =>
      match link with
      | Err e => fails e
      | Ok link =>
          mapping_error (λ e, Ret (error_of_validation_error e))
            (validate_entry id_text steps (ewh_entry ewh) link
               (MkValidationData validation_package LcMeta))
      end
  end.

(** [hold_remove_workflow]. *)
Definition hold_remove_workflow (ewh : EntryWithHeader) : workflow unit :=
  package_and_validate ewh (Ok None) ;;
  match ewh_entry ewh with
  | Entry.Deletion deleted_entry_address =>
      dht_remove_entry deleted_entry_address (address (ewh_entry ewh))
  | _ => Panic "failed unwrapping entry to Entry::Deletion"
  end.

(** [hold_update_workflow]. *)
Definition hold_update_workflow (ewh : EntryWithHeader) : workflow Address :=
  let link := ok_or (h_link_update_delete (ewh_header ewh))
                (ErrorGeneric "Could not get link update from header") in
  package_and_validate ewh (Some <$> link) ;;
  link ← (Ret link : workflow _);
  update_entry link (address (ewh_entry ewh)).

(** [remove_link_workflow]. *)
Definition remove_link_workflow (ewh : EntryWithHeader) : workflow unit :=
  match ewh_entry ewh with
  | Entry.LinkRemove link_remove =>
      package_and_validate ewh (Ok None) ;;
      remove_link (Entries.link link_remove) ;;
      returns tt
  | _ => fails (ErrorGeneric "remove_link_workflow expects entry to be an Entry::LinkRemove")
  end.

(** ** Retries *)

(** The thread of [retry_validation]: what is not put off once more is done. *)
Definition retry_thread (pending : PendingValidation) : Prog unit :=
  let ewh := pv_entry_with_header pending in
  r <~ match pv_workflow pending with
       | WfHoldLink => hold_link_workflow ewh
       | WfHoldEntry => hold_entry_workflow ewh
       end;
  if decide (Err ValidationPending ≠ r)
  then remove_pending_validation (address (ewh_entry ewh)) (pv_workflow pending)
  else Ret tt.

Definition retry_validation (pending : PendingValidation) : Prog unit :=
  spawn (retry_thread pending).

(** [run_pending_validations]; a hash map is walked in some order. *)
Definition run_pending_validations : Prog unit :=
  ws <~ the_state;
  for_all (λ kp, retry_validation kp.2) (map_to_list (pending_validations (s_nucleus ws.2))) ;~
  Ret tt.
End workflows.
