(* ===== verification/Handler.v ===== *)
(** * Messages from the network

    The handler that the network module calls with every message for this node
    ([core/src/network/handler/]), with the workflows it runs to answer
    ([core/src/workflows/respond_validation_package_request.rs] and
    [handle_custom_direct_message.rs]) and the callback for direct messages
    ([core/src/nucleus/ribosome/callback/receive.rs]). *)
From S2P Require Import Prelude Errors Strings Time Eav Entries Cas Protocol Actions Dht Chain Network Nucleus State Workflow Lookup Validation Workflows.

Section handler.
Context {wire : Wire} {Json Net : Type}.
Context `{!JsonPayloads Json}.
Context {C : Type} `{!ContentAddressableStorage C}.
Context {S : Type} `{!EavStorage S}.
Context {crypto : Crypto} {cbtext : CallbackText}.
Context (clock : nat → Z) (sign : nat → string → HcResult string) (iso8601 : Z → string).
Context (id_text : nat → string) (steps : nat).
(** The derived [Debug] text of a callback's result. *)
Context (debug_callback_result : CallbackResult → string).
(** [context.agent_id]. *)
Context (my_agent : AgentId).
Abbreviation World := (@World C S).
Abbreviation Prog := (Prog Json Net C S).
Abbreviation workflow := (workflow Json Net C S HolochainError).

(** [ribosome::callback::receive::receive]. *)
Definition receive (zome : string) (from : Address) (payload : string) : Prog CallbackResult :=
  r <~ run_dna (WcCallback (MkCallbackFnCall zome "receive" (CpReceive from payload)));
  Ret match r with
      | Ok call_result => CrReceiveResult call_result
      | Err err => CrFail (HolochainError_fmt err)
      end.

(** [handle_custom_direct_message]. *)
Definition handle_custom_direct_message (from_agent_id : Address) (msg_id : string)
    (m : CustomDirectMessage) : workflow unit :=
  match cdm_payload m with
  | Err error => fails (ErrorGeneric
      ("Got error in initial custom direct message: " +:+ error))
  | Ok payload =>
      result <~ receive (cdm_zome m) from_agent_id payload;
      let response := match result with
                      | CrReceiveResult response => Ok response
                      | err => Err ("Error calling receive callback: " +:+
                                    debug_callback_result err)
                      end in
      dispatch_new (ASendDirectMessage (MkDirectMessageData from_agent_id
        (DmCustom (MkCustomDirectMessage (cdm_zome m) response)) msg_id true)) ;~
      returns tt
  end.

(** [respond_validation_package_request]. *)
Definition respond_validation_package_request (to_agent_id : Address) (msg_id : string)
    (requested_entry_address : Address) (provenances : list Provenance) : Prog unit :=
  ws <~ the_state;
  r <~ computed (get_entry_from_agent_chain (s_agent ws.2) ws.1 requested_entry_address);
  maybe_validation_package <~
    match r with
    | Ok (Some entry) =>
        p <~ build_validation_package clock sign iso8601 id_text steps entry provenances;
        Ret (ok p)
    | _ => Ret None
    end;
  dispatch_new (ASendDirectMessage (MkDirectMessageData to_agent_id
    (DmValidationPackage maybe_validation_package) msg_id true)) ;~
  Ret tt.

(** ** Handlers by kind of message *)

(** [handle_fetch_entry]: an error counts as not found, and so does an entry that
    is not for publishing. *)
Definition handle_fetch_entry (d : FetchEntryData) : Prog unit :=
  entry_with_meta_opt <~ read_entry_with_meta (fe_entry_address d);
  get_entry <~
    match entry_with_meta_opt with
    | Err _ => Ret None
    | Ok entry_with_meta_opt =>
        ws <~ the_state;
        headers <~ computed (state_get_headers ws.2 ws.1 (fe_entry_address d));
        match headers, entry_with_meta_opt with
        | Ok headers, Some entry_with_meta =>
            b <~ can_publish (Entry.entry_type (ewm_entry entry_with_meta));
            Ret (if (b : bool) then Some (MkEntryWithMetaAndHeader entry_with_meta headers)
                 else None)
        | _, _ => Ret None
        end
    end;
  dispatch_new (ARespondFetch d get_entry) ;~ Ret tt.

(** [handle_fetch_entry_result]. *)
Definition handle_fetch_entry_result (d : FetchEntryResultData Json) : Prog unit :=
  dispatch_new (AHandleFetchResult d) ;~ Ret tt.

(** [handle_fetch_meta]. *)
Definition handle_fetch_meta (d : FetchMetaData) : Prog unit :=
  match Attribute_try_from (fm_attribute d) with
  | Ok (LinkTag link_type tag) =>
      ws <~ the_state;
      let links := match get_links ws.1 (fm_entry_address d) (of_star link_type) (of_star tag) with
                   | Ok l => l
                   | Err _ => []
                   end in
      dispatch_new (ARespondGetLinks d (value <$> links)) ;~ Ret tt
  | _ => Ret tt
  end.

(** [handle_fetch_meta_result]. *)
Definition handle_fetch_meta_result (d : FetchMetaResultData Json) : Prog unit :=
  match Attribute_try_from (fmr_attribute d) with
  | Ok (LinkTag link_type tag) => dispatch_new (AHandleGetLinksResult d link_type tag) ;~ Ret tt
  | _ => Ret tt
  end.

(** A workflow in a thread of its own; the error is only logged. *)
Definition in_thread {A} (m : Prog A) : Prog unit := spawn (m ;~ Ret tt).

(** [handle_store_entry]. *)
Definition handle_store_entry (d : EntryData Json) : Prog unit :=
  ewh <~ computed (expect (ewh_of_json (ed_entry_content d)) "called unwrap() on an Err value");
  in_thread (hold_entry_workflow id_text steps ewh).

(** [content_list[0]] as an entry with its header. *)
Definition first_content (d : DhtMetaData Json) : outcome EntryWithHeader :=
  content ← expect (head (dm_content_list d)) "index out of bounds";
  expect (ewh_of_json content) "dht_meta_data should be EntryWithHeader".

Definition only_content (d : DhtMetaData Json) : outcome EntryWithHeader :=
  if decide (length (dm_content_list d) = 1%nat) then first_content d
  else Panicked "assertion failed: content_list.len() == 1".

(** [handle_store_meta]. *)
Definition handle_store_meta (d : DhtMetaData Json) : Prog unit :=
  if decide (dm_attribute d = Attribute_fmt LinkAttr) then
    ewh <~ computed (only_content d); in_thread (hold_link_workflow id_text steps ewh)
  else if decide (dm_attribute d = Attribute_fmt LinkRemoveAttr) then
    ewh <~ computed (only_content d); in_thread (remove_link_workflow id_text steps ewh)
  else
    status <~ computed (expect (ok (CrudStatus.from_str (dm_attribute d)))
      "Could not convert deleted attribute to CrudStatus");
    match status with
    | CrudStatus.Deleted =>
        ewh <~ computed (first_content d); in_thread (hold_remove_workflow id_text steps ewh)
    | CrudStatus.Modified =>
        ewh <~ computed (first_content d); in_thread (hold_update_workflow id_text steps ewh)
    | _ => Ret tt
    end.

(** [handle_send_message]. *)
Definition handle_send_message (d : MessageData Json) : Prog unit :=
  message <~ computed (expect (message_of_json (msg_content d)) "called unwrap() on an Err value");
  match message with
  | DmCustom m =>
      in_thread (handle_custom_direct_message (msg_from_agent_id d) (msg_request_id d) m)
  | DmRequestValidationPackage a =>
      in_thread (respond_validation_package_request (msg_from_agent_id d) (msg_request_id d) a [])
  | DmValidationPackage _ => Ret tt
  end.

(** [handle_send_message_result]. *)
Definition handle_send_message_result (d : MessageData Json) : Prog unit :=
  response <~ computed (expect (message_of_json (msg_content d))
                          "called unwrap() on an Err value");
  ws <~ the_state;
  let initial_message := direct_message_connections (s_network ws.2) !! msg_request_id d in
  match response, initial_message with
  | DmCustom m, Some _ =>
      dispatch_new (AHandleCustomSendResponse (msg_request_id d) (cdm_payload m)) ;~
      dispatch_new (AResolveDirectConnection (msg_request_id d)) ;~ Ret tt
  | DmValidationPackage maybe_validation_package, Some (DmRequestValidationPackage a) =>
      dispatch_new (AHandleGetValidationPackage a maybe_validation_package) ;~
      dispatch_new (AResolveDirectConnection (msg_request_id d)) ;~ Ret tt
  | DmValidationPackage _, Some _ =>
      Panic "failed unwrapping initial_message to DirectMessage::RequestValidationPackage"
  | _, _ => Ret tt
  end.

(** The loop of [republish_all_public_chain_entries]. *)
Fixpoint republish (headers : list ChainHeader) : Prog unit :=
  match headers with
  | [] => Ret tt
  | h :: headers =>
      b <~ can_publish (h_entry_type h);
      (if (b : bool) then publish (h_entry_address h) ;~ Ret tt else Ret tt) ;~
      republish headers
  end.

Definition republish_all_public_chain_entries : Prog unit :=
  ws <~ the_state;
  headers <~ computed (chain_headers ws);
  republish headers.

(** ** The handler *)
Definition is_my_dna (my_dna_address dna_address : string) : bool :=
  bool_decide (my_dna_address = dna_address).

Definition is_my_id (agent_id : string) : bool :=
  bool_decide (agent_id = "" ∨ pub_sign_key my_agent = agent_id).

(** [create_handler]: the closure, on a message that could be parsed. *)
Definition handle (my_dna_address : string) (message : JsonProtocol Json) : Prog unit :=
  let for_my_dna a p := if is_my_dna my_dna_address a then p else Ret tt in
  let for_me id p := if is_my_id id then p else Ret tt in
  match message with
  | HandleStoreEntry d => for_my_dna (ed_dna_address d) (handle_store_entry d)
  | HandleStoreMeta d => for_my_dna (dm_dna_address d) (handle_store_meta d)
  | HandleFetchEntry d => for_my_dna (fe_dna_address d) (handle_fetch_entry d)
  | FetchEntryResult d =>
      for_my_dna (fer_dna_address d)
        (for_me (fer_requester_agent_id d) (handle_fetch_entry_result d))
  | HandleFetchMeta d => for_my_dna (fm_dna_address d) (handle_fetch_meta d)
  | FetchMetaResult d =>
      for_my_dna (fmr_dna_address d)
        (for_me (fmr_requester_agent_id d) (handle_fetch_meta_result d))
  | HandleSendMessage d =>
      for_my_dna (msg_dna_address d) (for_me (msg_to_agent_id d) (handle_send_message d))
  | SendMessageResult d =>
      for_my_dna (msg_dna_address d) (for_me (msg_to_agent_id d) (handle_send_message_result d))
  | PeerConnected agent_id =>
      if is_my_id agent_id then Ret tt else republish_all_public_chain_entries
  | _ => Ret tt
  end.
End handler.
