(* ===== verification/Capabilities.v ===== *)
(** * Zome calls and capabilities

    [core/src/nucleus/actions/call_zome_function.rs]: a caller presents a token
    and a signature of what it calls; the call runs when a grant on the agent's
    chain allows it. *)
From S2P Require Import Prelude Errors Strings Eav Entries Cas Protocol Actions Dht Chain Network Nucleus State Workflow Lookup Validation.

Section calls.
Context {wire : Wire} {Json Net : Type}.
Context {C : Type} `{!ContentAddressableStorage C}.
Context {S : Type} `{!EavStorage S}.
Context {crypto : Crypto}.
(** [context.agent_id]. *)
Context (my_agent : AgentId).
Abbreviation World := (@World C S).
Abbreviation Prog := (Prog Json Net C S).
Abbreviation workflow := (workflow Json Net C S HolochainError).

(** [is_token_the_agent]. *)
Definition is_token_the_agent (request : CapabilityRequest) : bool :=
  bool_decide (pub_sign_key my_agent = cap_token request).

(** [get_grant]. *)
Definition get_grant (ws : World * State Net) (a : Address) : outcome (option CapTokenGrant) :=
  r ← get_entry_from_agent_chain (s_agent ws.2) ws.1 a;
  Done match r with
       | Ok (Some (Entry.CapTokenGrant grant)) => Some grant
       | _ => None
       end.

(** [encode_call_data_for_signing]. *)
Definition encode_call_data_for_signing (function parameters : string) : string :=
  base64_encode (String.list_ascii_of_string (function +:+ ":" +:+ parameters)).

(** [verify_call_sig]. *)
Definition verify_call_sig (p : Provenance) (function parameters : string) : outcome bool :=
  expect (ok (provenance_verify p (encode_call_data_for_signing function parameters)))
    "called Result::unwrap() on an Err value".

(** [verify_grant]. *)
Definition verify_grant (grant : CapTokenGrant) (fn_call : ZomeFnCall) : outcome bool :=
  match map_get (zome_name fn_call) (functions grant) with
  | None => Done false
  | Some zome_grants =>
      if decide (fn_name fn_call ∉ zome_grants) then Done false
      else if decide (grant_token grant ≠ cap_token (cap fn_call)) then Done false
      else
        b ← verify_call_sig (cap_provenance (cap fn_call)) (fn_name fn_call)
              (parameters fn_call);
        if negb b then Done false
        else
          match cap_type grant with
          | Public | Transferable => Done true
          | Assigned =>
              assignees ← expect (assignees grant) "called Option::unwrap() on a None value";
              Done (bool_decide (source (cap_provenance (cap fn_call)) ∈ assignees))
          end
  end.

(** [check_capability]. *)
Definition check_capability (fn_call : ZomeFnCall) : Prog bool :=
  ws <~ the_state;
  maybe_grant <~ computed (get_grant ws (cap_token (cap fn_call)));
  match maybe_grant with
  | None => Ret false
  | Some grant => computed (verify_grant grant fn_call)
  end.

(** The call names a function that the DNA has. *)
Definition find_function (s : State Net) (fn_call : ZomeFnCall) :
    HcResult (string * list Ascii.ascii) :=
  d ← ok_or (dna (s_nucleus s)) DnaMissing;
  zome ← map_err Errors.Dna (get_zome d (zome_name fn_call));
  map_err Errors.Dna (get_function_with_zome_name d (zome_name fn_call) (fn_name fn_call)) ;;
  Ok (dna_name d, z_code zome).

(** [validate_call]. *)
Definition validate_call (fn_call : ZomeFnCall) : workflow (string * list Ascii.ascii) :=
  found ← GetState (λ v, match v with
                         | None => fails (ErrorGeneric "Context not initialized")
                         | Some (_, s) => Ret (find_function s fn_call)
                         end) : workflow _;
  granted <~ check_capability fn_call;
  if (granted : bool) then returns found
  else if is_token_the_agent (cap fn_call) then
    signed <~ computed (verify_call_sig (cap_provenance (cap fn_call)) (fn_name fn_call)
                          (parameters fn_call));
    if (signed : bool) then returns found else fails CapabilityCheckFailed
  else fails CapabilityCheckFailed.

(** [CallResultFuture::poll]. *)
Definition call_result_future (fn_call : ZomeFnCall) :
    View Net C S → outcome (option (HcResult string)) := λ v,
  match v with
  | Some ws => Done (zome_call_result (s_nucleus ws.2) fn_call)
  | None => Done (Some (Err (ErrorGeneric "State not initialized")))
  end.

(** The thread of [call_zome_function]. *)
Definition zome_call_thread (fn_call : ZomeFnCall) : Prog unit :=
  call_result <~ run_dna (WcZome fn_call);
  dispatch_new (AReturnZomeFunctionResult (MkExecuteZomeFnResponse fn_call call_result)) ;~
  Ret tt.

(** [call_zome_function]. *)
Definition call_zome_function (fn_call : ZomeFnCall) : workflow string :=
  validate_call fn_call ;;
  dispatch_new (ASignalZomeFunctionCall fn_call) ;~
  spawn (zome_call_thread fn_call) ;~
  await (call_result_future fn_call).
End calls.
