(* ===== verification/Initialize.v ===== *)
(** * Starting an instance

    [core/src/workflows/application.rs] with
    [core/src/nucleus/actions/initialize.rs],
    [core/src/network/actions/initialize_network.rs],
    [core/src/nucleus/ribosome/callback/genesis.rs] and the waiting dispatch of
    [core/src/instance.rs]. *)
From S2P Require Import Prelude Errors Strings Eav Entries Cas Protocol Actions Dht Chain Network Nucleus State Workflow Lookup Validation Workflows.

Section initialize.
Context {wire : Wire} {Json Net : Type}.
Context {C : Type} `{!ContentAddressableStorage C}.
Context {S : Type} `{!EavStorage S}.
Abbreviation World := (@World C S).
(** The monotonic clock, in seconds, and the address of a DNA's JSON text. *)
Context (instant : World → Z) (dna_address : Dna → Address).
(** [context.agent_id] and [context.p2p_config]. *)
Context (my_agent : AgentId) (p2p_config : string).
Abbreviation Prog := (Prog Json Net C S).
Abbreviation workflow := (workflow Json Net C S HolochainError).

(** [dispatch_action_and_wait]. *)
Definition dispatch_action_and_wait (aw : ActionWrapper Json) : Prog unit :=
  dispatch_action aw ;~
  Await (polling (λ ws, Done (if decide (aw_id aw ∈ history ws.2) then Some tt else None))) Ret.

(** ** Genesis *)

(** [callback::run_callback]. *)
Definition run_callback (call : CallbackFnCall) : Prog CallbackResult :=
  r <~ run_dna (WcCallback call);
  Ret match r with
      | Ok call_result => if is_null call_result then CrPass else CrFail call_result
      | Err _ => CrNotImplemented "run_callback"
      end.

(** [callback::call] and [genesis]. *)
Definition call_callback (zome function : string) (params : CallbackParams) :
    Prog CallbackResult :=
  d <~ expect_dna "Callback called without DNA set!";
  match get_wasm_from_zome_name d zome with
  | None => Ret (CrNotImplemented "call/1")
  | Some [] => Ret (CrNotImplemented "call/2")
  | Some _ => run_callback (MkCallbackFnCall zome function params)
  end.

Definition genesis (zome : string) : Prog CallbackResult :=
  call_callback zome "genesis" CpGenesis.

(** ** The chain *)
Definition INITIALIZATION_TIMEOUT : Z := 60.

(** [InitializationFuture::poll]. *)
Definition initialization_future (created_at : Z) :
    View Net C S → outcome (option (HcResult NucleusStatus)) :=
  polling_if (λ ws, Done
    (if decide (instant ws.1 - created_at > INITIALIZATION_TIMEOUT)
     then Some (Err (ErrorGeneric "Timeout while initializing"))
     else match status (s_nucleus ws.2) with
          | NsNew | NsInitializing => None
          | NsInitialized init => Some (Ok (NsInitialized init))
          | NsInitializationFailed error => Some (Err (ErrorGeneric error))
          end)).

(** [dispatch_error_result]. *)
Definition dispatch_error_result (err : HolochainError) : Prog unit :=
  dispatch_new (AReturnInitializationResult (Err (HolochainError_fmt err))) ;~ Ret tt.

(** A commit whose failure is reported as the result of the initialisation. *)
Definition commit_or_report (entry : Entry.t) (what : HolochainError → HolochainError) :
    workflow Address :=
  mapping_error (λ error, dispatch_error_result error ;~ Ret (what error))
    (commit_entry entry None).

(** The functions of the public trait, by zome. *)
Definition public_functions (d : Dna) : CapFunctions :=
  omap (λ nz, match List.find (λ nt, bool_decide (nt.1 = "hc_public")) (z_traits nz.2) with
              | Some nt => Some (nz.1, nt.2)
              | None => None
              end) (dna_zomes d).

(** Commit of the public grant, if some function is public. *)
Definition commit_public_grant (cap_functions : CapFunctions) : workflow (option Address) :=
  match cap_functions with
  | [] => returns None
  | _ =>
      match create "hc_public" Public None cap_functions with
      | Err err =>
          dispatch_error_result err ;~
          fails (InitializationFailed "error creating public cap grant")
      | Ok grant =>
          addr ← commit_or_report (Entry.CapTokenGrant grant)
                   (λ _, InitializationFailed "error committing public grant");
          returns (Some addr)
      end
  end.

(** The first failure of the genesis callbacks. *)
Definition genesis_error (results : list CallbackResult) : option string :=
  head (omap (λ r, match r with CrFail error_string => Some error_string | _ => None end) results).

(** [initialize_chain]. *)
Definition initialize_chain (d : Dna) : workflow NucleusStatus :=
  ws <~ the_state;
  if decide (status (s_nucleus ws.2) ≠ NsNew) then
    fails (InitializationFailed "Can't trigger initialization: Nucleus status is not New")
  else
    aw <~ action_new (AInitializeChain d);
    dispatch_action_and_wait aw ;~
    commit_or_report (Entry.Dna d) (λ error, InitializationFailed
      ("Error committing DNA: " +:+ debug_error error)) ;;
    commit_or_report (Entry.AgentId my_agent)
      (λ _, InitializationFailed "error committing Agent") ;;
    if decide (dna_zomes d = []) then
      fails (ErrorGeneric "Attempting to initialize DNA with zero zomes!")
    else
      public_token ← commit_public_grant (public_functions d);
      results <~ for_all genesis ((λ nz, nz.1) <$> dna_zomes d);
      dispatch_new (AReturnInitializationResult
        match genesis_error results with
        | Some error => Err error
        | None => Ok (MkInitialization public_token None)
        end) ;~
      GetState (λ v,
        await (initialization_future (match v with Some ws => instant ws.1 | None => 0 end))).

(** ** The network *)

(** [get_dna_and_agent]. *)
Definition get_dna_and_agent : workflow (Address * string) :=
  GetState (λ v,
    match v with
    | None => fails (ErrorGeneric "Network::start() could not get application state")
    | Some (w, s) =>
        agent ← (computed (get_agent (s_agent s) w) : workflow _);
        Ret (d ← ok_or (dna (s_nucleus s)) (ErrorGeneric "Network::start() called without DNA");
             Ok (dna_address d, pub_sign_key agent))
    end).

(** [InitNetworkFuture::poll]: some part of the network state is set. *)
Definition init_network_future : View Net C S → outcome (option (HcResult unit)) :=
  polling_if (λ ws, Done
    (if is_some (network (s_network ws.2)) || is_some (n_dna_address (s_network ws.2)) ||
        is_some (n_agent_id (s_network ws.2))
     then Some (Ok tt) else None)).

(** [initialize_network]. *)
Definition initialize_network : workflow unit :=
  ids ← get_dna_and_agent;
  dispatch_new (AInitNetwork (MkNetworkSettings p2p_config ids.1 ids.2)) ;~
  await init_network_future ;;
  publish ids.2 ;;
  returns tt.

(** [application::initialize]. *)
Definition initialize (maybe_dna : option Dna) : workflow unit :=
  r <~ get_dna_and_agent;
  match r with
  | Ok _ => initialize_network
  | Err _ =>
      match maybe_dna with
      | None => fails DnaMissing
      | Some d => initialize_chain d ;; initialize_network
      end
  end.
End initialize.
