(* ===== verification/Api.v ===== *)
(** * The functions that zome code calls

    [core/src/nucleus/ribosome/runtime.rs] and [core/src/nucleus/ribosome/api/]: a zome
    passes the encoded allocation of its arguments, the host reads them from linear
    memory, runs a workflow and writes the result back.

    The argument structs are those of [wasm_utils/src/api_serialization/]; their JSON, and
    that of the results, is the class [ApiText].  The conductor that answers JSON-RPC
    requests is a parameter. *)
From S2P Require Import Prelude Bits Errors Strings Time WasmMemory JsonString Eav Entries Cas Protocol Actions Sodium Keys Dht Chain Network Nucleus State Workflow Lookup Validation Workflows Capabilities.

(** ** Arguments and results *)
Record UpdateEntryArgs := MkUpdateEntryArgs { uea_new_entry : Entry.t; uea_address : Address }.
Record CommitEntryArgs := MkCommitEntryArgs { cea_entry : Entry.t; cea_provenance : list Provenance }.
Record LinkEntriesArgs := MkLinkEntriesArgs {
  lea_base : Address;
  lea_target : Address;
  lea_link_type : string;
  lea_tag : string;
}.
Definition to_link (args : LinkEntriesArgs) : Link :=
  MkLink (lea_base args) (lea_target args) (lea_link_type args) (lea_tag args).

Record ZomeFnCallArgs := MkZomeFnCallArgs {
  zca_instance_handle : string;
  zca_zome_name : string;
  zca_cap_token : Address;
  zca_fn_name : string;
  zca_fn_args : string;
}.
Definition THIS_INSTANCE : string := "__hdk_this_instance".

Inductive QueryArgsNames :=
| QueryName (name : string)
| QueryList (names : list string).
Record QueryArgs := MkQueryArgs {
  qa_entry_type_names : QueryArgsNames;
  qa_start : N;
  qa_limit : N;
  qa_headers : bool;
  qa_entries : bool;
}.
Inductive QueryResult :=
| QAddresses (l : list Address)
| QHeaders (l : list ChainHeader)
| QEntries (l : list (Address * Entry.t))
| QHeadersWithEntries (l : list (ChainHeader * Entry.t)).

Record SendArgs := MkSendArgs { sa_to_agent : Address; sa_payload : string; sa_timeout : Timeout }.
Record VerifySignatureArgs := MkVerifySignatureArgs { vsa_provenance : Provenance; vsa_payload : string }.
Record CommitCapabilityGrantArgs := MkGrantArgs {
  cga_id : string;
  cga_cap_type : CapabilityType;
  cga_assignees : option (list Address);
  cga_functions : CapFunctions;
}.
Record CommitCapabilityClaimArgs := MkClaimArgs { cca_id : string; cca_grantor : Address; cca_token : Address }.
Record SignOneTimeResult := MkSignOneTimeResult { otr_pub_key : string; otr_signatures : list string }.
Record ZomeApiGlobals := MkGlobals {
  g_dna_name : string;
  g_dna_address : Address;
  g_agent_id_str : string;
  g_agent_address : Address;
  g_agent_initial_hash : Address;
  g_agent_latest_hash : Address;
  g_public_token : Address;
  g_cap_request : CapabilityRequest;
  g_properties : string;
}.

(** What a function returns, before it becomes JSON. *)
Inductive ApiValue :=
| AvCommit (a : Address)
| AvAddress (a : Address)
| AvEntryResult (r : GetEntryResult)
| AvLinks (l : list LinksResult)
| AvQuery (r : QueryResult)
| AvGlobals (g : ZomeApiGlobals)
| AvOneTime (r : SignOneTimeResult)
| AvIds (ids : list string)
| AvBool (b : bool)
| AvUnit
| AvJson (json : string).

(** [ZomeApiInternalResult]; value and error are texts of JSON. *)
Record ZomeApiInternalResult := MkInternalResult { ir_ok : bool; ir_value : string; ir_error : string }.

Inductive JsonRpc :=
| RpcSuccess (result : string)
| RpcFailure (error : string)
| RpcOther.

(** serde and [jsonrpc_lite].  Values of JSON are their texts; [field_text] is the string
    at a key, [field_json] the text of the value there.  A struct becomes an object, and all
    text is UTF-8. *)
Class ApiText := {
  parse_commit_entry_args : string → option CommitEntryArgs;
  parse_get_entry_args : string → option GetEntryArgs;
  parse_update_entry_args : string → option UpdateEntryArgs;
  parse_address : string → option Address;
  parse_call_args : string → option ZomeFnCallArgs;
  parse_link_entries_args : string → option LinkEntriesArgs;
  parse_get_links_args : string → option GetLinksArgs;
  parse_query_args : string → option QueryArgs;
  parse_entry : string → option Entry.t;
  parse_send_args : string → option SendArgs;
  parse_u64 : string → option Z;
  parse_sign_args : string → option string;
  parse_one_time_args : string → option (list string);
  parse_verify_args : string → option VerifySignatureArgs;
  parse_grant_args : string → option CommitCapabilityGrantArgs;
  parse_claim_args : string → option CommitCapabilityClaimArgs;
  json_of_value : ApiValue → string;
  json_of_core_error : HolochainError → string;
  json_of_internal : ZomeApiInternalResult → string;
  json_of_agent : AgentId → string;
  json_of_raw : string → string;
  parse_rpc : string → HcResult JsonRpc;
  field_text : string → string → option string;
  field_json : string → string → string;
  json_strings : string → option (list string);
  json_text : string → option string;
  json_result : string → option (HcResult string);
  json_valid : string → option string;
  internal_object r : ∃ body, json_of_internal r = "{" +:+ body +:+ "}";
  internal_utf8 r : from_utf8 (String.list_ascii_of_string (json_of_internal r)) = true;
}.

(** ** The functions and their names *)
Module ZomeApiFunction.
Inductive t :=
| MissingNo
| Abort
| Debug
| CommitAppEntry
| GetAppEntry
| UpdateEntry
| RemoveEntry
| InitGlobals
| Call
| LinkEntries
| GetLinks
| Query
| EntryAddress
| Send
| Sleep
| RemoveLink
| Sign
| SignOneTime
| VerifySignature
| KeystoreList
| KeystoreNewRandom
| KeystoreDeriveSeed
| KeystoreDeriveKey
| KeystoreSign
| KeystoreGetPublicKey
| CommitCapabilityGrant
| CommitCapabilityClaim.

#[global] Instance t_eq_dec : EqDecision t.
Proof. solve_decision. Defined.

(** In the order of the enumeration, each with its canonical name. *)
Definition table : list (t * string) :=
  [(MissingNo, ""); (Abort, "abort"); (Debug, "hc_debug"); (CommitAppEntry, "hc_commit_entry");
   (GetAppEntry, "hc_get_entry"); (UpdateEntry, "hc_update_entry"); (RemoveEntry, "hc_remove_entry");
   (InitGlobals, "hc_init_globals"); (Call, "hc_call"); (LinkEntries, "hc_link_entries");
   (GetLinks, "hc_get_links"); (Query, "hc_query"); (EntryAddress, "hc_entry_address"); (Send, "hc_send");
   (Sleep, "hc_sleep"); (RemoveLink, "hc_remove_link"); (Sign, "hc_sign"); (SignOneTime, "hc_sign_one_time");
   (VerifySignature, "hc_verify_signature"); (KeystoreList, "hc_keystore_list");
   (KeystoreNewRandom, "hc_keystore_new_random"); (KeystoreDeriveSeed, "hc_keystore_derive_seed");
   (KeystoreDeriveKey, "hc_keystore_derive_key"); (KeystoreSign, "hc_keystore_sign");
   (KeystoreGetPublicKey, "hc_keystore_get_public_key");
   (CommitCapabilityGrant, "hc_commit_capability_grant");
   (CommitCapabilityClaim, "hc_commit_capability_claim")].

Definition as_str (f : t) : string :=
  match List.find (λ p, bool_decide (p.1 = f)) table with Some p => p.2 | None => "" end.

(** [as usize]. *)
Definition index (f : t) : nat :=
  match list_find (λ p, p.1 = f) table with Some (i, _) => i | None => 0 end.

(** [from_index]. *)
Definition from_index (i : nat) : t :=
  match table !! i with Some p => p.1 | None => MissingNo end.

(** [FromStr]: the empty name is not one of the patterns. *)
Definition from_str (s : string) : result string t :=
  match List.find (λ p, bool_decide (p.2 = s)) (drop 1 table) with
  | Some p => Ok p.1
  | None => Err "Cannot convert string to ZomeApiFunction"
  end.

(** [str_to_index]. *)
Definition str_to_index (s : string) : nat :=
  index match from_str s with Ok f => f | Err _ => MissingNo end.
End ZomeApiFunction.

(** ** The runtime *)

(** [wasmi::RuntimeValue]; floats are their bits. *)
Inductive RuntimeValue :=
| I32 (v : Z)
| I64 (v : Z)
| F32 (bits : Z)
| F64 (bits : Z).

Inductive Trap :=
| BadCallError
| OtherTrap (kind : string).

Abbreviation ZomeApiResult := (result Trap (option RuntimeValue)).

(** [ribosome_success!] and [ribosome_error_code!]. *)
Definition ribosome_success : ZomeApiResult := Ok (Some (I64 (runtime_bits Success))).
Definition ribosome_error_code (code : RibosomeErrorCode) : ZomeApiResult :=
  Ok (Some (I64 (as_i64 (code_discriminant code)))).

(** [RuntimeArgs::nth] for a [u64]. *)
Definition nth_u64 (args : list RuntimeValue) (i : nat) : outcome Z :=
  match args !! i with
  | Some (I64 v) => Done (as_u64 v)
  | _ => Panicked "Expected a value of another type"
  end.

Section runtime.
Context {M : Type} `{!WasmiMemory M} {text : ApiText}.

Record Runtime := MkRuntime { memory_manager : WasmPageManager M; data : WasmCallData }.

Definition with_memory (rt : Runtime) (m : WasmPageManager M) : Runtime := MkRuntime m (data rt).

(** [Runtime::zome_call_data], [callback_call_data], [call_data] and [context]; the context
    is the node that the program runs on. *)
Definition zome_call_data (rt : Runtime) : result Trap ZomeFnCall :=
  match data rt with WcZome call => Ok call | _ => Err BadCallError end.
Definition callback_call_data (rt : Runtime) : result Trap CallbackFnCall :=
  match data rt with WcCallback call => Ok call | _ => Err BadCallError end.
Definition call_data (rt : Runtime) : result Trap (string * string) :=
  match data rt with
  | WcZome call => Ok (zome_name call, fn_name call)
  | WcCallback call => Ok (cb_zome_name call, cb_fn_name call)
  | WcDirect _ _ => Err BadCallError
  end.
Definition runtime_context (rt : Runtime) : result Trap unit :=
  match data rt with
  | WcZome _ | WcCallback _ => Ok tt
  | WcDirect _ _ => Err BadCallError
  end.

(** [Runtime::load_json_string_from_args]. *)
Definition load_json_string_from_args (rt : Runtime) (args : list RuntimeValue) : outcome string :=
  if decide (length args ≠ 1)%nat then Panicked "assertion failed: `(left == right)`" else
  encoded ← nth_u64 args 0;
  return_code ← decode_value encoded;
  match return_code with
  | Success => Done "null"
  | Failure _ => Panicked "received error code instead of valid encoded allocation"
  | Allocation bits =>
      allocation ← expect (ok (allocation_try_from bits)) "called Result::unwrap() on an Err value";
      bin_arg ← page_read (memory_manager rt) allocation;
      if from_utf8 bin_arg then Done (from_json (String.string_of_list_ascii bin_arg))
      else Panicked "called Result::unwrap() on an Err value"
  end.

(** [Runtime::store_as_json_string]. *)
Definition store_as_json_string (rt : Runtime) (j : string) : outcome (Runtime * ZomeApiResult) :=
  '(m, r) ← page_write (String.list_ascii_of_string j ++ [NUL]) (memory_manager rt);
  Done (with_memory rt m,
    match r with
    | Err _ => ribosome_error_code Unspecified
    | Ok allocation => Ok (Some (I64 (as_i64 (encode_value (value_of_allocation allocation)))))
    end).

(** [Runtime::store_result], with [ZomeApiInternalResult::success] and [failure]. *)
Definition internal_result (r : HcResult ApiValue) : ZomeApiInternalResult :=
  match r with
  | Ok value => MkInternalResult true (json_of_value value) "null"
  | Err hc_err => MkInternalResult false "null" (json_of_core_error hc_err)
  end.
Definition store_result (rt : Runtime) (r : HcResult ApiValue) : outcome (Runtime * ZomeApiResult) :=
  store_as_json_string rt (json_of_internal (internal_result r)).
End runtime.
Arguments Runtime M : clear implicits.

(** ** One-time signatures *)
Section one_time.
Context {crypto : Crypto} {sodium : Sodium} {hcid : Hcid}.

(** [keypair::generate_random_sign_keypair]. *)
Definition generate_random_sign_keypair : stateful Rng HolochainError SigningKeyPair :=
  seed ← generate_random_buf SEED_SIZE;
  SigningKeyPair_new_from_seed seed.

Fixpoint sign_all (sign_keys : SigningKeyPair) (payloads : list string) :
    stateful Rng HolochainError (list string) :=
  match payloads with
  | [] => mret []
  | payload :: payloads =>
      signature ← Keys.sign sign_keys (String.list_ascii_of_string payload);
      signatures ← sign_all sign_keys payloads;
      mret (base64_encode signature :: signatures)
  end.

(** [sign_one_time]. *)
Definition sign_one_time (payloads : list string) : stateful Rng HolochainError SignOneTimeResult :=
  sign_keys ← generate_random_sign_keypair;
  signatures ← sign_all sign_keys payloads;
  mret (MkSignOneTimeResult (sk_public sign_keys) signatures).
End one_time.

(** ** The functions *)
Definition quote : string := String (Ascii.ascii_of_nat 34) EmptyString.
Definition quoted (s : string) : string := quote +:+ s +:+ quote.

(** A JSON-RPC request; method, parameters and id are pasted into the text. *)
Definition rpc_request (method params id : string) : string :=
  "{" +:+ quoted "jsonrpc" +:+ ": " +:+ quoted "2.0" +:+ ", " +:+ quoted "method" +:+ ": " +:+ quoted method +:+
  ", " +:+ quoted "params" +:+ ": " +:+ params +:+ ", " +:+ quoted "id" +:+ ": " +:+ quoted id +:+ "}".

Section api.
Context {wire : Wire} {Json Net : Type}.
Context `{!JsonPayloads Json}.
Context {C : Type} `{!ContentAddressableStorage C}.
Context {S : Type} `{!EavStorage S}.
Context {crypto : Crypto} {cbtext : CallbackText} {globs : GlobSet} {sodium : Sodium} {hcid : Hcid}.
Context {M : Type} `{!WasmiMemory M} {text : ApiText}.
Abbreviation World := (@World C S).
Context (clock : nat → Z) (sign : nat → string → HcResult string) (iso8601 : Z → string).
Context (id_text : nat → string) (steps : nat) (debug_errors : list HolochainError → string).
Context (dna_address : Dna → Address) (my_agent : AgentId).
(** The answer of the conductor to the request with this unique id, and the state of the
    random generator at a moment. *)
Context (conductor : nat → string → outcome (option string)) (random : nat → Rng).
Abbreviation Prog := (Prog Json Net C S).
Abbreviation workflow := (workflow Json Net C S HolochainError).
Abbreviation api := (Prog (Runtime M * ZomeApiResult)).

(** *** Reading arguments and giving answers *)

(** [?] on a trap. *)
Definition or_trap {A} (r : result Trap A) (rt : Runtime M) (k : A → api) : api :=
  match r with Ok a => k a | Err t => Ret (rt, Err t) end.

(** Deserialise the arguments or exit. *)
Definition with_input {I} (parse : string → option I) (rt : Runtime M) (args : list RuntimeValue)
    (k : I → api) : api :=
  args_str <~ computed (load_json_string_from_args rt args);
  match parse args_str with
  | Some input => k input
  | None => Ret (rt, ribosome_error_code ArgumentDeserializationFailed)
  end.

Definition gives (rt : Runtime M) (r : HcResult ApiValue) : api := computed (store_result rt r).

(** *** The conductor *)

(** [ConductorApi::sign], behind [Context::sign]; [?] on an absent value. *)
Definition context_sign (payload : string) : workflow string :=
  id <~ Fresh Ret;
  let params := "{" +:+ quoted "payload" +:+ ": " +:+ quoted payload +:+ "}" in
  response <~ computed (conductor id (rpc_request "agent/sign" params (id_text id)));
  Ret (response ← ok_or response (ErrorGeneric "Conductor sign call failed");
       response ← parse_rpc response;
       match response with
       | RpcSuccess result => ok_or (field_text result "signature") (ErrorGeneric "Expected Some and got None")
       | RpcFailure error => Err (ErrorGeneric error)
       | RpcOther => Err (ErrorGeneric "Signing failed")
       end).

(** [conductor_callback]. *)
Definition conductor_callback (method params : string) : workflow string :=
  id <~ Fresh Ret;
  response <~ computed (conductor id (rpc_request method params (id_text id)));
  Ret (response ← ok_or response (ErrorGeneric "Callback failed");
       response ← parse_rpc response;
       match response with
       | RpcSuccess result => Ok result
       | RpcFailure error => Err (ErrorGeneric error)
       | RpcOther => Err (ErrorGeneric (method +:+ " call failed"))
       end).

(** *** Entries and links *)
Definition invoke_debug (rt : Runtime M) (args : list RuntimeValue) : api :=
  or_trap (runtime_context rt) rt (λ _,
    computed (load_json_string_from_args rt args) ;~ Ret (rt, ribosome_success)).

Definition invoke_commit_app_entry (rt : Runtime M) (args : list RuntimeValue) : api :=
  or_trap (runtime_context rt) rt (λ _, with_input parse_commit_entry_args rt args (λ arg,
    task_result <~ author_entry clock sign iso8601 id_text steps (cea_entry arg) None (cea_provenance arg);
    gives rt (AvCommit <$> task_result))).

Definition invoke_get_entry (rt : Runtime M) (args : list RuntimeValue) : api :=
  or_trap (runtime_context rt) rt (λ _, with_input parse_get_entry_args rt args (λ input,
    result <~ get_entry_result_workflow id_text steps input;
    gives rt (AvEntryResult <$> result))).

(** The latest version of an entry, which is updated or removed. *)
Definition with_latest (rt : Runtime M) (a : Address) (k : Entry.t → api) : api :=
  maybe_entry_result <~ get_entry_result_workflow id_text steps (MkGetEntryArgs a get_entry_options_default);
  match maybe_entry_result with
  | Err _ => Ret (rt, ribosome_error_code WorkflowFailed)
  | Ok entry_result =>
      if negb (result_found entry_result) then Ret (rt, ribosome_error_code EntryNotFound)
      else
        latest <~ computed (expect (result_latest entry_result) "called Option::unwrap() on a None value");
        k latest
  end.

Definition invoke_update_entry (rt : Runtime M) (args : list RuntimeValue) : api :=
  or_trap (runtime_context rt) rt (λ _, with_input parse_update_entry_args rt args (λ entry_args,
    with_latest rt (uea_address entry_args) (λ latest_entry,
      res <~ author_entry clock sign iso8601 id_text steps (uea_new_entry entry_args)
               (Some (address latest_entry)) [];
      gives rt (AvAddress <$> res)))).

Definition invoke_remove_entry (rt : Runtime M) (args : list RuntimeValue) : api :=
  or_trap (runtime_context rt) rt (λ _, with_input parse_address rt args (λ a,
    with_latest rt a (λ latest_entry,
      let deletion_entry := Entry.Deletion (address latest_entry) in
      res <~ author_entry clock sign iso8601 id_text steps deletion_entry (Some (address latest_entry)) [];
      gives rt ((λ _, AvAddress (address deletion_entry)) <$> res)))).

Definition invoke_link_entries (rt : Runtime M) (args : list RuntimeValue) : api :=
  or_trap (runtime_context rt) rt (λ _, with_input parse_link_entries_args rt args (λ input,
    let entry := Entry.LinkAdd (add_from_link (to_link input)) in
    res <~ author_entry clock sign iso8601 id_text steps entry None [];
    gives rt ((λ _, AvAddress (address entry)) <$> res))).

Definition invoke_remove_link (rt : Runtime M) (args : list RuntimeValue) : api :=
  or_trap (runtime_context rt) rt (λ _, with_input parse_link_entries_args rt args (λ input,
    let entry := Entry.LinkRemove (remove_from_link (to_link input)) in
    res <~ author_entry clock sign iso8601 id_text steps entry None [];
    gives rt ((λ _, AvUnit) <$> res))).

Definition invoke_get_links (rt : Runtime M) (args : list RuntimeValue) : api :=
  or_trap (runtime_context rt) rt (λ _, with_input parse_get_links_args rt args (λ input,
    result <~ get_link_result_workflow id_text debug_errors input;
    gives rt (AvLinks <$> result))).

(** [get_entry_type]: reading the type of an entry never fails. *)
Definition get_entry_type (d : Dna) (entry_type_name : string) : outcome (result RuntimeValue EntryType.t) :=
  let entry_type := EntryType.from_str entry_type_name in
  if EntryType.is_app entry_type then
    def ← get_entry_type_def d entry_type_name;
    Done match def with
         | Some _ => Ok entry_type
         | None => Err (I64 (as_i64 (code_discriminant UnknownEntryType)))
         end
  else Done (Ok entry_type).

Definition invoke_entry_address (rt : Runtime M) (args : list RuntimeValue) : api :=
  or_trap (runtime_context rt) rt (λ _, with_input parse_entry rt args (λ entry,
    ws <~ the_state;
    d <~ computed (expect (dna (s_nucleus ws.2)) "Should have DNA");
    maybe_entry_type <~ computed (get_entry_type d (EntryType.to_string (Entry.entry_type entry)));
    match maybe_entry_type with
    | Err err => Ret (rt, Ok (Some err))
    | Ok _ => gives rt (Ok (AvAddress (address entry)))
    end)).

(** *** The chain *)

(** [get_entry_from_chain]. *)
Definition get_entry_from_chain (a : Address) : workflow Entry.t :=
  ws <~ the_state;
  Ret (maybe_entry ← get_entry_from_agent (s_agent ws.2) ws.1 a;
       ok_or maybe_entry (ErrorGeneric ("Failed to obtain Entry for Address " +:+ a))).

(** Every item with its entry, up to the first that fails. *)
Fixpoint with_entries {X} (address_of : X → Address) (l : list X) : workflow (list (X * Entry.t)) :=
  match l with
  | [] => returns []
  | x :: l =>
      entry ← get_entry_from_chain (address_of x);
      rest ← with_entries address_of l;
      returns ((x, entry) :: rest)
  end.

Definition invoke_query (rt : Runtime M) (args : list RuntimeValue) : api :=
  or_trap (runtime_context rt) rt (λ _, with_input parse_query_args rt args (λ query_args,
    ws <~ the_state;
    top <~ computed (expect (top_chain_header (s_agent ws.2)) "Should have genesis entries.");
    let names := match qa_entry_type_names query_args with QueryList pats => pats | QueryName name => [name] end in
    maybe_result <~ computed (query (chain_cas (s_agent ws.2) ws.1) (Some top) names
      (MkQueryOptions (qa_start query_args) (qa_limit query_args) (qa_headers query_args)));
    match maybe_result with
    | Err _ => Ret (rt, ribosome_error_code UnknownEntryType)
    | Ok result =>
        match qa_entries query_args, result with
        | false, QrAddresses addresses => gives rt (Ok (AvQuery (QAddresses addresses)))
        | false, QrHeaders headers => gives rt (Ok (AvQuery (QHeaders headers)))
        | true, QrAddresses addresses =>
            maybe_entries <~ with_entries id addresses;
            match maybe_entries with
            | Ok entries => gives rt (Ok (AvQuery (QEntries entries)))
            | Err _ => Ret (rt, ribosome_error_code UnknownEntryType)
            end
        | true, QrHeaders headers =>
            maybe_entries <~ with_entries h_entry_address headers;
            match maybe_entries with
            | Ok entries => gives rt (Ok (AvQuery (QHeadersWithEntries entries)))
            | Err _ => Ret (rt, ribosome_error_code UnknownEntryType)
            end
        end
    end)).

(** [Context::get_public_token]: the first public grant along the chain. *)
Fixpoint public_grant (fuel : nat) (c : C) (grants : option ChainHeader) : outcome (HcResult Address) :=
  match fuel with
  | O => diverges
  | Datatypes.S fuel =>
      '(grant, rest) ← next c h_link_same_type grants;
      match grant with
      | None => Done (Err (ErrorGeneric "No public CapTokenGrant entry type in chain"))
      | Some h =>
          match get_entry_from_cas c (h_entry_address h) with
          | Err e => Done (Err e)
          | Ok None => Done (Err (ErrorGeneric "Can't get CapTokenGrant entry from CAS"))
          | Ok (Some (Entry.CapTokenGrant g)) =>
              if decide (cap_type g = Public ∧ grant_id g = "hc_public") then Done (Ok (h_entry_address h))
              else public_grant fuel c rest
          | Ok (Some _) => public_grant fuel c rest
          end
      end
  end.

Definition get_public_token (v : View Net C S) : outcome (HcResult Address) :=
  match v with
  | None => Done (Err (ErrorGeneric "State uninitialized!"))
  | Some (w, s) =>
      match top_chain_header (s_agent s) with
      | None => Done (Err (ErrorGeneric "No top chain header"))
      | Some top =>
          let c := chain_cas (s_agent s) w in
          grants ← iter_type c (Some top) EntryType.CapTokenGrant;
          public_grant (budget c) c grants
      end
  end.

(** The addresses of the agent entries on the chain, the latest first. *)
Definition agent_hashes (v : View Net C S) : outcome (list Address) :=
  match v with
  | Some (w, s) =>
      match top_chain_header (s_agent s) with
      | Some top =>
          let c := chain_cas (s_agent s) w in
          it ← iter_type c (Some top) EntryType.AgentId;
          headers ← collect (budget c) c h_link_same_type (λ _, true) 0 USIZE_MAX it;
          Done (List.map h_entry_address headers)
      | None => Done []
      end
  | None => Done []
  end.

Definition invoke_init_globals (rt : Runtime M) (_ : list RuntimeValue) : api :=
  or_trap (call_data rt) rt (λ _, or_trap (runtime_context rt) rt (λ _,
    d <~ context_get_dna;
    d <~ computed (expect d "called Option::unwrap() on a None value");
    or_trap (zome_call_data rt) rt (λ call,
      GetState (λ v,
        let current := match v with Some (_, s) => dna (s_nucleus s) | None => None end in
        found_entries <~ computed (agent_hashes v);
        GetState (λ v,
          maybe_token <~ computed (get_public_token v);
          gives rt (Ok (AvGlobals {|
            g_dna_name := dna_name d;
            g_dna_address := match current with Some d => dna_address d | None => "" end;
            g_agent_id_str := json_of_agent my_agent;
            g_agent_address := default (agent_address my_agent) (head found_entries);
            g_agent_initial_hash := default "" (last found_entries);
            g_agent_latest_hash := default "" (head found_entries);
            g_public_token := match maybe_token with Ok token => token | Err _ => "" end;
            g_cap_request := cap call;
            g_properties := dna_properties d;
          |}))))))).

(** *** Messages, signatures and time *)
Definition invoke_send (rt : Runtime M) (args : list RuntimeValue) : api :=
  or_trap (call_data rt) rt (λ call, with_input parse_send_args rt args (λ args,
    result <~ custom_send id_text (sa_to_agent args) (MkCustomDirectMessage call.1 (Ok (sa_payload args)))
                (sa_timeout args);
    gives rt ((λ s, AvJson (from_json s)) <$> result))).

Definition invoke_sleep (rt : Runtime M) (args : list RuntimeValue) : api :=
  with_input parse_u64 rt args (λ _, Ret (rt, ribosome_success)).

Definition invoke_sign (rt : Runtime M) (args : list RuntimeValue) : api :=
  or_trap (runtime_context rt) rt (λ _, with_input parse_sign_args rt args (λ payload,
    signature <~ context_sign payload;
    gives rt ((λ sig, AvJson (from_json sig)) <$> signature))).

Definition invoke_sign_one_time (rt : Runtime M) (args : list RuntimeValue) : api :=
  or_trap (runtime_context rt) rt (λ _, with_input parse_one_time_args rt args (λ payloads,
    moment <~ Fresh Ret;
    result <~ computed (sign_one_time payloads (random moment));
    gives rt (AvOneTime <$> result.2))).

Definition invoke_verify_signature (rt : Runtime M) (args : list RuntimeValue) : api :=
  or_trap (runtime_context rt) rt (λ _, with_input parse_verify_args rt args (λ verification_args,
    gives rt (AvBool <$> provenance_verify (vsa_provenance verification_args) (vsa_payload verification_args)))).

(** *** Calls *)

(** [make_call_sig] and [make_cap_request_for_call]. *)
Definition make_call_sig (function parameters : string) : Prog string :=
  signature <~ context_sign (encode_call_data_for_signing function parameters);
  computed (expect (ok signature) "signing should work").

Definition make_cap_request_for_call (cap_token : Address) (function parameters : string) :
    Prog CapabilityRequest :=
  signature <~ make_call_sig function parameters;
  Ret (MkCapabilityRequest cap_token (MkProvenance (agent_address my_agent) signature)).

(** [ZomeFnCall::from_args]. *)
Definition from_args (args : ZomeFnCallArgs) : Prog ZomeFnCall :=
  cap_call <~ make_cap_request_for_call (zca_cap_token args) (zca_fn_name args) (from_json (zca_fn_args args));
  id <~ Fresh Ret;
  Ret (MkZomeFnCall id (zca_zome_name args) cap_call (zca_fn_name args) (from_json (zca_fn_args args))).

Definition local_call (rt : Runtime M) (input : ZomeFnCallArgs) : workflow string :=
  match runtime_context rt with
  | Err _ => fails (ErrorGeneric "expecting zome call data in local call not null call")
  | Ok _ => zome_call <~ from_args input; call_zome_function my_agent zome_call
  end.

(** A successful response may be a string of JSON, a result or a plain value; whatever is not
    a success ends up in the last case. *)
Definition bridge_response (value_response : string) : string :=
  let sanitized_response := default value_response (json_text value_response) in
  match json_result sanitized_response with
  | Some (Ok value) => value
  | Some (Err _) | None =>
      match json_valid sanitized_response with
      | Some parsed_value => parsed_value
      | None => json_of_raw sanitized_response
      end
  end.

Definition bridge_call (rt : Runtime M) (input : ZomeFnCallArgs) : workflow string :=
  match runtime_context rt with
  | Err _ => fails (ErrorGeneric "expecting zome call data in bridge call not null call")
  | Ok _ =>
      let params := "{" +:+ quoted "instance_id" +:+ ":" +:+ quoted (zca_instance_handle input) +:+ ", " +:+
        quoted "zome" +:+ ": " +:+ quoted (zca_zome_name input) +:+ ", " +:+
        quoted "function" +:+ ": " +:+ quoted (zca_fn_name input) +:+ ", " +:+
        quoted "args" +:+ ": " +:+ zca_fn_args input +:+ "}" in
      id <~ Fresh Ret;
      response <~ computed (conductor id (rpc_request "call" params (id_text id)));
      Ret (response ← ok_or response (ErrorGeneric "Bridge call failed");
           response ← parse_rpc response;
           match response with
           | RpcSuccess result => Ok (bridge_response result)
           | RpcFailure error => Err (ErrorGeneric error)
           | RpcOther => Err (ErrorGeneric "Bridge call failed")
           end)
  end.

Definition invoke_call (rt : Runtime M) (args : list RuntimeValue) : api :=
  or_trap (zome_call_data rt) rt (λ call, with_input parse_call_args rt args (λ input,
    if decide (zca_instance_handle input = THIS_INSTANCE) then
      zome_call <~ from_args input;
      if same_fn_as zome_call call then Ret (rt, ribosome_error_code RecursiveCallForbidden)
      else
        result <~ local_call rt input;
        gives rt (AvJson <$> result)
    else
      result <~ bridge_call rt input;
      gives rt (AvJson <$> result))).

(** *** The keystore *)

(** A request that hands the arguments on; [read] takes the answer from the result. *)
Definition keystore_request (method : string) (read : string → outcome ApiValue) (rt : Runtime M)
    (params : string) : api :=
  result <~ conductor_callback method params;
  match result with
  | Err _ => Ret (rt, ribosome_error_code CallbackFailed)
  | Ok json => value <~ computed (read json); gives rt (Ok value)
  end.

Definition invoke_keystore_list (rt : Runtime M) (_ : list RuntimeValue) : api :=
  or_trap (runtime_context rt) rt (λ _,
    keystore_request "agent/keystore/list"
      (λ json, AvIds <$> expect (json_strings json) "called Result::unwrap() on an Err value") rt "{}").

Definition invoke_keystore_new_random (rt : Runtime M) (args : list RuntimeValue) : api :=
  or_trap (runtime_context rt) rt (λ _,
    args_str <~ computed (load_json_string_from_args rt args);
    keystore_request "agent/keystore/add_random_seed" (λ _, Done AvUnit) rt args_str).

Definition invoke_keystore_derive_seed (rt : Runtime M) (args : list RuntimeValue) : api :=
  or_trap (runtime_context rt) rt (λ _,
    args_str <~ computed (load_json_string_from_args rt args);
    keystore_request "agent/keystore/add_seed_from_seed" (λ _, Done AvUnit) rt args_str).

Definition invoke_keystore_derive_key (rt : Runtime M) (args : list RuntimeValue) : api :=
  or_trap (runtime_context rt) rt (λ _,
    args_str <~ computed (load_json_string_from_args rt args);
    keystore_request "agent/keystore/add_key_from_seed"
      (λ json, Done (AvJson (from_json (field_json json "pub_key")))) rt args_str).

Definition invoke_keystore_sign (rt : Runtime M) (args : list RuntimeValue) : api :=
  or_trap (runtime_context rt) rt (λ _,
    args_str <~ computed (load_json_string_from_args rt args);
    keystore_request "agent/keystore/sign"
      (λ json, (λ sig, AvJson (from_json sig)) <$>
                 expect (field_text json "signature") "called Option::unwrap() on a None value") rt args_str).

Definition invoke_keystore_get_public_key (rt : Runtime M) (args : list RuntimeValue) : api :=
  or_trap (runtime_context rt) rt (λ _,
    args_str <~ computed (load_json_string_from_args rt args);
    keystore_request "agent/keystore/get_public_key"
      (λ json, Done (AvJson (from_json (field_json json "pub_key")))) rt args_str).

(** *** Capabilities: both entries go to the chain without validation. *)
Definition invoke_commit_capability_grant (rt : Runtime M) (args : list RuntimeValue) : api :=
  or_trap (runtime_context rt) rt (λ _, with_input parse_grant_args rt args (λ args,
    task_result <~
      match create (cga_id args) (cga_cap_type args) (cga_assignees args) (cga_functions args) with
      | Ok grant => commit_entry (Entry.CapTokenGrant grant) None
      | Err err => fails (ErrorGeneric ("Unable to commit capability grant: " +:+ HolochainError_fmt err))
      end;
    gives rt (AvAddress <$> task_result))).

Definition invoke_commit_capability_claim (rt : Runtime M) (args : list RuntimeValue) : api :=
  or_trap (runtime_context rt) rt (λ _, with_input parse_claim_args rt args (λ args,
    task_result <~ commit_entry
      (Entry.CapTokenClaim (MkClaim (cca_id args) (cca_grantor args) (cca_token args))) None;
    gives rt (AvAddress <$> task_result))).

(** *** Dispatch *)

(** [ZomeApiFunction::as_fn]. *)
Definition as_fn (f : ZomeApiFunction.t) : Runtime M → list RuntimeValue → api :=
  match f with
  | ZomeApiFunction.MissingNo | ZomeApiFunction.Abort => λ rt _, Ret (rt, ribosome_success)
  | ZomeApiFunction.Debug => invoke_debug
  | ZomeApiFunction.CommitAppEntry => invoke_commit_app_entry
  | ZomeApiFunction.GetAppEntry => invoke_get_entry
  | ZomeApiFunction.UpdateEntry => invoke_update_entry
  | ZomeApiFunction.RemoveEntry => invoke_remove_entry
  | ZomeApiFunction.InitGlobals => invoke_init_globals
  | ZomeApiFunction.Call => invoke_call
  | ZomeApiFunction.LinkEntries => invoke_link_entries
  | ZomeApiFunction.GetLinks => invoke_get_links
  | ZomeApiFunction.Query => invoke_query
  | ZomeApiFunction.EntryAddress => invoke_entry_address
  | ZomeApiFunction.Send => invoke_send
  | ZomeApiFunction.Sleep => invoke_sleep
  | ZomeApiFunction.RemoveLink => invoke_remove_link
  | ZomeApiFunction.Sign => invoke_sign
  | ZomeApiFunction.SignOneTime => invoke_sign_one_time
  | ZomeApiFunction.VerifySignature => invoke_verify_signature
  | ZomeApiFunction.KeystoreList => invoke_keystore_list
  | ZomeApiFunction.KeystoreNewRandom => invoke_keystore_new_random
  | ZomeApiFunction.KeystoreDeriveSeed => invoke_keystore_derive_seed
  | ZomeApiFunction.KeystoreDeriveKey => invoke_keystore_derive_key
  | ZomeApiFunction.KeystoreSign => invoke_keystore_sign
  | ZomeApiFunction.KeystoreGetPublicKey => invoke_keystore_get_public_key
  | ZomeApiFunction.CommitCapabilityGrant => invoke_commit_capability_grant
  | ZomeApiFunction.CommitCapabilityClaim => invoke_commit_capability_claim
  end.

(** [Externals::invoke_index]. *)
Definition invoke_index (rt : Runtime M) (i : nat) (args : list RuntimeValue) : api :=
  let zf := ZomeApiFunction.from_index i in
  if decide (zf = ZomeApiFunction.MissingNo) then Panic "unknown function index" else as_fn zf rt args.
End api.
