(* ===== verification/Ribosome.v ===== *)
(** * Running wasm code

    [core/src/nucleus/ribosome/run_dna.rs] and [factories.rs]: the module of a zome is
    instantiated with the functions of the host, the parameters are written to its memory,
    a function that it exports runs, and the value that it returns is decoded.

    The interpreter is the class [Wasmi].  Wasm code is a transition system: it computes on
    its memory, calls functions that it imports, returns or traps, and may do so forever;
    [run_guest] runs it for a number of steps. *)
From S2P Require Import Prelude Bits Errors Strings Time WasmMemory JsonString Eav Entries Cas Protocol Actions Sodium Keys Dht Chain Network Nucleus State Workflow Lookup Validation Workflows Capabilities Api.

Inductive ValueType := TI32 | TI64 | TF32 | TF64.
#[global] Instance ValueType_eq_dec : EqDecision ValueType.
Proof. solve_decision. Defined.

Definition value_type (v : RuntimeValue) : ValueType :=
  match v with I32 _ => TI32 | I64 _ => TI64 | F32 _ => TF32 | F64 _ => TF64 end.

Record Signature := MkSignature { sig_params : list ValueType; sig_return : option ValueType }.

(** The next step of wasm code; [I] is the state of the instance besides its memory. *)
Inductive GuestStep (I G : Type) :=
| GReturns (i : I) (v : option RuntimeValue)
| GTraps (i : I) (trap : Trap)
| GCalls (i : I) (field : string) (args : list RuntimeValue) (k : option RuntimeValue → G)
| GComputes (g : G).
Arguments GReturns {I G} i v.
Arguments GTraps {I G} i trap.
Arguments GCalls {I G} i field args k.
Arguments GComputes {I G} g.

(** [wasmi]: modules are read from bytes; a module imports functions by the name of a host
    module and a field, exports its memory and functions, and may run a start function,
    which can reach no host; [Display] of its errors. *)
Class Wasmi (M : Type) := {
  Module_ : Type;
  Instance_ : Type;
  Guest : Type;
  from_buffer : list byte → result string Module_;
  imports : Module_ → list (string * string);
  run_start : Module_ → option (Instance_ * M);
  has_memory : Module_ → bool;
  exported : Instance_ → string → option (list RuntimeValue → Guest);
  guest_step : Guest → M → M * GuestStep Instance_ Guest;
  missing_export : string → string;
  trap_text : Trap → string;
  utf8_error : list byte → string;
}.

(** ** The host's functions *)

(** [RuntimeModuleImportResolver::resolve_func]: the signature that is asked for is not
    looked at. *)
Definition resolve_func (field_name : string) : result string (Signature * nat) :=
  match ZomeApiFunction.from_str field_name with
  | Err _ => Err ("host module doesn't export function with name " +:+ field_name)
  | Ok ZomeApiFunction.Abort =>
      Ok (MkSignature [TI64; TI64; TI64; TI64] None, ZomeApiFunction.index ZomeApiFunction.Abort)
  | Ok api_fn => Ok (MkSignature [TI64] (Some TI64), ZomeApiFunction.index api_fn)
  end.

Definition debug_allocation_error (e : AllocationError) : string :=
  match e with
  | OutOfBounds => "OutOfBounds"
  | ZeroLength => "ZeroLength"
  | BadStackAlignment => "BadStackAlignment"
  | Serialization => "Serialization"
  end.

Section ribosome.
Context {wire : Wire} {Json Net : Type}.
Context `{!JsonPayloads Json}.
Context {C : Type} `{!ContentAddressableStorage C}.
Context {S : Type} `{!EavStorage S}.
Context {crypto : Crypto} {cbtext : CallbackText} {globs : GlobSet} {sodium : Sodium} {hcid : Hcid}.
Context {M : Type} `{!WasmiMemory M} `{!Wasmi M} {text : ApiText}.
Context (clock : nat → Z) (sign : nat → string → HcResult string) (iso8601 : Z → string).
Context (id_text : nat → string) (steps : nat) (debug_errors : list HolochainError → string).
Context (dna_address : Dna → Address) (my_agent : AgentId).
Context (conductor : nat → string → outcome (option string)) (random : nat → Rng).
Abbreviation Prog := (Prog Json Net C S).
Abbreviation workflow := (workflow Json Net C S HolochainError).
Abbreviation invoke_index := (invoke_index clock sign iso8601 id_text steps debug_errors dna_address my_agent
  conductor random).

(** [wasm_module_factory], also behind [DnaWasm::get_wasm_module], which keeps the module. *)
Definition wasm_module_factory (wasm : list byte) : HcResult Module_ := map_err ErrorGeneric (from_buffer wasm).

(** [wasm_instance_factory]: an import that the host does not have panics. *)
Definition wasm_instance_factory (module : Module_) : outcome (HcResult (Instance_ * option M)) :=
  if decide (Forall (λ i, i.1 = "env" ∧ is_Some (ok (resolve_func i.2))) (imports module)) then
    Done match run_start module with
         | None => Err (RibosomeFailed "Module failed to start")
         | Some (i, m) => Ok (i, if has_memory module then Some m else None)
         end
  else Panicked "Failed to instantiate module".

(** [get_module]. *)
Definition get_module (data : WasmCallData) : workflow Module_ :=
  let of_zome zome_name :=
    GetState (λ v,
      match v with
      | None => fails (ErrorGeneric "Expected Some and got None")
      | Some (_, s) =>
          d <~ computed (expect (dna (s_nucleus s)) "called Option::unwrap() on a None value");
          Ret (zome ← ok_or (map_get zome_name (dna_zomes d))
                        (ErrorGeneric ("No Ribosome found for Zome '" +:+ zome_name +:+ "'"));
               wasm_module_factory (z_code zome))
      end) in
  match data with
  | WcDirect _ wasm => Ret (wasm_module_factory wasm)
  | WcZome call => of_zome (zome_name call)
  | WcCallback call => of_zome (cb_zome_name call)
  end.

(** [WasmCallData::fn_name]. *)
Definition data_fn_name (data : WasmCallData) : string :=
  match data with
  | WcZome call => fn_name call
  | WcCallback call => cb_fn_name call
  | WcDirect name _ => name
  end.

(** ** Running an exported function *)

(** The interpreter calls the host with the index that the resolver gave and checks the type
    of what it returns. *)
Fixpoint run_guest (fuel : nat) (rt : Runtime M) (g : Guest) :
    Prog (Runtime M * Instance_ * result Trap (option RuntimeValue)) :=
  match fuel with
  | O => Panic "does not return"
  | Datatypes.S fuel =>
      let '(m, next) := guest_step g (wasm_memory (memory_manager rt)) in
      let rt := with_memory rt (MkPageManager (stack (memory_manager rt)) m) in
      match next with
      | GReturns i v => Ret (rt, i, Ok v)
      | GTraps i trap => Ret (rt, i, Err trap)
      | GComputes g => run_guest fuel rt g
      | GCalls i field args k =>
          match resolve_func field with
          | Err why => Panic why
          | Ok (signature, idx) =>
              r <~ invoke_index rt idx args;
              match r.2 with
              | Err trap => Ret (r.1, i, Err trap)
              | Ok v =>
                  if decide (value_type <$> v = sig_return signature) then run_guest fuel r.1 (k v)
                  else Ret (r.1, i, Err (OtherTrap "UnexpectedSignature"))
              end
          end
      end
  end.

(** [ModuleInstance::invoke_export]. *)
Definition invoke_export (fuel : nat) (i : Instance_) (name : string) (args : list RuntimeValue)
    (rt : Runtime M) : Prog (Runtime M * Instance_ * result string (option RuntimeValue)) :=
  match exported i name with
  | None => Ret (rt, i, Err (missing_export name))
  | Some f => r <~ run_guest fuel rt (f args); Ret (r.1, map_err trap_text r.2)
  end.

(** The value that a function returned, as a result. *)
Definition returned (rt : Runtime M) (returned_encoding : Z) : outcome (HcResult string) :=
  return_code ← decode_value returned_encoding;
  match return_code with
  | Success => Done (Ok "null")
  | Failure err_code => Done (Err (RibosomeFailed ("Zome function failure: " +:+ as_str err_code)))
  | Allocation ribosome_allocation =>
      match allocation_try_from ribosome_allocation with
      | Ok allocation =>
          result ← page_read (memory_manager rt) allocation;
          Done (if from_utf8 result then Ok (from_json (String.string_of_list_ascii result))
                else Err (RibosomeFailed ("WASM failed to return value: " +:+ utf8_error result)))
      | Err allocation_error =>
          Done (Err (RibosomeFailed ("WASM return value allocation failed: " +:+
                                     debug_allocation_error allocation_error)))
      end
  end.

(** The encoding of the input; an empty one needs no allocation. *)
Definition encoded_input (written : AllocationResult) : HcResult Z :=
  match written with
  | Err ZeroLength => Ok (encode_value Success)
  | Err err => Err (RibosomeFailed ("WASM Memory issue: " +:+ debug_allocation_error err))
  | Ok allocation => Ok (encode_value (value_of_allocation allocation))
  end.

(** [ribosome::run_dna]: the panic handler is installed if there is one. *)
Definition run_wasm (fuel : nat) (parameters : option (list byte)) (data : WasmCallData) : workflow string :=
  wasm_module ← get_module data;
  instance ← (computed (wasm_instance_factory wasm_module) : workflow _);
  memory_manager <~ computed (page_manager_new instance.2);
  written <~ computed (page_write (default [] parameters) memory_manager);
  input ← (Ret (encoded_input written.2) : workflow _);
  installed <~ invoke_export fuel instance.1 "__install_panic_handler" [] (MkRuntime written.1 data);
  invoked <~ invoke_export fuel installed.1.2 (data_fn_name data) [I64 (as_i64 input)] installed.1.1;
  match invoked.2 with
  | Err err => fails (RibosomeFailed ("WASM invocation failed: " +:+ err))
  | Ok None => Panic "called Option::unwrap() on a None value"
  | Ok (Some (I64 v)) => computed (returned invoked.1.1 (as_u64 v))
  | Ok (Some _) => fails (RibosomeFailed "WASM return value missing")
  end.
End ribosome.
