(* ===== verification/ApiFacts.v ===== *)
(** * Facts about the functions that zome code calls

    What the host writes into linear memory is what is read back there; the names of the
    functions; what the guards of calls check and what they miss; one-time signatures. *)
From S2P Require Import Prelude Bits Errors Strings Time WasmMemory JsonString Eav Entries Cas Protocol Actions Sodium Keys KeysFacts Dht Chain Network Nucleus State Workflow Lookup Validation Workflows Capabilities Api Ribosome.

(** ** Names *)

(** Every function but the one for errors is found under its name and its index. *)
Lemma function_names f :
  f ≠ ZomeApiFunction.MissingNo →
  ZomeApiFunction.from_str (ZomeApiFunction.as_str f) = Ok f ∧
  ZomeApiFunction.from_index (ZomeApiFunction.index f) = f.
Proof. by destruct f. Qed.

Lemma from_str_name s f : ZomeApiFunction.from_str s = Ok f → ZomeApiFunction.as_str f = s ∧ f ≠ ZomeApiFunction.MissingNo.
Proof.
  unfold ZomeApiFunction.from_str. destruct (List.find _ _) as [p|] eqn:Hf; [|done]. intros [= <-].
  apply find_some in Hf as [Hin Hs%bool_decide_eq_true]. simpl in Hin.
  repeat (destruct Hin as [<-|Hin]; [by subst|]). done.
Qed.

(** The interpreter resolves a name to the index of the function with that name, so no zome
    makes the host panic for an unknown index. *)
Theorem resolved_functions_exist s sig i :
  resolve_func s = Ok (sig, i) →
  ZomeApiFunction.from_index i ≠ ZomeApiFunction.MissingNo ∧
  ZomeApiFunction.as_str (ZomeApiFunction.from_index i) = s.
Proof.
  unfold resolve_func. destruct (ZomeApiFunction.from_str s) as [f|] eqn:Hf; [|done].
  apply from_str_name in Hf as [<- Hn]. destruct (function_names f Hn) as [_ Hi].
  intros Hr. assert (ZomeApiFunction.index f = i) as <- by (by destruct f; simplify_eq/=). by rewrite Hi.
Qed.

Section api_facts.
Context {wire : Wire} {Json Net : Type}.
Context `{!JsonPayloads Json}.
Context {C : Type} `{!ContentAddressableStorage C}.
Context {S : Type} `{!EavStorage S}.
Context {crypto : Crypto} {cbtext : CallbackText} {globs : GlobSet} {sodium : Sodium} {hcid : Hcid}.
Context {M : Type} `{!WasmiMemory M} {text : ApiText}.
Context (id_text : nat → string) (dna_address : Dna → Address) (my_agent : AgentId).
Context (conductor : nat → string → outcome (option string)) (random : nat → Rng).
Abbreviation Prog := (Prog Json Net C S).

Lemma page_write_allocation (data : list byte) (p p' : WasmPageManager M) a :
  stack_wf (stack p) → Z.of_nat (length data) ≤ MEMORY_INT_MAX → page_write data p = Done (p', Ok a) → allocation_wf a.
Proof.
  intros Hs Hl Hw. destruct (decide (data = [])) as [->|Hd]; [done|].
  rewrite page_write_eq in Hw by done. destruct (next_allocation _ _) as [a'|] eqn:Ha; [|done].
  destruct (wasmi_set _ _ _); simplify_eq/=.
  by destruct (next_allocation_allocate (stack p) (Z.of_nat (length data)) a Hs) as [? _]; [unfold fits, MEMORY_INT_MAX, U32_MAX in *; lia|..].
Qed.

Lemma encoding_u64 a :
  allocation_wf a → as_u64 (as_i64 (encode_value (value_of_allocation a))) = as_ribosome_encoding a.
Proof.
  intros [Ho Hl]%allocation_halves. unfold as_u64. rewrite as_i64_mod. apply Z.mod_small.
  change (fits 64 (encoded_allocation a)). unfold encoded_allocation. rewrite u64_merge_val by done.
  unfold fits in *. lia.
Qed.

(** C18: the answer of a function that zome code calls is in linear memory at the encoded
    allocation that the function returns: reading it there as the host reads arguments gives
    the JSON of the answer, and what was allocated before is unchanged. *)
Theorem answer_read_back (rt : Runtime M) (r : HcResult ApiValue) :
  let json := json_of_internal (internal_result r) in
  let size := Z.of_nat (String.length json) + 1 in
  stack_wf (stack (memory_manager rt)) →
  top (stack (memory_manager rt)) + size ≤ MEMORY_INT_MAX →
  top (stack (memory_manager rt)) + size ≤ Z.of_nat (length (wasmi_bytes (wasm_memory (memory_manager rt)))) →
  ∃ rt' v, store_result rt r = Done (rt', Ok (Some (I64 v))) ∧ data rt' = data rt ∧
    load_json_string_from_args rt' [I64 v] = Done json ∧
    ∀ b, allocation_wf b → offset b + length_ b ≤ top (stack (memory_manager rt)) →
      page_read (memory_manager rt') b = page_read (memory_manager rt) b.
Proof.
  intros json size Hs H1m H2m. unfold store_result, store_as_json_string. fold json.
  assert (Z.of_nat (length (String.list_ascii_of_string json ++ [NUL])) = size) as Hsize.
  { rewrite length_app. unfold size. rewrite <-bytes_length. simpl. lia. }
  destruct (page_write_read (memory_manager rt) (String.list_ascii_of_string json ++ [NUL])) as
    (m & a & Hw & Hr & Hold & Ho & Ht); [done|by intros []%app_eq_nil|lia..|].
  rewrite Hw. eexists _, _. split_and!; [done|done| |exact Hold].
  assert (allocation_wf a) as Ha.
  { apply (page_write_allocation (String.list_ascii_of_string json ++ [NUL]) (memory_manager rt) m);
      [done|destruct Hs; lia|done]. }
  unfold load_json_string_from_args. rewrite decide_False by (intros Hn; by apply Hn).
  change (nth_u64 _ 0) with (Done (as_u64 (as_i64 (encode_value (value_of_allocation a))))).
  rewrite encoding_u64 by done. simpl. rewrite decode_encoded_allocation by done. simpl.
  unfold allocation_try_from. rewrite encoded_allocation_split by done. rewrite allocation_new_self by done. simpl.
  rewrite Hr. simpl. destruct (internal_object (internal_result r)) as [body Hb].
  rewrite from_utf8_app by (done || apply internal_utf8). by rewrite (from_json_object _ body).
Qed.

(** ** Calls *)
Abbreviation from_args := (from_args id_text my_agent conductor).
Abbreviation local_call := (local_call id_text my_agent conductor).
Abbreviation bridge_call := (bridge_call id_text conductor).
Abbreviation invoke_call := (invoke_call id_text my_agent conductor).

(** The conductor signs a payload under the unique id [id]. *)
Definition signs (id : nat) (payload signature : string) : Prop :=
  ∃ response json,
    conductor id (rpc_request "agent/sign" ("{" +:+ quoted "payload" +:+ ": " +:+ quoted payload +:+ "}") (id_text id)) =
      Done (Some response) ∧
    parse_rpc response = Ok (RpcSuccess json) ∧ field_text json "signature" = Some signature.

(** The call that zome code asks for. *)
Definition asked (input : ZomeFnCallArgs) (signature : string) (id : nat) : ZomeFnCall :=
  MkZomeFnCall id (zca_zome_name input)
    (MkCapabilityRequest (zca_cap_token input) (MkProvenance (agent_address my_agent) signature))
    (zca_fn_name input) (from_json (zca_fn_args input)).

Lemma runs_fresh {A} (p q : Prog A) (k : nat → Prog A) τ id :
  p = Fresh k → runs (k id) τ q → runs p (τ ++ [EvFresh id]) q.
Proof.
  intros -> Hr. induction Hr as [|τ q ev q' Hr IH Hs].
  - eapply (runs_step _ []); [constructor|]. by exists id.
  - rewrite <-app_comm_cons. eapply runs_step; [exact IH|exact Hs].
Qed.

Lemma runs_from_args {A} input signature id id' (f : ZomeFnCall → Prog A) :
  signs id (encode_call_data_for_signing (zca_fn_name input) (from_json (zca_fn_args input))) signature →
  runs (zome_call <~ from_args input; f zome_call) [EvFresh id'; EvFresh id] (f (asked input signature id')).
Proof.
  intros (response & json & Hc & Hp & Hf).
  apply (runs_fresh _ _ _ [EvFresh id'] id eq_refl). cbn [prog_bind]. rewrite Hc. simpl. rewrite Hp. simpl. rewrite Hf. simpl.
  apply (runs_fresh _ _ _ [] id' eq_refl). constructor.
Qed.

(** the guard against recursion compares the whole capability requests, signatures of
    the parameters included: a zome function that calls itself with parameters that are
    signed differently is not refused, the call goes on. *)
Theorem recursion_guard_misses (rt : Runtime M) args args_str input call signature id id' :
  data rt = WcZome call →
  load_json_string_from_args rt args = Done args_str → parse_call_args args_str = Some input →
  zca_instance_handle input = THIS_INSTANCE →
  zca_zome_name input = zome_name call → zca_fn_name input = fn_name call →
  signs id (encode_call_data_for_signing (zca_fn_name input) (from_json (zca_fn_args input))) signature →
  signature ≠ Entries.signature (cap_provenance (cap call)) →
  runs (invoke_call rt args : Prog _) [EvFresh id'; EvFresh id]
    (result <~ local_call rt input; gives rt (AvJson <$> result)).
Proof.
  intros Hd Hl Hp Hi Hz Hfn Hs Hne. unfold Api.invoke_call, zome_call_data, with_input. rewrite Hd. simpl.
  rewrite Hl. simpl. rewrite Hp. rewrite decide_True by done.
  assert (same_fn_as (asked input signature id') call = false) as Hf.
  { unfold same_fn_as. rewrite (bool_decide_false (cap _ = _)); [by rewrite andb_false_r|].
    intros E. apply Hne. by rewrite <-E. }
  pose proof (runs_from_args input signature id id' (λ zome_call,
    if same_fn_as zome_call call then Ret (rt, ribosome_error_code RecursiveCallForbidden)
    else (result <~ local_call rt input; gives rt (AvJson <$> result))) Hs) as Hr.
  cbv beta in Hr. rewrite Hf in Hr. exact Hr.
Qed.

(** The guard refuses exactly the call with the same request. *)
Theorem recursion_guard_refuses (rt : Runtime M) args args_str input call signature id id' :
  data rt = WcZome call →
  load_json_string_from_args rt args = Done args_str → parse_call_args args_str = Some input →
  zca_instance_handle input = THIS_INSTANCE →
  zca_zome_name input = zome_name call → zca_fn_name input = fn_name call →
  signs id (encode_call_data_for_signing (zca_fn_name input) (from_json (zca_fn_args input))) signature →
  cap call = cap (asked input signature id') →
  runs (invoke_call rt args : Prog _) [EvFresh id'; EvFresh id]
    (Ret (rt, ribosome_error_code RecursiveCallForbidden)).
Proof.
  intros Hd Hl Hp Hi Hz Hfn Hs He. unfold Api.invoke_call, zome_call_data, with_input. rewrite Hd. simpl.
  rewrite Hl. simpl. rewrite Hp. rewrite decide_True by done.
  assert (same_fn_as (asked input signature id') call = true) as Hf.
  { unfold same_fn_as. rewrite He. simpl. rewrite Hz, Hfn. by rewrite !bool_decide_true. }
  pose proof (runs_from_args input signature id id' (λ zome_call,
    if same_fn_as zome_call call then Ret (rt, ribosome_error_code RecursiveCallForbidden)
    else (result <~ local_call rt input; gives rt (AvJson <$> result))) Hs) as Hr.
  cbv beta in Hr. rewrite Hf in Hr. exact Hr.
Qed.

Definition bridge_params (input : ZomeFnCallArgs) : string :=
  "{" +:+ quoted "instance_id" +:+ ":" +:+ quoted (zca_instance_handle input) +:+ ", " +:+
  quoted "zome" +:+ ": " +:+ quoted (zca_zome_name input) +:+ ", " +:+
  quoted "function" +:+ ": " +:+ quoted (zca_fn_name input) +:+ ", " +:+
  quoted "args" +:+ ": " +:+ zca_fn_args input +:+ "}".

(** when a function that is called over a bridge fails, and the conductor hands the
    error on, the call is reported to zome code as a success. *)
Theorem bridge_error_is_success (rt : Runtime M) input id response json e value :
  runtime_context rt = Ok tt →
  conductor id (rpc_request "call" (bridge_params input) (id_text id)) = Done (Some response) →
  parse_rpc response = Ok (RpcSuccess json) →
  json_result (default json (json_text json)) = Some (Err e) →
  json_valid (default json (json_text json)) = Some value →
  runs (bridge_call rt input : Prog _) [EvFresh id] (Ret (Ok value)).
Proof.
  intros Hc Hr Hp Hj Hv. unfold Api.bridge_call. rewrite Hc. apply (runs_fresh _ _ _ [] id eq_refl).
  unfold bridge_params in Hr. cbn [prog_bind]. rewrite Hr. simpl. rewrite Hp. simpl. unfold bridge_response. rewrite Hj, Hv. constructor.
Qed.

Lemma wp_get_dna G T (Q : option Dna → _ → Prop) τ :
  (∀ d τ', Q d τ') → wp G T (context_get_dna : Prog _) Q τ.
Proof.
  intros HQ. unfold context_get_dna. generalize 11%nat as n. intros n. revert τ.
  induction n as [|n IH]; intros τ [[w s]|]; try done; simpl; destruct (dna (s_nucleus s)); try apply HQ. apply IH.
Qed.

(** Callbacks cannot call zome functions, and reading the globals in one traps too. *)
Theorem callbacks_cannot_call (rt : Runtime M) call args G T τ :
  data rt = WcCallback call →
  invoke_call rt args = (Ret (rt, Err BadCallError) : Prog _) ∧
  wp G T (invoke_init_globals dna_address my_agent rt args : Prog _) (λ r _, r.2 = Err BadCallError) τ.
Proof.
  intros Hd. assert (zome_call_data rt = Err BadCallError) as Hz by (unfold zome_call_data; by rewrite Hd).
  split; [unfold Api.invoke_call; by rewrite Hz|].
  unfold invoke_init_globals, call_data, runtime_context. rewrite Hd. apply wp_bind, wp_get_dna. intros [d|] τ'; [|done].
  simpl. by rewrite Hz.
Qed.
End api_facts.

(** ** One-time signatures *)
Section one_time_facts.
Context {crypto : Crypto} {sodium : Sodium} {hcid : Hcid}.

Lemma sign_all_ok k seed payloads g :
  sk_private k = (crypto_sign_seed_keypair seed).2 →
  ∃ signatures, sign_all k payloads g = Done (g, Ok signatures) ∧
    Forall2 (λ payload signature, ∃ bytes, base64_decode signature = Some bytes ∧
      crypto_sign_verify_detached bytes (String.list_ascii_of_string payload) (crypto_sign_seed_keypair seed).1 = true)
      payloads signatures.
Proof.
  intros Hk. induction payloads as [|p payloads (signatures & IH & Hall)]; [by eexists|].
  exists (base64_encode (crypto_sign_detached (sk_private k) (String.list_ascii_of_string p)) :: signatures). split.
  - simpl. unfold mbind, stateful_bind, Keys.sign, sign_sign, must.
    rewrite overwrite_all by (by rewrite sign_detached_length). unfold mbind, stateful_bind in IH. by rewrite IH.
  - constructor; [|done]. eexists. split; [apply base64_roundtrip|]. rewrite Hk.
    pose proof (sign_correct seed (String.list_ascii_of_string p)) as Hc. by destruct (crypto_sign_seed_keypair seed).
Qed.

(** Signing with a one-time key always succeeds, with one signature for each payload, which
    verifies under the public key that is returned. *)
Theorem one_time_signatures_verify payloads g :
  ∃ g' r pk, sign_one_time payloads g = Done (g', Ok r) ∧ hcid_decode Hcs0 (otr_pub_key r) = Ok pk ∧
    Forall2 (λ payload signature, ∃ bytes, base64_decode signature = Some bytes ∧
      crypto_sign_verify_detached bytes (String.list_ascii_of_string payload) pk = true)
      payloads (otr_signatures r).
Proof.
  destruct (randombytes SEED_SIZE g) as [seed g'] eqn:Hr.
  assert (length seed = SEED_SIZE) as Hl by (pose proof (randombytes_length SEED_SIZE g) as Hn; by rewrite Hr in Hn).
  destruct (signing_from_seed seed g' Hl) as (k & Ek & _ & Ep & Es).
  destruct (sign_all_ok k seed payloads g' Es) as (signatures & Hs & Hall).
  exists g', (MkSignOneTimeResult (sk_public k) signatures), (crypto_sign_seed_keypair seed).1.
  split_and!; [|by eapply hcid_roundtrip|done].
  unfold sign_one_time, generate_random_sign_keypair, generate_random_buf.
  rewrite decide_False by (unfold SEED_SIZE; lia).
  unfold mbind, stateful_bind. rewrite (randomize_ok _ _ _ _ Hr), Ek. unfold mbind, stateful_bind in Hs. by rewrite Hs.
Qed.
End one_time_facts.

(** ** A zome, its memory and a conductor *)
Module ApiDemo.
#[local] Existing Instance plain_wire.
#[local] Existing Instance plain_crypto.

Definition myself : ZomeFnCallArgs := MkZomeFnCallArgs THIS_INSTANCE "posts" "token" "count" "2".
Definition other : ZomeFnCallArgs := MkZomeFnCallArgs "bridge" "posts" "token" "count" "2".
Definition failure : string := "{Err}".

#[local] Instance toy_text : ApiText.
Proof.
  refine {|
    parse_commit_entry_args _ := None;
    parse_get_entry_args _ := None;
    parse_update_entry_args _ := None;
    parse_address _ := None;
    parse_call_args s := if decide (s = "call") then Some myself else None;
    parse_link_entries_args _ := None;
    parse_get_links_args _ := None;
    parse_query_args _ := None;
    parse_entry _ := None;
    parse_send_args _ := None;
    parse_u64 _ := None;
    parse_sign_args _ := None;
    parse_one_time_args _ := None;
    parse_verify_args _ := None;
    parse_grant_args _ := None;
    parse_claim_args _ := None;
    json_of_value _ := "null";
    json_of_core_error _ := "{}";
    json_of_internal r := if ir_ok r then "{ok}" else "{error}";
    json_of_agent _ := "{}";
    json_of_raw s := quoted s;
    parse_rpc s := Ok (RpcSuccess s);
    field_text s _ := Some s;
    field_json s _ := s;
    json_strings _ := None;
    json_text _ := None;
    json_result s := if decide (s = failure) then Some (Err (ErrorGeneric "no such post")) else None;
    json_valid s := Some s;
  |}.
  - intros r. destruct (ir_ok r); [by exists "ok"|by exists "error"].
  - intros r. by destruct (ir_ok r).
Defined.

Definition counting : ZomeFnCall :=
  MkZomeFnCall 1 "posts" (MkCapabilityRequest "token" (MkProvenance "HcAlice" "signature of 3")) "count" "3".
Definition rt : Runtime linear_memory :=
  MkRuntime (MkPageManager (MkStack 4) (String.list_ascii_of_string "call" ++ replicate 60 NUL)) (WcZome counting).
Definition alice : AgentId := MkAgentId "alice" "HcAlice".
Definition signer (_ : nat) (_ : string) : outcome (option string) := Done (Some "signature of 2").
Definition failing (_ : nat) (_ : string) : outcome (option string) := Done (Some failure).
Abbreviation DemoProg := (Prog unit unit MemoryStorage.t EavMemoryStorage.t).

Lemma answer_read_back_witness :
  ∃ rt' v, store_result rt (Ok AvUnit) = Done (rt', Ok (Some (I64 v))) ∧
    load_json_string_from_args rt' [I64 v] = Done "{ok}".
Proof.
  destruct (answer_read_back rt (Ok AvUnit)) as (rt' & v & H1 & _ & H2 & _).
  - by_decide.
  - by vm_compute.
  - by vm_compute.
  - exists rt', v. exact (conj H1 H2).
Defined.

Lemma recursion_guard_misses_witness :
  runs (invoke_call pretty alice signer rt [I64 4] : DemoProg _) [EvFresh 8; EvFresh 7]
    (result <~ local_call pretty alice signer rt myself; gives rt (AvJson <$> result)).
Proof.
  apply (recursion_guard_misses pretty alice signer rt [I64 4] "call" myself counting "signature of 2" 7 8);
    try (vm_compute; reflexivity).
  - exists "signature of 2", "signature of 2". split_and!; reflexivity.
  - discriminate.
Defined.

Lemma bridge_error_is_success_witness :
  runs (bridge_call pretty failing rt other : DemoProg _) [EvFresh 7] (Ret (Ok failure)).
Proof.
  apply (bridge_error_is_success pretty failing rt other 7 failure failure (ErrorGeneric "no such post") failure);
    reflexivity.
Defined.
End ApiDemo.
