(* ===== verification/ValidationFacts.v ===== *)
(** * What a successful validation means

    The actions that lookups and the building of packages send, and what a thread
    has seen when [validate_entry] succeeds: the address and the signatures of the
    header fit, and a callback of the DNA accepted the entry. *)
From S2P Require Import Prelude Errors Strings Time Eav Entries Cas Protocol Actions Dht Chain Network Nucleus State Workflow Lookup Validation Workflows.

(** The actions of lookups and of the bookkeeping of requests: they neither change
    the chain or the shard, nor publish, nor hand out an entry, nor answer a
    validation, nor settle a pending one. *)
Definition harmless {Json} (a : Action Json) : Prop :=
  match a with
  | ACommit _ _ _ | AHold _ | AAddLink _ | ACrudStatus _ _ | ARemoveLink _ | APublish _
  | AUpdateEntry _ _ | ARemoveEntry _ _ | AInitializeChain _ | AReturnInitializationResult _
  | AReturnValidationResult _ _ | ARemovePendingValidation _ _ | ARespondFetch _ (Some _)
  | AReturnValidationPackage _ (Ok _) => False
  | ASendDirectMessage d => match dmd_message d with DmValidationPackage (Some _) => False | _ => True end
  | _ => True
  end.

Section harmless.
Context {wire : Wire} {Json Net : Type}.
Context {C : Type} `{!ContentAddressableStorage C}.
Context {S : Type} `{!EavStorage S}.
Context {crypto : Crypto} {cbtext : CallbackText}.
Context (clock : nat → Z) (sign : nat → string → HcResult string) (iso8601 : Z → string).
Context (id_text : nat → string) (steps : nat).
Abbreviation Prog := (Prog Json Net C S).
Abbreviation harmless := (@harmless Json).

Lemma only_network_get_entry a timeout :
  only harmless (network_get_entry id_text a timeout : Prog _).
Proof. unfold network_get_entry. solve_only. Qed.
#[local] Hint Resolve only_network_get_entry : only.

Lemma only_read_entry_with_meta a : only harmless (read_entry_with_meta a : Prog _).
Proof. unfold read_entry_with_meta. solve_only. Qed.
#[local] Hint Resolve only_read_entry_with_meta : only.

Lemma only_get_entry_with_meta a timeout :
  only harmless (get_entry_with_meta_workflow id_text a timeout : Prog _).
Proof. unfold get_entry_with_meta_workflow. solve_only. Qed.
#[local] Hint Resolve only_get_entry_with_meta : only.

Lemma only_get_entry_loop n options r a :
  only harmless (get_entry_loop id_text n options r a : Prog _).
Proof. revert r a. induction n; intros r a; simpl; solve_only. Qed.
#[local] Hint Resolve only_get_entry_loop : only.

Lemma only_get_entry_result args : only harmless (get_entry_result_workflow id_text steps args : Prog _).
Proof. apply only_get_entry_loop. Qed.

Lemma only_get_link_result debug_errors args :
  only harmless (get_link_result_workflow id_text debug_errors args : Prog _).
Proof. unfold get_link_result_workflow, network_get_links, link_result. solve_only. Qed.

Lemma only_context_get_dna : only harmless (context_get_dna : Prog _).
Proof. unfold context_get_dna. generalize 11%nat. induction n; simpl; solve_only. Qed.

Lemma only_get_link_entries l : only harmless (get_link_entries id_text steps l : Prog _).
Proof. unfold get_link_entries, get_entry_result_workflow. solve_only. Qed.
#[local] Hint Resolve only_get_link_entries : only.

Lemma only_expect_dna why : only harmless (expect_dna why : Prog _).
Proof.
  unfold expect_dna, context_get_dna. apply only_bind; [|solve_only].
  generalize 11%nat as n. induction n; simpl; intros v; repeat case_match; solve_only.
Qed.
#[local] Hint Resolve only_expect_dna : only.

Lemma only_can_publish t : only harmless (can_publish t : Prog _).
Proof. unfold can_publish. solve_only. Qed.
#[local] Hint Resolve only_can_publish : only.

Lemma only_find_link_definition b l t :
  only harmless (find_link_definition_in_dna b l t : Prog _).
Proof. unfold find_link_definition_in_dna. solve_only. Qed.
#[local] Hint Resolve only_find_link_definition : only.

Lemma only_get_entry_with_header a : only harmless (get_entry_with_header id_text a : Prog _).
Proof. unfold get_entry_with_header. solve_only. Qed.
#[local] Hint Resolve only_get_entry_with_header : only.

Lemma only_entry_to_validation_data e l d :
  only harmless (entry_to_validation_data id_text e l d : Prog _).
Proof. unfold entry_to_validation_data. solve_only. Qed.
#[local] Hint Resolve only_entry_to_validation_data : only.

Lemma only_or_fail {E F A} (e : F) (m : workflow Json Net C S E A) :
  only harmless (m : Prog _) → only harmless (or_fail e m : Prog _).
Proof. intros. unfold or_fail. solve_only. Qed.
#[local] Hint Resolve only_or_fail : only.

Lemma only_read_entry_from_dht a : only harmless (read_entry_from_dht a : Prog _).
Proof. unfold read_entry_from_dht. solve_only. Qed.
#[local] Hint Resolve only_read_entry_from_dht : only.

Lemma only_get_validation_package h : only harmless (get_validation_package h : Prog _).
Proof. unfold get_validation_package. solve_only. Qed.

Lemma only_run_dna call : only harmless (run_dna call : Prog _).
Proof. done. Qed.
#[local] Hint Resolve only_run_dna : only.

Lemma only_all_chain_headers : only harmless (all_chain_headers : Prog _).
Proof. unfold all_chain_headers. solve_only. Qed.
#[local] Hint Resolve only_all_chain_headers : only.

Lemma only_all_public_entries : only harmless (all_public_chain_entries : Prog _).
Proof.
  unfold all_public_chain_entries. solve_only.
  match goal with |- only _ (public_entries _ ?l) => induction l as [|h l IH] end;
    simpl; solve_only.
Qed.
#[local] Hint Resolve only_all_public_entries : only.

Lemma only_package_of h def : only harmless (package_of h def : Prog _).
Proof. unfold package_of. solve_only. Qed.
#[local] Hint Resolve only_package_of : only.

Lemma only_package_definition e :
  only harmless (get_validation_package_definition id_text steps e : Prog _).
Proof. unfold get_validation_package_definition, link_package_definition. solve_only. Qed.
#[local] Hint Resolve only_package_definition : only.

Lemma only_check_package_type e : only harmless (check_package_type e : Prog _).
Proof. unfold check_package_type. solve_only. Qed.

Lemma only_add_pending ewh deps wf : only harmless (add_pending_validation ewh deps wf : Prog _).
Proof. unfold add_pending_validation. solve_only. Qed.
End harmless.
#[export] Hint Resolve only_get_link_entries only_expect_dna only_can_publish
  only_find_link_definition only_entry_to_validation_data only_or_fail
  only_read_entry_from_dht only_get_validation_package only_check_package_type only_package_definition
  only_all_chain_headers
  only_add_pending only_read_entry_with_meta only_run_dna only_get_entry_result only_get_link_result
  only_context_get_dna : only.

(** ** What a workflow has seen *)
Section guarded.
Context {wire : Wire} {Json Net : Type}.
Context {C : Type} `{!ContentAddressableStorage C}.
Context {S : Type} `{!EavStorage S}.
Context {crypto : Crypto} {cbtext : CallbackText}.
Context (id_text : nat → string) (steps : nat).
Abbreviation Prog := (Prog Json Net C S).
Abbreviation Event := (@Event Json Net C S).
Abbreviation trace := (list Event).
Abbreviation harmless := (@harmless Json).

(** The DNA was read from the state. *)
Definition sees_dna (τ : trace) (d : Dna) : Prop :=
  ∃ w s, EvState (Some (w, s)) ∈ τ ∧ dna (s_nucleus s) = Some d.

(** A thread was spawned to run the callback, and the state had a success under
    the key of that thread. *)
Definition accepted (τ : trace) (call : CallbackFnCall) : Prop :=
  ∃ key w s, EvSpawn (validation_thread key call) ∈ τ ∧ EvState (Some (w, s)) ∈ τ ∧
    validation_results (s_nucleus s) !! key = Some (Ok tt).

(** The parameters of the callback are about the entry. *)
Definition params_for (entry : Entry.t) (link : option Address) (d : ValidationData)
    (params : EntryValidationData) : Prop :=
  match entry with
  | Entry.App _ _ =>
      match link with
      | Some _ => ∃ old header, params = EvModify entry old header d
      | None => params = EvCreate entry d
      end
  | Entry.Deletion _ => ∃ old header, params = EvDelete old header d
  | _ => params = EvCreate entry d
  end.

(** *** Valid entries

    For a DNA that was [seen] and callbacks that [passed]. *)
Section valid.
Context (seen : Dna → Prop) (passed : CallbackFnCall → Prop).

(** The callback that decides about an entry passed. *)
Definition app_passed (entry : Entry.t) (link : option Address) (d : ValidationData)
    (app_entry_type : string) : Prop :=
  ∃ dna zome params,
    seen dna ∧ get_zome_name_for_app_entry_type dna app_entry_type = Done (Some zome) ∧
    params_for entry link d params ∧
    passed (MkCallbackFnCall zome "__hdk_validate_app_entry" (CpEntryValidation params)).

Definition link_passed (l : Link) (d : LinkValidationData) : Prop :=
  ∃ dna base target path,
    seen dna ∧
    find_link_definition dna (Entry.entry_type base) (link_type l) (Entry.entry_type target) =
      Done (Ok path) ∧
    passed (MkCallbackFnCall (ldp_zome_name path) "__hdk_validate_link"
      (CpLinkValidation (ldp_entry_type_name path) l (ldp_direction path) d)).

(** An entry is valid: its address is the one in the header, every provenance of
    the header signed that address, and the DNA's callback accepts it. *)
Definition valid_entry (entry : Entry.t) (link : option Address) (d : ValidationData) : Prop :=
  let header := vp_chain_header (vd_package d) in
  address entry = h_entry_address header ∧
  Forall (λ p, provenance_verify p (h_entry_address header) = Ok true) (h_provenances header) ∧
  match entry with
  | Entry.App app_entry_type _ => app_passed entry link d app_entry_type
  | Entry.Deletion _ => ∃ app_entry_type, app_passed entry None d app_entry_type
  | Entry.LinkAdd data => link_passed (Entries.link data) (LvAdd data d)
  | Entry.LinkRemove data => link_passed (Entries.link data) (LvRemove data d)
  | Entry.Dna _ | Entry.CapTokenGrant _ | Entry.AgentId _ => True
  | _ => False
  end.
End valid.

Lemma valid_entry_mono (seen seen' : Dna → Prop) (passed passed' : CallbackFnCall → Prop)
    entry link d :
  (∀ dna, seen dna → seen' dna) → (∀ call, passed call → passed' call) →
  valid_entry seen passed entry link d → valid_entry seen' passed' entry link d.
Proof.
  intros H1 H2 (Ha & Hp & Hv). split_and!; [done..|].
  destruct entry; try done; clear Ha Hp.
  - destruct Hv as (dna & z & ps & ? & ? & ? & ?). exists dna, z, ps. auto.
  - destruct Hv as (t & dna & z & ps & ? & ? & ? & ?). exists t, dna, z, ps. auto.
  - destruct Hv as (dna & b & t & path & ? & ? & ?). exists dna, b, t, path. auto.
  - destruct Hv as (dna & b & t & path & ? & ? & ?). exists dna, b, t, path. auto.
Qed.

(** ** The callback *)
Lemma verdict_null r : callback_verdict r = Ok tt → r = Ok "null".
Proof.
  unfold callback_verdict, is_null. destruct r as [json|e].
  - case_bool_decide; [by subst|done].
  - by repeat case_match.
Qed.

Context (G : trace → ActionWrapper Json → Prop) (T : trace → Prog unit → Prop).
Context (HG : ∀ τ aw, harmless (aw_action aw) → G τ aw).
Context (HT : ∀ τ t, only harmless t → T τ t).
Context (HV : ∀ τ id a call, T (EvFresh id :: τ) (validation_thread (id, a) call)).
Abbreviation wp := (wp G T).
Abbreviation app_passed_in τ := (app_passed (sees_dna τ) (accepted τ)).
Abbreviation link_passed_in τ := (link_passed (sees_dna τ) (accepted τ)).
Abbreviation valid_entry_in τ := (valid_entry (sees_dna τ) (accepted τ)).

Lemma wp_harmless {A} (p : Prog A) Q τ :
  only harmless p → (∀ a τ', τ ⊆ τ' → Q a τ') → wp p Q τ.
Proof. by apply wp_only. Qed.

Lemma wp_run_validation_callback a call Q τ :
  (∀ r τ', τ ⊆ τ' → (r = Ok tt → accepted τ' call) → Q r τ') →
  wp (run_validation_callback a call : Prog _) Q τ.
Proof.
  intros HQ. simpl. intros id. split; [apply HV|].
  intros v. destruct v as [[w s]|]; simpl; [|done].
  destruct (validation_results (s_nucleus s) !! (id, a)) as [r|] eqn:Hr; [|done].
  apply HQ; [continues|]. intros ->. exists (id, a), w, s. split_and!; [in_trace..|done].
Qed.

(** ** Validation *)
Lemma wp_expect_dna why Q τ :
  (∀ d τ', τ ⊆ τ' → sees_dna τ' d → Q d τ') → wp (expect_dna why : Prog _) Q τ.
Proof.
  intros HQ. apply wp_bind. unfold context_get_dna.
  assert (∀ τ', τ ⊆ τ' → wp (context_get_dna_tries 11 : Prog _)
    (λ a τ'', wp (computed (expect a why)) Q τ'') τ') as H; [|by apply H].
  generalize 11%nat as n. induction n as [|n IH]; intros τ' Hl; simpl; intros v;
    destruct v as [[w s]|]; simpl; try done; destruct (dna (s_nucleus s)) as [d|] eqn:Hd; simpl.
  1, 3: apply HQ; [by apply subseteq_later|exists w, s; split; [in_trace|done]].
  - done.
  - apply IH. by apply subseteq_later.
Qed.

Lemma sees_dna_later τ τ' d : τ ⊆ τ' → sees_dna τ d → sees_dna τ' d.
Proof. intros Hl (w & s & Hin & Hd). exists w, s. auto. Qed.

Lemma wp_or_fail {E F A} (e : F) (m : workflow Json Net C S E A) Q τ :
  wp (m : Prog _) (λ r τ', Q match r with Ok a => Ok a | Err _ => Err e end τ') τ →
  wp (or_fail e m : Prog _) Q τ.
Proof.
  intros H. apply wp_bind. eapply wp_mono; [|exact H]. by intros [a|x] τ'.
Qed.

Lemma wp_entry_to_validation_data entry link d Q τ :
  (∀ r τ', τ ⊆ τ' → (∀ params, r = Ok params → params_for entry link d params) →
     Q r τ') →
  wp (entry_to_validation_data id_text entry link d : Prog _) Q τ.
Proof.
  intros HQ. unfold entry_to_validation_data.
  assert (∀ r, (∀ params, r = Ok params → params_for entry link d params) → Q r τ) as HQ'.
  { intros r. by apply HQ. }
  destruct entry; try (apply HQ'; naive_solver).
  - destruct link as [l|]; [|apply HQ'; naive_solver].
    apply wp_bind, wp_harmless; [apply only_get_entry_with_header|].
    intros [[old h]|e] τ' Hl; simpl; apply HQ; naive_solver.
  - apply wp_bind, wp_harmless; [apply only_get_entry_with_header|].
    intros [[old h]|e] τ' Hl; simpl; apply HQ; naive_solver.
Qed.

(** From the parameters to the callback. *)
Lemma wp_entry_callback entry link d zome t dna Q τ :
  sees_dna τ dna →
  get_zome_name_for_app_entry_type dna t = Done (Some zome) →
  (∀ r τ', τ ⊆ τ' → (r = Ok tt → app_passed_in τ' entry link d t) → Q r τ') →
  wp (params ← or_fail (VeFail "Could not get entry validation")
        (entry_to_validation_data id_text entry link d);
      run_validation_callback (address entry)
        (MkCallbackFnCall zome "__hdk_validate_app_entry" (CpEntryValidation params))
      : workflow Json Net C S ValidationError unit) Q τ.
Proof.
  intros Hd Hz HQ. apply wp_try, wp_or_fail, wp_entry_to_validation_data.
  intros [params|e] τ1 Hl Hp; [|by apply HQ].
  apply wp_run_validation_callback. intros r τ2 Hl2 Hr. apply HQ; [by etrans|].
  intros ->. exists dna, zome, params. split_and!; [|done|by apply Hp|by apply Hr].
  eapply sees_dna_later; [|exact Hd]. by etrans.
Qed.

Lemma wp_validate_app_entry entry t link d Q τ :
  (∀ r τ', τ ⊆ τ' → (r = Ok tt → app_passed_in τ' entry link d t) → Q r τ') →
  wp (validate_app_entry id_text entry t link d : Prog _) Q τ.
Proof.
  intros HQ. apply wp_bind, wp_expect_dna. intros dna τ1 Hl1 Hd.
  apply wp_bind. destruct (get_zome_name_for_app_entry_type dna t) as [[zome|]|] eqn:Hz.
  2: by apply HQ.
  2: done.
  apply wp_try, wp_harmless; [destruct link; solve_only|].
  intros [x|e] τ2 Hl2.
  - eapply wp_entry_callback; [by eapply sees_dna_later|done|].
    intros r τ3 Hl3 Hr. apply HQ; [|done]. etrans; [done|]. by etrans.
  - apply HQ; [by etrans|done].
Qed.

Lemma wp_validate_link_entry entry data d ld Q τ :
  entry = Entry.LinkAdd data ∧ ld = LvAdd data d ∨
  entry = Entry.LinkRemove data ∧ ld = LvRemove data d →
  (∀ r τ', τ ⊆ τ' → (r = Ok tt → link_passed_in τ' (Entries.link data) ld) → Q r τ') →
  wp (validate_link_entry id_text steps entry d : Prog _) Q τ.
Proof.
  intros He HQ.
  assert (∀ call, call = run_validation_callback (Json := Json) (Net := Net) (C := C) (S := S) →
    wp (let l := Entries.link data in
      pair ← or_fail (VeUnresolvedDependencies [base l; target l]) (get_link_entries id_text steps l);
      path ← or_fail VeNotImplemented
        (find_link_definition_in_dna (Entry.entry_type pair.1) (link_type l)
           (Entry.entry_type pair.2));
      call (address entry)
        (MkCallbackFnCall (ldp_zome_name path) "__hdk_validate_link"
           (CpLinkValidation (ldp_entry_type_name path) l (ldp_direction path) ld))
      : workflow Json Net C S ValidationError unit) Q τ) as H.
  2: { destruct He as [[-> ->]|[-> ->]]; by apply (H _ eq_refl). }
  intros call ->. apply wp_try, wp_or_fail, wp_harmless; [apply only_get_link_entries|].
  intros [[be te]|e] τ1 Hl1; [|by apply HQ].
  apply wp_try, wp_or_fail, wp_bind, wp_expect_dna. intros dna τ2 Hl2 Hd.
  assert (τ ⊆ τ2) as Hsub by (by etrans).
  cbn [fst snd]. destruct (find_link_definition dna _ _ _) as [[path|e]|] eqn:Hf.
  - apply wp_run_validation_callback.
    intros r τ3 Hl3 Hr. apply HQ; [by etrans|]. intros ->.
    exists dna, be, te, path. split_and!; [by eapply sees_dna_later|done|by apply Hr].
  - by apply HQ.
  - done.
Qed.

Lemma wp_validate_remove_entry entry d Q τ :
  (∀ r τ', τ ⊆ τ' → (r = Ok tt → ∃ t, app_passed_in τ' entry None d t) → Q r τ') →
  wp (validate_remove_entry id_text entry d : Prog _) Q τ.
Proof.
  intros HQ. apply wp_bind, wp_expect_dna. intros dna τ1 Hl1 Hd.
  destruct entry as [| | |a| | | | | | |]; try done.
  apply wp_try, wp_or_fail, wp_harmless; [apply only_read_entry_from_dht|].
  intros [o|e] τ2 Hl2; (assert (τ ⊆ τ2) as Hsub by (by etrans)).
  2: by apply HQ.
  destruct o as [[t v| | | | | | | | | |]|]; try by apply HQ.
  apply wp_bind. destruct (get_zome_name_for_app_entry_type dna t) as [[zome|]|] eqn:Hz.
  2: by apply HQ.
  2: done.
  eapply wp_entry_callback; [exact (sees_dna_later _ _ _ Hl2 Hd)|done|].
  intros r τ3 Hl3 Hr. apply HQ; [by etrans|]. intros E. exists t. by apply Hr.
Qed.

Lemma validate_provenances_ok d :
  validate_provenances d = Ok tt →
  Forall (λ p, provenance_verify p (h_entry_address (vp_chain_header (vd_package d))) = Ok true)
    (h_provenances (vp_chain_header (vd_package d))).
Proof.
  unfold validate_provenances. intros (ys & Hys & _)%result_bind_ok.
  apply collect_results_ok in Hys. apply Forall_forall. intros p Hp.
  apply list_elem_of_lookup in Hp as [i Hi].
  destruct (Forall2_lookup_l _ _ _ _ _ Hys Hi) as (u & _ & Hu).
  unfold validate_provenance in Hu. by repeat case_match.
Qed.

Lemma wp_validate_entry entry link d Q τ :
  (∀ r τ', τ ⊆ τ' → (r = Ok tt → valid_entry_in τ' entry link d) → Q r τ') →
  wp (validate_entry id_text steps entry link d : Prog _) Q τ.
Proof.
  intros HQ. unfold validate_entry.
  destruct (validate_header_address _ _ ≫= _) as [[]|e] eqn:Hc; [|by apply HQ].
  apply result_bind_ok in Hc as ([] & Hh & Hp%validate_provenances_ok).
  unfold validate_header_address in Hh. case_decide as Ha; [|done]. clear Hh.
  destruct entry as [t v| | | |data|data| | | | |]; try by apply HQ.
  - apply wp_validate_app_entry. intros r τ' Hl Hr. apply HQ; [done|].
    intros E. split_and!; auto.
  - apply wp_validate_remove_entry. intros r τ' Hl Hr. apply HQ; [done|].
    intros E. split_and!; auto.
  - eapply wp_validate_link_entry; [by left|]. intros r τ' Hl Hr. apply HQ; [done|].
    intros E. split_and!; auto.
  - eapply wp_validate_link_entry; [by right|]. intros r τ' Hl Hr. apply HQ; [done|].
    intros E. split_and!; auto.
Qed.
End guarded.
