(* ===== verification/Guarantees.v ===== *)
(** * What the threads of a node guarantee

    Whatever a thread observes, it changes the chain or the shard only after a
    successful validation, and publishes or hands out only what the DNA lets it
    publish: the guarantees of the workflows ([core/src/workflows/]), of the handler of network
    messages, of the retries, of zome calls and of the start of an instance. *)
From S2P Require Import Prelude Errors Strings Time Eav Entries Cas Protocol Actions Dht Chain Network Nucleus State Workflow Lookup Validation Workflows Handler Capabilities Initialize Sodium Keys WasmMemory Api Ribosome ValidationFacts.

Section facts.
Context {wire : Wire} {Json Net : Type}.
Context `{!JsonPayloads Json}.
Context {C : Type} `{!ContentAddressableStorage C}.
Context {S : Type} `{!EavStorage S}.
Context {crypto : Crypto} {cbtext : CallbackText}.
Abbreviation World := (@World C S).
Context (clock : nat → Z) (sign : nat → string → HcResult string) (iso8601 : Z → string).
Context (id_text : nat → string) (steps : nat).
Context (debug_callback_result : CallbackResult → string).
Context (instant : World → Z) (dna_address : Dna → Address).
Context (my_agent : AgentId) (p2p_config : string).
Abbreviation Prog := (Prog Json Net C S).
Abbreviation Event := (@Event Json Net C S).
Abbreviation trace := (list Event).
Abbreviation harmless := (@harmless Json).

(** The source delivered the package for the entry of a header. *)
Definition delivered (τ : trace) (header : ChainHeader) (p : ValidationPackage) : Prop :=
  ∃ w s, EvState (Some (w, s)) ∈ τ ∧
    poll_get_validation_package (h_entry_address header) (s_network s) = Some (Ok (Some p)).

(** The DNA lets entries of this type be published. *)
Definition publishable (τ : trace) (t : EntryType.t) : Prop :=
  match t with
  | EntryType.Dna | EntryType.CapTokenGrant | EntryType.CapTokenClaim => False
  | EntryType.App name => ∃ d def, sees_dna τ d ∧
      get_entry_type_def d name = Done (Some def) ∧ sharing_can_publish (etd_sharing def) = true
  | _ => True
  end.

(** Something on the own chain of this type has this address. *)
Definition on_chain (τ : trace) (t : EntryType.t) (a : Address) : Prop :=
  ∃ w s headers h, EvState (Some (w, s)) ∈ τ ∧ chain_headers (w, s) = Done headers ∧
    h ∈ headers ∧ h_entry_type h = t ∧ h_entry_address h = a.

(** What a validation package takes from the own chain: the headers of all of it, and the
    entries of those of its headers whose type the DNA lets be published. *)
Definition own_headers (τ : trace) (headers : list ChainHeader) : Prop :=
  ∃ w s, EvState (Some (w, s)) ∈ τ ∧ chain_headers (w, s) = Done headers.
Definition shared_entry (τ : trace) (entry : Entry.t) : Prop :=
  ∃ w s headers h, EvState (Some (w, s)) ∈ τ ∧ chain_headers (w, s) = Done headers ∧ h ∈ headers ∧
    chain_entry (w, s) h = Done entry ∧ publishable τ (h_entry_type h).
Definition shareable (τ : trace) (p : ValidationPackage) : Prop :=
  (∀ entries, vp_source_chain_entries p = Some entries → Forall (shared_entry τ) entries) ∧
  (∀ headers, vp_source_chain_headers p = Some headers → own_headers τ headers).

(** The state had the package for some request. *)
Definition packaged (τ : trace) (p : ValidationPackage) : Prop :=
  ∃ id w s, EvState (Some (w, s)) ∈ τ ∧ validation_packages (s_nucleus s) !! id = Some (Ok p).

(** The entries that come to the chain without validation: those of the start of an
    instance, and the capability tokens that zome code commits. *)
Definition unvalidated_entry (entry : Entry.t) : Prop :=
  match entry with
  | Entry.Dna _ | Entry.AgentId _ | Entry.CapTokenGrant _ | Entry.CapTokenClaim _ => True
  | _ => False
  end.

(** The entry was validated with a package that its source delivered. *)
Definition justified (passed : CallbackFnCall → Prop) (τ : trace) (ewh : EntryWithHeader)
    (link : option Address) (lifecycle : EntryLifecycle) : Prop :=
  ∃ p, delivered τ (ewh_header ewh) p ∧
    valid_entry (sees_dna τ) passed (ewh_entry ewh) link (MkValidationData p lifecycle).

(** The thread has sent the action that a pending validation was for; an entry that
    is not a link cannot be held as one. *)
Definition settled (τ : trace) (ewh : EntryWithHeader) (wf : ValidatingWorkflow) : Prop :=
  match wf with
  | WfHoldEntry => ∃ id, EvDispatch (MkActionWrapper (AHold ewh) id) ∈ τ
  | WfHoldLink =>
      match ewh_entry ewh with
      | Entry.LinkAdd data => ∃ id, EvDispatch (MkActionWrapper (AAddLink (Entries.link data)) id) ∈ τ
      | _ => True
      end
  end.

(** ** The guarantee

    [guarantee passed built τ a]: after [τ], with the callbacks that [passed] and the
    validation packages that were [built], the action [a] may be sent. *)
Definition guarantee (passed : CallbackFnCall → Prop) (built : ValidationPackage → Prop) (τ : trace)
    (a : Action Json) : Prop :=
  match a with
  | AHold ewh => justified passed τ ewh None LcDht
  | AAddLink l => ∃ ewh data, ewh_entry ewh = Entry.LinkAdd data ∧ l = Entries.link data ∧
      justified passed τ ewh None LcMeta
  | ARemoveLink l => ∃ ewh data, ewh_entry ewh = Entry.LinkRemove data ∧ l = Entries.link data ∧
      justified passed τ ewh None LcMeta
  | AUpdateEntry old new => ∃ ewh, h_link_update_delete (ewh_header ewh) = Some old ∧
      new = address (ewh_entry ewh) ∧ justified passed τ ewh (Some old) LcMeta
  | ARemoveEntry deleted deletion => ∃ ewh, ewh_entry ewh = Entry.Deletion deleted ∧
      deletion = address (ewh_entry ewh) ∧ justified passed τ ewh None LcMeta
  | ACommit entry link _ => unvalidated_entry entry ∨
      ∃ p, valid_entry (sees_dna τ) passed entry link (MkValidationData p LcChain)
  | APublish a => ∃ t, publishable τ t ∧
      ((∃ entry, Entry.entry_type entry = t ∧ address entry = a) ∨ on_chain τ t a)
  | ARespondFetch _ (Some e) =>
      publishable τ (Entry.entry_type (ewm_entry (ewmh_entry_with_meta e)))
  | AReturnValidationPackage _ (Ok p) => shareable τ p
  | ASendDirectMessage d =>
      match dmd_message d with DmValidationPackage (Some p) => built p | _ => True end
  | ARemovePendingValidation a wf => ∃ ewh, address (ewh_entry ewh) = a ∧ settled τ ewh wf
  | ACrudStatus _ _ => False
  | _ => True
  end.

(** What the thread that started as [t] guarantees about what it sends: the verdict
    about a callback comes from the thread that ran it. *)
Definition thread_guarantee (t : Prog unit) (τ : trace) (aw : ActionWrapper Json) : Prop :=
  guarantee (accepted τ) (packaged τ) τ (aw_action aw) ∧
  match aw_action aw with
  | AReturnValidationResult key r => ∃ call res,
      t = validation_thread key call ∧ EvDna (WcCallback call) res ∈ τ ∧ r = callback_verdict res
  | _ => True
  end.

(** ** Threads *)

(** The threads spawned to hold what others publish, to retry, and to build and hand out
    validation packages. *)
Inductive worker : Prog unit → Prop :=
| wk_hold ewh : worker (hold_entry_workflow id_text steps ewh ;~ Ret tt)
| wk_link ewh : worker (hold_link_workflow id_text steps ewh ;~ Ret tt)
| wk_unlink ewh : worker (remove_link_workflow id_text steps ewh ;~ Ret tt)
| wk_remove ewh : worker (hold_remove_workflow id_text steps ewh ;~ Ret tt)
| wk_update ewh : worker (hold_update_workflow id_text steps ewh ;~ Ret tt)
| wk_retry pending : worker (retry_thread id_text steps pending)
| wk_package id entry header : worker (package_thread id_text steps id entry header)
| wk_respond to_agent_id msg_id a provenances :
    worker (respond_validation_package_request clock sign iso8601 id_text steps to_agent_id msg_id a provenances ;~
            Ret tt).

(** What a thread may spawn: a callback runs under an id drawn right before. *)
Definition may_spawn (τ : trace) (t : Prog unit) : Prop :=
  only harmless t ∨ worker t ∨
  ∃ id a call τ', τ = EvFresh id :: τ' ∧ t = validation_thread (id, a) call.

(** The programs that the network module, the scheduler, interfaces and the conductor
    start, and wasm code, of any zome and under any interpreter, with what it calls. *)
Inductive root : Prog unit → Prop :=
| root_handle my_dna_address message :
    root (handle clock sign iso8601 id_text steps debug_callback_result my_agent my_dna_address
            message)
| root_pending : root (run_pending_validations id_text steps)
| root_author entry link provenances :
    root (author_entry clock sign iso8601 id_text steps entry link provenances ;~ Ret tt)
| root_initialize maybe_dna :
    root (initialize instant dna_address my_agent p2p_config maybe_dna ;~ Ret tt)
| root_call fn_call : root (call_zome_function my_agent fn_call ;~ Ret tt)
| root_wasm `{!GlobSet, !Sodium, !Hcid, !ApiText} {M : Type} `{!WasmiMemory M, !Wasmi M} debug_errors conductor
    random fuel parameters data :
    root (run_wasm clock sign iso8601 id_text steps debug_errors dna_address my_agent conductor random fuel
            parameters data ;~ Ret tt)
| root_lookup t : only harmless t → root t.

Lemma may_spawn_harmless τ t : only harmless t → may_spawn τ t.
Proof. by left. Qed.

Lemma may_spawn_callback τ id a call : may_spawn (EvFresh id :: τ) (validation_thread (id, a) call).
Proof. right; right. by exists id, a, call, τ. Qed.

Lemma may_spawn_worker τ t : worker t → may_spawn τ t.
Proof. by right; left. Qed.

Lemma guarantee_harmless t τ aw : harmless (aw_action aw) → thread_guarantee t τ aw.
Proof.
  unfold thread_guarantee, guarantee. destruct (aw_action aw); try done; simpl; by repeat case_match.
Qed.

(** Evidence stays. *)
Lemma delivered_later (τ τ' : trace) header p : τ ⊆ τ' → delivered τ header p → delivered τ' header p.
Proof. intros Hl (w & s & Hin & Hp). exists w, s. auto. Qed.

Lemma accepted_later (τ τ' : trace) call : τ ⊆ τ' → accepted τ call → accepted τ' call.
Proof. intros Hl (key & w & s & H1 & H2 & H3). exists key, w, s. auto. Qed.

Lemma valid_later (τ τ' : trace) entry link d :
  τ ⊆ τ' → valid_entry (sees_dna τ) (accepted τ) entry link d →
  valid_entry (sees_dna τ') (accepted τ') entry link d.
Proof.
  intros Hl. apply valid_entry_mono; [intros dna; by apply sees_dna_later|].
  intros call. by apply accepted_later.
Qed.

Lemma justified_later (τ τ' : trace) ewh link lifecycle :
  τ ⊆ τ' → justified (accepted τ) τ ewh link lifecycle →
  justified (accepted τ') τ' ewh link lifecycle.
Proof.
  intros Hl (p & Hd & Hv). exists p. split; [by eapply delivered_later|by eapply valid_later].
Qed.

Lemma settled_later (τ τ' : trace) ewh wf : τ ⊆ τ' → settled τ ewh wf → settled τ' ewh wf.
Proof.
  intros Hl. unfold settled. destruct wf, (ewh_entry ewh); try done; intros [id Hid]; exists id; auto.
Qed.

Lemma publishable_later (τ τ' : trace) t : τ ⊆ τ' → publishable τ t → publishable τ' t.
Proof.
  intros Hl. destruct t; try done. intros (d & def & Hd & H). exists d, def.
  split; [by eapply sees_dna_later|done].
Qed.

Lemma shared_entry_later (τ τ' : trace) e : τ ⊆ τ' → shared_entry τ e → shared_entry τ' e.
Proof.
  intros Hl (w & s & hs & h & Hin & Hh & He & Hc & Hp). exists w, s, hs, h. split_and!; [auto..|].
  by eapply publishable_later.
Qed.

Lemma shareable_later (τ τ' : trace) p : τ ⊆ τ' → shareable τ p → shareable τ' p.
Proof.
  intros Hl [He Hh]. split.
  - intros es Hes. eapply Forall_impl; [by apply He|]. intros e. by apply shared_entry_later.
  - intros hs (w & s & Hin & Hc)%Hh. exists w, s. auto.
Qed.

Lemma packaged_later (τ τ' : trace) p : τ ⊆ τ' → packaged τ p → packaged τ' p.
Proof. intros Hl (id & w & s & Hin & Hp). exists id, w, s. auto. Qed.

(** ** The workflows *)
Section workflows.
Context (t0 : Prog unit).
Abbreviation wp := (wp (thread_guarantee t0) (may_spawn)).

Lemma wp_safe {A} (p : Prog A) Q τ :
  only harmless p → (∀ a τ', τ ⊆ τ' → Q a τ') → wp p Q τ.
Proof. apply wp_harmless; [apply guarantee_harmless|apply may_spawn_harmless]. Qed.

Lemma wp_validate entry link d Q τ :
  (∀ r τ', τ ⊆ τ' → (r = Ok tt → valid_entry (sees_dna τ') (accepted τ') entry link d) →
     Q r τ') →
  wp (validate_entry id_text steps entry link d : Prog _) Q τ.
Proof.
  apply wp_validate_entry;
    [apply guarantee_harmless|apply may_spawn_harmless|apply may_spawn_callback].
Qed.

(** An action and the wait for its result. *)
Lemma wp_send {X} a (poll : nat → _ → outcome (option (HcResult X))) Q τ :
  (∀ id, thread_guarantee t0 (EvFresh id :: τ) (MkActionWrapper a id)) →
  (∀ r τ' id, τ ⊆ τ' → EvDispatch (MkActionWrapper a id) ∈ τ' → Q r τ') →
  wp (aw <~ dispatch_new a; await (poll (aw_id aw)) : Prog _) Q τ.
Proof.
  intros HG HQ. simpl. intros id. split; [apply HG|]. intros v.
  destruct (poll id v) as [[r|]|]; try done. apply (HQ _ _ id); [continues|in_trace].
Qed.

Lemma wp_send_and_wait {X} a (poll : nat → _ → outcome (option (HcResult X))) Q τ :
  (∀ id, thread_guarantee t0 (EvFresh id :: τ) (MkActionWrapper a id)) →
  (∀ r τ', τ ⊆ τ' → Q r τ') →
  wp (aw <~ dispatch_new a; await (poll (aw_id aw)) : Prog _) Q τ.
Proof. intros HG HQ. apply wp_send; [done|]. intros r τ' id Hl _. by apply HQ. Qed.

Lemma wp_get_validation_package header Q τ :
  (∀ r τ', τ ⊆ τ' → (∀ p, r = Ok (Some p) → delivered τ' header p) → Q r τ') →
  wp (get_validation_package header : Prog _) Q τ.
Proof.
  intros HQ. simpl. intros id. split; [done|]. intros v.
  destruct v as [[w s]|]; simpl; [|done].
  destruct (poll_get_validation_package _ _) as [r|] eqn:Hr; [|done].
  apply HQ; [continues|]. intros p ->. exists w, s. split; [in_trace|done].
Qed.

Lemma wp_validate_or_put_off ewh wf lifecycle Q τ :
  (∀ τ', τ ⊆ τ' → justified (accepted τ') τ' ewh None lifecycle → Q (Ok tt) τ') →
  (∀ τ', τ ⊆ τ' → Q (Err ValidationPending) τ') →
  wp (validate_or_put_off id_text steps ewh wf lifecycle : Prog _) Q τ.
Proof.
  intros HQ HE. apply wp_try, wp_bind, wp_get_validation_package. intros r τ1 Hl1 Hd.
  destruct r as [o|e].
  2: { apply wp_bind, wp_bind, wp_safe; [solve_only|]. intros [] τ2 Hl2. apply HE. by etrans. }
  apply wp_try. destruct o as [p|].
  2: { apply wp_bind, wp_safe; [solve_only|]. intros [] τ2 Hl2. apply HE. by etrans. }
  apply wp_bind, wp_validate. intros [[]|e] τ2 Hl2 Hv.
  - apply HQ; [by etrans|]. exists p. split; [|by apply Hv].
    eapply delivered_later; [exact Hl2|]. by apply Hd.
  - apply wp_bind, wp_bind, wp_safe; [destruct e; solve_only|].
    intros [] τ3 Hl3. apply HE. etrans; [done|]. by etrans.
Qed.

Lemma wp_package_and_validate ewh link Q τ :
  (∀ r τ', τ ⊆ τ' →
     (r = Ok tt → ∃ l, link = Ok l ∧ justified (accepted τ') τ' ewh l LcMeta) → Q r τ') →
  wp (package_and_validate id_text steps ewh link : Prog _) Q τ.
Proof.
  intros HQ. apply wp_try, wp_get_validation_package. intros [[p|]|e] τ1 Hl1 Hd;
    [|by apply HQ..].
  destruct link as [l|e]; [|by apply HQ].
  apply wp_bind, wp_validate. intros [[]|e] τ2 Hl2 Hv.
  - apply HQ; [by etrans|]. intros _. exists l. split; [done|]. exists p.
    split; [|by apply Hv]. eapply delivered_later; [exact Hl2|]. by apply Hd.
  - apply HQ; [by etrans|done].
Qed.

#[local] Hint Resolve subseteq_later : core.
#[local] Lemma fresh_later (τ : trace) id : τ ⊆ EvFresh id :: τ.
Proof. continues. Qed.
#[local] Hint Resolve fresh_later : core.

(** The five workflows that write to the shard. *)
Lemma wp_hold_entry_workflow ewh Q τ :
  (∀ r τ', r = Err ValidationPending ∨ settled τ' ewh WfHoldEntry → Q r τ') →
  wp (hold_entry_workflow id_text steps ewh : Prog _) Q τ.
Proof.
  intros HQ. apply wp_try, wp_validate_or_put_off; [|by intros τ1 _; apply HQ; left].
  intros τ1 Hl1 Hj. apply wp_try. unfold hold_entry. apply (wp_send _ (λ _, _)).
  - intros id. split; [|done]. exact (justified_later _ _ _ _ _ (fresh_later _ _) Hj).
  - intros [a|e] τ2 id Hl2 Hin; apply HQ; right; by exists id.
Qed.

Lemma wp_hold_link_workflow ewh Q τ :
  (∀ r τ', r = Err ValidationPending ∨ settled τ' ewh WfHoldLink → Q r τ') →
  wp (hold_link_workflow id_text steps ewh : Prog _) Q τ.
Proof.
  intros HQ. unfold hold_link_workflow. unfold settled in HQ.
  destruct (ewh_entry ewh) eqn:He; try by apply HQ; right.
  apply wp_try, wp_validate_or_put_off; [|by intros τ1 _; apply HQ; left].
  intros τ1 Hl1 Hj. apply wp_try, (wp_send _ dht_done_future).
  - intros id. split; [|done]. eexists ewh, _. split_and!; [done..|].
    exact (justified_later _ _ _ _ _ (fresh_later _ _) Hj).
  - intros [a|e] τ2 id Hl2 Hin; apply HQ; right; by exists id.
Qed.

Lemma wp_remove_link_workflow ewh Q τ :
  (∀ r τ', τ ⊆ τ' → Q r τ') → wp (remove_link_workflow id_text steps ewh : Prog _) Q τ.
Proof.
  intros HQ. unfold remove_link_workflow. destruct (ewh_entry ewh) eqn:He; try by apply HQ.
  apply wp_try, wp_package_and_validate. intros [[]|e] τ1 Hl1 Hj; [|by apply HQ].
  destruct Hj as (l & [= <-] & Hj); [done|].
  apply wp_try, wp_send_and_wait.
  - intros id. split; [|done]. eexists ewh, _. split_and!; [done..|].
    exact (justified_later _ _ _ _ _ (fresh_later _ _) Hj).
  - intros [a|e] τ2 Hl2; apply HQ; by transitivity τ1.
Qed.

Lemma wp_hold_remove_workflow ewh Q τ :
  (∀ r τ', τ ⊆ τ' → Q r τ') → wp (hold_remove_workflow id_text steps ewh : Prog _) Q τ.
Proof.
  intros HQ. apply wp_try, wp_package_and_validate. intros [[]|e] τ1 Hl1 Hj; [|by apply HQ].
  destruct Hj as (l & [= <-] & Hj); [done|]. destruct (ewh_entry ewh) eqn:He; try done.
  apply wp_send_and_wait.
  - intros id. split; [|done]. exists ewh. rewrite He. split_and!; [done..|].
    exact (justified_later _ _ _ _ _ (fresh_later _ _) Hj).
  - intros r τ2 Hl2. apply HQ. by transitivity τ1.
Qed.

Lemma wp_hold_update_workflow ewh Q τ :
  (∀ r τ', τ ⊆ τ' → Q r τ') → wp (hold_update_workflow id_text steps ewh : Prog _) Q τ.
Proof.
  intros HQ. apply wp_try, wp_package_and_validate. intros [[]|e] τ1 Hl1 Hj; [|by apply HQ].
  destruct Hj as (l & Hl & Hj); [done|].
  destruct (h_link_update_delete (ewh_header ewh)) as [old|] eqn:Hold; [|done].
  injection Hl as <-. apply wp_try, wp_send_and_wait.
  - intros id. split; [|done]. exists ewh. split_and!; [done..|]. exact (justified_later _ _ _ _ _ (fresh_later _ _) Hj).
  - intros r τ2 Hl2. apply HQ. by transitivity τ1.
Qed.

(** ** Validation packages *)
Lemma wp_can_publish t Q τ :
  (∀ b τ', τ ⊆ τ' → (b = true → publishable τ' t) → Q b τ') →
  wp (can_publish t : Prog _) Q τ.
Proof.
  intros HQ. unfold can_publish.
  destruct t as [name| | | | | | | | | |]; try by apply HQ.
  apply wp_bind, wp_expect_dna.
  intros d τ' Hl Hd. apply wp_bind.
  destruct (get_entry_type_def d _) as [[def|]|] eqn:Hdef; [|by apply HQ|done].
  apply HQ; [done|]. intros Hs. by exists d, def.
Qed.

Lemma wp_public_entries w s all headers Q τ :
  EvState (Some (w, s)) ∈ τ → chain_headers (w, s) = Done all → headers ⊆ all →
  (∀ es τ', τ ⊆ τ' → Forall (shared_entry τ') es → Q es τ') → wp (public_entries (w, s) headers : Prog _) Q τ.
Proof.
  intros Hs Hall. revert Q τ Hs. induction headers as [|h headers IH]; intros Q τ Hs Hin HQ; [by apply HQ|].
  apply wp_bind, wp_can_publish. intros b τ1 Hl1 Hp.
  assert (∀ Q', (∀ es τ', τ1 ⊆ τ' → Forall (shared_entry τ') es → Q' es τ') →
    wp (public_entries (w, s) headers : Prog _) Q' τ1) as Hrest.
  { intros Q' HQ'. apply IH; [by apply Hl1|intros x Hx; apply Hin; by right|done]. }
  destruct b; [|apply Hrest; intros es τ2 Hl2; apply HQ; by etrans].
  apply wp_bind. destruct (chain_entry (w, s) h) as [e|] eqn:He; [|exact I].
  apply wp_bind, Hrest. intros es τ2 Hl2 Hes. apply HQ; [by etrans|]. constructor; [|done].
  exists w, s, all, h. split_and!; [by apply Hl2, Hl1|done|apply Hin; by left|done|].
  eapply publishable_later; [exact Hl2|by apply Hp].
Qed.

Lemma wp_all_public_entries Q τ :
  (∀ es τ', τ ⊆ τ' → Forall (shared_entry τ') es → Q es τ') → wp (all_public_chain_entries : Prog _) Q τ.
Proof.
  intros HQ. apply wp_bind, wp_the_state. intros w s. apply wp_bind.
  destruct (chain_headers (w, s)) as [headers|] eqn:Hh; [|exact I].
  apply (wp_public_entries _ _ headers); [in_trace|done..|]. intros es τ' Hl. apply HQ.
  etrans; [|exact Hl]. continues.
Qed.

Lemma wp_all_chain_headers Q τ :
  (∀ hs τ', τ ⊆ τ' → own_headers τ' hs → Q hs τ') → wp (all_chain_headers : Prog _) Q τ.
Proof.
  intros HQ. apply wp_bind, wp_the_state. intros w s.
  destruct (chain_headers (w, s)) as [headers|] eqn:Hh; [|exact I].
  apply HQ; [continues|]. exists w, s. split; [in_trace|done].
Qed.

Lemma wp_package_of header def Q τ :
  (∀ p τ', shareable τ' p → Q p τ') → wp (package_of header def : Prog _) Q τ.
Proof.
  intros HQ. unfold package_of. destruct def.
  1,5: apply HQ; by split.
  - apply wp_bind, wp_all_public_entries. intros es τ1 _ Hes. apply HQ. by split; simpl; [intros ? [= <-]|].
  - apply wp_bind, wp_all_chain_headers. intros hs τ1 _ Hhs. apply HQ. by split; simpl; [|intros ? [= <-]].
  - apply wp_bind, wp_all_public_entries. intros es τ1 _ Hes. apply wp_bind, wp_all_chain_headers.
    intros hs τ2 Hl2 Hhs. apply HQ. split; simpl; intros ? [= <-]; [|done].
    eapply Forall_impl; [exact Hes|]. intros e. by apply shared_entry_later.
Qed.

Lemma wp_package_thread id entry header : wp (package_thread id_text steps id entry header : Prog _) (λ _ _, True) [].
Proof.
  assert (∀ r τ, (∀ p, r = Ok p → shareable τ p) →
    wp (dispatch_new (AReturnValidationPackage id r) ;~ Ret tt : Prog _) (λ _ _, True) τ) as Hsend.
  { intros r τ Hr id'. split; [|done]. split; [|done]. destruct r as [p|]; [|done].
    exact (shareable_later _ _ _ (fresh_later _ _) (Hr p eq_refl)). }
  apply wp_bind, wp_try, wp_safe; [solve_only|]. intros [c|e] τ1 _; [|by apply Hsend].
  destruct c; try exact I; try by apply Hsend.
  apply wp_bind, wp_package_of. intros p τ2 Hp. apply Hsend. by intros ? [= <-].
Qed.

Lemma wp_build_validation_package entry provenances Q τ :
  (∀ r τ', τ ⊆ τ' → (∀ p, r = Ok p → packaged τ' p) → Q r τ') →
  wp (build_validation_package clock sign iso8601 id_text steps entry provenances : Prog _) Q τ.
Proof.
  intros HQ. apply wp_bind. intros id. apply wp_try, wp_safe; [solve_only|].
  intros [[]|e] τ1 Hl1; [|by apply HQ; [etrans; [apply fresh_later|]|]].
  apply wp_bind, wp_the_state. intros w s. apply wp_bind.
  destruct (find_chain_header _ _ _) as [found|]; [|exact I].
  apply wp_try, wp_safe; [destruct found; solve_only|]. intros [h|e] τ2 Hl2.
  2: { apply HQ; [|done]. etrans; [apply fresh_later|]. etrans; [exact Hl1|]. etrans; [|exact Hl2]. continues. }
  assert (τ ⊆ τ2) as Hl.
  { etrans; [apply fresh_later|]. etrans; [exact Hl1|]. etrans; [|exact Hl2]. continues. }
  apply wp_bind. split; [apply may_spawn_worker; constructor|]. intros v.
  destruct v as [[w' s']|]; simpl; [|by apply HQ; [etrans; [exact Hl|]; continues|]].
  destruct (validation_packages (s_nucleus s') !! id) as [r|] eqn:Hr; [|exact I].
  apply HQ; [etrans; [exact Hl|]; continues|]. intros p ->. exists id, w', s'. split; [in_trace|done].
Qed.

Lemma wp_respond_validation_package_request to_agent_id msg_id a provenances :
  wp (respond_validation_package_request clock sign iso8601 id_text steps to_agent_id msg_id a provenances ;~ Ret tt
      : Prog _) (λ _ _, True) [].
Proof.
  assert (∀ o τ, (∀ p, o = Some p → packaged τ p) →
    wp (dispatch_new (ASendDirectMessage (MkDirectMessageData to_agent_id (DmValidationPackage o) msg_id true)) ;~
        Ret tt : Prog _) (λ _ τ', wp (Ret tt : Prog _) (λ _ _, True) τ') τ) as Hsend.
  { intros o τ Ho id. split; [|done]. split; [|done]. destruct o as [p|]; [|done].
    exact (packaged_later _ _ _ (fresh_later _ _) (Ho p eq_refl)). }
  apply wp_bind, wp_bind, wp_the_state. intros w s. apply wp_bind.
  destruct (get_entry_from_agent_chain _ _ _) as [r|]; [|exact I]. apply wp_bind.
  destruct r as [[entry|]|e]; [|by apply Hsend..].
  apply wp_bind, wp_build_validation_package. intros r τ1 _ Hr. apply Hsend.
  destruct r as [p|]; intros p' [= <-]. by apply Hr.
Qed.

Lemma wp_worker t : worker t → wp t (λ _ _, True) [].
Proof.
  intros []; [apply wp_bind..|apply wp_package_thread|apply wp_respond_validation_package_request].
  - by apply wp_hold_entry_workflow.
  - by apply wp_hold_link_workflow.
  - by apply wp_remove_link_workflow.
  - by apply wp_hold_remove_workflow.
  - by apply wp_hold_update_workflow.
  - assert (∀ (r : HcResult unit) τ', r = Err ValidationPending ∨
        settled τ' (pv_entry_with_header pending) (pv_workflow pending) →
      wp (if decide (Err ValidationPending ≠ r)
          then remove_pending_validation (address (ewh_entry (pv_entry_with_header pending)))
                 (pv_workflow pending)
          else Ret tt : Prog _) (λ _ _, True) τ') as H.
    { intros r τ' Hr. case_decide; [|done]. destruct Hr as [->|Hs]; [done|]. intros id.
      split; [|done]. split; [|done]. exists (pv_entry_with_header pending). split; [done|].
      exact (settled_later _ _ _ _ (fresh_later _ _) Hs). }
    destruct (pv_workflow pending); [by apply wp_hold_entry_workflow|by apply wp_hold_link_workflow].
Qed.

(** Publishing. *)
Lemma wp_publish t a Q τ :
  publishable τ t → (∃ entry, Entry.entry_type entry = t ∧ address entry = a) ∨ on_chain τ t a →
  (∀ r τ', τ ⊆ τ' → Q r τ') → wp (publish a : Prog _) Q τ.
Proof.
  intros Hp Ha HQ. unfold publish.
  apply (wp_send_and_wait _ (λ id, polling (λ ws, Done (poll_publish id (s_network ws.2))))); [|done]. intros id. split; [|done].
  exists t. split; [exact (publishable_later _ _ _ (fresh_later _ _) Hp)|]. destruct Ha as [?|Ha]; [by left|right].
  destruct Ha as (w & s & hs & h & Hin & H). exists w, s, hs, h. split; [by right|done].
Qed.

(** [author_entry]. *)
Lemma wp_author_entry entry link provenances Q τ :
  (∀ r τ', τ ⊆ τ' → Q r τ') →
  wp (author_entry clock sign iso8601 id_text steps entry link provenances : Prog _) Q τ.
Proof.
  intros HQ. apply wp_try, wp_build_validation_package. intros [p|e] τ1 Hl1 _; [|by apply HQ].
  apply wp_try, wp_bind, wp_validate. intros [[]|e] τ2 Hl2 Hv.
  2: { apply HQ. by transitivity τ1. }
  assert (τ ⊆ τ2) as Hs by (by transitivity τ1).
  apply wp_try, wp_send_and_wait.
  { intros id. split; [|done]. right. exists p. eapply valid_later; [|by apply Hv]. done. }
  intros [a|e] τ3 Hl3; (assert (τ ⊆ τ3) as Hs3 by (by transitivity τ2)); [|by apply HQ].
  apply wp_bind, wp_can_publish. intros [] τ4 Hl4 Hp.
  2: { apply HQ. by transitivity τ3. }
  apply wp_try, (wp_publish (Entry.entry_type entry)); [by apply Hp|left; by exists entry|].
  intros [x|e] τ5 Hl5; apply HQ; (transitivity τ3; [done|]); by transitivity τ4.
Qed.

(** ** The handler *)
Lemma only_handlers :
  (∀ d, only harmless (handle_fetch_entry_result d : Prog _)) ∧
  (∀ d, only harmless (handle_fetch_meta d : Prog _)) ∧
  (∀ d, only harmless (handle_fetch_meta_result d : Prog _)) ∧
  (∀ d, only harmless (handle_send_message_result d : Prog _)).
Proof.
  unfold handle_fetch_entry_result, handle_fetch_meta,
    handle_fetch_meta_result, handle_send_message_result.
  split_and!; intros d; solve_only.
Qed.

Lemma wp_republish headers Q τ :
  (∀ h τ', τ ⊆ τ' → h ∈ headers → on_chain τ' (h_entry_type h) (h_entry_address h)) →
  (∀ r τ', τ ⊆ τ' → Q r τ') → wp (republish headers : Prog _) Q τ.
Proof.
  revert τ. induction headers as [|h headers IH]; intros τ Hon HQ; [by apply HQ|].
  apply wp_bind, wp_can_publish. intros b τ1 Hl1 Hp.
  assert (∀ τ2, τ1 ⊆ τ2 → wp (republish headers : Prog _) Q τ2) as Hrest.
  { intros τ2 Hl2. apply IH.
    - intros h' τ3 Hl3 Hin. apply Hon; [|by right]. etrans; [exact Hl1|]. by etrans.
    - intros r τ3 Hl3. apply HQ. etrans; [exact Hl1|]. by etrans. }
  destruct b; apply wp_bind; [|by apply Hrest].
  apply wp_bind, (wp_publish (h_entry_type h)); [by apply Hp| |].
  - right. apply Hon; [done|by left].
  - intros r τ2 Hl2. by apply Hrest.
Qed.

Lemma wp_republish_all Q τ :
  (∀ r τ', Q r τ') → wp (republish_all_public_chain_entries : Prog _) Q τ.
Proof.
  intros HQ. apply wp_bind, wp_the_state. intros w s. apply wp_bind.
  destruct (chain_headers (w, s)) as [headers|] eqn:Hh; [|exact I].
  apply wp_republish; [|done]. intros h τ' Hl Hin. exists w, s, headers, h.
  split_and!; [apply Hl; by left|done..].
Qed.

Lemma wp_in_thread {A} (m : Prog A) Q τ :
  worker (m ;~ Ret tt) → (∀ r τ', Q r τ') → wp (in_thread m) Q τ.
Proof. intros Hm HQ. split; [by apply may_spawn_worker|]. apply HQ. Qed.

Lemma wp_handle_fetch_entry d Q τ :
  (∀ r τ', Q r τ') → wp (handle_fetch_entry d : Prog _) Q τ.
Proof.
  intros HQ.
  assert (∀ o τ', match o with
                  | Some e => publishable τ' (Entry.entry_type (ewm_entry (ewmh_entry_with_meta e)))
                  | None => True
                  end → wp (dispatch_new (ARespondFetch d o) ;~ Ret tt : Prog _) Q τ') as Hsend.
  { intros o τ' Ho id. split; [|apply HQ]. split; [|done]. destruct o as [e|]; [|done].
    exact (publishable_later _ _ _ (fresh_later _ _) Ho). }
  apply wp_bind, wp_safe; [solve_only|]. intros [o|e] τ1 _; [|by apply Hsend].
  apply wp_bind, wp_bind, wp_the_state. intros w s. apply wp_bind.
  destruct (state_get_headers _ _ _) as [[headers|e]|]; [|by apply Hsend|done].
  destruct o as [ewm|]; [|by apply Hsend].
  apply wp_bind, wp_can_publish. intros [] τ2 _ Hp; apply Hsend; [by apply Hp|done].
Qed.

Lemma wp_handle_send_message d Q τ :
  (∀ r τ', Q r τ') →
  wp (handle_send_message clock sign iso8601 id_text steps debug_callback_result d : Prog _) Q τ.
Proof.
  intros HQ. apply wp_bind. destruct (expect _ _) as [[m|a|p]|]; [| |apply HQ|exact I].
  - assert (only harmless (in_thread (handle_custom_direct_message debug_callback_result (msg_from_agent_id d)
      (msg_request_id d) m) : Prog _)) as Ho.
    { unfold in_thread, handle_custom_direct_message, receive. solve_only. }
    apply (wp_safe _ _ _ Ho). intros. apply HQ.
  - apply wp_in_thread; [constructor|done].
Qed.

Lemma wp_handle my_dna_address message Q τ :
  (∀ r τ', Q r τ') →
  wp (handle clock sign iso8601 id_text steps debug_callback_result my_agent my_dna_address
        message) Q τ.
Proof.
  intros HQ. destruct only_handlers as (H1 & H2 & H3 & H4).
  destruct message; simpl; try apply HQ; repeat case_match; try apply HQ;
    try (by apply wp_handle_fetch_entry); try (by apply wp_handle_send_message);
    try (by apply wp_safe; [auto|]).
  - by apply wp_republish_all.
  - apply wp_bind. destruct (ewh_of_json _) as [ewh|]; [|done].
    apply wp_in_thread; [constructor|done].
  - unfold handle_store_meta. repeat case_decide; apply wp_bind; [..|destruct (CrudStatus.from_str _)].
    1,2: destruct (only_content d) as [ewh|]; [|done]; apply wp_in_thread; [constructor|done].
    2: done.
    destruct (_ : CrudStatus.t); try apply HQ; apply wp_bind; destruct (first_content d) as [ewh|];
      try done; apply wp_in_thread; [constructor|done|constructor|done].
Qed.

(** ** The start of an instance *)
Lemma wp_dispatch_new a Q τ :
  (∀ τ' id, thread_guarantee t0 τ' (MkActionWrapper a id)) → (∀ r τ', Q r τ') →
  wp (dispatch_new a : Prog _) Q τ.
Proof. intros HG HQ id. split; [apply HG|apply HQ]. Qed.

Lemma wp_commit_or_report entry what Q τ :
  unvalidated_entry entry → (∀ r τ', Q r τ') → wp (commit_or_report entry what : Prog _) Q τ.
Proof.
  intros He HQ. apply wp_bind, wp_send_and_wait; [intros id; split; [by left|done]|].
  intros [a|e] τ1 _; [by apply HQ|]. apply wp_bind, wp_bind, wp_bind, wp_dispatch_new; [done|].
  intros r τ2. apply HQ.
Qed.

Lemma wp_commit_public_grant fns Q τ :
  (∀ r τ', Q r τ') → wp (commit_public_grant fns : Prog _) Q τ.
Proof.
  intros HQ. unfold commit_public_grant. destruct fns; [apply HQ|].
  destruct (create _ _ _ _) as [g|e].
  - apply wp_try, wp_commit_or_report; [done|]. intros [a|e] τ1; apply HQ.
  - apply wp_bind, wp_bind, wp_dispatch_new; [done|]. intros r τ1. apply HQ.
Qed.

Lemma only_genesis zome : only harmless (genesis zome : Prog _).
Proof. unfold genesis, call_callback, run_callback. solve_only. Qed.

Lemma wp_initialize_chain d Q τ :
  (∀ r τ', Q r τ') → wp (initialize_chain instant my_agent d : Prog _) Q τ.
Proof.
  intros HQ. apply wp_bind, wp_the_state. intros w s. case_decide; [apply HQ|].
  apply wp_bind. intros id. apply wp_bind. split; [done|]. apply wp_wait. intros [] τ1.
  apply wp_try, wp_commit_or_report; [done|]. intros [a|e] τ2; [|apply HQ].
  apply wp_try, wp_commit_or_report; [done|]. intros [a'|e] τ3; [|apply HQ].
  case_decide; [apply HQ|]. apply wp_try, wp_commit_public_grant. intros [o|e] τ4; [|apply HQ].
  apply wp_bind, wp_safe; [apply only_for_all; intros; apply only_genesis|]. intros rs τ5 _.
  apply wp_bind, wp_dispatch_new; [done|]. intros aw τ6 v. apply wp_wait. intros r τ7. apply HQ.
Qed.

Lemma wp_initialize_network Q τ :
  (∀ r τ', Q r τ') → wp (initialize_network dna_address p2p_config : Prog _) Q τ.
Proof.
  intros HQ. apply wp_try, wp_safe; [unfold get_dna_and_agent; solve_only|].
  intros [ids|e] τ1 _; [|apply HQ]. apply wp_bind, wp_dispatch_new; [done|]. intros aw τ2.
  apply wp_try, wp_wait. intros [[]|e] τ3; [|apply HQ].
  apply wp_try, (wp_publish EntryType.AgentId); [done| |].
  - left. by exists (Entry.AgentId (MkAgentId "" ids.2)).
  - intros [a|e] τ4 _; apply HQ.
Qed.

Lemma wp_initialize maybe_dna Q τ :
  (∀ r τ', Q r τ') →
  wp (initialize instant dna_address my_agent p2p_config maybe_dna : Prog _) Q τ.
Proof.
  intros HQ. apply wp_bind, wp_safe; [unfold get_dna_and_agent; solve_only|].
  intros [ids|e] τ1 _; [by apply wp_initialize_network|].
  destruct maybe_dna as [d|]; [|apply HQ]. apply wp_try, wp_initialize_chain.
  intros [st|e'] τ2; [by apply wp_initialize_network|apply HQ].
Qed.

(** ** Zome calls and retries *)
Lemma only_call_zome_function fn_call : only harmless (call_zome_function my_agent fn_call : Prog _).
Proof.
  unfold call_zome_function, validate_call, check_capability, zome_call_thread. solve_only.
Qed.

Lemma wp_for_all {A B} (f : A → Prog B) l Q τ :
  (∀ x Q' τ', (∀ r τ', Q' r τ') → wp (f x) Q' τ') → (∀ r τ', Q r τ') → wp (for_all f l) Q τ.
Proof.
  intros Hf. revert Q τ. induction l as [|x l IH]; intros Q τ HQ; [apply HQ|].
  apply wp_bind, Hf. intros y τ1. apply wp_bind, IH. intros ys τ2. apply HQ.
Qed.

Lemma wp_run_pending_validations Q τ :
  (∀ r τ', Q r τ') → wp (run_pending_validations id_text steps : Prog _) Q τ.
Proof.
  intros HQ. apply wp_bind, wp_the_state. intros w s. apply wp_bind, wp_for_all.
  - intros kp Q' τ' HQ'. split; [apply may_spawn_worker; constructor|apply HQ'].
  - intros r τ'. apply HQ.
Qed.

(** ** Zome code *)
Section zome_code.
Context `{!GlobSet, !Sodium, !Hcid, !ApiText} {M : Type} `{!WasmiMemory M, !Wasmi M}.
Context (debug_errors : list HolochainError → string) (conductor : nat → string → outcome (option string)).
Context (random : nat → Rng).

Lemma wp_computed {A} (o : outcome A) (Q : A → trace → Prop) τ :
  (∀ a τ', Q a τ') → wp (computed o : Prog A) Q τ.
Proof. intros HQ. destruct o; [apply HQ|done]. Qed.

Lemma wp_or_trap {A} (r : result Trap A) (rt : Runtime M) k Q τ :
  (∀ a, wp (k a : Prog _) Q τ) → (∀ r τ', Q r τ') → wp (or_trap r rt k) Q τ.
Proof. intros Hk HQ. destruct r; [apply Hk|apply HQ]. Qed.

Lemma wp_with_input {I} (parse : string → option I) (rt : Runtime M) args k Q τ :
  (∀ i τ', wp (k i : Prog _) Q τ') → (∀ r τ', Q r τ') → wp (with_input parse rt args k) Q τ.
Proof.
  intros Hk HQ. apply wp_bind, wp_computed. intros s τ'. destruct (parse s); [apply Hk|apply HQ].
Qed.

Lemma wp_with_latest (rt : Runtime M) a k Q τ :
  (∀ e τ', wp (k e : Prog _) Q τ') → (∀ r τ', Q r τ') → wp (with_latest id_text steps rt a k) Q τ.
Proof.
  intros Hk HQ. unfold with_latest. apply wp_bind, wp_safe; [solve_only|]. intros r τ1 Hl.
  destruct r as [r|e]; [|apply HQ]. destruct (result_found r); simpl; [|apply HQ]. apply wp_bind, wp_computed. intros e τ2. apply Hk.
Qed.

Lemma wp_commit_unvalidated entry Q τ :
  unvalidated_entry entry → (∀ r τ', Q r τ') → wp (commit_entry entry None : Prog _) Q τ.
Proof. intros He HQ. apply wp_send_and_wait; [intros id; split; [by left|done]|]. intros r τ' _. apply HQ. Qed.

(** What only looks on, asks the conductor or sends messages. *)
Lemma only_or_trap {A} (r : result Trap A) (rt : Runtime M) k :
  (∀ a, only harmless (k a : Prog _)) → only harmless (or_trap r rt k : Prog _).
Proof. intros Hk. destruct r; [apply Hk|done]. Qed.

Lemma only_with_input {I} (parse : string → option I) (rt : Runtime M) args k :
  (∀ i, only harmless (k i : Prog _)) → only harmless (with_input parse rt args k : Prog _).
Proof. intros Hk. unfold with_input. solve_only. Qed.

Lemma only_context_sign payload : only harmless (context_sign id_text conductor payload : Prog _).
Proof. unfold context_sign. solve_only. Qed.

Lemma only_from_args args : only harmless (from_args id_text my_agent conductor args : Prog _).
Proof. unfold from_args, make_cap_request_for_call, make_call_sig, context_sign. solve_only. Qed.

Lemma only_keystore_request method read (rt : Runtime M) params :
  only harmless (keystore_request id_text conductor method read rt params : Prog _).
Proof. unfold keystore_request, conductor_callback, gives. solve_only. Qed.

Lemma only_with_entries {X} (address_of : X → Address) l : only harmless (with_entries address_of l : Prog _).
Proof. induction l; simpl; unfold get_entry_from_chain; solve_only. Qed.

#[local] Hint Resolve only_context_sign only_from_args only_keystore_request only_with_entries
  only_call_zome_function : only.

Definition writes (f : ZomeApiFunction.t) : bool :=
  match f with
  | ZomeApiFunction.CommitAppEntry | ZomeApiFunction.UpdateEntry | ZomeApiFunction.RemoveEntry
  | ZomeApiFunction.LinkEntries | ZomeApiFunction.RemoveLink | ZomeApiFunction.CommitCapabilityGrant
  | ZomeApiFunction.CommitCapabilityClaim => true
  | _ => false
  end.

Abbreviation as_fn := (as_fn clock sign iso8601 id_text steps debug_errors dna_address my_agent conductor random).

Lemma only_api f (rt : Runtime M) args : writes f = false → only harmless (as_fn f rt args : Prog _).
Proof.
  intros Hf. destruct f; try done; simpl; unfold invoke_debug, invoke_get_entry, invoke_init_globals, invoke_call,
    invoke_get_links, invoke_query, invoke_entry_address, invoke_send, invoke_sleep, invoke_sign,
    invoke_sign_one_time, invoke_verify_signature, invoke_keystore_list, invoke_keystore_new_random,
    invoke_keystore_derive_seed, invoke_keystore_derive_key, invoke_keystore_sign, invoke_keystore_get_public_key,
    gives, local_call, bridge_call, custom_send;
    repeat (apply only_or_trap || apply only_with_input || solve_only).
Qed.

Lemma wp_author_and_give entry link provenances (give : HcResult Address → Prog (Runtime M * ZomeApiResult)) Q τ :
  (∀ r, only harmless (give r)) → (∀ r τ', Q r τ') →
  wp (r <~ author_entry clock sign iso8601 id_text steps entry link provenances; give r) Q τ.
Proof.
  intros Hg HQ. apply wp_bind, wp_author_entry. intros r τ1 _. apply wp_safe; [apply Hg|]. intros. apply HQ.
Qed.

Lemma wp_as_fn f (rt : Runtime M) args Q τ : (∀ r τ', Q r τ') → wp (as_fn f rt args : Prog _) Q τ.
Proof.
  intros HQ. destruct (writes f) eqn:Hf.
  2: { apply wp_safe; [by apply only_api|]. intros. apply HQ. }
  destruct f; try done; simpl; apply wp_or_trap; try done; intros _; apply wp_with_input; try done; intros input τ1.
  1,4,5: apply wp_author_and_give; [intros r; apply only_computed|done].
  1,2: apply wp_with_latest; [|done]; intros e τ2; apply wp_author_and_give; [intros r; apply only_computed|done].
  - apply wp_bind. destruct (create _ _ _ _) as [g|e].
    + apply wp_commit_unvalidated; [done|]. intros r τ2. by apply wp_computed.
    + by apply wp_computed.
  - apply wp_bind, wp_commit_unvalidated; [done|]. intros r τ2. by apply wp_computed.
Qed.

Lemma wp_invoke_index (rt : Runtime M) i args Q τ :
  (∀ r τ', Q r τ') →
  wp (invoke_index clock sign iso8601 id_text steps debug_errors dna_address my_agent conductor random rt i args
      : Prog _) Q τ.
Proof. intros HQ. unfold invoke_index. case_decide; [done|by apply wp_as_fn]. Qed.

Lemma wp_run_guest fuel (rt : Runtime M) g Q τ :
  (∀ r τ', Q r τ') →
  wp (run_guest clock sign iso8601 id_text steps debug_errors dna_address my_agent conductor random fuel rt g
      : Prog _) Q τ.
Proof.
  intros HQ. revert rt g τ. induction fuel as [|fuel IH]; intros rt g τ; [done|]. simpl.
  destruct (guest_step g _) as [m next]. destruct next as [i v|i t|i field args k|g']; try apply HQ; [|apply IH].
  destruct (resolve_func field) as [[sig idx]|why]; [|done]. apply wp_bind, wp_invoke_index. intros [rt1 [v|t]] τ1.
  - simpl. case_decide; [apply IH|apply HQ].
  - apply HQ.
Qed.

Lemma wp_invoke_export fuel i name args (rt : Runtime M) Q τ :
  (∀ r τ', Q r τ') →
  wp (invoke_export clock sign iso8601 id_text steps debug_errors dna_address my_agent conductor random fuel i name
        args rt : Prog _) Q τ.
Proof.
  intros HQ. unfold invoke_export. destruct (exported i name); [|apply HQ].
  apply wp_bind, wp_run_guest. intros r τ1. apply HQ.
Qed.

Lemma wp_run_wasm fuel parameters data Q τ :
  (∀ r τ', Q r τ') →
  wp (run_wasm clock sign iso8601 id_text steps debug_errors dna_address my_agent conductor random fuel parameters
        data : Prog _) Q τ.
Proof.
  intros HQ. apply wp_try, wp_safe; [unfold get_module; solve_only|]. intros [module|e] τ1 _; [|apply HQ].
  apply wp_try, wp_computed. intros [inst|e] τ2; [|apply HQ].
  apply wp_bind, wp_computed. intros mm τ3. apply wp_bind, wp_computed. intros written τ4.
  apply wp_try. destruct (encoded_input _) as [input|e]; [|apply HQ].
  apply wp_bind, wp_invoke_export. intros installed τ5. apply wp_bind, wp_invoke_export. intros invoked τ6.
  destruct invoked.2 as [[[]|]|]; try apply HQ; [|done]. by apply wp_computed.
Qed.
End zome_code.

Lemma wp_root t : root t → wp t (λ _ _, True) [].
Proof.
  intros [].
  - by apply wp_handle.
  - by apply wp_run_pending_validations.
  - by apply wp_bind, wp_author_entry.
  - by apply wp_bind, wp_initialize.
  - apply wp_bind, wp_safe; [apply only_call_zome_function|done].
  - by apply wp_bind, wp_run_wasm.
  - by apply wp_safe.
Qed.
End workflows.

Lemma wp_validation_thread key call :
  wp (thread_guarantee (validation_thread key call)) may_spawn
    (validation_thread key call : Prog unit) (λ _ _, True) [].
Proof. intros res id. split; [|done]. split; [done|]. exists call, res. split_and!; [done|in_trace|done]. Qed.

(** No other thread answers for a callback. *)
Lemma validation_thread_inj key1 key2 call1 call2 :
  (validation_thread key1 call1 : Prog unit) = validation_thread key2 call2 →
  key1 = key2 ∧ call1 = call2.
Proof.
  set (sent := λ t : Prog unit,
    match t with
    | RunDna call k =>
        match k (Ok "") with
        | Fresh k' => match k' 0%nat with
                      | Dispatch aw _ => Some (call, aw_action aw)
                      | _ => None
                      end
        | _ => None
        end
    | _ => None
    end).
  intros H%(f_equal sent). by injection H as -> ->.
Qed.

Lemma validation_thread_own key call :
  ¬ wp (thread_guarantee (Ret tt)) may_spawn (validation_thread key call : Prog unit)
      (λ _ _, True) [].
Proof.
  intros H. destruct (H (Ok "") 0%nat) as [[_ (call' & res & E & _)] _]. discriminate E.
Qed.

(** What was spawned is a worker or harmless, or runs a callback under an id drawn
    right before. *)
Lemma may_spawn_guarantee τ t :
  may_spawn τ t →
  wp (thread_guarantee (Ret tt)) may_spawn t (λ _ _, True) [] ∨
  ∃ id a call τ', τ = EvFresh id :: τ' ∧ t = validation_thread (id, a) call.
Proof.
  intros [Ht|[Ht|Ht]]; [left; by apply wp_safe|left; by apply wp_worker|by right].
Qed.
End facts.
