(* ===== verification/Machine.v ===== *)
(** * A running node

    [core/src/instance.rs]: the state behind its lock, the channel of actions of
    bounded size, the loop that reduces one action after the other, and the threads
    that read the state and send actions.  Threads are interleaved in any order; the
    wasm code of the DNA answers anything.

    The theorem is about every interleaving: no action that changes the chain or the
    shard is reduced unless a callback of the DNA accepted it, and nothing private is
    published or handed out. *)
From S2P Require Import Prelude Errors Strings Time Eav Entries Cas Protocol Actions Dht Chain Network Nucleus State Workflow Lookup Validation Workflows Handler Capabilities Initialize NetworkFacts ChainFacts ValidationFacts Guarantees.

Section machine.
Context {wire : Wire} {Json Net : Type}.
Context `{!JsonPayloads Json} `{!P2pNetwork Json Net}.
Context {C : Type} `{!ContentAddressableStorage C}.
Context {S : Type} `{!EavStorage S}.
Context {crypto : Crypto} {cbtext : CallbackText}.
Abbreviation World := (@World C S).
Context (clock : nat → Z) (sign : nat → string → HcResult string) (iso8601 : Z → string).
Context (id_text : nat → string) (steps : nat).
Context (debug_callback_result : CallbackResult → string).
Context (instant : World → Z) (dna_address : Dna → Address).
Context (my_agent : AgentId) (p2p_config : string).
Abbreviation Prog := (Prog Json Net C S).
Abbreviation Event := (@Event Json Net C S).
Abbreviation trace := (list Event).
Abbreviation State := (State Net).
Abbreviation root := (root clock sign iso8601 id_text steps debug_callback_result instant
                        dna_address my_agent p2p_config).
Abbreviation may_spawn := (may_spawn clock sign iso8601 id_text steps).

(** A thread: what it has done and what is left of it. *)
Record Thread := MkThread { th_trace : trace; th_now : Prog unit }.

(** [Instance]: [nd_running] until the action loop panics, [nd_channel] the oldest
    action first, [nd_next] the next unique id.  [nd_reduced] records the actions
    the loop has reduced, the latest first. *)
Record Node := MkNode {
  nd_world : World;
  nd_state : State;
  nd_channel : list (ActionWrapper Json);
  nd_running : bool;
  nd_next : nat;
  nd_pool : list Thread;
  nd_reduced : list (ActionWrapper Json);
}.

Definition DEFAULT_CHANNEL_BUF_SIZE : nat := 100.
Definition DISPATCH_WITHOUT_CHANNELS : string := "dispatch called without channels open".

(** [Instance::new] and [Instance::from_state]. *)
Definition node_of (w : World) (s : State) (next : nat) : Node := MkNode w s [] true next [] [].

Definition with_pool (n : Node) (pool : list Thread) : Node :=
  MkNode (nd_world n) (nd_state n) (nd_channel n) (nd_running n) (nd_next n) pool (nd_reduced n).

(** What an event of a thread that is at [p] does to the node besides the thread.
    Sending blocks while the channel is full; a panic leaves any storages behind. *)
Definition effect (p : Prog unit) (ev : Event) (n n' : Node) : Prop :=
  match ev with
  | EvState v => v = Some (nd_world n, nd_state n) ∧ n' = n
  | EvFresh id => id = nd_next n ∧
      n' = MkNode (nd_world n) (nd_state n) (nd_channel n) (nd_running n) (id + 1) (nd_pool n)
             (nd_reduced n)
  | EvDispatch aw => nd_running n = true ∧
      (length (nd_channel n) < DEFAULT_CHANNEL_BUF_SIZE)%nat ∧
      n' = MkNode (nd_world n) (nd_state n) (nd_channel n ++ [aw]) true (nd_next n) (nd_pool n)
             (nd_reduced n)
  | EvDna _ _ => n' = n
  | EvSpawn t => n' = with_pool n (nd_pool n ++ [MkThread [] t])
  | EvWorld w => w = nd_world n ∧
      ∃ w', match p with
            | Atomic f _ => match f w with Done (w1, _) => w' = w1 | Panicked _ => True end
            | _ => w' = w
            end ∧
        n' = MkNode w' (nd_state n) (nd_channel n) (nd_running n) (nd_next n) (nd_pool n)
               (nd_reduced n)
  end.

(** [Instance::process_action]: a reducer that panics ends the loop, and with it the
    receiving end of the channel; [left] is what it left of the storages. *)
Definition process_action (uid : string) (left : World) (aw : ActionWrapper Json)
    (channel : list (ActionWrapper Json)) (n : Node) : Node :=
  match state_reduce clock sign iso8601 uid (nd_state n) aw (nd_world n) with
  | Done (w, s) =>
      MkNode w s channel (nd_running n) (nd_next n) (nd_pool n) (aw :: nd_reduced n)
  | Panicked _ =>
      MkNode left (nd_state n) [] false (nd_next n) (nd_pool n) (nd_reduced n)
  end.

Inductive step : Node → Node → Prop :=
| step_thread n n' i τ p ev q :
    nd_pool n !! i = Some (MkThread τ p) → pstep p ev q →
    effect p ev (with_pool n (<[i := MkThread (ev :: τ) q]> (nd_pool n))) n' →
    step n n'
| step_disconnected n i τ aw k :
    nd_pool n !! i = Some (MkThread τ (Dispatch aw k)) → nd_running n = false →
    step n (with_pool n (<[i := MkThread τ (Panic DISPATCH_WITHOUT_CHANNELS)]> (nd_pool n)))
| step_action n uid left aw channel :
    nd_running n = true → nd_channel n = aw :: channel →
    step n (process_action uid left aw channel n)
| step_start n t : root t → step n (with_pool n (nd_pool n ++ [MkThread [] t])).

(** The nodes that can be reached from a fresh or a restored state. *)
Inductive reachable : Node → Prop :=
| reach_init w s next :
    validation_results (s_nucleus s) = ∅ → validation_packages (s_nucleus s) = ∅ → reachable (node_of w s next)
| reach_step n n' : reachable n → step n n' → reachable n'.

(** ** Executing a schedule *)

(** A scheduler's choices: a thread takes its next step (with this answer if it runs
    wasm code), the loop reduces an action, a message arrives, or the scheduled job
    starts. *)
Inductive choice :=
| Go (i : nat) (answer : HcResult string)
| Reduce (uid : string)
| Receive (my_dna_address : string) (message : JsonProtocol Json)
| Retry.

(** The next event of a program, if it is not blocked. *)
Definition next_event (answer : HcResult string) (n : Node) (p : Prog unit) :
    option (Event * Prog unit * World) :=
  let v := Some (nd_world n, nd_state n) in
  match p with
  | Ret _ | Panic _ => None
  | GetState k => Some (EvState v, k v, nd_world n)
  | Fresh k => Some (EvFresh (nd_next n), k (nd_next n), nd_world n)
  | Dispatch aw k =>
      if nd_running n && bool_decide (length (nd_channel n) < DEFAULT_CHANNEL_BUF_SIZE)%nat
      then Some (EvDispatch aw, k, nd_world n) else None
  | RunDna call k => Some (EvDna call answer, k answer, nd_world n)
  | Spawn t k => Some (EvSpawn t, k, nd_world n)
  | Atomic f k =>
      match f (nd_world n) with
      | Done (w, x) => Some (EvWorld (nd_world n), k x, w)
      | Panicked why => Some (EvWorld (nd_world n), Panic why, nd_world n)
      end
  | Await poll k =>
      match poll v with
      | Done (Some x) => Some (EvState v, k x, nd_world n)
      | Done None => None
      | Panicked why => Some (EvState v, Panic why, nd_world n)
      end
  end.

Definition after_event (ev : Event) (w : World) (n : Node) : Node :=
  MkNode w (nd_state n)
    (nd_channel n ++ match ev with EvDispatch aw => [aw] | _ => [] end) (nd_running n)
    (nd_next n + match ev with EvFresh _ => 1 | _ => 0 end)
    (nd_pool n ++ match ev with EvSpawn t => [MkThread [] t] | _ => [] end) (nd_reduced n).

Definition choose (n : Node) (c : choice) : option Node :=
  match c with
  | Go i answer =>
      '(MkThread τ p) ← nd_pool n !! i;
      '(ev, q, w) ← next_event answer n p;
      Some (after_event ev w (with_pool n (<[i := MkThread (ev :: τ) q]> (nd_pool n))))
  | Reduce uid =>
      match nd_channel n with
      | aw :: channel => if nd_running n then Some (process_action uid (nd_world n) aw channel n) else None
      | [] => None
      end
  | Receive my_dna_address message =>
      Some (with_pool n (nd_pool n ++ [MkThread []
        (handle clock sign iso8601 id_text steps debug_callback_result my_agent my_dna_address
           message)]))
  | Retry => Some (with_pool n (nd_pool n ++ [MkThread [] (run_pending_validations id_text steps)]))
  end.

Fixpoint execute (n : Node) (cs : list choice) : option Node :=
  match cs with
  | [] => Some n
  | c :: cs => n' ← choose n c; execute n' cs
  end.

Lemma next_event_sound answer n p ev q w :
  next_event answer n p = Some (ev, q, w) →
  pstep p ev q ∧
  ∀ pool, effect p ev (with_pool n pool) (after_event ev w (with_pool n pool)).
Proof.
  unfold next_event, after_event. destruct n as [w0 s ch run nx pl red]. intros H.
  destruct p; simpl in H; simplify_eq/=.
  - rewrite app_nil_r, Nat.add_0_r. split; [by eexists|]. intros pool. by rewrite app_nil_r.
  - split; [by eexists|]. intros pool. by rewrite !app_nil_r.
  - destruct run; simpl in H; [|done]. case_bool_decide; simplify_eq/=. split; [done|].
    intros pool. by rewrite app_nil_r, Nat.add_0_r.
  - split; [by eexists|]. intros pool. by rewrite !app_nil_r, Nat.add_0_r.
  - split; [done|]. intros pool. by rewrite app_nil_r, Nat.add_0_r.
  - destruct (f w0) as [[w1 x]|why] eqn:Hf; simplify_eq/=.
    + split; [exists w0; by rewrite Hf|]. intros pool. split; [done|]. exists w. rewrite Hf.
      by rewrite !app_nil_r, Nat.add_0_r.
    + split; [exists w; by rewrite Hf|]. intros pool. split; [done|]. exists w. rewrite Hf.
      by rewrite !app_nil_r, Nat.add_0_r.
  - destruct (poll _) as [[x|]|why] eqn:Hf; simplify_eq/=.
    + split; [eexists; by rewrite Hf|]. intros pool. by rewrite !app_nil_r, Nat.add_0_r.
    + split; [eexists; by rewrite Hf|]. intros pool. by rewrite !app_nil_r, Nat.add_0_r.
Qed.

Lemma choose_sound n c n' : choose n c = Some n' → step n n'.
Proof.
  destruct c as [i answer|uid|my_dna_address message|]; simpl.
  - destruct (nd_pool n !! i) as [[τ p]|] eqn:Hi; [|done]. simpl.
    destruct (next_event answer n p) as [[[ev q] w]|] eqn:He; [|done]. simpl. intros [= <-].
    destruct (next_event_sound _ _ _ _ _ _ He) as [H1 H2]. by eapply step_thread.
  - destruct (nd_channel n) as [|aw ch] eqn:Hch; [done|].
    destruct (nd_running n) eqn:Hr; [|done]. intros [= <-]. by constructor.
  - intros [= <-]. apply step_start. constructor.
  - intros [= <-]. apply step_start. constructor.
Qed.

Lemma execute_reachable n cs n' : reachable n → execute n cs = Some n' → reachable n'.
Proof.
  revert n. induction cs as [|c cs IH]; intros n Hn; simpl; [by intros [= <-]|].
  destruct (choose n c) as [n1|] eqn:Hc; [|done]. apply IH. eapply reach_step; [done|].
  by eapply choose_sound.
Qed.

(** ** Invariants *)

(** Some thread of the node did this. *)
Definition happened (pool : list Thread) (ev : Event) : Prop :=
  ∃ i th, pool !! i = Some th ∧ ev ∈ th_trace th.

(** Later the threads are the same ones, with longer traces. *)
Definition grows (pool pool' : list Thread) : Prop :=
  ∀ i th, pool !! i = Some th → ∃ th' δ, pool' !! i = Some th' ∧ th_trace th' = δ ++ th_trace th.

(** A thread keeps to its guarantee; only one that was spawned to run a callback
    may answer for it. *)
Definition thread_ok (pool : list Thread) (th : Thread) : Prop :=
  ∃ t0, (t0 = Ret tt ∨ happened pool (EvSpawn t0)) ∧
    wp (thread_guarantee t0) may_spawn (th_now th) (λ _ _, True) (th_trace th) ∧
    obeys (thread_guarantee t0) may_spawn (th_trace th).

(** An id is drawn by one thread, once. *)
Definition ids_unique (pool : list Thread) : Prop :=
  ∀ i j th th' id a b a' b',
    pool !! i = Some th → th_trace th = a ++ EvFresh id :: b →
    pool !! j = Some th' → th_trace th' = a' ++ EvFresh id :: b' →
    i = j ∧ a = a' ∧ b = b'.

(** The verdicts and the validation packages of a state were all reduced. *)
Definition verdicts_sent (reduced : list (ActionWrapper Json)) (s : State) : Prop :=
  (∀ key r, validation_results (s_nucleus s) !! key = Some r →
    ∃ aw, aw ∈ reduced ∧ aw_action aw = AReturnValidationResult key r) ∧
  (∀ id r, validation_packages (s_nucleus s) !! id = Some r →
    ∃ aw, aw ∈ reduced ∧ aw_action aw = AReturnValidationPackage id r).

Record node_inv (n : Node) : Prop := {
  inv_threads i th : nd_pool n !! i = Some th → thread_ok (nd_pool n) th;
  inv_next id : happened (nd_pool n) (EvFresh id) → (id < nd_next n)%nat;
  inv_ids : ids_unique (nd_pool n);
  inv_sent aw : aw ∈ nd_channel n ++ nd_reduced n → happened (nd_pool n) (EvDispatch aw);
  inv_state : verdicts_sent (nd_reduced n) (nd_state n);
  inv_seen w s : happened (nd_pool n) (EvState (Some (w, s))) → verdicts_sent (nd_reduced n) s;
}.

Lemma happened_grows pool pool' ev : grows pool pool' → happened pool ev → happened pool' ev.
Proof.
  intros Hg (i & th & Hi & Hin). destruct (Hg i th Hi) as (th' & δ & Hi' & E).
  exists i, th'. split; [done|]. rewrite E. apply elem_of_app. by right.
Qed.

Lemma thread_ok_grows pool pool' th : grows pool pool' → thread_ok pool th → thread_ok pool' th.
Proof.
  intros Hg (t0 & [->|Ht] & H); exists t0 || exists (Ret tt); split; auto.
  right. by eapply happened_grows.
Qed.

Lemma grows_insert pool i τ p ev q :
  pool !! i = Some (MkThread τ p) → grows pool (<[i := MkThread (ev ++ τ) q]> pool).
Proof.
  intros Hi j th Hj. destruct (decide (i = j)) as [->|Hne].
  - exists (MkThread (ev ++ τ) q), ev. rewrite Hi in Hj. injection Hj as <-.
    split; [|done]. apply list_lookup_insert_eq. by eapply lookup_lt_Some.
  - exists th, []. by rewrite list_lookup_insert_ne.
Qed.

Lemma grows_app pool pool' : grows pool (pool ++ pool').
Proof. intros i th Hi. exists th, []. split; [by apply lookup_app_l_Some|done]. Qed.

Lemma grows_trans p1 p2 p3 : grows p1 p2 → grows p2 p3 → grows p1 p3.
Proof.
  intros H1 H2 i th Hi. destruct (H1 i th Hi) as (th' & δ & Hi' & E).
  destruct (H2 i th' Hi') as (th2 & δ2 & Hi2 & E2). exists th2, (δ2 ++ δ).
  split; [done|]. by rewrite E2, E, app_assoc.
Qed.

Lemma verdicts_mono l l' s : l ⊆ l' → verdicts_sent l s → verdicts_sent l' s.
Proof.
  intros Hl [Hv Hp]. split; [intros key r (aw & ? & ?)%Hv|intros id r (aw & ? & ?)%Hp]; exists aw; auto.
Qed.

Lemma happened_insert pool i τ p ev q ev' :
  pool !! i = Some (MkThread τ p) →
  happened (<[i := MkThread (ev :: τ) q]> pool) ev' → ev' = ev ∨ happened pool ev'.
Proof.
  intros Hi (j & th & Hj & Hin). apply list_lookup_insert_Some in Hj as [(<- & <- & _)|[Hne Hj]].
  - apply elem_of_cons in Hin as [->|Hin]; [by left|right]. by exists i, (MkThread τ p).
  - right. by exists j, th.
Qed.

Lemma happened_app pool t ev : happened (pool ++ [MkThread [] t]) ev → happened pool ev.
Proof.
  intros (j & th & Hj & Hin). apply lookup_app_Some in Hj as [Hj|[_ Hj]]; [by exists j, th|].
  apply list_lookup_singleton_Some in Hj as [_ <-]. by apply elem_of_nil in Hin.
Qed.

(** A thread that takes a step stays within its guarantee. *)
Lemma thread_ok_step pool i τ p ev q :
  pool !! i = Some (MkThread τ p) → pstep p ev q → thread_ok pool (MkThread τ p) →
  thread_ok (<[i := MkThread (ev :: τ) q]> pool) (MkThread (ev :: τ) q) ∧
  match ev with EvSpawn t => may_spawn τ t | _ => True end.
Proof.
  intros Hi Hstep (t0 & Ht0 & Hwp & Hob).
  assert (grows pool (<[i := MkThread (ev :: τ) q]> pool)) as Hg by exact (grows_insert _ _ _ _ [ev] _ Hi).
  split; [exists t0; split_and!|].
  - destruct Ht0 as [?|Ht0]; [by left|right]. by eapply happened_grows.
  - by eapply wp_step.
  - apply obeys_cons; [|done]. destruct ev; try done; [by eapply wp_dispatch|by eapply wp_spawn].
  - destruct ev; try done. by eapply wp_spawn.
Qed.

Lemma ids_unique_step pool i τ p ev q :
  pool !! i = Some (MkThread τ p) →
  (∀ id, ev = EvFresh id → ¬ happened pool (EvFresh id)) →
  ids_unique pool → ids_unique (<[i := MkThread (ev :: τ) q]> pool).
Proof.
  intros Hi Hnew Hu.
  assert (∀ j th id a b, <[i := MkThread (ev :: τ) q]> pool !! j = Some th →
    th_trace th = a ++ EvFresh id :: b →
    j = i ∧ a = [] ∧ b = τ ∧ ev = EvFresh id ∨
    ∃ th0 a0, pool !! j = Some th0 ∧ th_trace th0 = a0 ++ EvFresh id :: b ∧
      a = (if decide (j = i) then [ev] else []) ++ a0) as Hold.
  { intros j th id a b Hj E. apply list_lookup_insert_Some in Hj as [(<- & <- & _)|[Hne Hj]].
    - rewrite decide_True by done. destruct a as [|ev' a0]; simpl in E; injection E as E1 E2.
      + left. by subst.
      + right. exists (MkThread τ p), a0. subst. done.
    - rewrite decide_False by done. right. by exists th, a. }
  intros j j' th th' id a b a' b' Hj E Hj' E'.
  destruct (Hold _ _ _ _ _ Hj E) as [(-> & -> & -> & Hev)|(t0 & a0 & Ht & Et & ->)];
  destruct (Hold _ _ _ _ _ Hj' E') as [(-> & -> & -> & Hev')|(t1 & a1 & Ht' & Et' & ->)].
  - done.
  - exfalso. apply (Hnew _ Hev). exists j', t1. split; [done|]. rewrite Et'. set_solver.
  - exfalso. apply (Hnew _ Hev'). exists j, t0. split; [done|]. rewrite Et. set_solver.
  - destruct (Hu _ _ _ _ _ _ _ _ _ Ht Et Ht' Et') as (-> & -> & ->). done.
Qed.

Lemma ids_unique_app pool t : ids_unique pool → ids_unique (pool ++ [MkThread [] t]).
Proof.
  intros Hu.
  assert (∀ j th id a b, (pool ++ [MkThread [] t]) !! j = Some th →
    th_trace th = a ++ EvFresh id :: b → pool !! j = Some th) as Hold.
  { intros j th id a b Hj E. apply lookup_app_Some in Hj as [Hj|[_ Hj]]; [done|].
    apply list_lookup_singleton_Some in Hj as [_ <-]. by destruct a. }
  intros j j' th th' id a b a' b' Hj E Hj' E'. eapply Hu; eauto.
Qed.

(** What a node has to add to the invariant of the node before it. *)
Lemma inv_extend n n' :
  node_inv n → grows (nd_pool n) (nd_pool n') →
  (∀ i th, nd_pool n' !! i = Some th →
     nd_pool n !! i = Some th ∨ thread_ok (nd_pool n') th) →
  (∀ id, happened (nd_pool n') (EvFresh id) →
     happened (nd_pool n) (EvFresh id) ∨ (id < nd_next n')%nat) →
  (nd_next n ≤ nd_next n')%nat → ids_unique (nd_pool n') →
  (∀ aw, aw ∈ nd_channel n' ++ nd_reduced n' →
     aw ∈ nd_channel n ++ nd_reduced n ∨ happened (nd_pool n') (EvDispatch aw)) →
  nd_reduced n ⊆ nd_reduced n' → verdicts_sent (nd_reduced n') (nd_state n') →
  (∀ w s, happened (nd_pool n') (EvState (Some (w, s))) →
     happened (nd_pool n) (EvState (Some (w, s))) ∨ s = nd_state n) →
  node_inv n'.
Proof.
  intros Hn Hg Hth Hfresh Hnext Hids Hsent Hred Hst Hseen. split.
  - intros i th Hi. destruct (Hth i th Hi) as [Hi'|?]; [|done].
    eapply thread_ok_grows; [exact Hg|]. by eapply inv_threads.
  - intros id [H|?]%Hfresh; [|done]. pose proof (inv_next _ Hn _ H). lia.
  - done.
  - intros aw [H|?]%Hsent; [|done]. eapply happened_grows; [exact Hg|]. by apply inv_sent.
  - done.
  - intros w s [H| ->]%Hseen; (eapply verdicts_mono; [exact Hred|]);
      [by eapply inv_seen|by apply inv_state].
Qed.

Lemma inv_start n t :
  node_inv n → thread_ok (nd_pool n ++ [MkThread [] t]) (MkThread [] t) →
  node_inv (with_pool n (nd_pool n ++ [MkThread [] t])).
Proof.
  intros Hn Ht. apply (inv_extend n); simpl; auto.
  - apply grows_app.
  - intros i th Hi. apply lookup_app_Some in Hi as [Hi|[_ Hi]]; [by left|right].
    by apply list_lookup_singleton_Some in Hi as [_ <-].
  - intros id H%happened_app. by left.
  - by apply ids_unique_app, inv_ids.
  - by apply inv_state.
  - intros w s H%happened_app. by left.
Qed.

Lemma nucleus_verdicts (aw : ActionWrapper Json) s key r :
  validation_results (nucleus_reduce s aw) !! key = Some r →
  validation_results s !! key = Some r ∨ aw_action aw = AReturnValidationResult key r.
Proof.
  unfold nucleus_reduce. destruct (aw_action aw) eqn:Ha; try by left.
  - unfold reduce_initialize_chain. destruct (status s); by left.
  - unfold reduce_return_initialization_result. repeat case_match; by left.
  - simpl. destruct (decide (key0 = key)) as [->|Hne].
    + rewrite lookup_insert_eq. intros [= ->]. by right.
    + rewrite lookup_insert_ne by done. by left.
Qed.

Lemma nucleus_packages (aw : ActionWrapper Json) s id r :
  validation_packages (nucleus_reduce s aw) !! id = Some r →
  validation_packages s !! id = Some r ∨ aw_action aw = AReturnValidationPackage id r.
Proof.
  unfold nucleus_reduce. destruct (aw_action aw) eqn:Ha; try by left.
  - unfold reduce_initialize_chain. destruct (status s); by left.
  - unfold reduce_return_initialization_result. repeat case_match; by left.
  - simpl. destruct (decide (id0 = id)) as [->|Hne].
    + rewrite lookup_insert_eq. intros [= ->]. by right.
    + rewrite lookup_insert_ne by done. by left.
Qed.

Lemma reduce_nucleus uid s aw w w' s' :
  state_reduce clock sign iso8601 uid s aw w = Done (w', s') →
  s_nucleus s' = nucleus_reduce (s_nucleus s) aw.
Proof.
  unfold state_reduce. destruct (agent_reduce _ _ _ _ _ _) as [[w1 ag]|]; [|done]. simpl.
  destruct (Dht.reduce _ _ _ _) as [[w2 dh]|]; [|done]. simpl.
  destruct (network_reduce _ _ _ _ _) as [nt|]; [|done]. simpl. by intros [= _ <-].
Qed.

Lemma inv_action n uid left aw channel :
  node_inv n → nd_channel n = aw :: channel → node_inv (process_action uid left aw channel n).
Proof.
  intros Hn Hch. unfold process_action.
  destruct (state_reduce _ _ _ _ _ _ _) as [[w s]|why] eqn:Hr; apply (inv_extend n); simpl; auto.
  - intros i th Hi. exists th, []. done.
  - by apply inv_ids.
  - intros aw'. rewrite Hch. set_solver.
  - set_solver.
  - destruct (inv_state _ Hn) as [Hv Hp].
    split; intros key r; rewrite (reduce_nucleus _ _ _ _ _ _ Hr); [intros [H|H]%nucleus_verdicts|intros [H|H]%nucleus_packages].
    2,4: exists aw; set_solver.
    + destruct (Hv _ _ H) as (aw' & ? & ?). exists aw'. set_solver.
    + destruct (Hp _ _ H) as (aw' & ? & ?). exists aw'. set_solver.
  - intros i th Hi. exists th, []. done.
  - by apply inv_ids.
  - set_solver.
  - by apply inv_state.
Qed.

(** The threads after a step of thread [i]: that one is fine, the others did not
    change. *)
Lemma stepped_threads pool pool' i τ p ev q :
  pool !! i = Some (MkThread τ p) → pstep p ev q → thread_ok pool (MkThread τ p) →
  grows (<[i := MkThread (ev :: τ) q]> pool) pool' →
  ∀ j th, <[i := MkThread (ev :: τ) q]> pool !! j = Some th →
    pool !! j = Some th ∨ thread_ok pool' th.
Proof.
  intros Hi Hstep Hok Hg j th Hj.
  apply list_lookup_insert_Some in Hj as [(<- & <- & _)|[_ Hj]]; [right|by left].
  destruct (thread_ok_step _ _ _ _ _ _ Hi Hstep Hok) as [H _]. by eapply thread_ok_grows.
Qed.

Lemma effect_frame p ev n n' :
  effect p ev n n' → match ev with EvSpawn _ => False | _ => True end →
  nd_pool n' = nd_pool n ∧ nd_state n' = nd_state n ∧ nd_reduced n' = nd_reduced n ∧
  nd_channel n' = nd_channel n ++ match ev with EvDispatch aw => [aw] | _ => [] end ∧
  nd_next n' = (nd_next n + match ev with EvFresh _ => 1 | _ => 0 end)%nat.
Proof.
  destruct ev; simpl; intros He Hns; try done.
  - destruct He as [_ ->]. rewrite app_nil_r. auto.
  - destruct He as [-> ->]. simpl. by rewrite app_nil_r.
  - destruct He as (_ & _ & ->). simpl. auto.
  - subst. rewrite app_nil_r. auto.
  - destruct He as (_ & w' & _ & ->). simpl. rewrite app_nil_r. auto.
Qed.

(** A step with any event but a spawn. *)
Lemma inv_event n n' i τ p ev q :
  node_inv n → nd_pool n !! i = Some (MkThread τ p) → pstep p ev q →
  match ev with EvSpawn _ => False | _ => True end →
  effect p ev (with_pool n (<[i := MkThread (ev :: τ) q]> (nd_pool n))) n' → node_inv n'.
Proof.
  intros Hn Hi Hstep Hns He. pose proof (inv_threads _ Hn _ _ Hi) as Hok.
  destruct (effect_frame _ _ _ _ He Hns) as (Hp & Hst & Hre & Hch & Hne). simpl in Hp, Hst, Hre, Hch, Hne.
  assert (happened (nd_pool n') ev) as Hev.
  { rewrite Hp. exists i, (MkThread (ev :: τ) q). split; [|set_solver].
    apply list_lookup_insert_eq. by eapply lookup_lt_Some. }
  apply (inv_extend n); rewrite ?Hst, ?Hre, ?Hch, ?Hne; [done| | | | | | |done|by apply inv_state|].
  - rewrite Hp. exact (grows_insert _ _ _ _ [ev] _ Hi).
  - rewrite Hp. eapply stepped_threads; [done..|]. intros j th Hj. by exists th, [].
  - intros id. rewrite Hp. intros [Hid|?]%(happened_insert _ _ _ _ _ _ _ Hi); [right|by left].
    destruct ev; simplify_eq. destruct He as [-> _]. simpl. lia.
  - lia.
  - rewrite Hp. apply (ids_unique_step _ _ _ p); [done| |by apply inv_ids].
    intros id -> Hh. apply (inv_next _ Hn) in Hh. destruct He as [E _]. simpl in E. lia.
  - intros aw [[Haw|Haw]%elem_of_app|Haw]%elem_of_app; [set_solver| |set_solver].
    destruct ev; try by apply elem_of_nil in Haw. apply list_elem_of_singleton in Haw as ->. by right.
  - intros w s. rewrite Hp. intros [Hs|?]%(happened_insert _ _ _ _ _ _ _ Hi); [right|by left].
    destruct ev; simplify_eq. destruct He as [E _]. by injection E.
Qed.

Lemma inv_spawn n i τ p t q :
  node_inv n → nd_pool n !! i = Some (MkThread τ p) → pstep p (EvSpawn t) q →
  node_inv (with_pool n (<[i := MkThread (EvSpawn t :: τ) q]> (nd_pool n) ++ [MkThread [] t])).
Proof.
  intros Hn Hi Hstep. pose proof (inv_threads _ Hn _ _ Hi) as Hok.
  set (n1 := with_pool n (<[i := MkThread (EvSpawn t :: τ) q]> (nd_pool n))).
  assert (grows (nd_pool n) (nd_pool n1)) as Hg by exact (grows_insert _ _ _ _ [EvSpawn t] _ Hi).
  assert (node_inv n1) as Hn1.
  { apply (inv_extend n); simpl; auto.
    - eapply stepped_threads; [done..|]. intros j th Hj. by exists th, [].
    - intros id [[=]|?]%(happened_insert _ _ _ _ _ _ _ Hi). by left.
    - apply (ids_unique_step _ _ _ p); [done|by intros|by apply inv_ids].
    - by apply inv_state.
    - intros w s [[=]|?]%(happened_insert _ _ _ _ _ _ _ Hi). by left. }
  apply (inv_start n1); [done|].
  destruct (thread_ok_step _ _ _ _ _ _ Hi Hstep Hok) as [_ Hs].
  apply may_spawn_guarantee in Hs as [Hs|(id & a & call & τ' & _ & ->)].
  - exists (Ret tt). split_and!; [by left|done|apply obeys_nil].
  - exists (validation_thread (id, a) call). split_and!; [right|apply wp_validation_thread|apply obeys_nil].
    eapply happened_grows; [apply grows_app|]. exists i, (MkThread (EvSpawn (validation_thread (id, a) call) :: τ) q). split.
    + apply list_lookup_insert_eq. by eapply lookup_lt_Some.
    + by left.
Qed.

Lemma inv_disconnected n i τ aw k why :
  node_inv n → nd_pool n !! i = Some (MkThread τ (Dispatch aw k)) →
  node_inv (with_pool n (<[i := MkThread τ (Panic why)]> (nd_pool n))).
Proof.
  intros Hn Hi. set (pool' := <[i := MkThread τ (Panic why)]> (nd_pool n)).
  assert (grows (nd_pool n) pool') as Hg by exact (grows_insert _ _ _ _ [] _ Hi).
  assert (∀ j th, pool' !! j = Some th → ∃ th0, nd_pool n !! j = Some th0 ∧
    th_trace th0 = th_trace th) as Hold.
  { intros j th Hj. apply list_lookup_insert_Some in Hj as [(<- & <- & _)|[_ Hj]]; eauto. }
  assert (∀ ev, happened pool' ev → happened (nd_pool n) ev) as Hh.
  { intros ev (j & th & Hj & Hin). destruct (Hold j th Hj) as (th0 & Hj0 & E).
    exists j, th0. by rewrite E. }
  apply (inv_extend n); simpl; auto.
  - intros j th Hj. apply list_lookup_insert_Some in Hj as [(<- & <- & _)|[_ Hj]]; [right|by left].
    destruct (inv_threads _ Hn _ _ Hi) as (t0 & Ht0 & _ & Hob). exists t0. split_and!; [|done..].
    destruct Ht0 as [?|?]; [by left|right]. by eapply happened_grows.
  - intros j j' th th' id a b a' b' Hj E Hj' E'.
    destruct (Hold _ _ Hj) as (t & Ht & Et). destruct (Hold _ _ Hj') as (t' & Ht' & Et').
    eapply (inv_ids _ Hn); [exact Ht| |exact Ht'|]; [by rewrite Et|by rewrite Et'].
  - by apply inv_state.
Qed.

Lemma inv_reachable n : reachable n → node_inv n.
Proof.
  induction 1 as [w s next Hs Hs'|n n' _ Hn Hstep].
  - assert (∀ ev, ¬ happened [] ev) as Hno by (intros ev (i & th & Hi & _); by rewrite lookup_nil in Hi).
    split; simpl.
    + intros [|i] th; discriminate.
    + intros id H. by apply Hno in H.
    + intros [|i] j th th' id a b a' b'; discriminate.
    + intros aw Haw. by apply elem_of_nil in Haw.
    + split; intros key r Hk; [by rewrite Hs, lookup_empty in Hk|by rewrite Hs', lookup_empty in Hk].
    + intros w' s' H. by apply Hno in H.
  - destruct Hstep as [n n' i τ p ev q Hi Hp He|n i τ aw k Hi _|n uid left aw ch _ Hch|n t Ht].
    + destruct ev as [| | | |t|]; try by eapply inv_event. simpl in He. subst.
      exact (inv_spawn _ _ _ _ _ _ Hn Hi Hp).
    + by eapply inv_disconnected.
    + by apply inv_action.
    + apply inv_start; [done|]. exists (Ret tt). split_and!; [by left| |apply obeys_nil].
      by eapply wp_root.
Qed.

(** ** Callbacks *)

(** Some thread ran the callback, and it returned null. *)
Definition ran (n : Node) (call : CallbackFnCall) : Prop :=
  happened (nd_pool n) (EvDna (WcCallback call) (Ok "null")).

(** A spawned callback runs under an id that its parent drew right before. *)
Lemma spawned_callback n i th key call :
  node_inv n → nd_pool n !! i = Some th → EvSpawn (validation_thread key call) ∈ th_trace th →
  ∃ a b, th_trace th = a ++ EvSpawn (validation_thread key call) :: EvFresh key.1 :: b.
Proof.
  intros Hn Hi Hin. destruct (inv_threads _ Hn _ _ Hi) as (t0 & _ & _ & Hob).
  destruct (obeys_spawn _ _ _ _ Hob Hin) as (τ1 & τ2 & E & Hs).
  apply may_spawn_guarantee in Hs as [Hs|(id & a & call' & τ' & -> & Ht)].
  - by apply validation_thread_own in Hs.
  - apply validation_thread_inj in Ht as [-> _]. by exists τ2, τ'.
Qed.

(** A success that a thread saw for its callback is that callback's success. *)
Lemma accepted_ran n i th τ1 τ2 call :
  node_inv n → nd_pool n !! i = Some th → th_trace th = τ2 ++ τ1 → accepted τ1 call → ran n call.
Proof.
  intros Hn Hi Hth (key & w & s & Hspawn & Hstate & Hres).
  assert (∀ ev, ev ∈ τ1 → ev ∈ th_trace th) as Hsub.
  { intros ev Hev. rewrite Hth. apply elem_of_app. by right. }
  assert (happened (nd_pool n) (EvState (Some (w, s)))) as Hst by (exists i, th; auto).
  destruct (proj1 (inv_seen _ Hn _ _ Hst) _ _ Hres) as (aw & Haw & Ha).
  destruct (inv_sent _ Hn aw) as (j & th2 & Hj & Hd); [apply elem_of_app; by right|].
  destruct (inv_threads _ Hn _ _ Hj) as (t0 & Ht0 & _ & Hob).
  destruct (obeys_dispatch _ _ _ _ Hob Hd) as (τ3 & τ4 & E2 & _ & Hg). rewrite Ha in Hg.
  destruct Hg as (call2 & res & -> & Hdna & Hv). symmetry in Hv. apply verdict_null in Hv as ->.
  destruct Ht0 as [Ht0|(k & th3 & Hk & Hsp)]; [discriminate Ht0|].
  destruct (spawned_callback _ _ _ _ _ Hn Hk Hsp) as (a3 & b3 & E3).
  destruct (spawned_callback _ _ _ _ _ Hn Hi (Hsub _ Hspawn)) as (a1 & b1 & E1).
  assert (call2 = call) as ->.
  { destruct (inv_ids _ Hn k i th3 th key.1 (a3 ++ [EvSpawn (validation_thread key call2)]) b3
      (a1 ++ [EvSpawn (validation_thread key call)]) b1) as (_ & Ea & _);
      [done|by rewrite <-app_assoc|done|by rewrite <-app_assoc|].
    by apply app_inj_tail in Ea as [_ [= Ev]]. }
  exists j, th2. split; [done|]. rewrite E2. apply elem_of_app. right. by right.
Qed.

(** ** Nothing without validation *)
(** Some thread built the package, from what the DNA lets it take from the chain. *)
Definition built (n : Node) (p : ValidationPackage) : Prop :=
  ∃ i th τ1 τ2, nd_pool n !! i = Some th ∧ th_trace th = τ2 ++ τ1 ∧ shareable τ1 p.

Lemma packaged_built n i th τ1 τ2 p :
  node_inv n → nd_pool n !! i = Some th → th_trace th = τ2 ++ τ1 → packaged τ1 p → built n p.
Proof.
  intros Hn Hi Hth (id & w & s & Hstate & Hp).
  assert (happened (nd_pool n) (EvState (Some (w, s)))) as Hst.
  { exists i, th. split; [done|]. rewrite Hth. apply elem_of_app. by right. }
  destruct (proj2 (inv_seen _ Hn _ _ Hst) _ _ Hp) as (aw & Haw & Ha).
  destruct (inv_sent _ Hn aw) as (j & th2 & Hj & Hd); [apply elem_of_app; by right|].
  destruct (inv_threads _ Hn _ _ Hj) as (t0 & _ & _ & Hob).
  destruct (obeys_dispatch _ _ _ _ Hob Hd) as (τ3 & τ4 & E2 & Hg & _). rewrite Ha in Hg.
  exists j, th2, τ3, (τ4 ++ [EvDispatch aw]). split_and!; [done| |done]. by rewrite <-app_assoc.
Qed.

Lemma guarantee_mono (passed passed' : CallbackFnCall → Prop) (packages packages' : ValidationPackage → Prop)
    (τ : trace) (a : Action Json) :
  (∀ call, passed call → passed' call) → (∀ p, packages p → packages' p) →
  guarantee passed packages τ a → guarantee passed' packages' τ a.
Proof.
  intros Hp Hb.
  assert (∀ e l d, valid_entry (sees_dna τ) passed e l d → valid_entry (sees_dna τ) passed' e l d)
    as Hv by (intros e l d; by apply valid_entry_mono).
  destruct a; simpl; unfold justified; try done; try (by repeat case_match; auto); naive_solver.
Qed.

(** C1: in every interleaving of the threads of a node, those that run wasm code and
    what it calls included, each action that the action loop has reduced was sent by
    a thread that had seen what the action needs: to hold an entry, to add or remove a
    link, to update or delete an entry or to commit anything but the initial entries
    and capability tokens, a package delivered by the
    source (or built from the own chain), a header with the entry's address signed
    by every provenance, and a validation callback of the DNA that ran and returned
    null for this entry; to publish an entry or to answer the request of another node for
    it, an entry type that the DNA shares; to hand out a validation package, one that a
    thread of the node built, whose entries are entries of the own chain of types that the
    DNA shares and whose headers are those of the own chain; and to drop a pending
    validation, its outcome. *)
Theorem nothing_without_validation n aw :
  reachable n → aw ∈ nd_channel n ++ nd_reduced n →
  ∃ i th τ1 τ2, nd_pool n !! i = Some th ∧ th_trace th = τ2 ++ EvDispatch aw :: τ1 ∧
    guarantee (ran n) (built n) τ1 (aw_action aw).
Proof.
  intros Hn%inv_reachable Haw. destruct (inv_sent _ Hn _ Haw) as (i & th & Hi & Hin).
  destruct (inv_threads _ Hn _ _ Hi) as (t0 & _ & _ & Hob).
  destruct (obeys_dispatch _ _ _ _ Hob Hin) as (τ1 & τ2 & E & [Hg _]).
  exists i, th, τ1, τ2. split_and!; [done..|]. eapply guarantee_mono; [| |exact Hg].
  - intros call. apply (accepted_ran _ i th τ1 (τ2 ++ [EvDispatch aw])); [done..|]. by rewrite <-app_assoc.
  - intros p. apply (packaged_built _ i th τ1 (τ2 ++ [EvDispatch aw])); [done..|]. by rewrite <-app_assoc.
Qed.

(** What a thread saw was the state of the node at some time. *)
Lemma observed_states n v :
  reachable n → happened (nd_pool n) (EvState v) →
  ∃ n0, reachable n0 ∧ rtc step n0 n ∧ v = Some (nd_world n0, nd_state n0).
Proof.
  induction 1 as [w s next Hs Hs'|n n' Hr IH Hstep].
  { intros ([|i] & th & Hi & _); discriminate. }
  intros Hh. assert (happened (nd_pool n) (EvState v) ∨ v = Some (nd_world n, nd_state n)) as [H| ->].
  - destruct Hstep as [n n' i τ p ev q Hi Hp He|n i τ aw k Hi _|n uid left aw ch _ Hch|n t Ht].
    + destruct ev as [v'| | | |t|].
      5: { simpl in He. subst. apply happened_app in Hh.
           apply (happened_insert _ _ _ _ _ _ _ Hi) in Hh as [[=]|?]. by left. }
      all: destruct (effect_frame _ _ _ _ He) as (Hpool & _); [done|]; rewrite Hpool in Hh.
      all: apply (happened_insert _ _ _ _ _ _ _ Hi) in Hh as [Hev|?]; [|by left]; simplify_eq.
      destruct He as [E _]. by right.
    + left. destruct Hh as (j & th & Hj & Hin).
      apply list_lookup_insert_Some in Hj as [(<- & <- & _)|[_ Hj]]; eexists _, _; eauto.
    + left. unfold process_action in Hh. by destruct (state_reduce _ _ _ _ _ _ _) as [[]|].
    + left. by apply happened_app in Hh.
  - destruct (IH H) as (n0 & H1 & H2 & H3). exists n0. split_and!; [done| |done].
    by eapply rtc_r.
  - exists n. split_and!; [done| |done]. by apply rtc_once.
Qed.
End machine.

(** ** A run: a node stores an entry that another agent published *)
Module Demo.
#[local] Existing Instance plain_wire.
#[local] Existing Instance plain_payloads.
#[local] Existing Instance open_network.
#[local] Existing Instance plain_crypto.
#[local] Existing Instance plain_callback_text.
Import ChainFacts.Demo.

Definition blog : Dna :=
  MkDna "blog" "" "" "" "2.0" "{}"
    [("posts", MkZome "" [(EntryType.App "post", MkEntryTypeDef "" SharingPublic [] [])] [] [] [] [])].

Definition state : State (list (JsonProtocol PlainJson)) :=
  MkState (MkNucleusState (NsInitialized (MkInitialization None None)) ∅ (Some blog) ∅ ∅ ∅)
    (agent_new 0 "HcAlice") (dht_new 0) (NetworkFacts.Demo.ready "HcAlice") ∅.

Definition post_header : ChainHeader :=
  MkHeader (EntryType.App "post") (address post)
    [MkProvenance "HcBob" ("HcBob signed " +:+ address post)] None None None "1".
Definition published : EntryWithHeader := MkEntryWithHeader post post_header.

(** Bob publishes; Alice asks for the package, gets it, runs the callback and holds. *)
Definition schedule : list (choice (Json := PlainJson)) :=
  [Receive "dna" (HandleStoreEntry (MkEntryData "dna" "HcBob" (address post) (JEwh published)));
   Go 0 (Ok ""); Go 1 (Ok ""); Go 1 (Ok ""); Reduce "request";
   Receive "dna" (SendMessageResult (MkMessageData "dna" "request" "HcAlice" "HcBob"
     (JMessage (DmValidationPackage (Some (only_header post_header))))));
   Go 2 (Ok ""); Go 2 (Ok ""); Go 2 (Ok ""); Go 2 (Ok ""); Go 2 (Ok ""); Reduce ""; Reduce "";
   Go 1 (Ok ""); Go 1 (Ok ""); Go 1 (Ok ""); Go 1 (Ok "");
   Go 3 (Ok "null"); Go 3 (Ok ""); Go 3 (Ok ""); Reduce "";
   Go 1 (Ok ""); Go 1 (Ok ""); Go 1 (Ok ""); Reduce ""; Go 1 (Ok "")].

Definition run (cs : list choice) :=
  execute clock sign iso8601 pretty 10 (λ _, "") agent (node_of world state 0) cs.
Definition holds (aw : ActionWrapper PlainJson) : bool :=
  match aw_action aw with AHold e => bool_decide (e = published) | _ => false end.

Lemma schedule_holds :
  match run schedule with Some n => existsb holds (nd_reduced n) | None => false end = true.
Proof. vm_compute. reflexivity. Qed.

Lemma nothing_without_validation_witness :
  ∃ n aw i th τ1 τ2, run schedule = Some n ∧ aw ∈ nd_reduced n ∧ aw_action aw = AHold published ∧
    nd_pool n !! i = Some th ∧ th_trace th = τ2 ++ EvDispatch aw :: τ1 ∧
    guarantee (ran n) (built n) τ1 (AHold published).
Proof.
  pose proof schedule_holds as H. destruct (run schedule) as [n|] eqn:E; [|discriminate H].
  apply existsb_exists in H as (aw & Hin & Ha). unfold holds in Ha.
  destruct (aw_action aw) eqn:Haw; try discriminate Ha. apply bool_decide_eq_true in Ha as ->.
  apply list_elem_of_In in Hin.
  destruct (nothing_without_validation (crypto := plain_crypto) clock sign iso8601 pretty 10
    (λ _, "") (λ _, 0) (λ _, "") agent "" n aw) as (i & th & τ1 & τ2 & Hi & Ht & Hg).
  - revert E. unfold run. apply execute_reachable. apply reach_init; reflexivity.
  - apply elem_of_app. right. exact Hin.
  - rewrite Haw in Hg. exists n, aw, i, th, τ1, τ2. split_and!; [reflexivity|assumption..].
Defined.
End Demo.
