(* ===== verification/LookupFacts.v ===== *)
(** * What a lookup returns

    On entries that the node's own shard holds: the entry asked for, the latest
    version, or all of them, by following the update links; and a pair of updates
    that point at each other, on which the lookup never returns. *)
From S2P Require Import Prelude Errors Strings Time Eav Entries Cas Protocol Actions Dht Chain Network Nucleus State Workflow Lookup ChainFacts NetworkFacts StateFacts.

Section lookups.
Context {wire : Wire} {Json Net : Type}.
Context {C : Type} `{!ContentAddressableStorage C}.
Context {S : Type} `{!EavStorage S}.
Context (id_text : nat → string).
Abbreviation World := (@World C S).
Abbreviation Prog := (Prog Json Net C S).
Abbreviation State := (State Net).

(** What the node itself knows about an address. *)
Definition local_entry (w : World) (s : State) (a : Address) (e : EntryWithMetaAndHeader) : Prop :=
  get_entry_from_dht (s_dht s) w a = Ok (Some (ewm_entry (ewmh_entry_with_meta e))) ∧
  get_entry_crud_meta_from_dht w a =
    Done (Ok (Some (ewm_crud_status (ewmh_entry_with_meta e),
                    ewm_maybe_link_update_delete (ewmh_entry_with_meta e)))) ∧
  state_get_headers s w a = Done (Ok (ewmh_headers e)).

(** Where the lookup goes on from an entry. *)
Definition next_version (e : EntryWithMetaAndHeader) : option Address :=
  let ewm := ewmh_entry_with_meta e in
  if decide (ewm_crud_status ewm = CrudStatus.Deleted) then None
  else ewm_maybe_link_update_delete ewm.

(** The versions of an entry, from an address to the latest. *)
Inductive versions (w : World) (s : State) : Address → list EntryWithMetaAndHeader → Prop :=
| versions_last a e :
    local_entry w s a e → next_version e = None → versions w s a [e]
| versions_next a e a' l :
    local_entry w s a e → next_version e = Some a' → versions w s a' l →
    versions w s a (e :: l).

Definition with_headers (options : GetEntryOptions) (e : EntryWithMetaAndHeader) :
    list ChainHeader :=
  if geo_headers options then ewmh_headers e else [].

Definition is_deleted (e : EntryWithMetaAndHeader) : bool :=
  bool_decide (ewm_crud_status (ewmh_entry_with_meta e) = CrudStatus.Deleted).

(** What is shown of a version: its address, type, status and content, and its headers when they
    are asked for. *)
Definition shown (options : GetEntryOptions) (e : EntryWithMetaAndHeader) : GetEntryResultItem :=
  let entry := ewm_entry (ewmh_entry_with_meta e) in
  MkGetEntryResultItem
    (Some (MkEntryResultMeta (address entry) (Entry.entry_type entry) (ewm_crud_status (ewmh_entry_with_meta e))))
    (Some entry) (with_headers options e).
Definition nothing_shown : GetEntryResultItem := MkGetEntryResultItem None None [].

(** From the address of every version to what updates or deletes it. *)
Definition link_of (e : EntryWithMetaAndHeader) : option (Address * Address) :=
  pair (address (ewm_entry (ewmh_entry_with_meta e))) <$> ewm_maybe_link_update_delete (ewmh_entry_with_meta e).
Definition links_of (l : list EntryWithMetaAndHeader) : gmap Address Address :=
  list_to_map (reverse (omap link_of l)).

(** The first version, the latest unless it is deleted, or all of them in order. *)
Definition lookup_result (options : GetEntryOptions) (l : list EntryWithMetaAndHeader) : GetEntryResult :=
  match geo_status_request options with
  | SrkInitial => GerSingle (default nothing_shown (shown options <$> head l))
  | SrkLatest =>
      GerSingle match last l with
                | Some e => if is_deleted e then nothing_shown else shown options e
                | None => nothing_shown
                end
  | SrkAll => GerAll (MkEntryHistory (shown options <$> l) (links_of l))
  end.

Lemma observe_local w s a e timeout :
  local_entry w s a e →
  observe (Some (w, s)) (get_entry_with_meta_workflow id_text a timeout : Prog _) =
    Some (Done (Ok (Some e))).
Proof.
  intros (H1 & H2 & H3). unfold get_entry_with_meta_workflow, read_entry_with_meta.
  destruct e as [[e st lk] hs]. simpl in *. rewrite H1. simpl. rewrite H2. simpl. by rewrite H3.
Qed.

Lemma get_entry_step w s a e n options r :
  local_entry w s a e →
  observe (Some (w, s)) (get_entry_loop id_text (Datatypes.S n) options r a : Prog _) =
  let r' := result_push r (ewmh_entry_with_meta e) (with_headers options e) in
  if decide (geo_status_request options = SrkLatest ∧ is_deleted e = true)
  then Some (Done (Ok (result_clear r)))
  else if decide (geo_status_request options = SrkInitial) then Some (Done (Ok r'))
  else match next_version e with
       | Some a' => observe (Some (w, s)) (get_entry_loop id_text n options r' a' : Prog _)
       | None => Some (Done (Ok r'))
       end.
Proof.
  intros Hl. cbn [get_entry_loop]. unfold mbind, workflow_bind at 1.
  rewrite observe_bind, (observe_local _ _ _ _ _ Hl). unfold is_deleted, next_version, with_headers.
  destruct (decide (ewm_crud_status (ewmh_entry_with_meta e) = CrudStatus.Deleted)) as [Hd|Hd].
  - rewrite (bool_decide_true _ Hd). repeat (case_decide; try done); try tauto.
    by destruct (ewm_maybe_link_update_delete _); repeat case_decide.
  - rewrite (bool_decide_false _ Hd). repeat (case_decide; try done); try by exfalso; intuition congruence.
    by destruct (ewm_maybe_link_update_delete _); repeat case_decide.
Qed.

(** What the loop holds after the versions before [l]. *)
Definition so_far (options : GetEntryOptions) (before : list EntryWithMetaAndHeader) (r : GetEntryResult) : Prop :=
  match geo_status_request options, r with
  | SrkAll, GerAll h => eh_items h = shown options <$> before ∧ eh_crud_links h = links_of before
  | SrkAll, GerSingle _ | _, GerAll _ => False
  | _, GerSingle _ => True
  end.

Lemma links_of_snoc l e :
  links_of (l ++ [e]) =
  match ewm_maybe_link_update_delete (ewmh_entry_with_meta e) with
  | Some new => <[address (ewm_entry (ewmh_entry_with_meta e)) := new]> (links_of l)
  | None => links_of l
  end.
Proof.
  unfold links_of. rewrite omap_app. simpl. unfold link_of at 2.
  destruct (ewm_maybe_link_update_delete _) as [new|]; simpl; [by rewrite reverse_snoc|by rewrite app_nil_r].
Qed.

Lemma so_far_push options before r e :
  so_far options before r →
  so_far options (before ++ [e]) (result_push r (ewmh_entry_with_meta e) (with_headers options e)).
Proof.
  unfold so_far, result_push, history_push. destruct (geo_status_request options), r as [item|h]; try done.
  intros [Hi Hl]. simpl. rewrite Hi, Hl, fmap_app, links_of_snoc. done.
Qed.

(** The last version decides. *)
Lemma so_far_end options before r e :
  so_far options before r → geo_status_request options ≠ SrkInitial →
  (if decide (geo_status_request options = SrkLatest ∧ is_deleted e = true) then result_clear r
   else result_push r (ewmh_entry_with_meta e) (with_headers options e)) = lookup_result options (before ++ [e]).
Proof.
  intros Hr Hk. pose proof (so_far_push options before r e Hr) as Hp. unfold so_far, lookup_result in *.
  destruct (geo_status_request options) eqn:Hs; [done| |].
  - rewrite last_snoc. destruct r as [item|h]; [|done]. destruct (is_deleted e) eqn:Hd.
    + by rewrite decide_True.
    + rewrite decide_False by (by intros [_ ?]). done.
  - rewrite decide_False by (by intros [? _]). destruct r as [item|h]; [done|]. simpl in *.
    destruct Hp as [Hi Hl]. unfold history_push in *. simpl in *. by rewrite Hi, Hl.
Qed.

Lemma get_entry_loop_spec w s a l n options before r :
  versions w s a l → (length l ≤ n)%nat → so_far options before r →
  geo_status_request options ≠ SrkInitial →
  observe (Some (w, s)) (get_entry_loop id_text n options r a : Prog _) =
    Some (Done (Ok (lookup_result options (before ++ l)))).
Proof.
  intros Hv. revert n before r.
  induction Hv as [a e Hl Hn|a e a' l Hl Hn Hv IH]; intros n before r Hlen Hr Hk;
    (destruct n as [|n]; [simpl in Hlen; lia|]); rewrite (get_entry_step _ _ _ _ _ _ _ Hl), Hn; cbv zeta;
    rewrite (decide_False (P := geo_status_request options = SrkInitial)) by done.
  - rewrite <- (so_far_end options before r e Hr Hk). by case_decide.
  - assert (is_deleted e = false) as Hd.
    { unfold next_version in Hn. unfold is_deleted. case_decide; [done|]. by apply bool_decide_false. }
    rewrite Hd. rewrite decide_False by (by intros [_ ?]).
    rewrite (IH n (before ++ [e])); [by rewrite <- (assoc_L (++))|simpl in Hlen; lia|by apply so_far_push|done].
Qed.


(** two updates that point at each other: no number of steps is enough for
    the latest version or the history, so the lookup never returns. *)
Theorem update_cycle_never_returns w s a b ea eb args n :
  local_entry w s a ea → next_version ea = Some b →
  local_entry w s b eb → next_version eb = Some a →
  geo_status_request (gea_options args) ≠ SrkInitial → gea_address args = a →
  observe (Some (w, s)) (get_entry_result_workflow id_text n args : Prog _) =
    Some (Panicked "does not return").
Proof.
  intros Ha Na Hb Nb Hk <-. unfold get_entry_result_workflow.
  generalize (result_new (geo_status_request (gea_options args)) None) as r.
  assert (∀ e x, next_version e = Some x → is_deleted e = false) as Hd.
  { intros e x. unfold next_version, is_deleted. case_decide; [done|].
    intros _. by apply bool_decide_false. }
  assert (∀ m, (m ≤ n)%nat → ∀ r,
    observe (Some (w, s)) (get_entry_loop id_text m (gea_options args) r (gea_address args) : Prog _) =
      Some (Panicked "does not return") ∧
    observe (Some (w, s)) (get_entry_loop id_text m (gea_options args) r b : Prog _) =
      Some (Panicked "does not return")) as H; [|by apply H].
  induction m as [|m IH]; intros Hm r; [done|].
  rewrite (get_entry_step _ _ _ _ _ _ _ Ha), (get_entry_step _ _ _ _ _ _ _ Hb), Na, Nb.
  rewrite (Hd _ _ Na), (Hd _ _ Nb). cbv zeta.
  rewrite !(decide_False (P := _ ∧ _)) by intuition congruence. rewrite !decide_False by done.
  split; apply IH; lia.
Qed.
End lookups.

(** ** An author who edits a post, and one who takes the edit back *)
Module Demo.
#[local] Existing Instance plain_wire.
#[local] Existing Instance plain_payloads.
#[local] Existing Instance open_network.
Import ChainFacts.Demo.

Definition draft : Entry.t := Entry.App "post" "draft".
Definition final : Entry.t := Entry.App "post" "final".
Definition start : State (list (JsonProtocol PlainJson)) :=
  state_new (MkContext agent 0 0).

Abbreviation Node := (@World MemoryStorage.t EavMemoryStorage.t *
                      State (list (JsonProtocol PlainJson)))%type.
Fixpoint reduce_all (l : list (ActionWrapper PlainJson)) (ws : Node) : outcome Node :=
  match l with
  | [] => Done ws
  | aw :: l => ws' ← state_reduce StateFacts.Demo.wall sign iso8601 "" ws.2 aw ws.1; reduce_all l ws'
  end.

Definition edit : list (ActionWrapper PlainJson) :=
  [MkActionWrapper (ACommit draft None []) 1;
   MkActionWrapper (ACommit final (Some (address draft)) []) 2;
   MkActionWrapper (AUpdateEntry (address draft) (address final)) 3].
Definition revert : list (ActionWrapper PlainJson) :=
  [MkActionWrapper (ACommit draft (Some (address final)) []) 4;
   MkActionWrapper (AUpdateEntry (address final) (address draft)) 5].
Definition after (l : list (ActionWrapper PlainJson)) : Node :=
  match reduce_all l (world, start) with Done ws => ws | Panicked _ => (world, start) end.

(** what the node knows about an entry *)
Definition version (ws : Node) (e : Entry.t) : EntryWithMetaAndHeader :=
  MkEntryWithMetaAndHeader
    match get_entry_crud_meta_from_dht ws.1 (address e) with
    | Done (Ok (Some (st, lk))) => MkEntryWithMeta e st lk
    | _ => MkEntryWithMeta e CrudStatus.Live None
    end
    match state_get_headers ws.2 ws.1 (address e) with Done (Ok hs) => hs | _ => [] end.

Definition latest : GetEntryArgs := MkGetEntryArgs (address draft) get_entry_options_default.


Lemma update_cycle_never_returns_witness :
  observe (Some ((after (edit ++ revert)).1, (after (edit ++ revert)).2))
    (get_entry_result_workflow pretty 1000 latest : Prog PlainJson _ _ _ _) =
    Some (Panicked "does not return").
Proof.
  refine (update_cycle_never_returns pretty (after (edit ++ revert)).1 (after (edit ++ revert)).2
    (address draft) (address final) (version (after (edit ++ revert)) draft)
    (version (after (edit ++ revert)) final) latest 1000 _ _ _ _ _ _).
  - split_and!; vm_compute; reflexivity.
  - vm_compute. reflexivity.
  - split_and!; vm_compute; reflexivity.
  - vm_compute. reflexivity.
  - discriminate.
  - reflexivity.
Defined.
End Demo.
