(* ===== verification/CallFacts.v ===== *)
(** * Who may call a zome function

    The decision of [validate_call] as one condition, and that a function runs only
    when it was met. *)
From S2P Require Import Prelude Errors Strings Eav Entries Cas Protocol Actions Dht Chain Network Nucleus State ChainFacts NetworkFacts Workflow Lookup Validation Capabilities.

Section calls.
Context {wire : Wire} {Json Net : Type}.
Context {C : Type} `{!ContentAddressableStorage C}.
Context {S : Type} `{!EavStorage S}.
Context {crypto : Crypto} (my_agent : AgentId).
Abbreviation World := (@World C S).
Abbreviation Prog := (Prog Json Net C S).
Abbreviation State := (State Net).

(** The caller signed the name of the function and the parameters. *)
Definition signed (fn_call : ZomeFnCall) : Prop :=
  provenance_verify (cap_provenance (cap fn_call))
    (encode_call_data_for_signing (fn_name fn_call) (parameters fn_call)) = Ok true.

(** The key and the signature of the caller can be read. *)
Definition readable (fn_call : ZomeFnCall) : Prop :=
  ∃ b, provenance_verify (cap_provenance (cap fn_call))
    (encode_call_data_for_signing (fn_name fn_call) (parameters fn_call)) = Ok b.

(** A grant allows the call: it is the one that the token names, lists the function
    and, when it is assigned, the caller. *)
Definition grant_allows (grant : CapTokenGrant) (fn_call : ZomeFnCall) : Prop :=
  (∃ fns, map_get (zome_name fn_call) (functions grant) = Some fns ∧ fn_name fn_call ∈ fns) ∧
  grant_token grant = cap_token (cap fn_call) ∧ signed fn_call ∧
  (cap_type grant = Assigned →
   ∃ l, assignees grant = Some l ∧ source (cap_provenance (cap fn_call)) ∈ l).

Definition granted (w : World) (s : State) (fn_call : ZomeFnCall) : Prop :=
  ∃ grant, get_grant (w, s) (cap_token (cap fn_call)) = Done (Some grant) ∧
    grant_allows grant fn_call.

(** The token is the agent's own key and the signature fits the key that the caller
    names. *)
Definition as_agent (fn_call : ZomeFnCall) : Prop :=
  pub_sign_key my_agent = cap_token (cap fn_call) ∧ signed fn_call.

Lemma verify_call_sig_true fn_call :
  verify_call_sig (cap_provenance (cap fn_call)) (fn_name fn_call) (parameters fn_call) =
    Done true ↔ signed fn_call.
Proof.
  unfold verify_call_sig, signed. destruct (provenance_verify _ _) as [[]|]; simpl; naive_solver.
Qed.

Lemma verify_grant_true grant fn_call :
  verify_grant grant fn_call = Done true ↔ grant_allows grant fn_call.
Proof.
  unfold verify_grant, grant_allows. rewrite <-verify_call_sig_true.
  destruct (map_get _ _) as [fns|]; [|naive_solver].
  destruct (decide (fn_name fn_call ∉ fns)) as [Hf|Hf]; [naive_solver|apply dec_stable in Hf].
  case_decide as Ht; [naive_solver|].
  destruct (verify_call_sig _ _ _) as [[]|] eqn:Hs; simpl; [|naive_solver..].
  destruct (cap_type grant); [naive_solver..|].
  destruct (assignees grant) as [l|]; simpl; [|naive_solver].
  split.
  - intros [= H%bool_decide_eq_true]. naive_solver.
  - intros (_ & _ & _ & H). f_equal. apply bool_decide_eq_true. naive_solver.
Qed.

(** A caller whose signature can be read gets an answer from a grant. *)
Lemma verify_grant_answers grant fn_call :
  readable fn_call → (cap_type grant = Assigned → is_Some (assignees grant)) →
  ∃ b, verify_grant grant fn_call = Done b.
Proof.
  intros [b Hb] Ha. unfold verify_grant, verify_call_sig. rewrite Hb. simpl.
  destruct (map_get _ _) as [fns|]; [|eauto]. case_decide; [eauto|]. case_decide; [eauto|].
  destruct b; [|eauto]. simpl. destruct (cap_type grant); [eauto..|].
  destruct (Ha eq_refl) as [l ->]. simpl. eauto.
Qed.

Lemma observe_computed {A} (v : View Net C S) (o : outcome A) :
  observe v (computed o : Prog A) = Some o.
Proof. by destruct o. Qed.

Lemma observe_check_capability w s fn_call og :
  get_grant (w, s) (cap_token (cap fn_call)) = Done og →
  observe (Some (w, s)) (check_capability fn_call : Prog _) =
    Some match og with Some grant => verify_grant grant fn_call | None => Done false end.
Proof.
  intros Hg. unfold check_capability. rewrite observe_bind. cbn [observe the_state].
  rewrite observe_bind, Hg. destruct og; [apply observe_computed|done].
Qed.

Lemma observe_validate_call w s fn_call b :
  observe (Some (w, s)) (check_capability fn_call : Prog _) = Some (Done b) →
  observe (Some (w, s)) (validate_call my_agent fn_call : Prog _) =
  Some match find_function s fn_call with
       | Err e => Done (Err e)
       | Ok found =>
           signed ← (if b then Done true
                     else if is_token_the_agent my_agent (cap fn_call)
                     then verify_call_sig (cap_provenance (cap fn_call)) (fn_name fn_call)
                            (parameters fn_call)
                     else Done false);
           Done (if (signed : bool) then Ok found else Err CapabilityCheckFailed)
       end.
Proof.
  intros Hb. unfold validate_call, mbind, workflow_bind. rewrite observe_bind. cbn [observe].
  destruct (find_function s fn_call) as [found|e]; [|done]. cbn [observe].
  rewrite observe_bind, Hb. destruct b; [done|]. destruct (is_token_the_agent _ _); [|done].
  rewrite observe_bind, observe_computed. by destruct (verify_call_sig _ _ _) as [[]|].
Qed.

(** C23: a call whose signature can be read is decided by one condition: the DNA
    has the function, and either a grant on the agent's chain under the token allows
    it or the token is the agent's own key and the call is signed.  It is refused
    with an error otherwise. *)
Theorem validate_call_decides w s fn_call og :
  get_grant (w, s) (cap_token (cap fn_call)) = Done og →
  (∀ grant, og = Some grant → cap_type grant = Assigned → is_Some (assignees grant)) →
  readable fn_call →
  ∃ r, observe (Some (w, s)) (validate_call my_agent fn_call : Prog _) = Some (Done r) ∧
    match find_function s fn_call with
    | Err e => r = Err e
    | Ok found => (granted w s fn_call ∨ as_agent fn_call) ∧ r = Ok found ∨
                  ¬ (granted w s fn_call ∨ as_agent fn_call) ∧ r = Err CapabilityCheckFailed
    end.
Proof.
  intros Hg Ha Hr.
  assert (∃ b, observe (Some (w, s)) (check_capability fn_call : Prog _) = Some (Done b) ∧
    (b = true ↔ granted w s fn_call)) as (b & Hc & Hb).
  { rewrite (observe_check_capability _ _ _ _ Hg). unfold granted. rewrite Hg.
    destruct og as [grant|]; [|exists false; naive_solver].
    destruct (verify_grant_answers grant fn_call Hr (Ha _ eq_refl)) as [b Hb].
    exists b. rewrite <-Hb at 1. split; [done|].
    pose proof (verify_grant_true grant fn_call) as Hv. rewrite Hb in Hv. naive_solver. }
  rewrite (observe_validate_call _ _ _ _ Hc).
  destruct (find_function s fn_call) as [found|e]; [|by eexists].
  unfold as_agent, is_token_the_agent. pose proof (verify_call_sig_true fn_call) as Hsig.
  destruct b; [eexists; split; [done|left; naive_solver]|].
  case_bool_decide as Ht; [|eexists; split; [done|right; naive_solver]].
  destruct Hr as [b Hs]. unfold verify_call_sig in *. rewrite Hs in *.
  destruct b; eexists; (split; [done|]); simpl; naive_solver.
Qed.

(** *** Whenever a function runs *)
Abbreviation Event := (@Event Json Net C S).

(** The states that the caller's thread read allowed the call. *)
Definition call_allowed (τ : list Event) (fn_call : ZomeFnCall) : Prop :=
  (∃ w s found, EvState (Some (w, s)) ∈ τ ∧ find_function s fn_call = Ok found) ∧
  ((∃ w s, EvState (Some (w, s)) ∈ τ ∧ granted w s fn_call) ∨ as_agent fn_call).

Lemma wp_validate_call G T fn_call Q :
  (∀ r τ, (∀ found, r = Ok found → call_allowed τ fn_call) → Q r τ) →
  wp G T (validate_call my_agent fn_call : Prog _) Q [].
Proof.
  intros HQ. apply wp_try, wp_getstate. intros [[w s]|]; [|by apply HQ].
  destruct (find_function s fn_call) as [found|e] eqn:Hf; [|by apply HQ].
  apply wp_bind, wp_bind, wp_the_state. intros w' s'. apply wp_bind.
  destruct (get_grant (w', s') _) as [og|] eqn:Hg; [|done].
  set (τ := [EvState (Some (w', s')); EvState (Some (w, s))]).
  assert (∃ w s found, EvState (Some (w, s)) ∈ τ ∧ find_function s fn_call = Ok found) as Hfound.
  { exists w, s, found. split; [in_trace|done]. }
  assert (wp G T (if is_token_the_agent my_agent (cap fn_call)
    then signed <~ computed (verify_call_sig (cap_provenance (cap fn_call)) (fn_name fn_call)
                          (parameters fn_call));
      if (signed : bool) then returns found else fails CapabilityCheckFailed
    else fails CapabilityCheckFailed : Prog _) Q τ) as Hagent.
  { unfold is_token_the_agent. case_bool_decide as Ht; [|by apply HQ]. apply wp_bind.
    destruct (verify_call_sig _ _ _) as [[]|] eqn:Hs; [|by apply HQ|done].
    apply HQ. intros _ _. split; [done|]. right. split; [done|]. by apply verify_call_sig_true. }
  destruct og as [grant|]; [|exact Hagent]. cbn [computed wp].
  destruct (verify_grant grant fn_call) as [[]|] eqn:Hv; [|exact Hagent|done].
  apply HQ. intros _ _. split; [done|]. left. exists w', s'. split; [in_trace|].
  exists grant. split; [done|]. by apply verify_grant_true.
Qed.

(** C2: whatever else happens on the node meanwhile, a thread that runs wasm for a
    call is started only after the states it read allowed the call. *)
Theorem call_runs_only_if_allowed fn_call τ q t :
  runs (call_zome_function my_agent fn_call : Prog _) τ q → EvSpawn t ∈ τ →
  t = zome_call_thread fn_call ∧ call_allowed τ fn_call.
Proof.
  intros Hr Hin.
  assert (wp (λ _ _, True) (λ τ t, t = zome_call_thread fn_call ∧ call_allowed τ fn_call)
    (call_zome_function my_agent fn_call : Prog _) (λ _ _, True) []) as Hwp.
  { apply wp_try, wp_validate_call. intros [found|e] τ' Ha; [|done]. specialize (Ha _ eq_refl).
    simpl. intros id. split; [done|]. split.
    - split; [done|]. destruct Ha as [(w & s & f & H1 & H2) Ha]. split.
      + exists w, s, f. split; [in_trace|done].
      + destruct Ha as [(w' & s' & H3 & H4)|?]; [left|by right]. exists w', s'.
        split; [in_trace|done].
    - intros v. by repeat case_match. }
  destruct (wp_runs _ _ _ _ _ _ Hwp Hr) as [_ Hob].
  destruct (obeys_spawn _ _ _ _ Hob Hin) as (τ1 & τ2 & -> & -> & Ha). split; [done|].
  destruct Ha as [(w & s & f & H1 & H2) Ha].
  assert (∀ ev, ev ∈ τ1 → ev ∈ τ2 ++ EvSpawn (zome_call_thread fn_call) :: τ1) as Hsub.
  { intros ev Hev. apply elem_of_app. right. by right. }
  split; [exists w, s, f; auto|]. destruct Ha as [(w' & s' & H3 & H4)|?]; [left|by right].
  exists w', s'. auto.
Qed.

(** the agent's own key is a token that anyone can use: a caller with any
    other key, who signs with that key, is let in without a grant. *)
Theorem agent_token_for_anyone w s fn_call found :
  source (cap_provenance (cap fn_call)) ≠ pub_sign_key my_agent →
  cap_token (cap fn_call) = pub_sign_key my_agent → signed fn_call →
  get_grant (w, s) (cap_token (cap fn_call)) = Done None →
  find_function s fn_call = Ok found →
  observe (Some (w, s)) (validate_call my_agent fn_call : Prog _) = Some (Done (Ok found)).
Proof.
  intros _ Ht Hs Hg Hf.
  rewrite (observe_validate_call _ _ _ _ (observe_check_capability _ _ _ _ Hg)), Hf.
  unfold is_token_the_agent. rewrite bool_decide_true by done.
  apply verify_call_sig_true in Hs. by rewrite Hs.
Qed.
End calls.

(** ** Mallory calls a function of Alice's node *)
Module Demo.
#[local] Existing Instance plain_wire.
#[local] Existing Instance plain_payloads.
#[local] Existing Instance open_network.
#[local] Existing Instance plain_crypto.
Import ChainFacts.Demo.

Definition blog : Dna :=
  MkDna "blog" "" "" "" "2.0" "{}"
    [("posts", MkZome "" [] [] [MkFnDeclaration "wipe" [] []] [] [])].
Definition node : State (list (JsonProtocol PlainJson)) :=
  MkState (MkNucleusState (NsInitialized (MkInitialization None None)) ∅ (Some blog) ∅ ∅ ∅)
    slice3 (dht_new 0) network_new ∅.
(** Mallory names Alice's public key as the token and signs with an own key. *)
Definition call : ZomeFnCall :=
  MkZomeFnCall 1 "posts" (MkCapabilityRequest "HcAlice"
    (MkProvenance "HcMallory" "HcMallory signed wipe:{}")) "wipe" "{}".

Lemma call_signed : signed call.
Proof. vm_compute. reflexivity. Qed.

Lemma validate_call_decides_witness :
  ∃ r, observe (Some (used, node)) (validate_call agent call : Prog PlainJson _ _ _ _) =
    Some (Done r) ∧ r = Ok ("blog", []).
Proof.
  destruct (validate_call_decides (Json := PlainJson) agent used node call None) as (r & H1 & H2).
  - vm_compute. reflexivity.
  - discriminate.
  - exists true. exact call_signed.
  - exists r. split; [exact H1|]. destruct H2 as [[_ H2]|[H2 _]]; [exact H2|].
    exfalso. apply H2. right. split; [reflexivity|exact call_signed].
Defined.

Lemma agent_token_for_anyone_witness :
  source (cap_provenance (cap call)) ≠ pub_sign_key agent ∧
  observe (Some (used, node)) (validate_call agent call : Prog PlainJson _ _ _ _) =
    Some (Done (Ok ("blog", []))).
Proof.
  split; [discriminate|].
  apply (agent_token_for_anyone (Json := PlainJson) agent used node call).
  - discriminate.
  - reflexivity.
  - exact call_signed.
  - vm_compute. reflexivity.
  - vm_compute. reflexivity.
Defined.

Definition inputs : list (@input (list (JsonProtocol PlainJson)) MemoryStorage.t EavMemoryStorage.t) :=
  [InView (Some (used, node)); InView (Some (used, node)); InId 0; InGo; InGo].
Definition calling : Prog PlainJson (list (JsonProtocol PlainJson)) MemoryStorage.t
    EavMemoryStorage.t _ := call_zome_function agent call.
Definition is_spawn (ev : @Event PlainJson (list (JsonProtocol PlainJson)) MemoryStorage.t
    EavMemoryStorage.t) : bool :=
  match ev with EvSpawn _ => true | _ => false end.

Lemma calling_spawns : existsb is_spawn (feed [] calling inputs).1 = true.
Proof. vm_compute. reflexivity. Qed.

Lemma call_runs_only_if_allowed_witness :
  call_allowed agent (feed [] calling inputs).1 call ∧
  EvSpawn (zome_call_thread call) ∈ (feed [] calling inputs).1.
Proof.
  set (τ := (feed [] calling inputs).1). pose proof calling_spawns as H. fold τ in H.
  apply existsb_exists in H as (ev & Hin%list_elem_of_In & Hev).
  destruct ev as [| | | |t|]; try discriminate Hev.
  destruct (call_runs_only_if_allowed agent call τ _ t
    (feed_runs calling calling [] inputs (runs_nil calling)) Hin) as [E H].
  split; [exact H|]. rewrite <-E. exact Hin.
Defined.
End Demo.
