(* ===== verification/HandlerFacts.v ===== *)
(** * Messages that stop the handler

    The handler trusts the peers: it unwraps what it parses.  Exactly which messages
    for this DNA make it panic on the thread of the network module. *)
From S2P Require Import Prelude Errors Strings Time Eav Entries Cas Protocol Actions Dht Chain ChainFacts Network NetworkFacts Nucleus State Workflow Lookup Validation Workflows Handler.

Section handler.
Context {wire : Wire} {Json Net : Type}.
Context `{!JsonPayloads Json}.
Context {C : Type} `{!ContentAddressableStorage C}.
Context {S : Type} `{!EavStorage S}.
Context {crypto : Crypto} {cbtext : CallbackText}.
Context (clock : nat → Z) (sign : nat → string → HcResult string) (iso8601 : Z → string).
Context (id_text : nat → string) (steps : nat).
Context (debug_callback_result : CallbackResult → string) (my_agent : AgentId).
Abbreviation Prog := (Prog Json Net C S).
Abbreviation handle := (handle clock sign iso8601 id_text steps debug_callback_result my_agent).

(** The payload is an entry with its header. *)
Definition has_entry (j : option Json) : Prop := is_Some (j ≫= ewh_of_json).

(** A store request that the handler cannot read. *)
Definition unreadable (message : JsonProtocol Json) : Prop :=
  match message with
  | HandleStoreEntry d => ¬ has_entry (Some (ed_entry_content d))
  | HandleStoreMeta d =>
      if decide (dm_attribute d = "link" ∨ dm_attribute d = "link_remove") then
        length (dm_content_list d) ≠ 1%nat ∨ ¬ has_entry (head (dm_content_list d))
      else
        match CrudStatus.from_str (dm_attribute d) with
        | Ok CrudStatus.Deleted | Ok CrudStatus.Modified => ¬ has_entry (head (dm_content_list d))
        | Ok _ => False
        | Err _ => True
        end
  | _ => False
  end.

Definition for_dna (message : JsonProtocol Json) : option Address :=
  match message with
  | HandleStoreEntry d => Some (ed_dna_address d)
  | HandleStoreMeta d => Some (dm_dna_address d)
  | _ => None
  end.

Lemma first_content_panics d :
  (∃ why, first_content d = Panicked why) ↔ ¬ has_entry (head (dm_content_list (Json := Json) d)).
Proof.
  unfold first_content, has_entry. destruct (head _) as [j|]; simpl.
  - destruct (ewh_of_json j); simpl; [|naive_solver]. split; [naive_solver|].
    intros H. exfalso. by apply H; eexists.
  - split; [by intros _ []|]. by eexists.
Qed.

Lemma only_content_panics d :
  (∃ why, only_content d = Panicked why) ↔
  length (dm_content_list (Json := Json) d) ≠ 1%nat ∨ ¬ has_entry (head (dm_content_list d)).
Proof.
  unfold only_content. case_decide as Hl; rewrite <-first_content_panics; naive_solver.
Qed.

(** A payload is read, and then a thread takes over. *)
Lemma read_then_panics (o : outcome EntryWithHeader) (f : EntryWithHeader → Prog unit) :
  (∀ e why, f e ≠ Panic why) →
  (∃ why, prog_bind f (computed o) = Panic why) ↔ ∃ why, o = Panicked why.
Proof. intros Hf. destruct o; simpl; naive_solver. Qed.

(** a request to store something for this DNA panics exactly when its payload
    is not what its kind calls for; any peer can send one. *)
Theorem store_request_panics my_dna_address message a :
  for_dna message = Some a →
  (∃ why, (handle my_dna_address message : Prog unit) = Panic why) ↔
  my_dna_address = a ∧ unreadable message.
Proof.
  intros Ha. destruct message; try discriminate Ha; injection Ha as <-;
    simpl; unfold is_my_dna; (case_bool_decide as Hdna; [|naive_solver]).
  - unfold handle_store_entry. rewrite read_then_panics by done. unfold has_entry. simpl.
    destruct (ewh_of_json _); simpl; split; [naive_solver| |intros _; split; [done|by intros []]|eauto].
    intros [_ H]. exfalso. by apply H; eexists.
  - unfold handle_store_meta. change (Attribute_fmt LinkAttr) with "link".
    change (Attribute_fmt LinkRemoveAttr) with "link_remove".
    repeat (case_decide; try tauto).
    + rewrite read_then_panics, only_content_panics by done. tauto.
    + rewrite read_then_panics, only_content_panics by done. tauto.
    + pose proof (first_content_panics d) as Hc.
      destruct (CrudStatus.from_str _) as [[]|]; simpl; try rewrite read_then_panics by done;
        naive_solver.
Qed.
End handler.

(** ** A message from a peer that is no entry *)
Module Demo.
#[local] Existing Instance plain_wire.
#[local] Existing Instance plain_payloads.
#[local] Existing Instance plain_crypto.
#[local] Existing Instance plain_callback_text.
Import ChainFacts.Demo.

Definition junk : JsonProtocol PlainJson :=
  HandleStoreMeta (MkDhtMetaData "dna" "HcMallory" "address" "link" []).

Lemma store_request_panics_witness :
  ∃ why, (handle clock sign iso8601 pretty 10 (λ _, "") agent "dna" junk :
            Prog PlainJson (list (JsonProtocol PlainJson)) MemoryStorage.t EavMemoryStorage.t unit) =
         Panic why.
Proof.
  apply (store_request_panics clock sign iso8601 pretty 10 (λ _, "") agent "dna" junk "dna").
  - reflexivity.
  - split; [reflexivity|]. left. discriminate.
Defined.
End Demo.
