(* ===== verification/Waiter.v ===== *)
(** * Waiting for the effects of a call

    [nodejs_waiter/src/waiter.rs] and the parts of
    [nodejs_conductor/native/src/js_test_conductor.rs] that drive it.  A test registers a
    callback and calls a zome function; the waiter watches the actions the instances report
    and fulfils the callback's promise when the effects of the call have been seen on every
    instance.  Each callback has a task that blocks on a channel of its own: the task ends
    when a message arrives or when the sending end is dropped. *)
From S2P Require Import Prelude Errors Eav Entries Protocol Actions.

(** A [SyncSender<ControlMsg>], by the number of its channel.  A sender is never cloned. *)
Definition ControlSender : Type := nat.

(** The tasks that wait on their channel, and those whose callback has been called. *)
Record Tasks := MkTasks {
  blocked : gset ControlSender;
  fulfilled : gset ControlSender;
}.

(** The end of [CallBlockingTask::perform] and the call of [complete]. *)
Definition fulfil (tx : ControlSender) (t : Tasks) : Tasks :=
  MkTasks (blocked t ∖ {[tx]}) ({[tx]} ∪ fulfilled t).

(** [tx.send(ControlMsg::Stop).unwrap()]: the send fails when the receiver is gone. *)
Definition send_stop (tx : ControlSender) (t : Tasks) : outcome Tasks :=
  if decide (tx ∈ blocked t) then Done (fulfil tx t)
  else Panicked "called `Result::unwrap()` on an `Err` value: SendError".

(** Dropping the only sender of a channel: [recv] fails and the task ends. *)
Definition drop_sender (tx : ControlSender) (t : Tasks) : Tasks :=
  if decide (tx ∈ blocked t) then fulfil tx t else t.

Section waiter.
Context {Json : Type} `{Wire}.

(** [core/src/signal.rs]. *)
Inductive Signal :=
| Trace (aw : ActionWrapper Json)
| User (msg : string).

(** ** Conditions *)
Record CallFxCondition := MkCallFxCondition {
  count : nat;
  predicate : Action Json → bool;
}.

(** [CallFxCondition::run]; the count is a [usize]. *)
Definition cond_run (aw : ActionWrapper Json) (c : CallFxCondition) : outcome CallFxCondition :=
  if predicate c (aw_action aw) then
    match count c with
    | S n => Done (MkCallFxCondition n (predicate c))
    | O => Panicked "attempt to subtract with overflow"
    end
  else Done c.

Definition satisfied (c : CallFxCondition) : bool := bool_decide (count c = 0%nat).

(** ** Checkers *)
Record CallFxChecker := MkCallFxChecker {
  tx : ControlSender;
  conditions : list CallFxCondition;
}.

Definition checker_new (tx : ControlSender) : CallFxChecker := MkCallFxChecker tx [].

Definition checker_add (ch : CallFxChecker) (c : CallFxCondition) : CallFxChecker :=
  MkCallFxChecker (tx ch) (conditions ch ++ [c]).

(** [CallFxChecker::run_checks]: the checker, and whether it is to be kept. *)
Definition checker_run_checks (aw : ActionWrapper Json) (ch : CallFxChecker) (t : Tasks) :
    outcome (CallFxChecker * bool * Tasks) :=
  let was_empty := bool_decide (conditions ch = []) in
  ran ← mapM (cond_run aw) (conditions ch);
  let left := List.filter (λ c, negb (satisfied c)) ran in
  let ch := MkCallFxChecker (tx ch) left in
  if bool_decide (left = []) && negb was_empty then
    t ← send_stop (tx ch) t; Done (ch, false, t)
  else Done (ch, true, t).

(** [CallFxChecker::shutdown]. *)
Definition checker_shutdown (ch : CallFxChecker) (t : Tasks) : outcome (CallFxChecker * Tasks) :=
  t ← send_stop (tx ch) t; Done (MkCallFxChecker (tx ch) [], t).

(** ** What an action makes the current call wait for *)

(** Entries are compared by their addresses. *)
Definition entry_eq (e1 e2 : Entry.t) : bool := bool_decide (address e1 = address e2).

Definition is_return (call : ZomeFnCall) (a : Action Json) : bool :=
  match a with AReturnZomeFunctionResult r => bool_decide (ezr_call r = call) | _ => false end.
Definition is_hold (e : Entry.t) (a : Action Json) : bool :=
  match a with AHold ewh => entry_eq (ewh_entry ewh) e | _ => false end.
Definition is_update (old new : Address) (a : Action Json) : bool :=
  match a with AUpdateEntry o n => bool_decide (o = old) && bool_decide (n = new) | _ => false end.
Definition is_removal (deleted deletion : Address) (a : Action Json) : bool :=
  match a with
  | ARemoveEntry d1 d2 => bool_decide (d1 = deleted) && bool_decide (d2 = deletion)
  | _ => false
  end.
Definition is_add_link (l : Link) (a : Action Json) : bool :=
  match a with AAddLink l' => bool_decide (l' = l) | _ => false end.
Definition is_remove_link (l : Link) (a : Action Json) : bool :=
  match a with ARemoveLink l' => bool_decide (l' = l) | _ => false end.
Definition is_pending_removal (ad : Address) (wf : ValidatingWorkflow) (a : Action Json) : bool :=
  match a with
  | ARemovePendingValidation ad' wf' => bool_decide (ad' = ad) && bool_decide (wf' = wf)
  | _ => false
  end.

(** A commit waits for every instance to hold the entry, and to apply it. *)
Definition commit_conditions (num_instances : nat) (committed_entry : Entry.t)
    (link_update_delete : option Address) : list CallFxCondition :=
  MkCallFxCondition num_instances (is_hold committed_entry) ::
  match committed_entry with
  | Entry.App _ _ =>
      match link_update_delete with
      | Some old => [MkCallFxCondition num_instances (is_update old (address committed_entry))]
      | None => []
      end
  | Entry.Deletion deleted =>
      [MkCallFxCondition num_instances (is_removal deleted (address committed_entry))]
  | Entry.LinkAdd link_add => [MkCallFxCondition num_instances (is_add_link (link link_add))]
  | Entry.LinkRemove link_remove => [MkCallFxCondition num_instances (is_remove_link (link link_remove))]
  | _ => []
  end.

(** The conditions the two arms of [process_signal] with an active checker add. *)
Definition new_conditions (num_instances : nat) (a : Action Json) : list CallFxCondition :=
  match a with
  | ACommit committed_entry link_update_delete _ =>
      commit_conditions num_instances committed_entry link_update_delete
  | AAddPendingValidation pending =>
      [MkCallFxCondition 1
         (is_pending_removal (address (ewh_entry (pv_entry_with_header pending))) (pv_workflow pending))]
  | _ => []
  end.

(** ** The waiter *)
Record Waiter := MkWaiter {
  checkers : gmap ZomeFnCall CallFxChecker;
  current : option ZomeFnCall;
  sender_rx : list ControlSender;
  num_instances : nat;
}.

Definition Waiter_new (num_instances : nat) : Waiter := MkWaiter ∅ None [] num_instances.

Definition current_checker (w : Waiter) : option (ZomeFnCall * CallFxChecker) :=
  call ← current w; ch ← checkers w !! call; Some (call, ch).

Definition set_checker (call : ZomeFnCall) (ch : CallFxChecker) (w : Waiter) : Waiter :=
  MkWaiter (<[call := ch]> (checkers w)) (current w) (sender_rx w) (num_instances w).

(** [add_call]: a checker the insertion replaces is dropped, with its sender. *)
Definition add_call (call : ZomeFnCall) (sender : ControlSender) (w : Waiter) (t : Tasks) : Waiter * Tasks :=
  let replaced := checkers w !! call in
  (MkWaiter (<[call := checker_new sender]> (checkers w)) (Some call) (sender_rx w) (num_instances w),
   match replaced with Some ch => drop_sender (tx ch) t | None => t end).

Definition deactivate_current (w : Waiter) : Waiter :=
  MkWaiter (checkers w) None (sender_rx w) (num_instances w).

(** [self.sender_rx.try_recv()]. *)
Definition try_recv (w : Waiter) : option (ControlSender * Waiter) :=
  match sender_rx w with
  | [] => None
  | sender :: rest => Some (sender, MkWaiter (checkers w) (current w) rest (num_instances w))
  end.

(** One turn of [self.checkers.retain(..)]. *)
Definition retain_step (aw : ActionWrapper Json)
    (acc : gmap ZomeFnCall CallFxChecker * Tasks) (entry : ZomeFnCall * CallFxChecker) :
    outcome (gmap ZomeFnCall CallFxChecker * Tasks) :=
  '(ch, kept, t) ← checker_run_checks aw entry.2 acc.2;
  Done (if (kept : bool) then <[entry.1 := ch]> acc.1 else acc.1, t).

Fixpoint retain (aw : ActionWrapper Json) (l : list (ZomeFnCall * CallFxChecker))
    (acc : gmap ZomeFnCall CallFxChecker * Tasks) : outcome (gmap ZomeFnCall CallFxChecker * Tasks) :=
  match l with
  | [] => Done acc
  | entry :: l => acc ← retain_step aw acc entry; retain aw l acc
  end.

(** [Waiter::run_checks]. *)
Definition run_checks (aw : ActionWrapper Json) (w : Waiter) (t : Tasks) : outcome (Waiter * Tasks) :=
  '(kept, t) ← retain aw (map_to_list (checkers w)) (∅, t);
  Done (MkWaiter kept (current w) (sender_rx w) (num_instances w), t).

(** The [match] of [process_signal]. *)
Definition note_action (aw : ActionWrapper Json) (w : Waiter) (t : Tasks) : outcome (Waiter * Tasks) :=
  match current_checker w, aw_action aw with
  | _, ASignalZomeFunctionCall call =>
      match try_recv w with
      | Some (sender, w) =>
          let '(w, t) := add_call call sender w t in
          '(call, ch) ← expect (current_checker w) "called `Option::unwrap()` on a `None` value";
          Done (set_checker call (checker_add ch (MkCallFxCondition 1 (is_return call))) w, t)
      | None => Done (deactivate_current w, t)
      end
  | Some (call, ch), a =>
      Done (set_checker call (foldl checker_add ch (new_conditions (num_instances w) a)) w, t)
  | None, _ => Done (w, t)
  end.

Definition process_signal (sig : Signal) (w : Waiter) (t : Tasks) : outcome (Waiter * Tasks) :=
  match sig with
  | Trace aw => '(w, t) ← note_action aw w t; run_checks aw w t
  | User _ => Done (w, t)
  end.

(** ** The test conductor *)

(** [background] is the waiter of the background task, and [None] once that task is over. *)
Record TestConductor := MkTestConductor {
  background : option Waiter;
  tasks : Tasks;
  is_running : bool;
  channels : nat;
}.

(** The state after [start]. *)
Definition start (num_instances : nat) : TestConductor :=
  MkTestConductor (Some (Waiter_new num_instances)) (MkTasks ∅ ∅) true 0.

(** [register_callback], after [start].  The channel that hands senders to the waiter holds
    one: [None] is a caller that waits for its place to become free. *)
Definition register_callback (s : TestConductor) : option (outcome TestConductor) :=
  let tx := channels s in
  match background s with
  | None => Some (Panicked "Could not send to sender channel")
  | Some w =>
      match sender_rx w with
      | [] =>
          Some (Done (MkTestConductor
            (Some (MkWaiter (checkers w) (current w) [tx] (num_instances w)))
            (MkTasks ({[tx]} ∪ blocked (tasks s)) (fulfilled (tasks s)))
            (is_running s) (S tx)))
      | _ :: _ => None
      end
  end.

Definition stop (s : TestConductor) : TestConductor :=
  MkTestConductor (background s) (tasks s) false (channels s).

(** A turn of the loop of [MainBackgroundTask::perform] that receives a signal. *)
Definition receive (sig : Signal) (s : TestConductor) : outcome TestConductor :=
  match background s with
  | Some w =>
      '(w, t) ← process_signal sig w (tasks s);
      Done (MkTestConductor (Some w) t (is_running s) (channels s))
  | None => Done s
  end.

Fixpoint shutdown_all (l : list CallFxChecker) (t : Tasks) : outcome Tasks :=
  match l with
  | [] => Done t
  | ch :: l => '(_, t) ← checker_shutdown ch t; shutdown_all l t
  end.

(** The senders a waiter holds, dropped with it. *)
Definition held (w : Waiter) : list ControlSender :=
  ((λ e : ZomeFnCall * CallFxChecker, tx e.2) <$> map_to_list (checkers w)) ++ sender_rx w.
Definition drop_waiter (w : Waiter) (t : Tasks) : Tasks := foldr drop_sender t (held w).

(** The end of [perform] once [is_running] is false: every checker is shut down, and the
    finished task is dropped. *)
Definition finish (s : TestConductor) : outcome TestConductor :=
  match background s with
  | Some w =>
      t ← shutdown_all ((map_to_list (checkers w)).*2) (tasks s);
      Done (MkTestConductor None (drop_waiter w t) (is_running s) (channels s))
  | None => Done s
  end.

(** [return Err(..)]: the channel of signals is disconnected. *)
Definition disconnected (s : TestConductor) : TestConductor :=
  match background s with
  | Some w => MkTestConductor None (drop_waiter w (tasks s)) (is_running s) (channels s)
  | None => s
  end.

(** The flag is read before the loop waits for a signal, so one that arrives after [stop] may
    still be handled. *)
Inductive tc_step : TestConductor → TestConductor → Prop :=
| step_register s s' : register_callback s = Some (Done s') → tc_step s s'
| step_signal sig s s' : receive sig s = Done s' → tc_step s s'
| step_stop s : tc_step s (stop s)
| step_finish s s' : is_running s = false → finish s = Done s' → tc_step s s'
| step_disconnected s : tc_step s (disconnected s).

(** [await_held_agent_ids], on the signals of the channel: those that are left when every
    agent's id is held, or [None] while the loop goes on. *)
Fixpoint await_held_agent_ids (agent_addresses : gset string) (signals : list Signal) :
    option (list Signal) :=
  match signals with
  | [] => None
  | User _ :: signals => await_held_agent_ids agent_addresses signals
  | Trace aw :: signals =>
      let agent_addresses :=
        match aw_action aw with
        | AHold ewh =>
            match ewh_entry ewh with
            | Entry.AgentId id => agent_addresses ∖ {[pub_sign_key id]}
            | _ => agent_addresses
            end
        | _ => agent_addresses
        end in
      if decide (agent_addresses = ∅) then Some signals else await_held_agent_ids agent_addresses signals
  end.
End waiter.
