(* ===== verification/WaiterFacts.v ===== *)
(** * What a fulfilled promise says

    Facts about [Waiter]: the background task never panics and leaves no callback waiting;
    a promise is fulfilled exactly when everything its call gave rise to has been seen; and
    a call made by the called function ends that bookkeeping early. *)
From S2P Require Import Prelude Errors Eav Entries Protocol Actions Waiter.

Section facts.
Context {Json : Type} `{Wire}.
Implicit Types (a : Action Json) (aw : ActionWrapper Json) (c : CallFxCondition (Json := Json))
  (ch : CallFxChecker (Json := Json)) (w : Waiter (Json := Json)) (t : Tasks)
  (s : TestConductor (Json := Json)) (call : ZomeFnCall).

(** ** One action, one checker *)
Definition positive (c : CallFxCondition (Json := Json)) : Prop := (0 < count c)%nat.
Definition live (l : list (CallFxCondition (Json := Json))) : Prop := l ≠ [] ∧ Forall positive l.

Definition run1 (a : Action Json) (c : CallFxCondition) : CallFxCondition :=
  if predicate c a then MkCallFxCondition (Nat.pred (count c)) (predicate c) else c.
Definition survivors (a : Action Json) (l : list CallFxCondition) : list CallFxCondition :=
  List.filter (λ c, negb (satisfied c)) (run1 a <$> l).
Definition advance (a : Action Json) (ch : CallFxChecker) : option CallFxChecker :=
  match survivors a (conditions ch) with
  | [] => None
  | l => Some (MkCallFxChecker (tx ch) l)
  end.

Lemma mapM_cond_run aw l :
  Forall positive l → mapM (cond_run aw) l = Done (run1 (aw_action aw) <$> l).
Proof.
  induction 1 as [|c l Hc Hl IH]; [done|]. simpl. rewrite IH. unfold cond_run, run1, positive in *.
  destruct c as [n p]; simpl in *. destruct (p (aw_action aw)); [|done].
  destruct n; [lia|done].
Qed.

Lemma survivors_positive a l : Forall positive (survivors a l).
Proof.
  apply Forall_forall. intros c Hc. apply list_elem_of_In, filter_In in Hc as [_ Hc].
  unfold satisfied in Hc. unfold positive. case_bool_decide; simpl in *; [done|lia].
Qed.

Lemma run_checks_live aw ch t :
  live (conditions ch) → tx ch ∈ blocked t →
  checker_run_checks aw ch t =
    Done (MkCallFxChecker (tx ch) (survivors (aw_action aw) (conditions ch)),
          match advance (aw_action aw) ch with Some _ => true | None => false end,
          match advance (aw_action aw) ch with Some _ => t | None => fulfil (tx ch) t end).
Proof.
  intros [Hne Hpos] Htx. unfold checker_run_checks. rewrite mapM_cond_run by done. cbn.
  rewrite (bool_decide_eq_false_2 (conditions ch = [])) by done.
  fold (survivors (aw_action aw) (conditions ch)). unfold advance.
  destruct (survivors (aw_action aw) (conditions ch)) as [|c l]; simpl; [|done].
  unfold send_stop. by rewrite decide_True.
Qed.

(** ** Running every checker *)
Definition step_kept (a : Action Json) (e : ZomeFnCall * CallFxChecker) : option (ZomeFnCall * CallFxChecker) :=
  (λ ch, (e.1, ch)) <$> advance a e.2.
Definition step_done (a : Action Json) (e : ZomeFnCall * CallFxChecker) : option ControlSender :=
  match advance a e.2 with Some _ => None | None => Some (tx e.2) end.

Definition insert_all {V : Type} (m : gmap ZomeFnCall V) (l : list (ZomeFnCall * V)) : gmap ZomeFnCall V :=
  foldl (λ m e, <[e.1 := e.2]> m) m l.

Lemma fulfil_all_spec (l : list ControlSender) t x :
  (x ∈ blocked (foldl (λ t x, fulfil x t) t l) ↔ x ∈ blocked t ∧ x ∉ l) ∧
  (x ∈ fulfilled (foldl (λ t x, fulfil x t) t l) ↔ x ∈ fulfilled t ∨ x ∈ l).
Proof.
  revert t. induction l as [|y l IH]; intros t; simpl; [set_solver|].
  rewrite !(proj1 (IH _)), !(proj2 (IH _)). simpl. set_solver.
Qed.

Lemma retain_spec aw l m t :
  Forall (λ e, live (conditions e.2) ∧ tx e.2 ∈ blocked t) l → NoDup ((λ e, tx e.2) <$> l) →
  retain aw l (m, t) =
    Done (insert_all m (omap (step_kept (aw_action aw)) l),
          foldl (λ t x, fulfil x t) t (omap (step_done (aw_action aw)) l)).
Proof.
  revert m t. induction l as [|[k ch] l IH]; intros m t Hl Hnd; [done|].
  apply Forall_cons in Hl as [[Hlive Htx] Hl]. apply NoDup_cons in Hnd as [Hnin Hnd].
  simpl. unfold retain_step. simpl. rewrite run_checks_live by done. unfold step_kept, step_done; simpl.
  destruct (advance (aw_action aw) ch) as [ch'|] eqn:E; simpl.
  - rewrite IH by done. assert (ch' = MkCallFxChecker (tx ch) (survivors (aw_action aw) (conditions ch))) as ->;
      [|done]. unfold advance in E. by case_match; simplify_eq.
  - rewrite IH; [done| |done]. apply Forall_forall. intros e He.
    rewrite Forall_forall in Hl. destruct (Hl e He) as [? Hb]. split; [done|].
    simpl. apply elem_of_difference. split; [done|]. intros Heq%elem_of_singleton.
    apply Hnin. simpl. rewrite <-Heq. apply (list_elem_of_fmap_2 (λ e, tx e.2)). done.
Qed.

Lemma insert_all_lookup {V : Type} (l : list (ZomeFnCall * V)) (m : gmap ZomeFnCall V) k :
  NoDup l.*1 →
  insert_all m l !! k = match (list_to_map l : gmap _ V) !! k with
                                            | Some v => Some v | None => m !! k end.
Proof.
  revert m. induction l as [|[k' v] l IH]; intros m Hnd; simpl; [by rewrite lookup_empty|].
  apply NoDup_cons in Hnd as [Hn Hnd]. unfold insert_all in *. simpl. rewrite IH by done. simpl in *.
  destruct (decide (k = k')) as [->|Hk].
  - rewrite !lookup_insert_eq, (proj1 (not_elem_of_list_to_map _ _)) by done. done.
  - by rewrite !lookup_insert_ne by done.
Qed.

Lemma omap_kept_keys a (l : list (ZomeFnCall * CallFxChecker)) :
  NoDup l.*1 → NoDup (omap (step_kept a) l).*1.
Proof.
  induction l as [|[k ch] l IH]; simpl; intros Hnd; [constructor|].
  apply NoDup_cons in Hnd as [Hn Hnd]. unfold step_kept at 1; simpl.
  destruct (advance a ch); simpl; [|by apply IH]. apply NoDup_cons. split; [|by apply IH].
  intros ([k' ch'] & -> & (e & He & Hs)%list_elem_of_omap)%list_elem_of_fmap. apply Hn.
  unfold step_kept in Hs. apply fmap_Some in Hs as (? & _ & ?). simplify_eq/=.
  apply list_elem_of_fmap. eauto.
Qed.

Lemma kept_lookup a (m : gmap ZomeFnCall CallFxChecker) call :
  insert_all ∅ (omap (step_kept a) (map_to_list m)) !! call = m !! call ≫= advance a.
Proof.
  assert (NoDup (omap (step_kept a) (map_to_list m)).*1) as Hnd by apply omap_kept_keys, NoDup_fst_map_to_list.
  rewrite insert_all_lookup by done. rewrite lookup_empty.
  assert (∀ v, (list_to_map (omap (step_kept a) (map_to_list m)) : gmap _ _) !! call = Some v ↔
    m !! call ≫= advance a = Some v) as Hv.
  { intros v. rewrite <-elem_of_list_to_map, list_elem_of_omap by done. unfold step_kept. split.
    - intros ([k ch] & He%elem_of_map_to_list & (ch' & Ha & ?)%fmap_Some). simplify_eq/=. by rewrite He.
    - intros (ch & Hc & Ha)%bind_Some. exists (call, ch). rewrite elem_of_map_to_list. simpl. by rewrite Ha. }
  destruct (list_to_map _ !! call) as [v|] eqn:E.
  - symmetry. by apply Hv.
  - destruct (m !! call ≫= advance a) as [v|] eqn:E'; [|done].
    by destruct (proj2 (Hv v) eq_refl).
Qed.

(** ** The invariant *)
Definition waits_on (w : Waiter (Json := Json)) (x : ControlSender) : Prop :=
  ∃ call ch, checkers w !! call = Some ch ∧ tx ch = x.

(** Every checker waits for something; the senders of the checkers and of the queue are
    distinct, and they are those of the tasks that are blocked. *)
Record winv (w : Waiter (Json := Json)) (t : Tasks) : Prop := {
  wi_live : map_Forall (λ _ ch, live (conditions ch)) (checkers w);
  wi_inj k1 k2 ch1 ch2 :
    checkers w !! k1 = Some ch1 → checkers w !! k2 = Some ch2 → tx ch1 = tx ch2 → k1 = k2;
  wi_queue : NoDup (sender_rx w);
  wi_sep x : waits_on w x → x ∉ sender_rx w;
  wi_blocked x : x ∈ blocked t ↔ waits_on w x ∨ x ∈ sender_rx w;
  wi_apart x : x ∈ blocked t → x ∉ fulfilled t;
}.

Definition known (t : Tasks) : gset ControlSender := blocked t ∪ fulfilled t.

(** What an operation of the waiter keeps. *)
Record moves (w : Waiter (Json := Json)) (t : Tasks) (w' : Waiter (Json := Json)) (t' : Tasks) : Prop := {
  mv_inv : winv w' t';
  mv_known : known t' = known t;
  mv_fulfilled : fulfilled t ⊆ fulfilled t';
  mv_instances : num_instances w' = num_instances w;
}.

Lemma advance_tx a ch ch' : advance a ch = Some ch' → tx ch' = tx ch.
Proof. unfold advance. by case_match; intros; simplify_eq. Qed.

Lemma advance_live a ch ch' : advance a ch = Some ch' → live (conditions ch').
Proof.
  unfold advance. pose proof (survivors_positive a (conditions ch)) as Hp.
  destruct (survivors a (conditions ch)); intros; simplify_eq; by split.
Qed.

Lemma map_to_list_ready w t : winv w t →
  Forall (λ e, live (conditions e.2) ∧ tx e.2 ∈ blocked t) (map_to_list (checkers w)) ∧
  NoDup ((λ e, tx e.2) <$> map_to_list (checkers w)).
Proof.
  intros I. split.
  - apply Forall_forall. intros [call ch] Hc%elem_of_map_to_list. simpl. split.
    + by apply (wi_live _ _ I call).
    + apply (wi_blocked _ _ I). left. by exists call, ch.
  - apply NoDup_fmap_2_strong; [|apply NoDup_map_to_list].
    intros [c1 ch1] [c2 ch2] H1%elem_of_map_to_list H2%elem_of_map_to_list Htx.
    pose proof (wi_inj _ _ I _ _ _ _ H1 H2 Htx) as ->. simpl in *. congruence.
Qed.

Lemma elem_of_finished w a x :
  x ∈ omap (step_done a) (map_to_list (checkers w)) ↔
  ∃ call ch, checkers w !! call = Some ch ∧ advance a ch = None ∧ tx ch = x.
Proof.
  rewrite list_elem_of_omap. unfold step_done. split.
  - intros ([call ch] & Hc%elem_of_map_to_list & Hs). simpl in Hs. case_match; simplify_eq. eauto.
  - intros (call & ch & Hc & Ha & <-). exists (call, ch). rewrite elem_of_map_to_list. simpl. by rewrite Ha.
Qed.

Lemma run_checks_spec aw w t : winv w t →
  ∃ w' t', run_checks aw w t = Done (w', t') ∧ moves w t w' t' ∧
    current w' = current w ∧ sender_rx w' = sender_rx w ∧
    ∀ call, checkers w' !! call = checkers w !! call ≫= advance (aw_action aw).
Proof.
  intros I. destruct (map_to_list_ready w t I) as [Hready Hnd]. unfold run_checks.
  rewrite retain_spec by done. cbn [mbind outcome_bind].
  set (fin := omap (step_done (aw_action aw)) (map_to_list (checkers w))).
  set (t' := foldl (λ t x, fulfil x t) t fin).
  assert (∀ x, x ∈ fin → x ∈ blocked t) as Hfin.
  { intros x (call & ch & Hc & _ & Hx)%elem_of_finished. apply (wi_blocked _ _ I). left. by exists call, ch. }
  eexists _, t'. split; [done|]. split; [|by split_and!; [..|intros call; apply kept_lookup]].
  assert (∀ x, waits_on (MkWaiter (insert_all ∅ (omap (step_kept (aw_action aw)) (map_to_list (checkers w))))
    (current w) (sender_rx w) (num_instances w)) x ↔ waits_on w x ∧ x ∉ fin) as Hwaits.
  { intros x. unfold waits_on. simpl. setoid_rewrite kept_lookup. unfold fin. split.
    - intros (call & ch & (ch0 & Hc & Ha)%bind_Some & <-). rewrite (advance_tx _ _ _ Ha).
      split; [by exists call, ch0|]. intros (call' & ch' & Hc' & Ha' & Htx)%elem_of_finished.
      pose proof (wi_inj _ _ I _ _ _ _ Hc' Hc Htx) as ->. congruence.
    - intros [(call & ch & Hc & <-) Hx]. destruct (advance (aw_action aw) ch) as [ch'|] eqn:Ha.
      + exists call, ch'. rewrite Hc. simpl. by rewrite Ha, (advance_tx _ _ _ Ha).
      + destruct Hx. apply elem_of_finished. by exists call, ch. }
  split; [split|..]; simpl.
  - intros call ch. rewrite kept_lookup. intros (ch0 & _ & Ha)%bind_Some. by eapply advance_live.
  - intros c1 c2 ch1 ch2. rewrite !kept_lookup. intros (k1 & H1 & A1)%bind_Some (k2 & H2 & A2)%bind_Some.
    rewrite (advance_tx _ _ _ A1), (advance_tx _ _ _ A2). by apply (wi_inj _ _ I).
  - apply (wi_queue _ _ I).
  - intros x [Hx _]%Hwaits. by apply (wi_sep _ _ I).
  - intros x. unfold t'. rewrite (proj1 (fulfil_all_spec fin t x)), Hwaits, (wi_blocked _ _ I).
    split; [naive_solver|]. intros [?|Hq]; [naive_solver|]. split; [by right|].
    intros (call & ch & Hc & _ & Hx)%elem_of_finished. apply (wi_sep _ _ I x); [by exists call, ch|done].
  - intros x. unfold t'. rewrite (proj1 (fulfil_all_spec fin t x)), (proj2 (fulfil_all_spec fin t x)).
    pose proof (wi_apart _ _ I x). naive_solver.
  - apply set_eq. intros x. unfold known, t'. rewrite !elem_of_union, (proj1 (fulfil_all_spec fin t x)),
      (proj2 (fulfil_all_spec fin t x)). destruct (decide (x ∈ fin)); naive_solver.
  - intros x Hx. unfold t'. apply (fulfil_all_spec fin t x). by left.
  - done.
Qed.

(** ** Taking note of an action *)
Definition called (a : Action Json) : option ZomeFnCall :=
  match a with ASignalZomeFunctionCall call => Some call | _ => None end.

Definition grown (n : nat) (a : Action Json) (ch : CallFxChecker) : CallFxChecker :=
  MkCallFxChecker (tx ch) (conditions ch ++ new_conditions n a).

Lemma foldl_checker_add l ch : foldl checker_add ch l = MkCallFxChecker (tx ch) (conditions ch ++ l).
Proof.
  revert ch. induction l as [|c l IH]; intros ch; simpl.
  - rewrite app_nil_r. by destruct ch.
  - rewrite IH. unfold checker_add. simpl. by rewrite <-app_assoc.
Qed.

Lemma new_conditions_positive n a : (0 < n)%nat → Forall positive (new_conditions n a).
Proof.
  intros Hn. unfold new_conditions, commit_conditions. destruct a; repeat case_match;
    repeat constructor; unfold positive; simpl; lia.
Qed.

Lemma grown_live n a ch : (0 < n)%nat → live (conditions ch) → live (conditions (grown n a ch)).
Proof.
  intros Hn [Hne Hp]. split; simpl.
  - by destruct (conditions ch).
  - apply Forall_app. split; [done|]. by apply new_conditions_positive.
Qed.

Lemma called_no_conditions n a call : called a = Some call → new_conditions n a = [].
Proof. by destruct a. Qed.

Lemma waits_on_insert w call ch ch' cur q n x :
  checkers w !! call = Some ch → tx ch' = tx ch →
  waits_on (MkWaiter (<[call := ch']> (checkers w)) cur q n) x ↔ waits_on w x.
Proof.
  intros Hc Htx. unfold waits_on. simpl. split.
  - intros (k & chk & [[-> <-]|[Hk Hl]]%lookup_insert_Some & <-); [|by eexists _, _].
    exists k, ch. by rewrite Htx.
  - intros (k & chk & Hk & <-). destruct (decide (k = call)) as [->|Hne].
    + exists call, ch'. rewrite lookup_insert_eq. split; [done|]. congruence.
    + exists k, chk. by rewrite lookup_insert_ne.
Qed.

Lemma winv_set_checker call ch ch' w t :
  checkers w !! call = Some ch → tx ch' = tx ch → live (conditions ch') → winv w t →
  winv (set_checker call ch' w) t.
Proof.
  intros Hc Htx Hl [L J Q S B A]. split; unfold set_checker; simpl; try done.
  - by apply map_Forall_insert_2.
  - intros k1 k2 ch1 ch2 [[-> <-]|[N1 H1]]%lookup_insert_Some [[-> <-]|[N2 H2]]%lookup_insert_Some;
      rewrite ?Htx; intros ?; by eauto.
  - intros x Hx%(waits_on_insert _ _ ch); [by apply S|done..].
  - intros x. by rewrite (waits_on_insert _ _ ch).
Qed.

Lemma moves_refl w t : winv w t → moves w t w t.
Proof. by split. Qed.

(** An action that is not a call. *)
Lemma note_other_spec aw w t : winv w t → (0 < num_instances w)%nat → called (aw_action aw) = None →
  ∃ w', note_action aw w t = Done (w', t) ∧ moves w t w' t ∧
    current w' = current w ∧ sender_rx w' = sender_rx w ∧
    ∀ call, checkers w' !! call =
      (if decide (current w = Some call) then grown (num_instances w) (aw_action aw) <$> checkers w !! call
       else checkers w !! call).
Proof.
  intros I Hn Hc. unfold note_action.
  destruct (current_checker w) as [[call ch]|] eqn:E.
  - apply bind_Some in E as (call' & Hcur & (ch' & Hch & E)%bind_Some). simplify_eq.
    exists (set_checker call (grown (num_instances w) (aw_action aw) ch) w).
    split; [unfold grown; rewrite <-foldl_checker_add; by destruct (aw_action aw)|].
    split_and!; [|done..|].
    + split; try done. apply (winv_set_checker _ ch); try done. apply grown_live; [done|].
      by apply (wi_live _ _ I call).
    + intros k. simpl. rewrite Hcur. case_decide; simplify_eq.
      * by rewrite lookup_insert_eq, Hch.
      * rewrite lookup_insert_ne by naive_solver. done.
  - exists w. split; [by destruct (aw_action aw)|]. split_and!; [by apply moves_refl|done..|].
    intros k. case_decide as Hk; [|done]. unfold current_checker in E. rewrite Hk in E. simpl in E.
    by destruct (checkers w !! k).
Qed.

Lemma drop_sender_spec x t : (∀ y, y ∈ blocked t → y ∉ fulfilled t) →
  known (drop_sender x t) = known t ∧ fulfilled t ⊆ fulfilled (drop_sender x t) ∧
  (∀ y, y ∈ blocked (drop_sender x t) ↔ y ∈ blocked t ∧ y ≠ x) ∧
  (∀ y, y ∈ blocked (drop_sender x t) → y ∉ fulfilled (drop_sender x t)).
Proof.
  intros Hap. unfold drop_sender. case_decide as Hx.
  - unfold known, fulfil; simpl. split_and!; [|set_solver..].
    apply set_eq. intros y. destruct (decide (y = x)) as [->|]; set_solver.
  - split_and!; [done..| |done]. set_solver.
Qed.

(** The waiter and the tasks once [d] is the current call, with the first sender of the
    queue. *)
Definition returning (d : ZomeFnCall) (x : ControlSender) : CallFxChecker (Json := Json) :=
  MkCallFxChecker x [MkCallFxCondition 1 (is_return d)].
Definition with_call (d : ZomeFnCall) (x : ControlSender) (rest : list ControlSender)
    (w : Waiter (Json := Json)) : Waiter :=
  MkWaiter (<[d := returning d x]> (checkers w)) (Some d) rest (num_instances w).
Definition without (o : option (CallFxChecker (Json := Json))) (t : Tasks) : Tasks :=
  match o with Some ch => drop_sender (tx ch) t | None => t end.

Lemma note_call_eq aw d w t : called (aw_action aw) = Some d →
  note_action aw w t =
    Done (match sender_rx w with
          | [] => (deactivate_current w, t)
          | x :: rest => (with_call d x rest w, without (checkers w !! d) t)
          end).
Proof.
  intros Hd. unfold note_action, try_recv.
  destruct (aw_action aw); simplify_eq/=.
  destruct (sender_rx w) as [|x rest]; [by destruct (current_checker w) as [[]|]|].
  destruct (current_checker w) as [[]|]; unfold add_call, current_checker; simpl;
    rewrite lookup_insert_eq; simpl; unfold set_checker, with_call, checker_add; simpl;
    by rewrite insert_insert_eq.
Qed.

Lemma without_spec w t d : winv w t →
  known (without (checkers w !! d) t) = known t ∧
  fulfilled t ⊆ fulfilled (without (checkers w !! d) t) ∧
  (∀ y, y ∈ blocked (without (checkers w !! d) t) ↔
     y ∈ blocked t ∧ ∀ ch, checkers w !! d = Some ch → y ≠ tx ch) ∧
  (∀ y, y ∈ blocked (without (checkers w !! d) t) → y ∉ fulfilled (without (checkers w !! d) t)).
Proof.
  intros I. destruct (checkers w !! d) as [ch|] eqn:E; simpl.
  - destruct (drop_sender_spec (tx ch) t (wi_apart _ _ I)) as (? & ? & Hb & ?).
    split_and!; try done. intros y. rewrite Hb. naive_solver.
  - split_and!; try done; [naive_solver|]. apply (wi_apart _ _ I).
Qed.

Lemma winv_with_call d x rest w t : winv w t → sender_rx w = x :: rest →
  moves w t (with_call d x rest w) (without (checkers w !! d) t).
Proof.
  intros I Hq. destruct (without_spec w t d I) as (Hk & Hf & Hb & Ha).
  pose proof (wi_queue _ _ I) as Hnd. rewrite Hq in Hnd. apply NoDup_cons in Hnd as [Hx Hnd].
  assert (∀ y, waits_on w y → y ≠ x ∧ y ∉ rest) as Hsep.
  { intros y Hy%(wi_sep _ _ I). rewrite Hq in Hy. set_solver. }
  assert (∀ k ch, checkers w !! k = Some ch → tx ch ≠ x) as Hnx.
  { intros k ch Hk'. destruct (Hsep (tx ch)) as [? _]; [by exists k, ch|done]. }
  assert (∀ y, waits_on (with_call d x rest w) y ↔
    y = x ∨ (waits_on w y ∧ ∀ ch, checkers w !! d = Some ch → y ≠ tx ch)) as Hw.
  { intros y. unfold waits_on; simpl. split.
    - intros (k & ch & [[-> <-]|[Hne Hl]]%lookup_insert_Some & <-); [by left|right].
      split; [by exists k, ch|]. intros ch' Hd Htx. by apply Hne, (wi_inj _ _ I _ _ ch' ch).
    - intros [->|[(k & ch & Hl & <-) Hne]]; [exists d, (returning d x); by rewrite lookup_insert_eq|].
      exists k, ch. rewrite lookup_insert_ne; [done|]. intros <-. by apply (Hne ch). }
  split; [split|..]; simpl; try done.
  - apply map_Forall_insert_2; [|apply (wi_live _ _ I)]. split; [done|]. simpl.
    repeat constructor.
  - intros k1 k2 ch1 ch2 [[-> <-]|[N1 H1]]%lookup_insert_Some [[-> <-]|[N2 H2]]%lookup_insert_Some; simpl.
    + done.
    + intros Heq. by destruct (Hnx _ _ H2).
    + intros Heq. by destruct (Hnx _ _ H1).
    + by apply (wi_inj _ _ I).
  - intros y [->|[Hy _]]%Hw; [done|]. by apply Hsep.
  - intros y. rewrite Hb, Hw, (wi_blocked _ _ I), Hq, elem_of_cons. split; [naive_solver|].
    intros [[->|[]]|Hr]; [|by split; [left|]|].
    + split; [by right; left|]. intros ch Hd Heq. by destruct (Hnx _ _ Hd).
    + split; [by right; right|]. intros ch Hd ->. destruct (Hsep (tx ch)) as [_ ?]; [by exists d, ch|done].
Qed.

(** ** Signals *)
Lemma moves_trans w1 t1 w2 t2 w3 t3 : moves w1 t1 w2 t2 → moves w2 t2 w3 t3 → moves w1 t1 w3 t3.
Proof. intros [I1 K1 F1 N1] [I2 K2 F2 N2]. split; [done|congruence|set_solver|congruence]. Qed.

Lemma note_action_moves aw w t : winv w t → (0 < num_instances w)%nat →
  ∃ w' t', note_action aw w t = Done (w', t') ∧ moves w t w' t'.
Proof.
  intros I Hn. destruct (called (aw_action aw)) as [d|] eqn:Hd.
  - rewrite (note_call_eq _ d) by done. destruct (sender_rx w) as [|x rest] eqn:Hq.
    + exists (deactivate_current w), t. split; [done|]. destruct I as [L J Q S B A].
      by split; [split|..].
    + eexists _, _. split; [done|]. by apply winv_with_call.
  - destruct (note_other_spec aw w t) as (w' & ? & ? & _); [done..|]. eauto.
Qed.

Lemma process_signal_moves sig w t : winv w t → (0 < num_instances w)%nat →
  ∃ w' t', process_signal sig w t = Done (w', t') ∧ moves w t w' t'.
Proof.
  intros I Hn. destruct sig as [aw|msg]; simpl; [|by eexists _, _; split; [|apply moves_refl]].
  destruct (note_action_moves aw w t I Hn) as (w1 & t1 & -> & M1). simpl.
  destruct (run_checks_spec aw w1 t1 (mv_inv _ _ _ _ M1)) as (w2 & t2 & -> & M2 & _).
  eexists _, _. split; [done|]. by eapply moves_trans.
Qed.

(** ** The test conductor *)
Record tcinv (n : nat) (s : TestConductor (Json := Json)) : Prop := {
  ti_waiter w : background s = Some w → winv w (tasks s) ∧ num_instances w = n;
  ti_over : background s = None → blocked (tasks s) = ∅;
  ti_channels x : x ∈ known (tasks s) ↔ (x < channels s)%nat;
}.

Lemma start_inv n : tcinv n (start n).
Proof.
  split; simpl; [|done|set_solver by lia].
  intros w [= <-]. split; [|done]. split; simpl.
  - apply map_Forall_empty.
  - intros k1 k2 ch1 ch2. by rewrite lookup_empty.
  - constructor.
  - set_solver.
  - intros x. split; [set_solver|]. intros [(k & ch & Hk & _)|Hx]; [by destruct (lookup_empty_Some k ch)|set_solver].
  - set_solver.
Qed.

Lemma tc_register_inv n s s' : tcinv n s → register_callback s = Some (Done s') → tcinv n s'.
Proof.
  intros [W O K]. unfold register_callback. destruct (background s) as [w|] eqn:Hb; [|done].
  destruct (sender_rx w) as [|] eqn:Hq; [|done]. intros [= <-].
  destruct (W w eq_refl) as [[L J Q S B A] Hn].
  assert (channels s ∉ known (tasks s)) as Hfresh by (rewrite K; lia).
  unfold known in *. rewrite elem_of_union in Hfresh.
  split; simpl; [|done|].
  - intros w' [= <-]. split; [|done]. split; simpl; try done.
    + apply NoDup_singleton.
    + intros x Hx ->%list_elem_of_singleton. apply Hfresh. left. apply B. by left.
    + intros x. rewrite elem_of_union, elem_of_singleton, list_elem_of_singleton, B, Hq.
      unfold waits_on; simpl. set_solver.
    + set_solver.
  - intros x. unfold known; simpl. rewrite <-(assoc_L (∪)), elem_of_union, elem_of_singleton, K. lia.
Qed.

Lemma tc_receive_inv n sig s : (0 < n)%nat → tcinv n s →
  ∃ s', receive sig s = Done s' ∧ tcinv n s' ∧ channels s' = channels s.
Proof.
  intros Hn T. unfold receive. destruct (background s) as [w|] eqn:Hb; [|by exists s].
  destruct (ti_waiter _ _ T w Hb) as [I <-].
  destruct (process_signal_moves sig w (tasks s) I Hn) as (w' & t' & -> & [I' K' F' N']). simpl.
  eexists. split; [done|]. split; [|done]. split; simpl; [naive_solver|done|].
  intros x. rewrite K'. apply (ti_channels _ _ T).
Qed.

Lemma elem_of_held w x : x ∈ held w ↔ waits_on w x ∨ x ∈ sender_rx w.
Proof.
  unfold held, waits_on. rewrite elem_of_app, list_elem_of_fmap. apply or_iff_compat_r. split.
  - intros ([call ch] & -> & Hc%elem_of_map_to_list). eauto.
  - intros (call & ch & Hc & <-). exists (call, ch). by rewrite elem_of_map_to_list.
Qed.

Lemma drop_all_spec l t : (∀ y, y ∈ blocked t → y ∉ fulfilled t) →
  known (foldr drop_sender t l) = known t ∧
  (∀ y, y ∈ blocked (foldr drop_sender t l) ↔ y ∈ blocked t ∧ y ∉ l) ∧
  (∀ y, y ∈ blocked (foldr drop_sender t l) → y ∉ fulfilled (foldr drop_sender t l)).
Proof.
  intros Ha. induction l as [|x l (K & B & A)]; simpl; [set_solver|].
  destruct (drop_sender_spec x _ A) as (K' & _ & B' & A'). split_and!; [congruence| |done].
  intros y. rewrite B', B. set_solver.
Qed.

Lemma shutdown_all_spec (l : list (CallFxChecker (Json := Json))) t :
  Forall (λ ch, tx ch ∈ blocked t) l → NoDup (tx <$> l) →
  shutdown_all l t = Done (foldl (λ t x, fulfil x t) t (tx <$> l)).
Proof.
  revert t. induction l as [|ch l IH]; intros t Hl Hnd; [done|].
  apply Forall_cons in Hl as [Hch Hl]. apply NoDup_cons in Hnd as [Hn Hnd]. simpl.
  unfold checker_shutdown, send_stop. rewrite decide_True by done. simpl. apply IH; [|done].
  apply Forall_forall. intros ch' Hin. rewrite Forall_forall in Hl.
  apply elem_of_difference. split; [by apply Hl|]. intros Heq%elem_of_singleton.
  apply Hn. rewrite <-Heq. by apply list_elem_of_fmap_2.
Qed.

(** Dropping the waiter leaves no task blocked. *)
Lemma drop_waiter_inv n s w t r :
  tcinv n s → background s = Some w → known t = known (tasks s) → blocked t ⊆ blocked (tasks s) →
  (∀ y, y ∈ blocked t → y ∉ fulfilled t) →
  tcinv n (MkTestConductor None (drop_waiter w t) r (channels s)).
Proof.
  intros T Hb Hk Hsub Ha. destruct (ti_waiter _ _ T w Hb) as [I _].
  destruct (drop_all_spec (held w) t Ha) as (K & B & _). unfold drop_waiter.
  split; simpl; [done|..].
  - intros _. apply set_eq. intros x. rewrite B, elem_of_held, <-(wi_blocked _ _ I). set_solver.
  - intros x. rewrite K, Hk. apply (ti_channels _ _ T).
Qed.

Lemma finish_inv n s : tcinv n s →
  ∃ s', finish s = Done s' ∧ tcinv n s' ∧ background s' = None ∧ channels s' = channels s.
Proof.
  intros T. unfold finish. destruct (background s) as [w|] eqn:Hb; [|by exists s].
  destruct (ti_waiter _ _ T w Hb) as [I _].
  destruct (map_to_list_ready w _ I) as [Hr Hnd].
  assert (tx <$> (map_to_list (checkers w)).*2 = (λ e, tx e.2) <$> map_to_list (checkers w)) as Htx.
  { by rewrite <-list_fmap_compose. }
  rewrite shutdown_all_spec; cbn [mbind outcome_bind].
  - eexists. split; [done|]. split; [|done].
    set (l := tx <$> (map_to_list (checkers w)).*2).
    assert (∀ x, x ∈ l → x ∈ blocked (tasks s)) as Hl.
    { intros x. unfold l. rewrite Htx. intros (e & -> & He)%list_elem_of_fmap.
      rewrite Forall_forall in Hr. by apply Hr. }
    pose proof (wi_apart _ _ I) as Ha.
    apply drop_waiter_inv; try done.
    + apply set_eq. intros x. unfold known. rewrite !elem_of_union, (proj1 (fulfil_all_spec l _ x)),
        (proj2 (fulfil_all_spec l _ x)). destruct (decide (x ∈ l)); naive_solver.
    + intros x. rewrite (proj1 (fulfil_all_spec l _ x)). naive_solver.
    + intros x. rewrite (proj1 (fulfil_all_spec l _ x)), (proj2 (fulfil_all_spec l _ x)). naive_solver.
  - apply Forall_fmap. by eapply Forall_impl; [exact Hr|intros ? []].
  - by rewrite Htx.
Qed.

Lemma tc_step_inv n s s' : (0 < n)%nat → tcinv n s → tc_step s s' → tcinv n s'.
Proof.
  intros Hn T. destruct 1 as [s s' Hr|sig s s' Hr|s|s s' _ Hf|s].
  - by eapply tc_register_inv.
  - destruct (tc_receive_inv n sig s Hn T) as (s1 & Hr1 & T1 & _).
    rewrite Hr in Hr1. by injection Hr1 as <-.
  - by destruct T.
  - destruct (finish_inv n s T) as (s1 & Hf1 & T1 & _).
    rewrite Hf in Hf1. by injection Hf1 as <-.
  - unfold disconnected. destruct (background s) as [w|] eqn:Hb; [|done].
    apply drop_waiter_inv; try done. apply (wi_apart w), (ti_waiter _ _ T w Hb).
Qed.

Lemma reachable_inv n s : (0 < n)%nat → rtc tc_step (start n) s → tcinv n s.
Proof.
  intros Hn Hs. remember (start n) as s0 eqn:E. assert (tcinv n s0) as T by (subst; apply start_inv).
  clear E. induction Hs; [done|]. apply IHHs. by eapply tc_step_inv.
Qed.

(** C30: a test conductor with at least one instance never panics in its background task: in
    every reachable state each signal can be handled and the loop can be ended.  No callback
    is lost or called twice: the callbacks registered so far are those still waiting and
    those that have been called, and nothing is both.  When the background task is over,
    every callback that was ever registered has been called. *)
Theorem promises_kept n s :
  (0 < n)%nat → rtc tc_step (start n) s →
  (∀ sig, ∃ s', receive sig s = Done s') ∧
  (∀ x, (x < channels s)%nat ↔ x ∈ blocked (tasks s) ∨ x ∈ fulfilled (tasks s)) ∧
  (∀ x, x ∈ blocked (tasks s) → x ∉ fulfilled (tasks s)) ∧
  (∃ s', finish s = Done s' ∧ ∀ x, (x < channels s)%nat → x ∈ fulfilled (tasks s')) ∧
  (background s = None → ∀ x, (x < channels s)%nat → x ∈ fulfilled (tasks s)).
Proof.
  intros Hn Hs. pose proof (reachable_inv n s Hn Hs) as T. split_and!.
  - intros sig. destruct (tc_receive_inv n sig s Hn T) as (s' & ? & _). eauto.
  - intros x. rewrite <-(ti_channels _ _ T). apply elem_of_union.
  - destruct (background s) as [w|] eqn:Hb.
    + apply (wi_apart w), (ti_waiter _ _ T w Hb).
    + rewrite (ti_over _ _ T Hb). set_solver.
  - destruct (finish_inv n s T) as (s' & Hf & T' & Ho & Hc). exists s'. split; [done|].
    intros x. rewrite <-Hc, <-(ti_channels _ _ T'). unfold known. rewrite (ti_over _ _ T' Ho). set_solver.
  - intros Ho x. rewrite <-(ti_channels _ _ T). unfold known. rewrite (ti_over _ _ T Ho). set_solver.
Qed.

(** ** What a call is waiting for

    The specification speaks of the actions reported since the call, not of counters.  An
    obligation is a condition together with the actions reported since it arose. *)
Definition Obligation : Type := CallFxCondition (Json := Json) * list (Action Json).

Definition matches (c : CallFxCondition (Json := Json)) (acts : list (Action Json)) : nat :=
  length (List.filter (predicate c) acts).
Definition settled (o : Obligation) : Prop := (count o.1 ≤ matches o.1 o.2)%nat.
#[local] Instance settled_dec o : Decision (settled o).
Proof. unfold settled. apply _. Defined.

(** What is committed or found pending until the next call is attributed to the call. *)
Fixpoint owed (n : nat) (acts : list (Action Json)) : list Obligation :=
  match acts with
  | [] => []
  | a :: rest =>
      match called a with
      | Some _ => []
      | None => ((λ c, (c, acts)) <$> new_conditions n a) ++ owed n rest
      end
  end.

Definition obligations (n : nat) (call : ZomeFnCall) (acts : list (Action Json)) :
    list Obligation :=
  (MkCallFxCondition 1 (is_return call), acts) :: owed n acts.

Definition all_settled (n : nat) (call : ZomeFnCall) (acts : list (Action Json)) : Prop :=
  Forall settled (obligations n call acts).

Definition quiet (acts : list (Action Json)) : Prop := Forall (λ a, called a = None) acts.
#[local] Instance quiet_dec acts : Decision (quiet acts).
Proof. unfold quiet. apply _. Defined.

Definition extend (a : Action Json) (o : Obligation) :
    Obligation := (o.1, o.2 ++ [a]).
Definition fresh (c : CallFxCondition (Json := Json)) : Obligation := (c, []).

(** The conditions that are left, with what is still missing. *)
Definition left_over (os : list Obligation) : list CallFxCondition :=
  (λ o, MkCallFxCondition (count o.1 - matches o.1 o.2) (predicate o.1)) <$> filter (λ o, ¬ settled o) os.

Lemma owed_snoc n acts a :
  owed n (acts ++ [a]) =
    (extend a <$> owed n acts) ++
    (if decide (quiet acts) then extend a <$> (fresh <$> new_conditions n a) else []).
Proof.
  induction acts as [|b acts IH].
  - destruct (decide (quiet [])) as [_|[]]; [|constructor]. simpl. destruct (called a) eqn:Ha.
    + by rewrite (called_no_conditions _ _ _ Ha).
    + by rewrite app_nil_r, <-list_fmap_compose.
  - assert (quiet (b :: acts) ↔ called b = None ∧ quiet acts) as Hq.
    { unfold quiet. by rewrite Forall_cons. }
    rewrite (decide_ext _ _ _ _ Hq). change ((b :: acts) ++ [a]) with (b :: acts ++ [a]). cbn [owed].
    destruct (called b) eqn:Hb.
    + rewrite decide_False; [done|]. by intros [? _].
    + rewrite IH, fmap_app, <-app_assoc. f_equal; [by rewrite <-list_fmap_compose|]. f_equal.
      apply decide_ext. naive_solver.
Qed.

Lemma matches_snoc c acts a :
  matches c (acts ++ [a]) = (matches c acts + if predicate c a then 1 else 0)%nat.
Proof. unfold matches. rewrite List.filter_app, length_app. simpl. by destruct (predicate c a). Qed.

Lemma left_over_app os1 os2 : left_over (os1 ++ os2) = left_over os1 ++ left_over os2.
Proof. unfold left_over. by rewrite filter_app, fmap_app. Qed.

Lemma survivors_app a l1 l2 : survivors a (l1 ++ l2) = survivors a l1 ++ survivors a l2.
Proof. unfold survivors. by rewrite fmap_app, List.filter_app. Qed.

Lemma left_over_one (o : Obligation) :
  left_over [o] = if decide (settled o) then []
                  else [MkCallFxCondition (count o.1 - matches o.1 o.2) (predicate o.1)].
Proof. unfold left_over. rewrite filter_cons. do 2 case_decide; done. Qed.

Lemma survivors_left_over_one a o : survivors a (left_over [o]) = left_over [extend a o].
Proof.
  rewrite !left_over_one. destruct o as [c acts]. unfold settled, extend; cbn [fst snd].
  pose proof (matches_snoc c acts a) as Hm.
  destruct (decide (count c ≤ matches c acts)%nat) as [Hs|Hs]; [by rewrite decide_True by lia|].
  unfold survivors, run1, satisfied. cbn -[Nat.sub Nat.pred matches].
  destruct (predicate c a); cbn -[Nat.sub Nat.pred matches]; case_bool_decide; simpl negb; cbn iota.
  - by rewrite decide_True by lia.
  - rewrite decide_False by lia. do 2 f_equal. lia.
  - lia.
  - rewrite decide_False by lia. do 2 f_equal. lia.
Qed.

Lemma survivors_left_over a os : survivors a (left_over os) = left_over (extend a <$> os).
Proof.
  induction os as [|o os IH]; [done|]. change (o :: os) with ([o] ++ os).
  rewrite left_over_app, survivors_app, fmap_app, left_over_app, IH, survivors_left_over_one. done.
Qed.

Lemma left_over_fresh l : Forall positive l → left_over (fresh <$> l) = l.
Proof.
  induction 1 as [|[k p] l Hc Hl IH]; [done|]. rewrite fmap_cons.
  change (fresh ?c :: ?l) with ([fresh c] ++ l). rewrite left_over_app, IH, left_over_one.
  unfold positive in Hc. cbn in Hc. rewrite decide_False by (unfold settled, fresh, matches; simpl; lia).
  unfold fresh, matches. simpl. by rewrite Nat.sub_0_r.
Qed.

Lemma left_over_nil os : left_over os = [] ↔ Forall settled os.
Proof.
  induction os as [|o os IH]; [by split|]. change (o :: os) with ([o] ++ os).
  rewrite left_over_app, left_over_one, Forall_app, Forall_singleton.
  case_decide; simpl; naive_solver.
Qed.

(** ** The waiter meets the specification *)
Definition growth (n : nat) (acts : list (Action Json)) (a : Action Json) : list CallFxCondition :=
  if decide (quiet acts) then new_conditions n a else [].

Lemma obligations_snoc n call acts a :
  obligations n call (acts ++ [a]) = extend a <$> (obligations n call acts ++ (fresh <$> growth n acts a)).
Proof.
  unfold obligations, growth. rewrite owed_snoc, fmap_app. simpl. unfold extend at 2; simpl.
  f_equal. f_equal. by case_decide.
Qed.

Lemma survivors_step n call acts a : (0 < n)%nat →
  survivors a (left_over (obligations n call acts) ++ growth n acts a) =
    left_over (obligations n call (acts ++ [a])).
Proof.
  intros Hn. rewrite obligations_snoc, <-survivors_left_over, left_over_app, left_over_fresh; [done|].
  unfold growth. case_decide; [by apply new_conditions_positive|constructor].
Qed.

(** Where the checker of [call] is while the obligations are not settled. *)
Definition pending (n : nat) (call : ZomeFnCall) (x : ControlSender) (acts : list (Action Json))
    (w : Waiter (Json := Json)) : Prop :=
  checkers w !! call = Some (MkCallFxChecker x (left_over (obligations n call acts))) ∧
  (current w = Some call ↔ quiet acts).

Lemma note_pending n call x acts aw w t :
  winv w t → num_instances w = n → (0 < n)%nat → called (aw_action aw) ≠ Some call → pending n call x acts w →
  ∃ w' t', note_action aw w t = Done (w', t') ∧ moves w t w' t' ∧
    checkers w' !! call =
      Some (MkCallFxChecker x (left_over (obligations n call acts) ++ growth n acts (aw_action aw))) ∧
    (current w' = Some call ↔ quiet (acts ++ [aw_action aw])).
Proof.
  intros I <- Hn Hne [Hch Hcur]. unfold growth.
  assert (quiet (acts ++ [aw_action aw]) ↔ quiet acts ∧ called (aw_action aw) = None) as Hqs.
  { unfold quiet. by rewrite Forall_app, Forall_singleton. }
  destruct (called (aw_action aw)) as [d|] eqn:Hd.
  - destruct (note_action_moves aw w t I Hn) as (w' & t' & E & M). exists w', t'. split; [done|]. split; [done|].
    rewrite (note_call_eq _ d) in E by done. rewrite (called_no_conditions _ _ _ Hd).
    replace (if decide _ then [] else []) with (@nil (CallFxCondition (Json := Json))) by by case_decide.
    rewrite app_nil_r. destruct (sender_rx w) as [|y rest]; simplify_eq/=.
    + split; [done|]. rewrite Hqs. naive_solver.
    + rewrite lookup_insert_ne by naive_solver. split; [done|]. rewrite Hqs. naive_solver.
  - destruct (note_other_spec aw w t) as (w' & E & M & Hc & _ & Hl); [done..|].
    exists w', t. split_and!; [done..| |rewrite Hc, Hqs; naive_solver].
    rewrite Hl, Hch. destruct (decide (current w = Some call)) as [Hq|Hq].
    + rewrite (decide_True (P := quiet acts)) by naive_solver. done.
    + rewrite (decide_False (P := quiet acts)) by naive_solver. by rewrite app_nil_r.
Qed.

Lemma released w t w' t' x :
  winv w t → moves w t w' t' → sender_rx w' = sender_rx w → waits_on w x → ¬ waits_on w' x →
  x ∈ fulfilled t'.
Proof.
  intros I M Hq Hx Hx'. assert (x ∈ known t') as Hk.
  { rewrite (mv_known _ _ _ _ M). apply elem_of_union. left. apply (wi_blocked _ _ I). by left. }
  apply elem_of_union in Hk as [Hb|]; [|done]. apply (wi_blocked _ _ (mv_inv _ _ _ _ M)) in Hb as [?|Hb]; [done|].
  rewrite Hq in Hb. by destruct (wi_sep _ _ I x Hx).
Qed.

Lemma process_pending n call x acts aw w t w' t' :
  winv w t → num_instances w = n → (0 < n)%nat → called (aw_action aw) ≠ Some call → pending n call x acts w →
  process_signal (Trace aw) w t = Done (w', t') →
  (all_settled n call (acts ++ [aw_action aw]) ∧ x ∈ fulfilled t') ∨
  (¬ all_settled n call (acts ++ [aw_action aw]) ∧ pending n call x (acts ++ [aw_action aw]) w').
Proof.
  intros I Hi Hn Hne P. simpl.
  destruct (note_pending n call x acts aw w t I Hi Hn Hne P) as (w1 & t1 & -> & M1 & Hl & Hcur). simpl.
  pose proof (mv_inv _ _ _ _ M1) as I1.
  destruct (run_checks_spec aw w1 t1 I1) as (w2 & t2 & -> & M2 & Hc2 & Hq2 & Hl2). intros [= <- <-].
  pose proof (Hl2 call) as Hl2'. rewrite Hl in Hl2'. simpl in Hl2'. unfold advance in Hl2'. simpl in Hl2'.
  rewrite survivors_step in Hl2' by done. unfold all_settled. rewrite <-left_over_nil. unfold pending. rewrite Hc2.
  destruct (left_over (obligations n call (acts ++ [aw_action aw]))) as [|c l]; [left|right; done].
  split; [done|]. eapply (released w1 t1); try done; [by eexists _, _|].
  intros (k & ch & Hk & Htx). rewrite Hl2 in Hk. apply bind_Some in Hk as (ch1 & Hk & Ha).
  rewrite (advance_tx _ _ _ Ha) in Htx. pose proof (wi_inj _ _ I1 _ _ _ _ Hk Hl Htx) as ->.
  rewrite Hl2 in Hl2'. rewrite Hk in Hl2'. simpl in Hl2'. congruence.
Qed.

(** The actions reported between two states, while callbacks may be registered. *)
Inductive reports (s : TestConductor (Json := Json)) : list (Action Json) → TestConductor → Prop :=
| reports_nil : reports s [] s
| reports_register acts s1 s2 :
    reports s acts s1 → register_callback s1 = Some (Done s2) → reports s acts s2
| reports_stop acts s1 : reports s acts s1 → reports s acts (stop s1)
| reports_user acts s1 s2 msg :
    reports s acts s1 → receive (User msg) s1 = Done s2 → reports s acts s2
| reports_trace acts s1 s2 aw :
    reports s acts s1 → receive (Trace aw) s1 = Done s2 → reports s (acts ++ [aw_action aw]) s2.

(** Everything the call gave rise to was settled at some time, and the promise is fulfilled;
    or this never was so, and the checker has what is missing. *)
Definition tracked (n : nat) (call : ZomeFnCall) (x : ControlSender) (acts : list (Action Json))
    (s : TestConductor (Json := Json)) : Prop :=
  ∃ w, background s = Some w ∧
    (((∃ seen, seen `prefix_of` acts ∧ all_settled n call seen) ∧ x ∈ fulfilled (tasks s)) ∨
     ((∀ seen, seen `prefix_of` acts → ¬ all_settled n call seen) ∧ pending n call x acts w)).

Lemma register_tracked n call x acts s s' :
  register_callback s = Some (Done s') → tracked n call x acts s → tracked n call x acts s'.
Proof.
  unfold register_callback. intros Hr (w & Hb & Ht). rewrite Hb in Hr.
  destruct (sender_rx w); [|done]. injection Hr as <-. eexists. split; [done|]. done.
Qed.

Lemma prefix_snoc_cases {A : Type} (l k : list A) (b : A) :
  k `prefix_of` l ++ [b] → k `prefix_of` l ∨ k = l ++ [b].
Proof.
  intros [r Hr]. destruct r as [|y r _] using rev_ind.
  - right. by rewrite app_nil_r in Hr.
  - left. rewrite app_assoc in Hr. apply app_inj_tail in Hr as [-> _]. by exists r.
Qed.

Lemma trace_tracked n call x acts aw s s' :
  (0 < n)%nat → tcinv n s → called (aw_action aw) ≠ Some call →
  receive (Trace aw) s = Done s' → tracked n call x acts s → tracked n call x (acts ++ [aw_action aw]) s'.
Proof.
  intros Hn T Hne. unfold receive. intros Hr (w & Hb & Ht). rewrite Hb in Hr.
  destruct (ti_waiter _ _ T w Hb) as [I Hi].
  assert (0 < num_instances w)%nat as Hn' by lia.
  destruct (process_signal_moves (Trace aw) w (tasks s) I Hn') as (w' & t' & E & M).
  pose proof E as E'. rewrite E in Hr. injection Hr as <-. exists w'. split; [done|]. simpl.
  destruct Ht as [[(seen & Hs & Ha) Hf]|[Hno P]].
  - left. split; [|by apply (mv_fulfilled _ _ _ _ M)]. exists seen. split; [by apply prefix_app_r|done].
  - destruct (process_pending n call x acts aw w (tasks s) w' t') as [[Ha Hf]|[Ha P']]; try done.
    + left. split; [|done]. by exists (acts ++ [aw_action aw]).
    + right. split; [|done]. intros seen [Hs|Hs]%prefix_snoc_cases; [by apply Hno|by subst].
Qed.

Lemma reports_tracked n call x s acts s' :
  (0 < n)%nat → tcinv n s → tracked n call x [] s → reports s acts s' →
  Forall (λ a, called a ≠ Some call) acts → tcinv n s' ∧ tracked n call x acts s'.
Proof.
  intros Hn T Ht. induction 1 as [|acts s1 s2 H1 IH Hr|acts s1 H1 IH|acts s1 s2 msg H1 IH Hr|acts s1 s2 aw H1 IH Hr];
    intros Hne.
  - done.
  - destruct (IH Hne) as [T1 Ht1]. split; [by eapply tc_register_inv|by eapply register_tracked].
  - destruct (IH Hne) as [[] Ht1]. done.
  - destruct (IH Hne) as [T1 (w & Hb & Ht1)]. unfold receive in Hr. rewrite Hb in Hr.
    assert (s2 = s1) as ->; [|by split; [|exists w]]. destruct s1. by simplify_eq/=.
  - apply Forall_app in Hne as [Hne [Ha _]%Forall_cons]. destruct (IH Hne) as [T1 Ht1].
    destruct (tc_receive_inv n (Trace aw) s1 Hn T1) as (s2' & Hr' & T2 & _). rewrite Hr in Hr'. injection Hr' as <-.
    split; [done|]. by apply (trace_tracked n call x acts aw s1).
Qed.

(** A registered call is tracked from its first signal on. *)
Lemma call_tracked n s s1 w call x rest id :
  (0 < n)%nat → tcinv n s → background s = Some w → sender_rx w = x :: rest →
  receive (Trace (MkActionWrapper (ASignalZomeFunctionCall call) id)) s = Done s1 → tracked n call x [] s1.
Proof.
  intros Hn T Hb Hq. unfold receive. rewrite Hb. simpl.
  rewrite (note_call_eq _ call) by done. rewrite Hq. simpl.
  destruct (ti_waiter _ _ T w Hb) as [I Hi].
  pose proof (winv_with_call call x rest w (tasks s) I Hq) as M1.
  destruct (run_checks_spec (MkActionWrapper (ASignalZomeFunctionCall call) id) _ _ (mv_inv _ _ _ _ M1))
    as (w2 & t2 & -> & M2 & Hc & _ & Hl). intros [= <-]. exists w2. split; [done|]. right. split.
  - intros seen ->%prefix_nil_inv [Hs _]%Forall_cons. unfold settled, matches in Hs. simpl in Hs. lia.
  - split; [|rewrite Hc; simpl; split; [constructor|done]]. rewrite Hl. simpl. rewrite lookup_insert_eq. done.
Qed.

Lemma fulfilled_iff n s w call x rest id s1 acts s2 :
  (0 < n)%nat → rtc tc_step (start n) s → background s = Some w → sender_rx w = x :: rest →
  receive (Trace (MkActionWrapper (ASignalZomeFunctionCall call) id)) s = Done s1 →
  reports s1 acts s2 → ASignalZomeFunctionCall call ∉ acts →
  x ∈ fulfilled (tasks s2) ↔ ∃ seen, seen `prefix_of` acts ∧ all_settled n call seen.
Proof.
  intros Hn Hs Hb Hq Hr Hrep Hno. pose proof (reachable_inv n s Hn Hs) as T.
  pose proof (call_tracked n s s1 w call x rest id Hn T Hb Hq Hr) as Ht.
  destruct (tc_receive_inv n (Trace (MkActionWrapper (ASignalZomeFunctionCall call) id)) s Hn T)
    as (s1' & Hr' & T1 & _). rewrite Hr in Hr'. injection Hr' as <-.
  destruct (reports_tracked n call x s1 acts s2) as [T2 (w2 & Hb2 & [Hd|[Hnd P]])]; try done.
  - apply Forall_forall. intros a Ha Hc. by destruct a; simplify_eq/=.
  - naive_solver.
  - split; [|intros (seen & ? & ?); by destruct (Hnd seen)]. intros Hf. destruct P as [P _].
    destruct (ti_waiter _ _ T2 w2 Hb2) as [I2 _]. destruct (wi_apart _ _ I2 x); [|done].
    apply (wi_blocked _ _ I2). left. by eexists _, _.
Qed.

(** ** The specification in terms of the actions *)
Definition tally (f : Action Json → bool) (acts : list (Action Json)) : nat := length (List.filter f acts).

Definition holds_entry (e : Entry.t) (a : Action Json) : bool :=
  match a with AHold ewh => bool_decide (address (ewh_entry ewh) = address e) | _ => false end.
Definition updates (old new : Address) (a : Action Json) : bool :=
  match a with AUpdateEntry o n => bool_decide ((o, n) = (old, new)) | _ => false end.
Definition removes (deleted deletion : Address) (a : Action Json) : bool :=
  match a with ARemoveEntry x y => bool_decide ((x, y) = (deleted, deletion)) | _ => false end.
Definition adds_link (l : Link) (a : Action Json) : bool :=
  match a with AAddLink l' => bool_decide (l' = l) | _ => false end.
Definition removes_link (l : Link) (a : Action Json) : bool :=
  match a with ARemoveLink l' => bool_decide (l' = l) | _ => false end.
Definition ends_pending (p : PendingValidation) (a : Action Json) : bool :=
  match a with
  | ARemovePendingValidation ad wf =>
      bool_decide ((ad, wf) = (address (ewh_entry (pv_entry_with_header p)), pv_workflow p))
  | _ => false
  end.

(** What an action of the call needs to be followed by. *)
Definition awaited (n : nat) (a : Action Json) (post : list (Action Json)) : Prop :=
  match a with
  | ACommit e old _ =>
      (n ≤ tally (holds_entry e) post)%nat ∧
      match e, old with
      | Entry.App _ _, Some old => (n ≤ tally (updates old (address e)) post)%nat
      | Entry.Deletion deleted, _ => (n ≤ tally (removes deleted (address e)) post)%nat
      | Entry.LinkAdd data, _ => (n ≤ tally (adds_link (link data)) post)%nat
      | Entry.LinkRemove data, _ => (n ≤ tally (removes_link (link data)) post)%nat
      | _, _ => True
      end
  | AAddPendingValidation p => (1 ≤ tally (ends_pending p) post)%nat
  | _ => True
  end.

(** The call has returned, and each action before the next call was followed by what it
    needs. *)
Definition done_by (n : nat) (call : ZomeFnCall) (acts : list (Action Json)) : Prop :=
  (∃ r, AReturnZomeFunctionResult (MkExecuteZomeFnResponse call r) ∈ acts) ∧
  ∀ pre a post, acts = pre ++ a :: post → quiet (pre ++ [a]) → awaited n a post.

Lemma tally_ext (f g : Action Json → bool) acts : (∀ a, f a = g a) → tally f acts = tally g acts.
Proof. intros Hfg. unfold tally. by rewrite (List.filter_ext f g). Qed.

Lemma settled_tally n f g a post :
  (∀ b, f b = g b) → f a = false →
  settled (MkCallFxCondition n f, a :: post) ↔ (n ≤ tally g post)%nat.
Proof.
  intros Hfg Ha. unfold settled, matches. simpl. rewrite Ha. by rewrite <-(tally_ext f g post Hfg).
Qed.

Lemma bool_decide_pair {A B : Type} `{EqDecision A} `{EqDecision B} (x y : A) (u v : B) :
  bool_decide ((x, u) = (y, v)) = bool_decide (x = y) && bool_decide (u = v).
Proof. rewrite <-bool_decide_and. apply bool_decide_ext. naive_solver. Qed.

Lemma awaited_settled n a post :
  Forall settled ((λ c, (c, a :: post)) <$> new_conditions n a) ↔ awaited n a post.
Proof.
  unfold awaited. destruct a; cbn [new_conditions]; try (split; [done|constructor]).
  - unfold commit_conditions. rewrite fmap_cons, Forall_cons, (settled_tally n _ (holds_entry entry)); [|by intros []|done].
    apply and_iff_compat_l. destruct entry; try (split; [done|constructor]).
    + destruct maybe_link_update_delete as [old|]; [|by split].
      rewrite list_fmap_singleton, Forall_singleton. apply settled_tally; [|done]. intros []; try done. symmetry. apply bool_decide_pair.
    + rewrite list_fmap_singleton, Forall_singleton. apply settled_tally; [|done]. intros []; try done. symmetry. apply bool_decide_pair.
    + rewrite list_fmap_singleton, Forall_singleton. by apply settled_tally.
    + rewrite list_fmap_singleton, Forall_singleton. by apply settled_tally.
  - rewrite list_fmap_singleton, Forall_singleton. apply settled_tally; [|done]. intros []; try done. symmetry. apply bool_decide_pair.
Qed.

Lemma owed_done n acts :
  Forall settled (owed n acts) ↔ ∀ pre a post, acts = pre ++ a :: post → quiet (pre ++ [a]) → awaited n a post.
Proof.
  induction acts as [|b acts IH].
  - split; [by intros _ []|constructor].
  - cbn [owed]. destruct (called b) as [d|] eqn:Hb.
    + split; [|constructor]. intros _ [|b' pre] a post [= <- ->] Hq; exfalso;
        apply Forall_cons in Hq as [Hq _]; congruence.
    + rewrite Forall_app, awaited_settled, IH. split.
      * intros [Ha Hrest] [|b' pre] a post [= <- Heq]; [by subst|]. intros [_ Hq]%Forall_cons. by eapply Hrest.
      * intros Hall. split; [apply (Hall []); [done|by apply Forall_singleton]|].
        intros pre a post -> Hq. apply (Hall (b :: pre)); [done|]. by constructor.
Qed.

Lemma returned_iff call acts :
  settled (MkCallFxCondition 1 (is_return call), acts) ↔
  ∃ r, AReturnZomeFunctionResult (MkExecuteZomeFnResponse call r) ∈ acts.
Proof.
  unfold settled, matches. simpl. induction acts as [|a acts IH]; simpl.
  - split; [lia|]. by intros [r ?%elem_of_nil].
  - destruct (is_return call a) eqn:Ha; simpl.
    + split; [intros _|lia]. destruct a as [| | | | | | | | | | | | | | | | | | | | | | | | | |[c r]| | | |]; try done.
      simpl in Ha. apply bool_decide_eq_true in Ha as ->. exists r. apply list_elem_of_here.
    + rewrite IH. split; intros [r Hr]; exists r; [by apply list_elem_of_further|].
      apply elem_of_cons in Hr as [<-|?]; [|done]. simpl in Ha. by rewrite bool_decide_eq_true_2 in Ha.
Qed.

Lemma all_settled_done n call acts : all_settled n call acts ↔ done_by n call acts.
Proof. unfold all_settled, obligations, done_by. by rewrite Forall_cons, returned_iff, owed_done. Qed.

(** C29: the promise of a registered call is fulfilled exactly when, at some time since, the
    call had returned and each action before the next call had been followed by what it
    needs: a commit by as many holds of the entry (and applications of the link, the update
    or the removal) as there are instances, and a pending validation by its end.  The
    counters and maps of the waiter thus implement a specification on the sequence of
    reported actions. *)
Theorem promise_fulfilled_iff n s w call x rest id s1 acts s2 :
  (0 < n)%nat → rtc tc_step (start n) s → background s = Some w → sender_rx w = x :: rest →
  receive (Trace (MkActionWrapper (ASignalZomeFunctionCall call) id)) s = Done s1 →
  reports s1 acts s2 → ASignalZomeFunctionCall call ∉ acts →
  x ∈ fulfilled (tasks s2) ↔ ∃ seen, seen `prefix_of` acts ∧ done_by n call seen.
Proof. intros. setoid_rewrite <-all_settled_done. by eapply fulfilled_iff. Qed.

(** a call that the called function makes takes the waiter's attention away.  Once another
    call is signalled, nothing that is committed is waited for: whatever the two functions
    commit from then on, the promise of the outer call is fulfilled when that call
    returns, although no instance need hold any of it. *)
Theorem nested_call_untracked n s w outer inner x rest id s1 acts r s2 :
  (0 < n)%nat → rtc tc_step (start n) s → background s = Some w → sender_rx w = x :: rest →
  receive (Trace (MkActionWrapper (ASignalZomeFunctionCall outer) id)) s = Done s1 →
  reports s1 (ASignalZomeFunctionCall inner :: acts ++
              [AReturnZomeFunctionResult (MkExecuteZomeFnResponse outer r)]) s2 →
  inner ≠ outer → ASignalZomeFunctionCall outer ∉ acts →
  x ∈ fulfilled (tasks s2).
Proof.
  intros Hn Hs Hb Hq Hr Hrep Hne Hno.
  eapply (fulfilled_iff n s w outer x rest id s1); try done.
  - set_solver.
  - eexists. split; [done|]. unfold all_settled, obligations. simpl. constructor; [|done].
    unfold settled, matches. simpl. rewrite List.filter_app, length_app. simpl.
    rewrite bool_decide_eq_true_2 by done. simpl. lia.
Qed.

(** ** One hold counts for every commit of its entry *)
Lemma matches_app c acts1 acts2 : matches c (acts1 ++ acts2) = (matches c acts1 + matches c acts2)%nat.
Proof. unfold matches. by rewrite List.filter_app, length_app. Qed.

Lemma matches_all c acts : Forall (λ a, predicate c a = true) acts → matches c acts = length acts.
Proof.
  unfold matches. induction 1 as [|a acts Ha _ IH]; [done|]. simpl. rewrite Ha. simpl. by rewrite IH.
Qed.

Lemma owed_quiet n acts : Forall (λ a, called a = None ∧ new_conditions n a = []) acts → owed n acts = [].
Proof. induction 1 as [|a acts [Hc Hn] _ IH]; [done|]. simpl. by rewrite Hc, Hn, IH. Qed.

(** An entry that is committed twice is waited for as if it had been committed once: [n] holds
    settle both commits. *)
Theorem repeated_commit_shares_holds n call ty v ps1 ps2 (ewhs : list EntryWithHeader) r :
  length ewhs = n → Forall (λ ewh, ewh_entry ewh = Entry.App ty v) ewhs →
  all_settled n call
    (ACommit (Entry.App ty v) None ps1 :: ACommit (Entry.App ty v) None ps2 ::
     (AHold <$> ewhs) ++ [AReturnZomeFunctionResult (MkExecuteZomeFnResponse call r)]).
Proof.
  intros Hlen Hall. set (tl := (AHold <$> ewhs) ++ [_]).
  assert (owed n tl = []) as Ho.
  { apply owed_quiet, Forall_app. split; [|by repeat constructor]. apply Forall_fmap.
    by apply Forall_true. }
  assert (n ≤ matches (MkCallFxCondition n (is_hold (Entry.App ty v))) tl)%nat as Hm.
  { unfold tl. rewrite matches_app, matches_all, length_fmap; [lia|]. apply Forall_fmap.
    eapply Forall_impl; [exact Hall|]. intros ewh He. simpl. unfold entry_eq. rewrite He.
    by apply bool_decide_eq_true_2. }
  assert (1 ≤ matches (MkCallFxCondition 1 (is_return call)) tl)%nat as Hr.
  { unfold tl. rewrite matches_app. unfold matches at 2. simpl. rewrite bool_decide_eq_true_2 by done.
    simpl. lia. }
  unfold all_settled, obligations. simpl. rewrite Ho. by repeat constructor.
Qed.

(** ** Waiting for the agents *)
Definition holds_agent (key : string) (sig : Signal (Json := Json)) : Prop :=
  ∃ aw ewh id, sig = Trace aw ∧ aw_action aw = AHold ewh ∧ ewh_entry ewh = Entry.AgentId id ∧
    pub_sign_key id = key.

(** When the loop ends, every agent's id was held among the signals it took. *)
Theorem agents_held addresses signals rest :
  await_held_agent_ids addresses signals = Some rest →
  ∃ taken, signals = taken ++ rest ∧ ∀ key, key ∈ addresses → ∃ sig, sig ∈ taken ∧ holds_agent key sig.
Proof.
  revert addresses. induction signals as [|sig signals IH]; intros addresses; [done|].
  destruct sig as [aw|msg]; simpl.
  2: { intros (taken & -> & Ht)%IH. exists (User msg :: taken). split; [done|]. set_solver. }
  set (addresses' := match aw_action aw with AHold _ => _ | _ => _ end).
  assert (∀ key, key ∈ addresses → key ∈ addresses' ∨ holds_agent key (Trace aw)) as Hk.
  { intros key Hkey. unfold addresses'. destruct (aw_action aw) eqn:Ea; try by left.
    destruct (ewh_entry ewh) eqn:Ee; try by left.
    destruct (decide (key = pub_sign_key agent_id)) as [->|]; [right|left; set_solver].
    by exists aw, ewh, agent_id. }
  case_decide as Hemp.
  - intros [= <-]. exists [Trace aw]. split; [done|]. intros key [?|?]%Hk; [set_solver|].
    exists (Trace aw). set_solver.
  - intros (taken & -> & Ht)%IH. exists (Trace aw :: taken). split; [done|].
    intros key [(sig & ? & ?)%Ht|?]%Hk; [exists sig|exists (Trace aw)]; set_solver.
Qed.
End facts.

(** ** Examples *)
Module WaiterDemo.
#[local] Existing Instance plain_wire.

Definition call_of (fn : string) (id : nat) : ZomeFnCall :=
  MkZomeFnCall id "posts" (MkCapabilityRequest "token" (MkProvenance "alice" "sig")) fn "{}".
Definition note : Entry.t := Entry.App "post" "hello".
Definition commit : Action unit := ACommit note None [].
Definition hold : Action unit :=
  AHold (MkEntryWithHeader note (MkHeader (EntryType.App "post") "a" [] None None None "")).
Definition returned_from (c : ZomeFnCall) : Action unit :=
  AReturnZomeFunctionResult (MkExecuteZomeFnResponse c (Ok "")).

(** One instance, and one callback. *)
Definition registered : TestConductor (Json := unit) :=
  match register_callback (start 1) with Some (Done s) => s | _ => start 1 end.
Definition after (s : TestConductor (Json := unit)) (a : Action unit) : TestConductor :=
  match receive (Trace (MkActionWrapper a 0%nat)) s with Done s' => s' | Panicked _ => s end.

Lemma registered_reachable : rtc tc_step (start 1) registered.
Proof. apply rtc_once. by apply step_register. Qed.

Lemma after_eq s a :
  panics (receive (Trace (MkActionWrapper a 0%nat)) s) = false →
  receive (Trace (MkActionWrapper a 0%nat)) s = Done (after s a).
Proof. unfold after. by destruct (receive _ s). Qed.

Lemma reports_after s acts s1 a :
  reports s acts s1 → panics (receive (Trace (MkActionWrapper a 0%nat)) s1) = false →
  reports s (acts ++ [a]) (after s1 a).
Proof. intros Hr Hp. apply (reports_trace s acts s1 _ (MkActionWrapper a 0%nat) Hr). by apply after_eq. Qed.

Lemma promises_kept_witness :
  ∃ s', finish registered = Done s' ∧ ∀ x, (x < channels registered)%nat → x ∈ fulfilled (tasks s').
Proof. apply (promises_kept 1 registered); [lia|apply registered_reachable]. Defined.

Definition outer : ZomeFnCall := call_of "create" 1.
Definition inner : ZomeFnCall := call_of "index" 2.
Definition called_once : TestConductor := after registered (ASignalZomeFunctionCall outer).

(** The function commits and returns, and then the entry is held. *)
Definition committed : TestConductor := after called_once commit.
Definition awaiting : TestConductor := after committed (returned_from outer).

Lemma promise_fulfilled_iff_witness :
  0%nat ∉ fulfilled (tasks awaiting) ∧ 0%nat ∈ fulfilled (tasks (after awaiting hold)).
Proof.
  split.
  - by_decide.
  - apply (promise_fulfilled_iff 1 registered (MkWaiter ∅ None [0%nat] 1) outer 0%nat [] 0%nat called_once
      [commit; returned_from outer; hold]).
    + lia.
    + apply registered_reachable.
    + reflexivity.
    + reflexivity.
    + apply after_eq. by vm_compute.
    + apply (reports_after _ [commit; returned_from outer] awaiting hold); [|by vm_compute].
      apply (reports_after _ [commit] committed (returned_from outer)); [|by vm_compute].
      apply (reports_after _ [] called_once commit); [constructor|by vm_compute].
    + by intros Hin; repeat (apply elem_of_cons in Hin as [Hin|Hin]; [discriminate Hin|]); apply elem_of_nil in Hin.
    + exists [commit; returned_from outer; hold]. split; [done|].
      apply all_settled_done. repeat constructor; vm_compute; lia.
Defined.

(** The function calls another one, which commits; nobody holds the entry. *)
Definition called_twice : TestConductor := after called_once (ASignalZomeFunctionCall inner).
Definition committed_inside : TestConductor := after called_twice commit.

Lemma nested_call_untracked_witness :
  0%nat ∈ fulfilled (tasks (after committed_inside (returned_from outer))).
Proof.
  apply (nested_call_untracked 1 registered (MkWaiter ∅ None [0%nat] 1) outer inner 0%nat [] 0%nat called_once
    [commit] (Ok "")).
  - lia.
  - apply registered_reachable.
  - reflexivity.
  - reflexivity.
  - apply after_eq. by vm_compute.
  - apply (reports_after _ [ASignalZomeFunctionCall inner; commit] committed_inside (returned_from outer));
      [|by vm_compute].
    apply (reports_after _ [ASignalZomeFunctionCall inner] called_twice commit); [|by vm_compute].
    apply (reports_after _ [] called_once (ASignalZomeFunctionCall inner)); [constructor|by vm_compute].
  - discriminate.
  - by intros Hin; repeat (apply elem_of_cons in Hin as [Hin|Hin]; [discriminate Hin|]); apply elem_of_nil in Hin.
Defined.
End WaiterDemo.
