(* ===== verification/Package.v ===== *)
(** * Packaging a project

    [cli/src/cli/package.rs] and [cli/src/config_files/build.rs]: a directory with the sources
    of a DNA is bundled into one JSON object, and a bundle is unpacked into a directory
    again.  The section [__META__] of an object says which of its members are files,
    directories or compiled code, and which file the other members come from.

    The commands of a build, the wasm code's own definition of its zome, the rules for
    ignored files, JSON texts, the derived reader of a DNA and base64 are parameters. *)
From S2P Require Import Prelude Errors WasmMemory JsonString Strings Eav Files.

(** ** JSON values

    An object keeps the order of insertion ([serde_json] with [preserve_order]). *)
Inductive Value :=
| Null
| Bool (b : bool)
| Number (literal : string)
| Str (s : string)
| Array (l : list Value)
| Obj (members : list (string * Value)).

Abbreviation Object := (list (string * Value)).

Fixpoint obj_get (k : string) (o : Object) : option Value :=
  match o with
  | [] => None
  | (k', v) :: o => if decide (k' = k) then Some v else obj_get k o
  end.

(** [Map::insert]: the value of a key that is present is replaced where it is. *)
Fixpoint obj_insert (k : string) (v : Value) (o : Object) : Object :=
  match o with
  | [] => [(k, v)]
  | (k', v') :: o => if decide (k' = k) then (k', v) :: o else (k', v') :: obj_insert k v o
  end.

(** [Map::remove]: the last member takes the place of the one that is removed. *)
Fixpoint swap_in (k : string) (filler : string * Value) (o : Object) : Object :=
  match o with
  | [] => []
  | (k', v') :: o => if decide (k' = k) then filler :: o else (k', v') :: swap_in k filler o
  end.
Definition obj_remove (k : string) (o : Object) : option (Value * Object) :=
  match obj_get k o, last o with
  | Some v, Some filler =>
      let front := take (length o - 1) o in
      Some (v, if decide (filler.1 = k) then front else swap_in k filler front)
  | _, _ => None
  end.

(** The length of the longest chain of nested values. *)
Fixpoint depth (v : Value) : nat :=
  match v with
  | Array l => S (foldr (λ v n, depth v `max` n)%nat 0%nat l)
  | Obj members => S (foldr (λ kv n, depth kv.2 `max` n)%nat 0%nat members)
  | _ => 0%nat
  end.

(** ** Directories *)
Abbreviation path := (list string).
Abbreviation data := (list Ascii.ascii).

(** The children of a directory in the order in which they are listed. *)
Inductive Node :=
| FileNode (content : data)
| DirNode (children : list (string * Node)).

Definition is_file (n : Node) : bool := match n with FileNode _ => true | DirNode _ => false end.
Definition is_dir (n : Node) : bool := match n with FileNode _ => false | DirNode _ => true end.
Definition children (n : Node) : list (string * Node) :=
  match n with FileNode _ => [] | DirNode l => l end.

Record Build := MkBuild {
  steps : list (string * list string);
  artifact : string;
}.

(** What packaging uses of its surroundings. *)
Class Toolbox := {
  ignored : path → bool;
  parse_object : data → option Object;
  print_object : Object → data;
  print_value : Value → string;
  base64_encode : data → string;
  base64_decode : string → result string data;
  parse_build : data → result string Build;
  run_cmd : path → string → list string → result string unit;
  built : path → option data;
  json_definition : data → result string Object;
  dna_try_from : string → result string unit;
}.

Definition CODE_DIR_NAME : string := "code".
Definition BUILD_CONFIG_FILE_NAME : string := ".hcbuild".
Definition WASM_FILE_EXTENSION : string := "wasm".
Definition META_FILE_ID : string := "file".
Definition META_DIR_ID : string := "dir".
Definition META_BIN_ID : string := "bin".
Definition META_SECTION_NAME : string := "__META__".
Definition META_TREE_SECTION_NAME : string := "tree".
Definition META_CONFIG_SECTION_NAME : string := "config_file".

(** [ends_with(".json")]. *)
Definition ends_with_json (name : string) : bool :=
  bool_decide (String.substring (String.length name - 5) 5 name = ".json").

Section package.
Context `{Toolbox}.

(** ** Builds *)

(** [Build::run]. *)
Fixpoint run_steps (base_path : path) (l : list (string * list string)) : result string unit :=
  match l with
  | [] => Ok tt
  | (bin, args) :: l => _ ← run_cmd base_path bin args; run_steps base_path l
  end.

Definition build_run (b : Build) (base_path : path) : result string string :=
  _ ← run_steps base_path (steps b);
  match built (path_join base_path (artifact b)) with
  | Some wasm_buf => Ok (base64_encode wasm_buf)
  | None => Err "artifact path either doesn't point to a file or doesn't exist"
  end.

Fixpoint child (name : string) (l : list (string * Node)) : option Node :=
  match l with
  | [] => None
  | (k, n) :: l => if decide (k = name) then Some n else child name l
  end.

(** [Build::from_file(path)]. *)
Definition build_from_file (o : option Node) : result string Build :=
  match o with
  | Some (FileNode text) => parse_build text
  | _ => Err "cannot open the file"
  end.

(** The first directory among the children that has a build file. *)
Fixpoint dir_with_code (l : list (string * Node)) : option (string * Node) :=
  match l with
  | [] => None
  | (k, n) :: l =>
      if is_dir n && bool_decide (is_Some (child BUILD_CONFIG_FILE_NAME (children n)))
      then Some (k, n) else dir_with_code l
  end.

(** ** Bundling *)

(** The nodes [WalkBuilder] lists. *)
Definition visible (at_ : path) (l : list (string * Node)) : list (string * Node) :=
  List.filter (λ e, negb (ignored (at_ ++ [e.1]))) l.

Fixpoint find_json (l : list (string * Node)) : option (string * data) :=
  match l with
  | [] => None
  | (k, FileNode text) :: l => if ends_with_json k then Some (k, text) else find_json l
  | _ :: l => find_json l
  end.

Definition is_config (config : option (string * data)) (k : string) : bool :=
  match config with Some (name, _) => bool_decide (name = k) | None => false end.

(** A text that is no object counts as an empty one; a text that is not UTF-8 cannot be read. *)
Definition config_tree (config : option (string * data)) : Object :=
  match config with
  | Some (_, text) => default [] (parse_object text)
  | None => []
  end.
Definition read_config (config : option (string * data)) : result string Object :=
  match config with
  | Some (_, text) =>
      if from_utf8 text then Ok (config_tree config) else Err "stream did not contain valid UTF-8"
  | None => Ok (config_tree config)
  end.

Definition insert_members (o defs : Object) : Object := foldl (λ o kv, obj_insert kv.1 kv.2 o) o defs.

(** The body of the loop over the nodes, with the recursive call as an argument.  The state
    is the main tree and the meta tree. *)
Definition bundle_node (recurse : path → Node → result string Object) (at_ : path)
    (e : string * Node) (st : Object * Object) : result string (Object * Object) :=
  let '(file_name, node) := e in
  let '(main_tree, meta_tree) := st in
  let noted kind := obj_insert file_name (Str kind) meta_tree in
  match node with
  | FileNode content =>
      match main_tree with
      | [] => Ok (main_tree, meta_tree)
      | _ => Ok (obj_insert file_name (Str (base64_encode content)) main_tree, noted META_FILE_ID)
      end
  | DirNode sub =>
      match dir_with_code sub with
      | Some (code_name, code) =>
          build ← build_from_file (child BUILD_CONFIG_FILE_NAME (children code));
          wasm ← build_run build (at_ ++ [file_name; code_name]);
          wasm_binary ← base64_decode wasm;
          json_from_wasm ← json_definition wasm_binary;
          sub_tree_content ← recurse (at_ ++ [file_name]) node;
          Ok (obj_insert file_name (Obj (insert_members sub_tree_content json_from_wasm)) main_tree,
              noted META_DIR_ID)
      | None =>
          match child BUILD_CONFIG_FILE_NAME sub with
          | Some build_config =>
              build ← build_from_file (Some build_config);
              wasm ← build_run build (at_ ++ [file_name]);
              Ok (obj_insert file_name (Obj [(CODE_DIR_NAME, Str wasm)]) main_tree, noted META_BIN_ID)
          | None =>
              sub_tree_content ← recurse (at_ ++ [file_name]) node;
              Ok (obj_insert file_name (Obj sub_tree_content) main_tree, noted META_DIR_ID)
          end
      end
  end.

(** [for node in all_nodes]: visible nodes other than the configuration file. *)
Definition bundle_nodes (recurse : path → Node → result string Object) (at_ : path)
    (config : option (string * data)) : list (string * Node) → Object * Object →
    result string (Object * Object) :=
  fix loop l st :=
    match l with
    | [] => Ok st
    | e :: l =>
        if ignored (at_ ++ [e.1]) || is_config config e.1 then loop l st
        else st ← bundle_node recurse at_ e st; loop l st
    end.

(** The section [__META__] of a directory. *)
Definition meta_section (config : option (string * data)) (meta_tree : Object) : Object :=
  match config with
  | Some (file_name, _) => [(META_CONFIG_SECTION_NAME, Str file_name)]
  | None => []
  end ++
  match meta_tree with [] => [] | _ => [(META_TREE_SECTION_NAME, Obj meta_tree)] end.

Definition with_meta (strip_meta : bool) (config : option (string * data)) (st : Object * Object) : Object :=
  if strip_meta then st.1
  else match meta_section config st.2 with
       | [] => st.1
       | section => obj_insert META_SECTION_NAME (Obj section) st.1
       end.

Fixpoint bundle_recurse (strip_meta : bool) (at_ : path) (node : Node) : result string Object :=
  match node with
  | FileNode _ => Ok []
  | DirNode l =>
      let config := find_json (visible at_ l) in
      main_tree ← read_config config;
      st ← bundle_nodes (bundle_recurse strip_meta) at_ config l (main_tree, []);
      Ok (with_meta strip_meta config st)
  end.

(** [Packager::run]: the text that is written to the output file, once the bundle has been read
    as a DNA. *)
Definition package (strip_meta : bool) (at_ : path) (root : Node) : result string data :=
  o ← bundle_recurse strip_meta at_ root;
  _ ← dna_try_from (from_json (print_value (Obj o)));
  Ok (print_object o).
End package.

(** ** Unpacking *)

(** A file or a directory of the disk, at the path it is reached by. *)
Inductive FsNode := FsFile (content : data) | FsDir.
#[global] Instance FsNode_eq_dec : EqDecision FsNode.
Proof. solve_decision. Defined.
Abbreviation FsTree := (gmap path FsNode).

Definition parent (p : path) : path := take (length p - 1) p.
Definition is_directory (d : FsTree) (p : path) : bool :=
  match d !! p with Some FsDir => true | _ => false end.

(** [File::create(p)?.write_all(content)?] and [fs::create_dir(p)?]. *)
Definition create_file (p : path) (content : data) : stateful FsTree string unit := λ d,
  if decide (p ≠ [] ∧ is_directory d (parent p) = true ∧ d !! p ≠ Some FsDir)
  then Done (<[p := FsFile content]> d, Ok tt)
  else Done (d, Err "cannot create the file").
Definition create_dir (p : path) : stateful FsTree string unit := λ d,
  if decide (p ≠ [] ∧ is_directory d (parent p) = true ∧ d !! p = None)
  then Done (<[p := FsDir]> d, Ok tt)
  else Done (d, Err "cannot create the directory").

Section unpack.
Context `{Toolbox}.

(** One member of the meta tree, with the recursive call as an argument. *)
Definition unpack_entry (recurse : Object → path → stateful FsTree string unit) (to : path)
    (meta_entry : string) (meta_value entry : Value) : stateful FsTree string unit :=
  match meta_value with
  | Str node_type =>
      if decide (node_type = META_FILE_ID) then
        match entry with
        | Str base64_content =>
            content ← lift (base64_decode base64_content);
            create_file (resolve (path_join to meta_entry)) content
        | _ => throw "incompatible meta section"
        end
      else if decide (node_type = META_BIN_ID) then
        match entry with
        | Obj members =>
            content ← lift (base64_decode (print_value (default Null (obj_get meta_entry members))));
            create_file (resolve (with_extension (path_join to meta_entry) WASM_FILE_EXTENSION)) content
        | _ => throw "incompatible meta section"
        end
      else if decide (node_type = META_DIR_ID) then
        match entry with
        | Obj directory_obj =>
            let dir_path := path_join to meta_entry in
            create_dir (resolve dir_path) ;;
            recurse directory_obj dir_path
        | _ => throw "incompatible meta section"
        end
      else throw "incompatible meta section"
  | _ => throw "incompatible meta section"
  end.

(** [for (meta_entry, meta_value) in tree_meta_obj]; the result is what is left of the
    object. *)
Fixpoint unpack_entries (recurse : Object → path → stateful FsTree string unit) (to : path)
    (tree_meta_obj : Object) (obj : Object) : stateful FsTree string Object :=
  match tree_meta_obj with
  | [] => mret obj
  | (meta_entry, meta_value) :: l =>
      match obj_remove meta_entry obj with
      | None => throw "incompatible meta section"
      | Some (entry, obj) =>
          unpack_entry recurse to meta_entry meta_value entry ;;
          unpack_entries recurse to l obj
      end
  end.

Definition unpack_config (to : path) (main_meta_obj obj : Object) : stateful FsTree string unit :=
  match obj_get META_CONFIG_SECTION_NAME main_meta_obj with
  | Some (Str name) =>
      match obj with
      | [] => mret tt
      | _ => create_file (resolve (path_join to name)) (print_object obj)
      end
  | Some _ => throw "config file has to be a string"
  | None => mret tt
  end.

(** [unpack_recurse], to a number of nested objects. *)
Fixpoint unpack_recurse (fuel : nat) (obj : Object) (to : path) : stateful FsTree string unit :=
  match fuel with
  | O => panic "out of fuel"
  | S fuel =>
      match obj_remove META_SECTION_NAME obj with
      | Some (Obj main_meta_obj, obj) =>
          match obj_remove META_TREE_SECTION_NAME main_meta_obj with
          | Some (Obj tree_meta_obj, main_meta_obj) =>
              obj ← unpack_entries (unpack_recurse fuel) to tree_meta_obj obj;
              unpack_config to main_meta_obj obj
          | Some (_, main_meta_obj) => unpack_config to main_meta_obj obj
          | None => unpack_config to main_meta_obj obj
          end
      | _ => mret tt
      end
  end.

(** [unpack], on the text of the package; the directory [to] exists. *)
Definition unpack (text : data) (to : path) : stateful FsTree string unit :=
  match parse_object text with
  | Some bundle_content => unpack_recurse (S (depth (Obj bundle_content))) bundle_content to
  | None => throw "not a JSON object"
  end.
End unpack.
