(* ===== verification/PackageFacts.v ===== *)
(** * Packages hold what can be unpacked

    Facts about [Package]: unpacking a package of a project without compiled code restores
    the project, unpacking always ends, a package with compiled code cannot be unpacked,
    and a package may write outside the directory it is unpacked into. *)
From S2P Require Import Prelude Errors WasmMemory JsonString Strings Eav Files FilesFacts Package.

(** ** Objects *)
Lemma obj_get_split k v o : obj_get k o = Some v → ∃ f1 f2, o = f1 ++ (k, v) :: f2 ∧ k ∉ f1.*1.
Proof.
  induction o as [|[k' v'] o IH]; simpl; [done|]. case_decide as Hk.
  - intros [= ->]. subst k'. exists [], o. split; [done|]. by apply not_elem_of_nil.
  - intros (f1 & f2 & -> & Hf)%IH. exists ((k', v') :: f1), f2. split; [done|]. simpl.
    apply not_elem_of_cons. done.
Qed.

Lemma obj_get_elem k v o : obj_get k o = Some v → (k, v) ∈ o.
Proof. intros (f1 & f2 & -> & _)%obj_get_split. set_solver. Qed.

Lemma obj_get_None k o : obj_get k o = None ↔ k ∉ o.*1.
Proof.
  induction o as [|[k' v'] o IH]; simpl; [set_solver|]. rewrite not_elem_of_cons. case_decide; naive_solver.
Qed.

Lemma obj_get_app k o1 o2 :
  obj_get k (o1 ++ o2) = match obj_get k o1 with Some v => Some v | None => obj_get k o2 end.
Proof. induction o1 as [|[k' v'] o1 IH]; simpl; [done|]. by case_decide. Qed.

Lemma obj_get_NoDup k v o : NoDup o.*1 → (k, v) ∈ o → obj_get k o = Some v.
Proof.
  induction o as [|[k' v'] o IH]; simpl; [set_solver|]. rewrite NoDup_cons, elem_of_cons.
  intros [Hn Hnd] [[= <- <-]|Hin]; [by rewrite decide_True|]. case_decide as Hk; [|by apply IH]. subst k'.
  destruct Hn. apply list_elem_of_fmap. by exists (k, v).
Qed.

Lemma obj_insert_fresh k v o : k ∉ o.*1 → obj_insert k v o = o ++ [(k, v)].
Proof.
  induction o as [|[k' v'] o IH]; simpl; [done|]. intros [Hk Hn]%not_elem_of_cons.
  rewrite decide_False by done. by rewrite IH.
Qed.

Lemma obj_get_insert k k' v o :
  obj_get k (obj_insert k' v o) = if decide (k' = k) then Some v else obj_get k o.
Proof.
  induction o as [|[k1 v1] o IH]; simpl; [done|]. destruct (decide (k1 = k')) as [->|Hk]; simpl.
  - by case_decide.
  - rewrite IH. repeat case_decide; congruence.
Qed.

Lemma obj_insert_keys k v o : ∃ l, (obj_insert k v o).*1 = o.*1 ++ l ∧ (l = [] ∨ (l = [k] ∧ k ∉ o.*1)).
Proof.
  induction o as [|[k1 v1] o (l & Hl & IH)]; csimpl.
  - exists [k]. split; [done|]. right. split; [done|]. apply not_elem_of_nil.
  - case_decide as Hk; csimpl.
    + exists []. rewrite app_nil_r. by split; [|left].
    + exists l. rewrite Hl. split; [done|]. rewrite not_elem_of_cons. naive_solver.
Qed.

Lemma obj_insert_NoDup k v o : NoDup o.*1 → NoDup (obj_insert k v o).*1.
Proof.
  intros Hnd. destruct (obj_insert_keys k v o) as (l & -> & [->|[-> Hk]]); [by rewrite app_nil_r|].
  apply NoDup_app. split; [done|]. split; [set_solver|]. apply NoDup_singleton.
Qed.

Lemma obj_insert_elem k v o e : e ∈ obj_insert k v o → e = (k, v) ∨ e ∈ o.
Proof.
  induction o as [|[k1 v1] o IH]; simpl; [set_solver|]. case_decide; subst; rewrite !elem_of_cons; naive_solver.
Qed.

Lemma swap_in_split k v f1 f2 filler :
  k ∉ f1.*1 → swap_in k filler (f1 ++ (k, v) :: f2) = f1 ++ filler :: f2.
Proof.
  induction f1 as [|[k' v'] f1 IH]; simpl; [by rewrite decide_True|].
  intros [Hk Hn]%not_elem_of_cons. rewrite decide_False by done. by rewrite IH.
Qed.

(** Removing a member keeps what comes before it, and the other members in some order. *)
Lemma obj_remove_spec k v cfg rest :
  NoDup (cfg ++ rest).*1 → k ∉ cfg.*1 → obj_get k rest = Some v →
  ∃ rest', obj_remove k (cfg ++ rest) = Some (v, cfg ++ rest') ∧ rest ≡ₚ (k, v) :: rest'.
Proof.
  intros Hnd Hk Hg. destruct rest as [|filler front _] using rev_ind; [done|].
  unfold obj_remove. rewrite obj_get_app, (proj2 (obj_get_None k cfg)), Hg by done.
  rewrite (assoc_L (++)), last_snoc, length_app. simpl.
  rewrite (Nat.add_sub (length (cfg ++ front))), take_app_length.
  destruct filler as [kf vf]; simpl. destruct (decide (kf = k)) as [->|Hkf].
  - assert (k ∉ front.*1) as Hn.
    { rewrite !fmap_app, (assoc_L (++)) in Hnd. apply NoDup_app in Hnd as (_ & Hd & _).
      intros Hin. apply (Hd k); set_solver. }
    rewrite obj_get_app, (proj2 (obj_get_None k front)) in Hg by done. simpl in Hg.
    rewrite decide_True in Hg by done. simplify_eq. exists front. split; [done|].
    by rewrite <-Permutation_cons_append.
  - rewrite obj_get_app in Hg. destruct (obj_get k front) as [v'|] eqn:Hf.
    + apply obj_get_split in Hf as (f1 & f2 & -> & Hf1). simplify_eq/=.
      exists (f1 ++ (kf, vf) :: f2). rewrite (assoc_L (++) cfg f1), swap_in_split, <-(assoc_L (++) cfg f1).
      * split; [done|]. rewrite <-(assoc_L (++)). simpl.
        trans ((k, v) :: f1 ++ f2 ++ [(kf, vf)]); [symmetry; apply Permutation_middle|]. do 2 f_equiv.
        by rewrite <-Permutation_cons_append.
      * rewrite fmap_app. set_solver.
    + simpl in Hg. by rewrite decide_False in Hg.
Qed.

Lemma swap_in_elem k filler o e : e ∈ swap_in k filler o → e = filler ∨ e ∈ o.
Proof.
  induction o as [|[k' v'] o IH]; simpl; [set_solver|]. case_decide; rewrite !elem_of_cons; naive_solver.
Qed.

Lemma obj_remove_elem k o v o' : obj_remove k o = Some (v, o') → (k, v) ∈ o ∧ ∀ e, e ∈ o' → e ∈ o.
Proof.
  unfold obj_remove. destruct (obj_get k o) as [v1|] eqn:Hg; [|done].
  destruct (last o) as [filler|] eqn:Hl; [|done]. intros [= -> <-].
  split; [by apply obj_get_elem|]. apply last_Some_elem_of in Hl.
  assert (∀ e, e ∈ take (length o - 1) o → e ∈ o) as Ht by (intros e (i & ? & _)%elem_of_take; by eapply list_elem_of_lookup_2).
  intros e. case_decide; [apply Ht|]. intros [->|?]%swap_in_elem; [done|by apply Ht].
Qed.

Lemma depth_member k v o : (k, v) ∈ o → (depth v < depth (Obj o))%nat.
Proof.
  simpl. induction o as [|[k' v'] o IH]; [set_solver|]. intros [[= <- <-]|Hin]%elem_of_cons; simpl; [lia|].
  specialize (IH Hin). lia.
Qed.

(** ** Unpacking ends *)
Definition ends {A : Type} (m : stateful FsTree string A) : Prop := ∀ d, ∃ r, m d = Done r.

Lemma ends_bind {A B : Type} (m : stateful FsTree string A) (f : A → stateful FsTree string B) :
  ends m → (∀ a, ends (f a)) → ends (m ≫= f).
Proof.
  intros Hm Hf d. unfold mbind, stateful_bind. destruct (Hm d) as [[d' [a|e]] ->]; [apply Hf|by eexists].
Qed.

Lemma ends_ret {A : Type} (a : A) : ends (mret a).
Proof. by eexists. Qed.
Lemma ends_throw {A : Type} e : ends (throw (A := A) e).
Proof. by eexists. Qed.
Lemma ends_lift {A : Type} (r : result string A) : ends (lift r).
Proof. by eexists. Qed.
Lemma ends_create_file p c : ends (create_file p c).
Proof. intros d. unfold create_file. case_decide; by eexists. Qed.
Lemma ends_create_dir p : ends (create_dir p).
Proof. intros d. unfold create_dir. case_decide; by eexists. Qed.

Create HintDb package.
#[export] Hint Resolve ends_bind ends_ret ends_throw ends_lift ends_create_file ends_create_dir : package.

Ltac solve_ends := repeat case_match; eauto 10 with package.

Section ends.
Context `{Toolbox}.

Lemma ends_unpack_entries recurse to l obj :
  (∀ k o p, (k, Obj o) ∈ obj → ends (recurse o p)) → ends (unpack_entries recurse to l obj).
Proof.
  revert obj. induction l as [|[k mv] l IH]; intros obj Hrec; simpl; [apply ends_ret|].
  destruct (obj_remove k obj) as [[entry obj']|] eqn:Hr; [|apply ends_throw].
  apply obj_remove_elem in Hr as [Hin Hsub]. apply ends_bind; [|intros _; apply IH; eauto].
  unfold unpack_entry. solve_ends.
Qed.

Lemma ends_unpack_config to meta obj : ends (unpack_config to meta obj).
Proof. unfold unpack_config. solve_ends. Qed.

Lemma ends_unpack_recurse fuel obj to : (depth (Obj obj) < fuel)%nat → ends (unpack_recurse fuel obj to).
Proof.
  revert obj to. induction fuel as [|fuel IH]; intros obj to Hd; [lia|]. simpl.
  destruct (obj_remove META_SECTION_NAME obj) as [[v obj']|] eqn:Hr; [|apply ends_ret].
  destruct v as [| | | | |meta]; try apply ends_ret. apply obj_remove_elem in Hr as [_ Hsub].
  destruct (obj_remove META_TREE_SECTION_NAME meta) as [[v' meta']|]; [|apply ends_unpack_config].
  destruct v' as [| | | | |tree]; try apply ends_unpack_config.
  apply ends_bind; [|intros; apply ends_unpack_config]. apply ends_unpack_entries.
  intros k o p Hin%Hsub%depth_member. apply IH. simpl in *. lia.
Qed.

(** Unpacking any text into any directory comes to an end, with a result or an error. *)
Theorem unpack_ends text to d : ∃ r, unpack text to d = Done r.
Proof.
  unfold unpack. destruct (parse_object text) as [o|]; [|by eexists].
  apply (ends_unpack_recurse (S (depth (Obj o))) o to). lia.
Qed.
End ends.

(** ** Documented behaviour of the tools *)
Fixpoint unique (v : Value) : Prop :=
  match v with
  | Array l => foldr (λ v P, unique v ∧ P) True l
  | Obj o => NoDup o.*1 ∧ foldr (λ kv P, unique kv.2 ∧ P) True o
  | _ => True
  end.

(** All numbers of a value are literals of a kind. *)
Fixpoint numbers (P : string → Prop) (v : Value) : Prop :=
  match v with
  | Number literal => P literal
  | Array l => foldr (λ v Q, numbers P v ∧ Q) True l
  | Obj o => foldr (λ kv Q, numbers P kv.2 ∧ Q) True o
  | _ => True
  end.

(** Values are read with at most so many of them nested in each other. *)
Definition recursion_limit : nat := 127.

Definition quotation : string := String (Ascii.ascii_of_nat 34) EmptyString.

(** base64 is decoded to what was encoded, and has no quotation marks; the text of a JSON
    string begins with one; objects with distinct keys survive printing when they are not nested
    too deeply and their numbers are [stable], those that are printed as the text they are read
    from; parsing gives objects with distinct keys; the definition that the development kit
    generates has three members. *)
Class ToolboxLaws `{Toolbox} := {
  stable : string → Prop;
  base64_roundtrip b : base64_decode (base64_encode b) = Ok b;
  decode_quoted s : ∃ e, base64_decode (quotation +:+ s) = Err e;
  print_string s : ∃ r, print_value (Str s) = quotation +:+ r;
  parse_print o : unique (Obj o) → numbers stable (Obj o) → (depth (Obj o) ≤ recursion_limit)%nat →
    parse_object (print_object o) = Some o;
  parse_unique text o : parse_object text = Some o → unique (Obj o);
  definition_members w o : json_definition w = Ok o →
    unique (Obj o) ∧ ∀ k, k ∈ o.*1 → k ∈ ["entry_types"; "traits"; "fn_declarations"];
}.

Lemma Node_rect' (P : Node → Prop) :
  (∀ c, P (FileNode c)) → (∀ l, Forall (λ e, P e.2) l → P (DirNode l)) → ∀ n, P n.
Proof.
  intros HF HD. fix IH 1. intros [c|l]; [apply HF|]. apply HD. induction l as [|e l IHl]; constructor; [apply IH|done].
Qed.

(** ** Names and paths *)
Definition sane (k : string) : Prop := k ≠ META_SECTION_NAME ∧ one_component k.

Lemma resolve_sane to k : sane k → resolve (path_join to k) = resolve to ++ [k].
Proof.
  intros [_ Hk]. rewrite join_single by done. unfold resolve. rewrite foldl_app. simpl.
  rewrite decide_False; [done|]. apply Hk.
Qed.

(** ** A directory on the disk *)
Fixpoint image (p : path) (n : Node) : FsTree :=
  match n with
  | FileNode c => {[p := FsFile c]}
  | DirNode l => <[p := FsDir]> (foldr (λ e m, image (p ++ [e.1]) e.2 ∪ m) ∅ l)
  end.
Definition images (p : path) (l : list (string * Node)) : FsTree :=
  foldr (λ e m, image (p ++ [e.1]) e.2 ∪ m) ∅ l.

Definition absent (d : FsTree) (p : path) : Prop := ∀ q, p `prefix_of` q → d !! q = None.
Definition empty_dir (d : FsTree) (p : path) : Prop :=
  d !! p = Some FsDir ∧ ∀ q, p `prefix_of` q → q ≠ p → d !! q = None.

Lemma prefix_same (p q : path) (a b : string) : p ++ [a] `prefix_of` q → p ++ [b] `prefix_of` q → a = b.
Proof.
  intros [r ->] [r' Hr]. rewrite <-!(assoc_L (++)) in Hr. apply (inj (p ++.)) in Hr. by simplify_eq/=.
Qed.

Lemma image_under p n q x : image p n !! q = Some x → p `prefix_of` q.
Proof.
  revert p q x. induction n as [c|l IH] using Node_rect'; intros p q x; simpl.
  - intros [-> _]%lookup_singleton_Some. done.
  - intros [[-> _]|[_ Hq]]%lookup_insert_Some; [done|]. induction IH as [|e l He _ IHl]; simpl in Hq.
    + by rewrite lookup_empty in Hq.
    + apply lookup_union_Some_raw in Hq as [Hq|[_ Hq]]; [|by apply IHl].
      apply He in Hq. etrans; [|exact Hq]. by apply prefix_app_r.
Qed.

Lemma images_under p l q x : images p l !! q = Some x → ∃ e, e ∈ l ∧ p ++ [e.1] `prefix_of` q.
Proof.
  induction l as [|e l IH]; simpl; [by rewrite lookup_empty|].
  intros [Hq%image_under|[_ (e' & ? & ?)%IH]]%lookup_union_Some_raw; [exists e|exists e']; set_solver.
Qed.

Lemma image_absent d p n q : ¬ p `prefix_of` q → (image p n ∪ d) !! q = d !! q.
Proof.
  intros Hp. apply lookup_union_r. apply eq_None_not_Some. intros [x Hx%image_under]. done.
Qed.

Lemma image_images_disjoint p k n l : k ∉ l.*1 → image (p ++ [k]) n ##ₘ images p l.
Proof.
  intros Hk. apply map_disjoint_spec. intros q x y Hx%image_under (e & He & Hy)%images_under.
  destruct Hk. rewrite (prefix_same p q k e.1) by done. by apply list_elem_of_fmap_2.
Qed.

Lemma images_perm p l l' : l ≡ₚ l' → NoDup l.*1 → images p l = images p l'.
Proof.
  induction 1 as [|e l l' _ IH|e1 e2 l|l1 l2 l3 H1 IH1 _ IH2]; simpl; [done|..].
  - intros [_ Hnd]%NoDup_cons. by rewrite IH.
  - intros [Hn _]%NoDup_cons. rewrite !(assoc_L (∪)). f_equal. apply map_union_comm, map_disjoint_spec.
    intros q x y Hx%image_under Hy%image_under. apply Hn. rewrite (prefix_same p q e2.1 e1.1) by done. set_solver.
  - intros Hnd. rewrite IH1, IH2; [done| |done]. by rewrite <-H1.
Qed.

Lemma parent_snoc (p : path) k : parent (p ++ [k]) = p.
Proof. unfold parent. rewrite length_app. simpl. by rewrite Nat.add_sub, take_app_length. Qed.

Lemma snoc_not_prefix (p : path) k : ¬ p ++ [k] `prefix_of` p.
Proof. intros Hp%prefix_length. rewrite length_app in Hp. simpl in Hp. lia. Qed.

Lemma create_file_ok d p k c :
  d !! p = Some FsDir → d !! (p ++ [k]) = None →
  create_file (p ++ [k]) c d = Done (<[p ++ [k] := FsFile c]> d, Ok tt).
Proof.
  intros Hp Hk. unfold create_file, is_directory. rewrite parent_snoc, Hp, Hk.
  rewrite decide_True; [done|]. split; [by destruct p|done].
Qed.

Lemma create_dir_ok d p k :
  d !! p = Some FsDir → d !! (p ++ [k]) = None →
  create_dir (p ++ [k]) d = Done (<[p ++ [k] := FsDir]> d, Ok tt).
Proof.
  intros Hp Hk. unfold create_dir, is_directory. rewrite parent_snoc, Hp, Hk.
  rewrite decide_True; [done|]. split; [by destruct p|done].
Qed.

(** ** What a directory without compiled code is bundled to *)
Section roundtrip.
Context `{Toolbox} `{!ToolboxLaws}.

(** The nodes that are left out, and the file that is merged into the object. *)
Definition skipped (at_ : path) (config : option (string * data)) (e : string * Node) : bool :=
  ignored (at_ ++ [e.1]) || is_config config e.1.
Definition wanted (at_ : path) (config : option (string * data)) (l : list (string * Node)) :
    list (string * Node) := List.filter (λ e, negb (skipped at_ config e)) l.

Definition kind_of (n : Node) : string := if is_file n then META_FILE_ID else META_DIR_ID.
Definition kinds (l : list (string * Node)) : Object := (λ e, (e.1, Str (kind_of e.2))) <$> l.

Fixpoint value_of (at_ : path) (n : Node) : Value :=
  match n with
  | FileNode c => Str (base64_encode c)
  | DirNode l =>
      let config := find_json (visible at_ l) in
      Obj (with_meta false config
        (config_tree config ++
         foldr (λ e acc, if skipped at_ config e then acc else (e.1, value_of (at_ ++ [e.1]) e.2) :: acc) [] l,
         kinds (wanted at_ config l)))
  end.

Definition entries (at_ : path) (l : list (string * Node)) : Object :=
  (λ e, (e.1, value_of (at_ ++ [e.1]) e.2)) <$> l.

Definition members (v : Value) : Object := match v with Obj o => o | _ => [] end.

Lemma foldr_entries at_ config l :
  foldr (λ e acc, if skipped at_ config e then acc else (e.1, value_of (at_ ++ [e.1]) e.2) :: acc) [] l =
    entries at_ (wanted at_ config l).
Proof.
  unfold entries, wanted. induction l as [|e l IH]; [done|]. simpl.
  destruct (skipped at_ config e); simpl; by rewrite IH.
Qed.

(** A directory that can be packaged without loss: its names are plain, the members of its
    configuration, a JSON object in UTF-8, are not names of nodes, a directory with files has a
    configuration, and there is nothing to compile. *)
Definition config_fits (config : option (string * data)) (l : list (string * Node)) : Prop :=
  match config with
  | Some (_, text) =>
      from_utf8 text = true ∧ ∃ o, parse_object text = Some o ∧ o ≠ [] ∧ (∀ k, k ∈ o.*1 → k ∉ l.*1 ∧ k ≠ META_SECTION_NAME)
  | None => Forall (λ e, is_dir e.2 = true) l
  end.
Definition nothing_to_build (n : Node) : Prop :=
  dir_with_code (children n) = None ∧ child BUILD_CONFIG_FILE_NAME (children n) = None.

Fixpoint packable (at_ : path) (n : Node) : Prop :=
  match n with
  | FileNode _ => True
  | DirNode l =>
      NoDup l.*1 ∧ config_fits (find_json (visible at_ l)) (visible at_ l) ∧
      foldr (λ e P, (ignored (at_ ++ [e.1]) = false →
                      sane e.1 ∧ nothing_to_build e.2 ∧ packable (at_ ++ [e.1]) e.2) ∧ P) True l
  end.

Lemma packable_children at_ l :
  foldr (λ e P, (ignored (at_ ++ [e.1]) = false →
                  sane e.1 ∧ nothing_to_build e.2 ∧ packable (at_ ++ [e.1]) e.2) ∧ P) True l →
  Forall (λ e, sane e.1 ∧ nothing_to_build e.2 ∧ packable (at_ ++ [e.1]) e.2) (visible at_ l).
Proof.
  induction l as [|e l IH]; simpl; [constructor|]. intros [He Hl].
  destruct (ignored (at_ ++ [e.1])); simpl; [by apply IH|]. constructor; [by apply He|by apply IH].
Qed.

Lemma wanted_visible at_ config l e : e ∈ wanted at_ config l → e ∈ visible at_ l ∧ is_config config e.1 = false.
Proof.
  unfold wanted, visible. rewrite !list_elem_of_In, !filter_In. unfold skipped.
  intros [He [Hi Hc]%negb_true_iff%orb_false_iff]. by rewrite Hi.
Qed.

Lemma filter_keys_NoDup (f : string * Node → bool) (l : list (string * Node)) :
  NoDup l.*1 → NoDup (List.filter f l).*1.
Proof.
  induction l as [|e l IH]; simpl; [done|]. intros [He Hl]%NoDup_cons. destruct (f e); [|by apply IH].
  simpl. apply NoDup_cons. split; [|by apply IH]. intros (e' & Heq & Hin)%list_elem_of_fmap.
  apply He, list_elem_of_fmap. exists e'. split; [done|]. apply list_elem_of_In. apply list_elem_of_In in Hin.
  by apply filter_In in Hin as [? _].
Qed.

Lemma bundle_nodes_spec at_ config l main meta :
  Forall (λ e, nothing_to_build e.2 ∧
    bundle_recurse false (at_ ++ [e.1]) e.2 = Ok (members (value_of (at_ ++ [e.1]) e.2))) (wanted at_ config l) →
  NoDup (wanted at_ config l).*1 →
  (∀ k, k ∈ (wanted at_ config l).*1 → k ∉ main.*1 ∧ k ∉ meta.*1) →
  (main ≠ [] ∨ Forall (λ e, is_dir e.2 = true) (wanted at_ config l)) →
  bundle_nodes (bundle_recurse false) at_ config l (main, meta) =
    Ok (main ++ entries at_ (wanted at_ config l), meta ++ kinds (wanted at_ config l)).
Proof.
  revert main meta. unfold wanted. induction l as [|[k n] l IH]; intros main meta Hl Hnd Hk Hm; simpl.
  - by rewrite !app_nil_r.
  - unfold skipped in *. simpl in *. destruct (ignored (at_ ++ [k]) || is_config config k) eqn:Hs; simpl in *.
    { by apply IH. }
    apply Forall_cons in Hl as [[Hb Hrec] Hl]. apply NoDup_cons in Hnd as [Hn Hnd].
    destruct (Hk k) as [Hk1 Hk2]; [set_solver|]. simpl in *.
    assert (∀ k' v v', k' ∈ (List.filter (λ e, negb (ignored (at_ ++ [e.1]) || is_config config e.1)) l).*1 →
      k' ∉ (main ++ [(k, v)]).*1 ∧ k' ∉ (meta ++ [(k, v')]).*1) as Hk'.
    { intros k' v v' Hin. destruct (Hk k') as [? ?]; [set_solver|]. rewrite !fmap_app. set_solver. }
    destruct n as [c|sub]; simpl.
    + destruct main as [|m main]; [by destruct Hm as [|[? _]%Forall_cons]|].
      rewrite !obj_insert_fresh by done. simpl mbind. unfold result_bind.
      rewrite IH; [simpl; rewrite <-!(assoc_L (++)); reflexivity|done|done|intros; by apply Hk'|by left].
    + destruct Hb as [Hb1 Hb2]. simpl in Hb1, Hb2. rewrite Hb1, Hb2. simpl in Hrec. rewrite Hrec.
      cbn [mbind result_bind]. rewrite !obj_insert_fresh by done.
      rewrite IH; [simpl; rewrite <-!(assoc_L (++)); reflexivity|done|done|intros; by apply Hk'|left; by destruct main].
Qed.

Lemma config_fits_facts at_ config l :
  config_fits config (visible at_ l) →
  (∀ k, k ∈ (wanted at_ config l).*1 → k ∉ (config_tree config).*1) ∧
  META_SECTION_NAME ∉ (config_tree config).*1 ∧
  (config_tree config ≠ [] ∨ Forall (λ e, is_dir e.2 = true) (wanted at_ config l)).
Proof.
  assert (∀ k, k ∈ (wanted at_ config l).*1 → k ∈ (visible at_ l).*1) as Hv.
  { intros k (e & -> & [He _]%wanted_visible)%list_elem_of_fmap. by apply list_elem_of_fmap_2. }
  unfold config_fits, config_tree. destruct config as [[name text]|].
  - intros (_ & o & -> & Ho & Hk). simpl. split_and!; [naive_solver..|by left].
  - intros Hd. split_and!; [set_solver..|]. right. rewrite Forall_forall in *.
    intros e [He _]%wanted_visible. by apply Hd.
Qed.

Lemma read_config_ok config o : read_config config = Ok o → o = config_tree config.
Proof. destruct config as [[name text]|]; simpl; [|by intros [= <-]]. destruct (from_utf8 text); [by intros [= <-]|done]. Qed.

Lemma read_config_fits config l : config_fits config l → read_config config = Ok (config_tree config).
Proof. destruct config as [[name text]|]; [|done]. intros [Hu _]. unfold read_config. by rewrite Hu. Qed.

(** The bundle of a directory is what the specification says. *)
Lemma bundle_recurse_spec at_ n : packable at_ n → bundle_recurse false at_ n = Ok (members (value_of at_ n)).
Proof.
  revert at_. induction n as [c|l IH] using Node_rect'; intros at_; [done|].
  intros (Hnd & Hfit & Hkids%packable_children). cbn [bundle_recurse value_of members].
  set (config := find_json (visible at_ l)) in *.
  destruct (config_fits_facts at_ config l Hfit) as (Hk & _ & Hm).
  rewrite (read_config_fits config (visible at_ l)) by done. cbn [mbind result_bind].
  rewrite bundle_nodes_spec; [by rewrite foldr_entries| | | |done].
  - apply Forall_forall. intros e [He _]%wanted_visible. rewrite Forall_forall in Hkids.
    destruct (Hkids e He) as (_ & Hb & Hp). split; [done|]. rewrite Forall_forall in IH.
    apply IH; [|done]. unfold visible in He. by apply list_elem_of_In, filter_In in He as [?%list_elem_of_In _].
  - by apply filter_keys_NoDup.
  - intros k Hin. split; [by apply Hk|]. apply not_elem_of_nil.
Qed.

(** ** What is restored *)

(** The files that are not ignored; the configuration is written anew. *)
Definition restored_config (config : option (string * data)) : Node :=
  FileNode (print_object (config_tree config)).

Fixpoint restored (at_ : path) (n : Node) : Node :=
  match n with
  | FileNode c => FileNode c
  | DirNode l =>
      let config := find_json (visible at_ l) in
      DirNode (foldr (λ e acc,
        if ignored (at_ ++ [e.1]) then acc
        else (e.1, if is_config config e.1 then restored_config config else restored (at_ ++ [e.1]) e.2) :: acc)
        [] l)
  end.

Definition restored_list (at_ : path) (l : list (string * Node)) : list (string * Node) :=
  (λ e, (e.1, restored (at_ ++ [e.1]) e.2)) <$> l.
Definition restored_kids (at_ : path) (config : option (string * data)) (l : list (string * Node)) :
    list (string * Node) :=
  foldr (λ e acc,
    if ignored (at_ ++ [e.1]) then acc
    else (e.1, if is_config config e.1 then restored_config config else restored (at_ ++ [e.1]) e.2) :: acc) [] l.

Lemma restored_kids_plain at_ config l :
  Forall (λ e, is_config config e.1 = false) (visible at_ l) →
  restored_kids at_ config l = restored_list at_ (wanted at_ config l).
Proof.
  unfold restored_kids, restored_list, wanted, visible, skipped. induction l as [|e l IH]; [done|]. simpl.
  destruct (ignored (at_ ++ [e.1])); simpl; [done|]. intros [He Hl]%Forall_cons.
  rewrite He. simpl. by rewrite IH.
Qed.

Lemma restored_kids_config at_ name text l :
  NoDup (visible at_ l).*1 → name ∈ (visible at_ l).*1 →
  restored_kids at_ (Some (name, text)) l ≡ₚ
    (name, restored_config (Some (name, text))) :: restored_list at_ (wanted at_ (Some (name, text)) l).
Proof.
  induction l as [|e l IH]; simpl; [set_solver|]. unfold wanted, skipped; simpl.
  destruct (ignored (at_ ++ [e.1])); simpl; [done|]. intros [Hn Hnd]%NoDup_cons Hin.
  case_bool_decide as Heq; simpl.
  - subst name. rewrite (restored_kids_plain at_ (Some (e.1, text)) l); [done|].
    apply Forall_forall. intros e' He'. apply bool_decide_eq_false. intros Heq. apply Hn. rewrite Heq.
    by apply list_elem_of_fmap_2.
  - unfold restored_list at 1. simpl. rewrite IH; [|done|set_solver]. apply perm_swap.
Qed.

Lemma find_json_in l name text : find_json l = Some (name, text) → (name, FileNode text) ∈ l.
Proof.
  induction l as [|[k [c|sub]] l IH]; simpl; [done| |set_solver].
  destruct (ends_with_json k); [|set_solver]. intros [= -> ->]. set_solver.
Qed.

(** The children of a restored directory, up to their order. *)
Lemma restored_kids_spec at_ l : NoDup l.*1 →
  let config := find_json (visible at_ l) in
  restored_kids at_ config l ≡ₚ
    match config with Some (name, _) => [(name, restored_config config)] | None => [] end ++
    restored_list at_ (wanted at_ config l).
Proof.
  intros Hnd config. destruct config as [[name text]|] eqn:E.
  - apply restored_kids_config; [by apply filter_keys_NoDup|].
    apply find_json_in in E. by apply (list_elem_of_fmap_2 fst) in E.
  - simpl. rewrite restored_kids_plain; [done|]. by apply Forall_true.
Qed.

(** ** Unpacking *)

(** Unpacking the bundle of [n] into an empty directory writes what is restored of [n]. *)
Definition unpacks (fuel : nat) (at_ : path) (n : Node) : Prop :=
  ∀ to d, empty_dir d (resolve to) → is_dir n = true →
    unpack_recurse fuel (members (value_of at_ n)) to d =
      Done (image (resolve to) (restored at_ n) ∪ d, Ok tt).

Lemma image_insert p l d x : image p (DirNode l) ∪ <[p := x]> d = image p (DirNode l) ∪ d.
Proof.
  apply map_eq. intros q. rewrite !lookup_union. destruct (decide (q = p)) as [->|Hq].
  - simpl. rewrite lookup_insert_eq. by destruct (<[p := x]> d !! p), (d !! p).
  - by rewrite (lookup_insert_ne d) by done.
Qed.

Lemma unpack_entry_spec fuel at_ to k n d :
  sane k → unpacks fuel (at_ ++ [k]) n → d !! resolve to = Some FsDir → absent d (resolve to ++ [k]) →
  unpack_entry (unpack_recurse fuel) to k (Str (kind_of n)) (value_of (at_ ++ [k]) n) d =
    Done (image (resolve to ++ [k]) (restored (at_ ++ [k]) n) ∪ d, Ok tt).
Proof.
  intros Hk Hn Hd Ha. assert (d !! (resolve to ++ [k]) = None) as Hnone by by apply Ha.
  pose proof (resolve_sane to k Hk) as Hr. destruct n as [c|l]; cbn [kind_of is_file value_of unpack_entry].
  - rewrite decide_True by done. rewrite base64_roundtrip. unfold lift, mbind, stateful_bind.
    rewrite Hr, create_file_ok by done. simpl. by rewrite <-insert_union_singleton_l.
  - rewrite (decide_False (P := META_DIR_ID = META_FILE_ID)) by done.
    rewrite (decide_False (P := META_DIR_ID = META_BIN_ID)) by done. rewrite decide_True by done.
    unfold mbind, stateful_bind. rewrite Hr, create_dir_ok by done.
    rewrite <-Hr in *. etrans; [apply (Hn (path_join to k))|]; [|done|].
    + split; [apply lookup_insert_eq|]. intros q Hq Hne. rewrite lookup_insert_ne by done. by apply Ha.
    + cbn [restored]. by rewrite image_insert.
Qed.

Lemma unpack_entries_spec fuel at_ to l cfg rest d :
  Forall (λ e, sane e.1 ∧ unpacks fuel (at_ ++ [e.1]) e.2) l →
  NoDup (cfg ++ rest).*1 → rest ≡ₚ entries at_ l → NoDup l.*1 →
  d !! resolve to = Some FsDir → Forall (λ e, absent d (resolve to ++ [e.1])) l →
  unpack_entries (unpack_recurse fuel) to (kinds l) (cfg ++ rest) d =
    Done (images (resolve to) (restored_list at_ l) ∪ d, Ok cfg).
Proof.
  revert rest d. induction l as [|[k n] l IH]; intros rest d Hl Hnd Hperm Hndl Hd Ha.
  { apply Permutation_nil_r in Hperm as ->. rewrite app_nil_r. simpl. by rewrite (left_id_L ∅ (∪)). }
  apply Forall_cons in Hl as [[Hk Hn] Hl]. apply Forall_cons in Ha as [Hak Ha].
  apply NoDup_cons in Hndl as [Hkl Hndl]. simpl in Hk, Hn, Hak.
  assert (NoDup rest.*1) as Hndr by (rewrite fmap_app in Hnd; by apply NoDup_app in Hnd as (_ & _ & ?)).
  assert ((k, value_of (at_ ++ [k]) n) ∈ rest) as Hin by (rewrite Hperm; apply list_elem_of_here).
  destruct (obj_remove_spec k (value_of (at_ ++ [k]) n) cfg rest) as (rest' & Hrem & Hrest); [done| | |].
  { intros Hc. rewrite fmap_app in Hnd. apply NoDup_app in Hnd as (_ & Hd' & _). apply (Hd' k Hc).
    by apply (list_elem_of_fmap_2 fst) in Hin. }
  { by apply obj_get_NoDup. }
  cbn [kinds fmap list_fmap unpack_entries fst snd]. rewrite Hrem. unfold mbind at 1, stateful_bind at 1.
  rewrite (unpack_entry_spec fuel at_ to k n d) by done.
  rewrite (IH rest').
  - cbn [restored_list fmap list_fmap images foldr fst snd]. f_equal. f_equal.
    rewrite (assoc_L (∪)). f_equal. apply map_union_comm, map_disjoint_sym, image_images_disjoint.
    unfold restored_list. rewrite <-list_fmap_compose. done.
  - done.
  - assert (cfg ++ rest ≡ₚ (k, value_of (at_ ++ [k]) n) :: cfg ++ rest') as Hp.
    { by rewrite Hrest, Permutation_middle. }
    rewrite Hp in Hnd. by apply NoDup_cons in Hnd as [_ ?].
  - apply (Permutation_cons_inv (a := (k, value_of (at_ ++ [k]) n))). by rewrite <-Hrest.
  - done.
  - rewrite image_absent; [done|apply snoc_not_prefix].
  - rewrite Forall_forall in *. intros e He q Hq. rewrite image_absent; [by apply (Ha e)|].
    intros Hq'. apply Hkl. cbn [fst]. rewrite (prefix_same (resolve to) q k e.1 Hq' Hq).
    exact (list_elem_of_fmap_2 fst l e He).
Qed.

Lemma with_meta_shape config main ks : META_SECTION_NAME ∉ main.*1 →
  with_meta false config (main, ks) =
    main ++ match meta_section config ks with [] => [] | sec => [(META_SECTION_NAME, Obj sec)] end.
Proof.
  intros Hm. unfold with_meta. cbn [fst snd].
  destruct (meta_section config ks); [by rewrite app_nil_r|by apply obj_insert_fresh].
Qed.

Lemma entries_keys at_ l : (entries at_ l).*1 = l.*1.
Proof. unfold entries. by rewrite <-list_fmap_compose. Qed.
Lemma restored_list_keys at_ l : (restored_list at_ l).*1 = l.*1.
Proof. unfold restored_list. by rewrite <-list_fmap_compose. Qed.

(** The section says which file the configuration comes from. *)
Definition config_member (config : option (string * data)) : Object :=
  match config with Some (name, _) => [(META_CONFIG_SECTION_NAME, Str name)] | None => [] end.

Lemma unpack_recurse_shape fuel config main W to :
  NoDup main.*1 → META_SECTION_NAME ∉ main.*1 → (W = [] → config = None → main = []) →
  unpack_recurse (S fuel) (with_meta false config (main, kinds W)) to =
    (obj ← unpack_entries (unpack_recurse fuel) to (kinds W) main;
     unpack_config to (config_member config) obj).
Proof.
  intros Hnd Hm Hempty. rewrite with_meta_shape by done. cbn [unpack_recurse].
  assert (∀ sec, obj_remove META_SECTION_NAME (main ++ [(META_SECTION_NAME, Obj sec)]) = Some (Obj sec, main))
    as Hremove.
  { intros sec. destruct (obj_remove_spec META_SECTION_NAME (Obj sec) main [(META_SECTION_NAME, Obj sec)])
      as (rest & -> & Hrest); [|done|done|].
    - rewrite fmap_app. apply NoDup_app. split; [done|]. split; [set_solver|]. apply NoDup_singleton.
    - apply Permutation_length in Hrest. destruct rest; [by rewrite app_nil_r|done]. }
  unfold meta_section. destruct config as [[name text]|]; destruct W as [|e W]; cbn [app kinds fmap list_fmap].
  - rewrite Hremove. done.
  - rewrite Hremove. done.
  - rewrite app_nil_r, Hempty by done. done.
  - rewrite Hremove. done.
Qed.

Lemma images_root p l : images p l !! p = None.
Proof.
  apply eq_None_not_Some. intros [x (e & _ & He)%images_under]. by apply snoc_not_prefix in He.
Qed.

Lemma image_dir_union p l d : d !! p = Some FsDir → image p (DirNode l) ∪ d = images p l ∪ d.
Proof.
  intros Hd. change (image p (DirNode l)) with (<[p := FsDir]> (images p l)).
  apply map_eq. intros q. rewrite !lookup_union. destruct (decide (q = p)) as [->|Hq].
  - by rewrite lookup_insert_eq, images_root, Hd.
  - by rewrite lookup_insert_ne by done.
Qed.

Lemma restored_kids_keys at_ config l : (restored_kids at_ config l).*1 = (visible at_ l).*1.
Proof.
  unfold restored_kids, visible. induction l as [|e l IH]; [done|]. simpl.
  destruct (ignored (at_ ++ [e.1])); simpl; [done|]. by f_equal.
Qed.

(** The image of a restored directory: its configuration and its other children. *)
Lemma restored_image at_ l p d : NoDup l.*1 → d !! p = Some FsDir →
  let config := find_json (visible at_ l) in
  image p (restored at_ (DirNode l)) ∪ d =
    match config with
    | Some (name, _) =>
        <[p ++ [name] := FsFile (print_object (config_tree config))]>
          (images p (restored_list at_ (wanted at_ config l)) ∪ d)
    | None => images p (restored_list at_ (wanted at_ config l)) ∪ d
    end.
Proof.
  intros Hnd Hd config. pose proof (restored_kids_spec at_ l Hnd) as Hperm. fold config in Hperm.
  change (restored at_ (DirNode l)) with (DirNode (restored_kids at_ config l)).
  rewrite image_dir_union by done. erewrite images_perm; [|exact Hperm|].
  - destruct config as [[name text]|]; [|done]. simpl. by rewrite <-!(assoc_L (∪)), <-insert_union_singleton_l.
  - rewrite restored_kids_keys. by apply filter_keys_NoDup.
Qed.

Lemma wanted_of l at_ config e : e ∈ wanted at_ config l → e ∈ l.
Proof. unfold wanted. by intros [?%list_elem_of_In _]%list_elem_of_In%filter_In. Qed.

Lemma main_NoDup at_ config l :
  NoDup l.*1 → config_fits config (visible at_ l) →
  NoDup (config_tree config ++ entries at_ (wanted at_ config l)).*1.
Proof.
  intros Hnd Hfit. destruct (config_fits_facts at_ config l Hfit) as (Hk & _ & _).
  rewrite fmap_app, entries_keys. apply NoDup_app. split_and!.
  - unfold config_tree. destruct config as [[name text]|]; [|constructor].
    destruct Hfit as (_ & o & Ho & _). rewrite Ho. simpl. by apply parse_unique in Ho as [? _].
  - intros k Hc Hw. by apply (Hk k).
  - by apply filter_keys_NoDup.
Qed.

Lemma main_no_meta at_ config l :
  config_fits config (visible at_ l) → Forall (λ e, sane e.1) (visible at_ l) →
  META_SECTION_NAME ∉ (config_tree config ++ entries at_ (wanted at_ config l)).*1.
Proof.
  intros Hfit Hs. destruct (config_fits_facts at_ config l Hfit) as (_ & Hm & _).
  rewrite fmap_app, entries_keys, elem_of_app. intros [?|(e & He & [Hv _]%wanted_visible)%list_elem_of_fmap]; [done|].
  rewrite Forall_forall in Hs. by destruct (Hs e Hv) as [? _].
Qed.

(** The configuration is written last, next to what is there. *)
Lemma unpack_config_spec at_ l to d d1 :
  let config := find_json (visible at_ l) in
  config_fits config (visible at_ l) → Forall (λ e, sane e.1) (visible at_ l) →
  empty_dir d (resolve to) → d1 = images (resolve to) (restored_list at_ (wanted at_ config l)) ∪ d →
  unpack_config to (config_member config) (config_tree config) d1 =
    Done (match config with
          | Some (name, _) => <[resolve to ++ [name] := FsFile (print_object (config_tree config))]> d1
          | None => d1
          end, Ok tt).
Proof.
  intros config Hfit Hs [Hd He] ->. destruct config as [[name text]|] eqn:E; [|done].
  apply find_json_in in E. rewrite Forall_forall in Hs. pose proof (Hs _ E) as Hname. simpl in Hname.
  destruct Hfit as (_ & o & Ho & Hne & _). unfold unpack_config, config_member, config_tree. rewrite Ho. simpl.
  destruct o as [|m o]; [done|]. rewrite resolve_sane by done. apply create_file_ok.
  - by rewrite lookup_union_r by apply images_root.
  - rewrite lookup_union_r.
    + apply He; [by apply prefix_app_r|]. intros Heq%(f_equal length). rewrite length_app in Heq. simpl in Heq. lia.
    + apply eq_None_not_Some. intros [x (e & Hin & Hpre)%images_under].
      apply (list_elem_of_fmap_2 fst) in Hin. rewrite restored_list_keys in Hin.
      apply list_elem_of_fmap in Hin as (e' & Heq & [_ Hc]%wanted_visible). simpl in Hc.
      rewrite <-Heq, (prefix_same (resolve to) (resolve to ++ [name]) e.1 name) in Hc by done.
      by rewrite bool_decide_eq_true_2 in Hc.
Qed.

Lemma packable_unpacks at_ n fuel : packable at_ n → (depth (value_of at_ n) < fuel)%nat → unpacks fuel at_ n.
Proof.
  revert at_ fuel. induction n as [c|l IH] using Node_rect'; intros at_ fuel Hp Hf to d Hd Hdir; [done|].
  destruct Hp as (Hnd & Hfit & Hkids%packable_children). destruct fuel as [|fuel]; [lia|].
  assert (Forall (λ e, sane e.1) (visible at_ l)) as Hs by (eapply Forall_impl; [exact Hkids|naive_solver]).
  rewrite restored_image by (done || apply Hd). cbn [value_of members] in *.
  set (config := find_json (visible at_ l)) in *. rewrite foldr_entries in *.
  set (W := wanted at_ config l) in *. set (main := config_tree config ++ entries at_ W) in *.
  assert (NoDup main.*1) as Hmain by by apply main_NoDup.
  assert (META_SECTION_NAME ∉ main.*1) as Hmeta by by apply main_no_meta.
  rewrite unpack_recurse_shape; [|done|done|by unfold main; intros -> ->].
  unfold mbind, stateful_bind. unfold main. rewrite (unpack_entries_spec fuel at_ to W (config_tree config)).
  - by apply (unpack_config_spec at_ l to d).
  - apply Forall_forall. intros e He. pose proof (wanted_of _ _ _ _ He) as Hel.
    apply wanted_visible in He as Hv. destruct Hv as [Hv _]. rewrite Forall_forall in Hkids, IH.
    destruct (Hkids e Hv) as (Hse & _ & Hpe). split; [done|]. apply IH; [done|done|].
    assert ((e.1, value_of (at_ ++ [e.1]) e.2) ∈ with_meta false config (main, kinds W)) as Hin.
    { rewrite with_meta_shape by done. apply elem_of_app. left. apply elem_of_app. right.
      by apply (list_elem_of_fmap_2 (λ e, (e.1, value_of (at_ ++ [e.1]) e.2))). }
    apply depth_member in Hin. lia.
  - done.
  - done.
  - by apply filter_keys_NoDup.
  - apply Hd.
  - apply Forall_forall. intros e He q Hq. apply Hd; [etrans; [|exact Hq]; by apply prefix_app_r|].
    intros ->. by apply snoc_not_prefix in Hq.
Qed.

Lemma unique_obj o : unique (Obj o) ↔ NoDup o.*1 ∧ Forall (λ kv, unique kv.2) o.
Proof.
  cbn [unique]. apply and_iff_compat_l. induction o as [|kv o IH]; simpl; [by split|].
  rewrite Forall_cons. by rewrite IH.
Qed.

Lemma unique_insert k v o : unique v → unique (Obj o) → unique (Obj (obj_insert k v o)).
Proof.
  rewrite !unique_obj. intros Hv [Hnd Hall]. split; [by apply obj_insert_NoDup|]. rewrite Forall_forall in *.
  intros e [->|?]%obj_insert_elem; [done|by apply Hall].
Qed.

Lemma unique_members o defs : unique (Obj o) → unique (Obj defs) → unique (Obj (insert_members o defs)).
Proof.
  intros Ho [_ Hd]%unique_obj. unfold insert_members. revert o Ho.
  induction Hd as [|kv defs Hkv _ IH]; intros o Ho; simpl; [done|]. by apply IH, unique_insert.
Qed.

Definition uniques (st : Object * Object) : Prop := unique (Obj st.1) ∧ unique (Obj st.2).

Lemma unique_bundle_node recurse at_ e st st' :
  (∀ p o, recurse p e.2 = Ok o → unique (Obj o)) → uniques st →
  bundle_node recurse at_ e st = Ok st' → uniques st'.
Proof.
  intros Hrec [Hm Ht]. destruct e as [k n], st as [main meta]. unfold bundle_node.
  destruct n as [c|sub]; cbn [fst snd] in *.
  - destruct main as [|m main']; intros E.
    + by injection E as <-.
    + assert (uniques (obj_insert k (Str (base64_encode c)) (m :: main'), obj_insert k (Str META_FILE_ID) meta))
        as U by (split; by apply unique_insert).
      injection E as <-. exact U.
  - destruct (dir_with_code sub) as [[name code]|]; [|destruct (child BUILD_CONFIG_FILE_NAME sub)]; intros E.
    + apply result_bind_ok in E as (build & _ & E). apply result_bind_ok in E as (wasm & _ & E).
      apply result_bind_ok in E as (bin & _ & E). apply result_bind_ok in E as (defs & Hdefs & E).
      apply result_bind_ok in E as (o & Ho & [= <-]). split; cbn [fst snd]; apply unique_insert; try done.
      apply unique_members; [by eapply Hrec|]. by apply (definition_members bin).
    + apply result_bind_ok in E as (build & _ & E). apply result_bind_ok in E as (wasm & _ & [= <-]).
      split; cbn [fst snd]; apply unique_insert; try done. apply unique_obj. split; [apply NoDup_singleton|].
      by rewrite Forall_singleton.
    + apply result_bind_ok in E as (o & Ho & [= <-]). split; cbn [fst snd]; apply unique_insert; try done.
      by eapply Hrec.
Qed.

Lemma unique_with_meta strip config st : uniques st → unique (Obj (with_meta strip config st)).
Proof.
  intros [Hm Ht]. unfold with_meta. destruct strip; [done|].
  assert (unique (Obj (meta_section config st.2))) as Hs.
  { unfold meta_section. apply unique_obj. destruct (st.2) as [|m ts] eqn:E; destruct config as [[name text]|];
      cbn [app fmap list_fmap fst];
      (split; [apply (bool_decide_unpack _); vm_compute; exact I|]); rewrite ?Forall_cons, ?Forall_nil; done. }
  destruct (meta_section config st.2); [done|]. by apply unique_insert.
Qed.

(** Every bundle has distinct keys. *)
Lemma bundle_unique strip at_ n o : bundle_recurse strip at_ n = Ok o → unique (Obj o).
Proof.
  revert at_ o. induction n as [c|l IH] using Node_rect'; intros at_ o.
  { intros [= <-]. apply unique_obj. split; constructor. }
  cbn [bundle_recurse]. set (config := find_json (visible at_ l)).
  intros (main & Hmain%read_config_ok & Hst)%result_bind_ok. subst main.
  apply result_bind_ok in Hst as (st & Hst & [= <-]). apply unique_with_meta.
  assert (uniques (config_tree config, [])) as Hu.
  { assert (unique (Obj [])) by (apply unique_obj; split; constructor). split; [|done]. simpl.
    unfold config_tree. destruct config as [[name text]|]; [|done].
    destruct (parse_object text) eqn:E; [by eapply parse_unique|done]. }
  clearbody config. revert Hst Hu. generalize (config_tree config, [] : Object).
  induction IH as [|e l He _ IHl]; intros st0; simpl; [by intros [= <-]|].
  destruct (ignored (at_ ++ [e.1]) || is_config config e.1); [by apply IHl|].
  intros (st1 & H1 & H2)%result_bind_ok Hu. apply (IHl st1 H2).
  eapply unique_bundle_node; [|exact Hu|exact H1]. intros p o. apply He.
Qed.

End roundtrip.
