(* ===== verification/PackageErrors.v ===== *)
(** * What unpacking gets wrong

    A package with compiled code cannot be unpacked, a package may write outside the
    directory it is unpacked into, and files next to no configuration are left out of a
    package.  With a small toolbox that shows the laws of [PackageFacts] to hold. *)
From S2P Require Import Prelude Errors WasmMemory JsonString Strings Eav Files FilesFacts Package PackageFacts.

(** ** Objects with a binary *)

(** The members that the wasm code's definition puts into the object of its zome. *)
Definition definition_names : list string := ["entry_types"; "traits"; "fn_declarations"].

Record listed (obj : Object) (name : string) (kind : string) (v : Value) : Prop := {
  ls_tree : ∃ sec tree, obj_get META_SECTION_NAME obj = Some (Obj sec) ∧
    obj_get META_TREE_SECTION_NAME sec = Some (Obj tree) ∧ obj_get name tree = Some (Str kind);
  ls_value : obj_get name obj = Some v;
  ls_name : name ≠ META_SECTION_NAME ∧ name ∉ definition_names;
}.

Inductive has_binary : Object → Prop :=
| binary_here obj name members wasm :
    listed obj name META_BIN_ID (Obj members) → obj_get name members = Some (Str wasm) → has_binary obj
| binary_below obj name sub :
    listed obj name META_DIR_ID (Obj sub) → has_binary sub → has_binary obj.

Definition never_ok {A : Type} (m : stateful FsTree string A) : Prop := ∀ d d' a, m d ≠ Done (d', Ok a).

Lemma never_ok_bind_l {A B : Type} (m : stateful FsTree string A) (f : A → stateful FsTree string B) :
  never_ok m → never_ok (m ≫= f).
Proof.
  intros Hm d d' b. unfold mbind, stateful_bind. pose proof (Hm d) as Hd.
  destruct (m d) as [[d1 [a|e]]|w] eqn:E; [by destruct (Hd d1 a)|done|done].
Qed.

Lemma never_ok_bind_r {A B : Type} (m : stateful FsTree string A) (f : A → stateful FsTree string B) :
  (∀ a, never_ok (f a)) → never_ok (m ≫= f).
Proof.
  intros Hf d d' b. unfold mbind, stateful_bind. destruct (m d) as [[d1 [a|e]]|w]; [apply Hf|done|done].
Qed.

Lemma obj_remove_get k v obj : NoDup obj.*1 → obj_get k obj = Some v →
  ∃ obj', obj_remove k obj = Some (v, obj') ∧ obj ≡ₚ (k, v) :: obj'.
Proof.
  intros Hnd Hg. apply (obj_remove_spec k v [] obj); [done|apply not_elem_of_nil|done].
Qed.

Lemma obj_remove_other k k' v v' obj obj' :
  NoDup obj.*1 → k ≠ k' → obj_get k obj = Some v → obj_remove k' obj = Some (v', obj') →
  NoDup obj'.*1 ∧ obj_get k obj' = Some v.
Proof.
  intros Hnd Hk Hg Hr. pose proof Hr as [Hin _]%obj_remove_elem.
  destruct (obj_remove_get k' v' obj) as (o & Ho & Hp); [done|by apply obj_get_NoDup|]. simplify_eq.
  pose proof Hnd as Hnd'. rewrite Hp in Hnd'. apply NoDup_cons in Hnd' as [_ Hnd']. split; [done|].
  apply obj_get_NoDup; [done|]. apply obj_get_elem in Hg. rewrite Hp in Hg.
  apply elem_of_cons in Hg as [[= ? ?]|?]; done.
Qed.

Section binaries.
Context `{Toolbox} `{!ToolboxLaws}.

Lemma unpack_entries_fails recurse to tree obj name kind v :
  NoDup tree.*1 → NoDup obj.*1 → obj_get name tree = Some (Str kind) → obj_get name obj = Some v →
  never_ok (unpack_entry recurse to name (Str kind) v) →
  never_ok (unpack_entries recurse to tree obj).
Proof.
  revert obj. induction tree as [|[k mv] tree IH]; intros obj Hnt Hno Ht Ho Hfail; [done|].
  apply NoDup_cons in Hnt as [Hk Hnt]. simpl in Ht. cbn [unpack_entries].
  destruct (obj_remove k obj) as [[v' obj']|] eqn:Hr; [|by intros d d' a].
  destruct (decide (k = name)) as [->|Hne].
  - simplify_eq. destruct (obj_remove_get name v obj) as (o & Ho' & _); [done|done|]. simplify_eq.
    by apply never_ok_bind_l.
  - apply never_ok_bind_r. intros _. destruct (obj_remove_other name k v v' obj obj') as [? ?]; try done. by apply IH.
Qed.

Lemma unpack_binary fuel obj to : has_binary obj → unique (Obj obj) → never_ok (unpack_recurse fuel obj to).
Proof.
  revert obj to. induction fuel as [|fuel IH]; intros obj to Hb Hu; [by intros d d' a|].
  assert (∃ name kind v, listed obj name kind v ∧
    never_ok (unpack_entry (unpack_recurse fuel) to name (Str kind) v)) as (name & kind & v & [T V N] & Hfail).
  { destruct Hb as [obj name members wasm L Hw|obj name sub L Hsub].
    - exists name, META_BIN_ID, (Obj members). split; [done|]. cbn [unpack_entry].
      rewrite decide_False, decide_True by done. apply never_ok_bind_l. rewrite Hw. simpl.
      destruct (print_string wasm) as [r ->]. destruct (decode_quoted r) as [e ->]. by intros d d' a.
    - exists name, META_DIR_ID, (Obj sub). split; [done|]. cbn [unpack_entry].
      do 2 rewrite decide_False by done. rewrite decide_True by done. apply never_ok_bind_r. intros _.
      apply IH; [done|]. destruct L as [_ Hg%obj_get_elem _]. apply unique_obj in Hu as [_ Hu].
      rewrite Forall_forall in Hu. apply (Hu _ Hg). }
  destruct T as (sec & tree & Hsec & Htree & Hname). pose proof Hu as [Hnd Hall]%unique_obj.
  destruct (obj_remove_get META_SECTION_NAME (Obj sec) obj Hnd Hsec) as (obj' & Hr & _).
  rewrite Forall_forall in Hall. pose proof (Hall _ (obj_get_elem _ _ _ Hsec)) as [Hns Hss]%unique_obj.
  rewrite Forall_forall in Hss. pose proof (Hss _ (obj_get_elem _ _ _ Htree)) as [Hnt _]%unique_obj.
  destruct (obj_remove_get META_TREE_SECTION_NAME (Obj tree) sec Hns Htree) as (sec' & Hr' & _).
  cbn [unpack_recurse]. rewrite Hr, Hr'. apply never_ok_bind_l.
  destruct (obj_remove_other name META_SECTION_NAME v (Obj sec) obj obj') as [? ?]; [done|by destruct N|done|done|].
  by apply (unpack_entries_fails _ _ _ _ name kind v).
Qed.

(** ** Projects with compiled code *)

(** A directory [code] with a build file somewhere among the nodes that are not ignored. *)
Inductive with_code : path → Node → Prop :=
| code_here at_ l sub :
    (CODE_DIR_NAME, DirNode sub) ∈ l → NoDup l.*1 → ignored (at_ ++ [CODE_DIR_NAME]) = false →
    dir_with_code sub = None → is_Some (child BUILD_CONFIG_FILE_NAME sub) → with_code at_ (DirNode l)
| code_below at_ l name sub :
    (name, DirNode sub) ∈ l → NoDup l.*1 → ignored (at_ ++ [name]) = false → name ∉ definition_names →
    name ≠ META_SECTION_NAME → is_Some (dir_with_code sub) ∨ child BUILD_CONFIG_FILE_NAME sub = None →
    with_code (at_ ++ [name]) (DirNode sub) → with_code at_ (DirNode l).

Lemma bundle_node_other recurse at_ e st st' k :
  bundle_node recurse at_ e st = Ok st' → e.1 ≠ k →
  obj_get k st'.1 = obj_get k st.1 ∧ obj_get k st'.2 = obj_get k st.2.
Proof.
  destruct e as [name n], st as [main meta]. intros E Hk. cbn [fst] in Hk.
  assert (∀ v o, obj_get k (obj_insert name v o) = obj_get k o) as Hi.
  { intros v o. rewrite obj_get_insert. by rewrite decide_False. }
  unfold bundle_node in E. destruct n as [c|sub].
  - destruct main as [|m main]; injection E as <-; [done|].
    split; [apply (Hi (Str (base64_encode c)) (m :: main))|apply Hi].
  - destruct (dir_with_code sub) as [[cn code]|]; [|destruct (child BUILD_CONFIG_FILE_NAME sub)];
      repeat apply result_bind_ok in E as (? & _ & E); injection E as <-; split; apply Hi.
Qed.

(** What the loop puts under a name is still there at its end. *)
Lemma bundle_nodes_keeps recurse at_ config l st st' name n :
  bundle_nodes recurse at_ config l st = Ok st' → NoDup l.*1 → (name, n) ∈ l →
  skipped at_ config (name, n) = false →
  ∃ st0 st1, bundle_node recurse at_ (name, n) st0 = Ok st1 ∧
    obj_get name st'.1 = obj_get name st1.1 ∧ obj_get name st'.2 = obj_get name st1.2.
Proof.
  intros E Hnd Hin Hs.
  assert (∀ l st st', bundle_nodes recurse at_ config l st = Ok st' → name ∉ l.*1 →
    obj_get name st'.1 = obj_get name st.1 ∧ obj_get name st'.2 = obj_get name st.2) as Hrest.
  { clear. induction l as [|e l IH]; intros st st'; cbn [bundle_nodes]; [by intros [= <-]|].
    intros E [Hne Hn]%not_elem_of_cons. destruct (_ || _); [by apply IH|].
    apply result_bind_ok in E as (st1 & E1 & E2). destruct (IH _ _ E2 Hn) as [-> ->].
    by apply (bundle_node_other recurse at_ e). }
  revert st E Hnd Hin. induction l as [|e l IH]; intros st; cbn [bundle_nodes]; [set_solver|].
  intros E [Hn Hnd]%NoDup_cons [<-|Hin]%elem_of_cons.
  - unfold skipped in Hs. rewrite Hs in E. apply result_bind_ok in E as (st1 & E1 & E2).
    exists st, st1. split; [done|]. by apply (Hrest l st1 st').
  - destruct (_ || _); [by eapply IH|]. apply result_bind_ok in E as (st1 & E1 & E2). by eapply IH.
Qed.

Lemma with_meta_get config st name :
  name ≠ META_SECTION_NAME → obj_get name (with_meta false config st) = obj_get name st.1.
Proof.
  intros Hn. unfold with_meta. destruct (meta_section config st.2); [done|].
  rewrite obj_get_insert. by rewrite decide_False.
Qed.

Lemma with_meta_listed config st name kind v :
  obj_get name st.1 = Some v → obj_get name st.2 = Some (Str kind) → name ≠ META_SECTION_NAME →
  name ∉ definition_names → listed (with_meta false config st) name kind v.
Proof.
  intros Hv Hk Hn Hd. split; [|by rewrite with_meta_get|done].
  exists (meta_section config st.2), st.2. unfold with_meta, meta_section.
  destruct st as [main [|m meta]]; [done|]. cbn [fst snd] in *.
  destruct config as [[cn text]|]; simpl; rewrite obj_get_insert, decide_True by done; done.
Qed.

Lemma insert_members_get name o defs : name ∉ defs.*1 → obj_get name (insert_members o defs) = obj_get name o.
Proof.
  unfold insert_members. revert o. induction defs as [|kv defs IH]; intros o; [done|]. simpl.
  intros [Hne Hn]%not_elem_of_cons. rewrite IH by done. rewrite obj_get_insert. by rewrite decide_False.
Qed.

Lemma insert_members_binary o defs :
  (∀ k, k ∈ defs.*1 → k ∈ definition_names) → has_binary o → has_binary (insert_members o defs).
Proof.
  intros Hd Hb.
  assert (∀ name kind v, listed o name kind v → listed (insert_members o defs) name kind v) as Hl.
  { intros name kind v [(sec & tree & Hs & Ht & Hn) Hv [Hm Hdn]]. split; [|by rewrite insert_members_get by eauto|done].
    exists sec, tree. rewrite insert_members_get; [done|]. intros Hin%Hd.
    by repeat (apply elem_of_cons in Hin as [Hin|Hin]; [discriminate Hin|]); apply elem_of_nil in Hin. }
  destruct Hb; [eapply binary_here|eapply binary_below]; eauto.
Qed.

Lemma config_not_node at_ l name sub :
  (name, DirNode sub) ∈ l → NoDup l.*1 → is_config (find_json (visible at_ l)) name = false.
Proof.
  intros Hin Hnd. destruct (find_json (visible at_ l)) as [[cn text]|] eqn:E; [|done]. simpl.
  apply bool_decide_eq_false. intros ->. apply find_json_in in E.
  unfold visible in E. apply list_elem_of_In, filter_In in E as [E%list_elem_of_In _].
  apply list_elem_of_lookup in Hin as [i Hi]. apply list_elem_of_lookup in E as [j Hj].
  assert (i = j) as ->; [|congruence]. eapply (NoDup_lookup l.*1); [done|by rewrite list_lookup_fmap, Hi|].
  by rewrite list_lookup_fmap, Hj.
Qed.

Lemma bundle_has_binary at_ n o : with_code at_ n → bundle_recurse false at_ n = Ok o → has_binary o.
Proof.
  intros Hc. revert o. induction Hc as [at_ l sub Hin Hnd Hi Hdir [cfg Hcfg]|at_ l name sub Hin Hnd Hi Hd Hm Hsub _ IH];
    intros o; cbn [bundle_recurse]; intros (main0 & _ & (st & Hst & [= <-])%result_bind_ok)%result_bind_ok.
  - destruct (bundle_nodes_keeps _ _ _ _ _ _ _ _ Hst Hnd Hin) as (st0 & st1 & E & G1 & G2).
    { unfold skipped. cbn [fst]. by rewrite Hi, (config_not_node at_ l CODE_DIR_NAME sub). }
    destruct st0 as [main meta]. unfold bundle_node in E. rewrite Hdir, Hcfg in E.
    apply result_bind_ok in E as (build & _ & E). apply result_bind_ok in E as (wasm & _ & E).
    injection E as <-. cbn [fst snd] in *. rewrite obj_get_insert, decide_True in G1, G2 by done.
    apply (binary_here _ CODE_DIR_NAME [(CODE_DIR_NAME, Str wasm)] wasm); [|done].
    apply with_meta_listed; [done|done|done|]. by_decide.
  - destruct (bundle_nodes_keeps _ _ _ _ _ _ _ _ Hst Hnd Hin) as (st0 & st1 & E & G1 & G2).
    { unfold skipped. cbn [fst]. by rewrite Hi, (config_not_node at_ l name sub). }
    assert (∃ o', obj_get name st1.1 = Some (Obj o') ∧ obj_get name st1.2 = Some (Str META_DIR_ID) ∧ has_binary o')
      as (o' & H1 & H2 & Hb).
    { destruct st0 as [main meta]. unfold bundle_node in E. destruct (dir_with_code sub) as [[cn code]|].
      - apply result_bind_ok in E as (build & _ & E). apply result_bind_ok in E as (wasm & _ & E).
        apply result_bind_ok in E as (bin & _ & E). apply result_bind_ok in E as (defs & Hdefs & E).
        apply result_bind_ok in E as (o' & Ho & E). injection E as <-. exists (insert_members o' defs).
        cbn [fst snd]. rewrite !obj_get_insert, !decide_True by done. split_and!; [done..|].
        apply insert_members_binary; [by apply (definition_members bin)|by apply IH].
      - destruct Hsub as [[? ?]|Hsub]; [done|]. rewrite Hsub in E.
        apply result_bind_ok in E as (o' & Ho & E). injection E as <-. exists o'.
        cbn [fst snd]. rewrite !obj_get_insert, !decide_True by done. split_and!; [done..|]. by apply IH. }
    apply (binary_below _ name o'); [|done]. apply with_meta_listed; [by rewrite G1|by rewrite G2|done|done].
Qed.

(** a package with compiled code cannot be unpacked.  The text that is decoded is that of
    the JSON string, with its quotation marks, so wherever a project has a directory
    [code] with a build file, unpacking its package ends with an error, into whatever
    directory. *)
Theorem compiled_code_not_unpacked at_ n o text to d :
  with_code at_ n → bundle_recurse false at_ n = Ok o → package false at_ n = Ok text →
  numbers stable (Obj o) → (depth (Obj o) ≤ recursion_limit)%nat → ∃ d' e, unpack text to d = Done (d', Err e).
Proof.
  intros Hc Ho Hp Hn Hdepth. unfold package in Hp. rewrite Ho in Hp. cbn [mbind result_bind] in Hp.
  destruct (dna_try_from _); [|done]. injection Hp as <-.
  destruct (unpack_ends (print_object o) to d) as [[d' [[]|e]] Hr]; [exfalso|by exists d', e].
  pose proof (bundle_unique _ _ _ _ Ho) as Hu. unfold unpack in Hr. rewrite parse_print in Hr by done.
  by eapply unpack_binary; [by eapply bundle_has_binary| |exact Hr].
Qed.

(** ** Leaving the directory *)
Lemma components_up name : one_component name → components (".." +:+ "/" +:+ name) = [".."; name].
Proof.
  intros Hn. pose proof Hn as (Hs & H1 & H2 & _). unfold components.
  assert (split_on slash (".." +:+ "/" +:+ name) = ".." :: split_on slash name) as -> by reflexivity.
  rewrite split_single by done. by rewrite !filter_cons_True by done.
Qed.

Lemma resolve_up to name : Forall (λ c, c ≠ "..") to → one_component name →
  resolve (to ++ [".."; name]) = parent to ++ [name].
Proof.
  intros Hto (_ & _ & _ & Hn). pose proof (resolve_plain to Hto) as Hr. unfold resolve in *.
  rewrite foldl_app, Hr. simpl. unfold parent. by case_decide.
Qed.

(** A bundle with one file. *)
Definition one_file (k : string) (content : data) : Object :=
  [(k, Str (base64_encode content));
   (META_SECTION_NAME, Obj [(META_TREE_SECTION_NAME, Obj [(k, Str META_FILE_ID)])])].

(** a package can write outside the directory it is unpacked into: names of its meta tree
    are joined to the directory as paths, so a file named [../name] is created beside the
    directory, or replaces the file that is there. *)
Theorem unpack_escapes to name content d :
  Forall (λ c, c ≠ "..") to → one_component name →
  d !! parent to = Some FsDir → d !! (parent to ++ [name]) ≠ Some FsDir →
  unpack (print_object (one_file (".." +:+ "/" +:+ name) content)) to d =
    Done (<[parent to ++ [name] := FsFile content]> d, Ok tt).
Proof.
  intros Hto Hn Hp Hnd. set (k := ".." +:+ "/" +:+ name).
  assert (unique (Obj (one_file k content))) as Hu.
  { apply unique_obj. split.
    - unfold one_file. cbn [fmap list_fmap fst]. apply NoDup_cons. split; [|apply NoDup_singleton].
      intros Hk%list_elem_of_singleton. discriminate Hk.
    - unfold one_file. rewrite !Forall_cons. split_and!; [done| |done]. cbn [snd].
      apply unique_obj. split; [apply NoDup_singleton|]. rewrite Forall_singleton. cbn [snd].
      apply unique_obj. split; [apply NoDup_singleton|]. by rewrite Forall_singleton. }
  unfold unpack. rewrite parse_print; [|done|by repeat split|unfold recursion_limit; simpl; lia]. cbn [unpack_recurse].
  assert (obj_remove META_SECTION_NAME (one_file k content) =
    Some (Obj [(META_TREE_SECTION_NAME, Obj [(k, Str META_FILE_ID)])], [(k, Str (base64_encode content))])) as -> by done.
  assert (obj_remove META_TREE_SECTION_NAME [(META_TREE_SECTION_NAME, Obj [(k, Str META_FILE_ID)])] =
    Some (Obj [(k, Str META_FILE_ID)], [])) as -> by done.
  assert (obj_remove k [(k, Str (base64_encode content))] = Some (Str (base64_encode content), [])) as Hr.
  { unfold obj_remove. simpl. by rewrite !decide_True by done. }
  cbn [unpack_entries]. rewrite Hr. cbn [unpack_entry]. rewrite decide_True by done. rewrite base64_roundtrip.
  assert (resolve (path_join to k) = parent to ++ [name]) as ->.
  { rewrite <-resolve_up by done. f_equal. unfold k. rewrite <-(components_up name) by done. reflexivity. }
  unfold mbind, stateful_bind, lift, create_file, is_directory. rewrite parent_snoc, Hp.
  rewrite decide_True; [done|]. split; [by destruct (parent to)|done].
Qed.
(** ** Files without a configuration *)

(** A directory of files without a JSON file is packaged as if it were empty. *)
Theorem files_without_config_left_out strip at_ l :
  Forall (λ e, is_file e.2 = true) l → find_json (visible at_ l) = None →
  bundle_recurse strip at_ (DirNode l) = Ok [].
Proof.
  intros Hl Hj. cbn [bundle_recurse]. rewrite Hj. cbn [read_config config_tree mbind result_bind].
  assert (bundle_nodes (bundle_recurse strip) at_ None l ([], []) = Ok ([], [])) as ->; [|by destruct strip].
  clear Hj. induction Hl as [|[k n] l Hn _ IH]; [done|]. cbn [bundle_nodes].
  destruct (_ || _); [done|]. destruct n; [|done]. exact IH.
Qed.
End binaries.

(** ** A toolbox

    Values are encoded as numbers, and base64 is replaced by a mark in front of the text. *)
Module Toy.
Definition pair_tree (k : string) (t : gen_tree string) : gen_tree string := GenNode 6 [GenLeaf k; t].

Fixpoint tree_of (v : Value) : gen_tree string :=
  match v with
  | Null => GenNode 0 []
  | Bool b => GenNode (if b then 2 else 1)%nat []
  | Number s => GenNode 3 [GenLeaf s]
  | Str s => GenLeaf s
  | Array l => GenNode 4 (tree_of <$> l)
  | Obj o => GenNode 5 ((λ kv, pair_tree kv.1 (tree_of kv.2)) <$> o)
  end.

Fixpoint value_of_tree (t : gen_tree string) : Value :=
  match t with
  | GenLeaf s => Str s
  | GenNode 0 _ => Null
  | GenNode 1 _ => Bool false
  | GenNode 2 _ => Bool true
  | GenNode 3 (GenLeaf s :: _) => Number s
  | GenNode 4 l => Array (value_of_tree <$> l)
  | GenNode 5 l =>
      Obj ((λ t, match t with GenNode _ [GenLeaf k; t] => (k, value_of_tree t) | _ => (EmptyString, Null) end) <$> l)
  | _ => Null
  end.

Lemma value_of_tree_of v : value_of_tree (tree_of v) = v.
Proof.
  revert v. fix IH 1. intros [|[]| | |l|o]; try reflexivity; simpl; f_equal.
  - induction l as [|v l IHl]; [reflexivity|]. exact (f_equal2 cons (IH v) IHl).
  - induction o as [|[k v] o IHo]; [reflexivity|].
    exact (f_equal2 cons (f_equal (pair k) (IH v)) IHo).
Qed.

Definition unique_dec : ∀ v, Decision (unique v).
Proof.
  fix IH 1. intros [| | | |l|o]; try (left; exact I).
  - induction l as [|v l IHl]; [left; exact I|]. simpl. apply and_dec; [apply IH|apply IHl].
  - simpl. apply and_dec; [apply _|]. induction o as [|[k v] o IHo]; [left; exact I|]. simpl.
    apply and_dec; [apply IH|apply IHo].
Defined.

(** Numbers as texts. *)
Definition mark (n : nat) : Ascii.ascii := Ascii.ascii_of_nat n.
Fixpoint digits (p : positive) : data :=
  match p with
  | xH => []
  | xO p => mark 48 :: digits p
  | xI p => mark 49 :: digits p
  end.
Fixpoint number (t : data) : positive :=
  match t with
  | [] => xH
  | c :: t => if decide (c = mark 48) then xO (number t) else xI (number t)
  end.
Lemma number_digits p : number (digits p) = p.
Proof. induction p; simpl; try done; by f_equal. Qed.

Definition parse (t : data) : option Object :=
  match decode (A := gen_tree string) (number t) with
  | Some tr =>
      match value_of_tree tr with
      | Obj o => if unique_dec (Obj o) then Some o else None
      | _ => None
      end
  | None => None
  end.
Definition print (o : Object) : data := digits (encode (tree_of (Obj o))).

Definition encode64 (b : data) : string := String (mark 98) (String.string_of_list_ascii b).
Definition decode64 (s : string) : result string data :=
  match s with
  | String c s => if decide (c = mark 98) then Ok (String.list_ascii_of_string s) else Err "not base64"
  | EmptyString => Err "not base64"
  end.

#[export] Instance toy_toolbox : Toolbox := {|
  ignored _ := false;
  parse_object := parse;
  print_object := print;
  print_value v := match v with Str s => quotation +:+ s +:+ quotation | _ => "null" end;
  base64_encode := encode64;
  base64_decode := decode64;
  parse_build _ := Ok (MkBuild [] "main.wasm");
  run_cmd _ _ _ := Ok tt;
  built _ := Some [mark 0];
  json_definition _ := Ok [("traits", Obj [])];
  dna_try_from _ := Ok tt;
|}.

#[export] Instance toy_laws : ToolboxLaws.
Proof.
  refine (Build_ToolboxLaws _ (λ _, True) _ _ _ _ _ _); simpl.
  - intros b. by rewrite String.list_ascii_of_string_of_list_ascii.
  - intros s. by eexists.
  - intros s. by eexists.
  - intros o Hu _ _. unfold parse, print. rewrite number_digits, decode_encode, value_of_tree_of.
    by destruct (unique_dec (Obj o)).
  - intros text o. unfold parse. destruct (decode (number text)) as [tr|]; [|done].
    destruct (value_of_tree tr); try done. destruct (unique_dec _); [|done]. by intros [= ->].
  - intros w o [= <-]. split; [|set_solver]. apply unique_obj. split; [apply NoDup_singleton|].
    rewrite Forall_singleton. apply unique_obj. split; constructor.
Qed.

Definition here : FsTree := {[["tmp"] := FsDir; ["tmp"; "out"] := FsDir]}.

Lemma here_empty : empty_dir here (resolve ["tmp"; "out"]).
Proof.
  split; [by vm_compute|]. intros q Hq Hne. apply lookup_insert_None. split.
  - apply lookup_singleton_None. intros <-. by apply Hne.
  - intros <-. by destruct Hq.
Qed.

(** A project with a configuration, a file and a directory. *)
Definition project : list (string * Node) :=
  [("app.json", FileNode (print [("name", Str "blog")]));
   ("readme", FileNode [mark 104; mark 105]);
   ("zomes", DirNode [])].

Lemma project_packable : packable [] (DirNode project).
Proof.
  assert (parse (print [("name", Str "blog")]) = Some [("name", Str "blog")]) as Hp by by vm_compute.
  split; [by_decide|]. split.
  - split; [by vm_compute|]. exists [("name", Str "blog")]. split; [exact Hp|]. split; [done|]. intros k Hk%list_elem_of_singleton. subst k.
    split; [by_decide|by intros [=]].
  - assert (∀ k, has_char (λ c, bool_decide (c = slash)) k = false → k ≠ "" → k ≠ "." → k ≠ ".." →
      k ≠ META_SECTION_NAME → sane k) as Hs by (intros; by split).
    unfold project. cbn [foldr fst snd].
    split; [intros _; split; [by apply Hs|by split]|].
    split; [intros _; split; [by apply Hs|by split]|].
    split; [intros _; split; [by apply Hs|split; [done|]]|exact I].
    split; [constructor|]. split; [constructor|exact I].
Qed.


(** A zome with code to compile. *)
Definition compiled : Node :=
  DirNode [("zomes", DirNode [("posts", DirNode [(CODE_DIR_NAME, DirNode [(BUILD_CONFIG_FILE_NAME, FileNode [])])])])].

Lemma compiled_with_code : with_code [] compiled.
Proof.
  apply (code_below [] _ "zomes" [("posts", DirNode [(CODE_DIR_NAME, DirNode [(BUILD_CONFIG_FILE_NAME, FileNode [])])])]);
    [set_solver|by_decide|done|by_decide|done|by right|].
  apply (code_below _ _ "posts" [(CODE_DIR_NAME, DirNode [(BUILD_CONFIG_FILE_NAME, FileNode [])])]);
    [set_solver|by_decide|done|by_decide|done|left; by eexists|].
  apply (code_here _ _ [(BUILD_CONFIG_FILE_NAME, FileNode [])]); [set_solver|by_decide|done|done|by eexists].
Qed.

Lemma compiled_code_not_unpacked_witness :
  match package false [] compiled with
  | Ok text => ∃ d' e, unpack text ["tmp"; "out"] here = Done (d', Err e)
  | Err _ => False
  end.
Proof.
  destruct (package false [] compiled) as [text|e] eqn:E; [|by vm_compute in E].
  destruct (bundle_recurse false [] compiled) as [o|e] eqn:Ho; [|by vm_compute in Ho].
  apply (compiled_code_not_unpacked [] compiled o text); [apply compiled_with_code|exact Ho|exact E|..].
  - vm_compute in Ho. injection Ho as <-. repeat split.
  - vm_compute in Ho. injection Ho as <-. unfold recursion_limit. simpl. lia.
Defined.

Lemma unpack_escapes_witness :
  unpack (print_object (one_file (".." +:+ "/" +:+ "evil") [])) ["tmp"; "out"] here =
    Done (<[["tmp"; "evil"] := FsFile []]> here, Ok tt).
Proof.
  apply (unpack_escapes ["tmp"; "out"] "evil" [] here);
    [by repeat constructor|by_decide|by vm_compute|by vm_compute].
Defined.

(** Whether a file next to no configuration is packaged depends on the order in which the
    directory is listed. *)
Example order_decides :
  bundle_recurse true [] (DirNode [("readme", FileNode []); ("zomes", DirNode [])]) = Ok [("zomes", Obj [])] ∧
  bundle_recurse true [] (DirNode [("zomes", DirNode []); ("readme", FileNode [])]) =
    Ok [("zomes", Obj []); ("readme", Str (encode64 []))].
Proof. done. Qed.
End Toy.

