(* ===== verification/Transport.v ===== *)
(** * Connections over secure web sockets

    [net/src/ipc/transport] and [net/src/ipc/transport_wss]: a pool of connections, each of
    which goes through the handshakes of TLS and of the web socket and then sends what is
    queued for it and reports what it receives.

    The streams ([std::net], [native_tls], [tungstenite]), the clock and the order in which a
    [HashMap] yields its keys belong to the world outside, a parameter that the operations
    pass on.  A byte is a [Z]. *)
From S2P Require Import Prelude.

Abbreviation TransportId := string.
Abbreviation TransportError := string.
Abbreviation bytes := (list Z).

(** [url::Url], with what [connect] asks of it. *)
Record Url := MkUrl { url_text : string; url_host : option string; url_port : option string }.

(** What a handshake gives: a stream that has to be asked again, an error or a stream. *)
Inductive Handshake (Mid Stream : Type) :=
| HsBlocked (mid : Mid)
| HsFailed (e : TransportError)
| HsDone (stream : Stream).
Arguments HsBlocked {Mid Stream} mid.
Arguments HsFailed {Mid Stream} e.
Arguments HsDone {Mid Stream} stream.

(** [tungstenite::Message]. *)
Inductive WsMessage :=
| WsText (s : bytes)
| WsBinary (b : bytes)
| WsPing (b : bytes)
| WsPong (b : bytes)
| WsClose.

(** The answers of [read_message]: a message, [ErrorKind::WouldBlock], [ConnectionClosed] or
    another error. *)
Inductive WsRead :=
| ReadMessage (msg : WsMessage)
| ReadBlocked
| ReadClosed
| ReadFailed (e : TransportError).

Inductive TransportEvent :=
| EventError (id : TransportId) (e : TransportError)
| EventConnect (id : TransportId)
| EventMessage (id : TransportId) (payload : bytes)
| EventClose (id : TransportId).

#[global] Instance transport_event_eq_dec : EqDecision TransportEvent.
Proof. solve_decision. Defined.

(** The world outside.  [clock] is [Instant::now] in nanoseconds. *)
Class Sockets := {
  Outside : Type;
  BaseStream : Type;
  TlsMid : Type;
  TlsStream : Type;
  WssMid : Type;
  WssStream : Type;
  clock : Outside → Z;
  sleep : Z → Outside → Outside;
  key_order : Outside → gset string → list string;
  parse_url : string → result TransportError Url;
  tcp_connect : string → Outside → Outside * result TransportError BaseStream;
  set_nonblocking : BaseStream → Outside → Outside * result TransportError BaseStream;
  connector_builds : Outside → bool;
  tls_connect : string → BaseStream → Outside → Outside * Handshake TlsMid TlsStream;
  tls_handshake : TlsMid → Outside → Outside * Handshake TlsMid TlsStream;
  ws_client : Url → TlsStream → Outside → Outside * Handshake WssMid WssStream;
  ws_handshake : WssMid → Outside → Outside * Handshake WssMid WssStream;
  write_message : WsMessage → WssStream → Outside → Outside * WssStream * result TransportError unit;
  read_message : WssStream → Outside → Outside * WssStream * WsRead;
  ws_close : WssStream → Outside → Outside * WssStream * result TransportError unit;
  write_pending : WssStream → Outside → Outside * WssStream * result TransportError unit;
  debug_errors : list TransportError → string;
  debug_timeout : TransportId → list TransportEvent → string;
}.

(** The clock is monotonic, a sleep lasts at least as long as it is asked to, and a map
    yields every key once. *)
Class SocketLaws `(K : Sockets) := {
  key_order_keys o X : key_order o X ≡ₚ elements X;
  clock_sleep ns o : clock o + ns ≤ clock (sleep ns o);
  clock_tcp_connect a o : clock o ≤ clock (tcp_connect a o).1;
  clock_set_nonblocking s o : clock o ≤ clock (set_nonblocking s o).1;
  clock_tls_connect u s o : clock o ≤ clock (tls_connect u s o).1;
  clock_tls_handshake s o : clock o ≤ clock (tls_handshake s o).1;
  clock_ws_client u s o : clock o ≤ clock (ws_client u s o).1;
  clock_ws_handshake s o : clock o ≤ clock (ws_handshake s o).1;
  clock_write_message m s o : clock o ≤ clock (write_message m s o).1.1;
  clock_read_message s o : clock o ≤ clock (read_message s o).1.1;
}.

Definition DEFAULT_HEARTBEAT_MS : Z := 2000.
Definition DEFAULT_HEARTBEAT_WAIT_MS : Z := 5000.

Section transport.
Context `{K : Sockets}.

Inductive WssStreamState :=
| StNone
| Connecting (socket : BaseStream)
| TlsMidHandshake (socket : TlsMid)
| TlsReady (socket : TlsStream)
| WssMidHandshake (socket : WssMid)
| Ready (socket : WssStream).

Record TransportInfo := MkTransportInfo {
  info_id : TransportId;
  info_url : Url;
  last_msg : Z;
  send_queue : list bytes;
  stateful_socket : WssStreamState;
}.

Record TransportWss := MkTransportWss {
  stream_sockets : gmap string TransportInfo;
  event_queue : list TransportEvent;
  n_id : Z;
}.

(** The pool and the world it works in. *)
Abbreviation Pool := (TransportWss * Outside)%type.
Abbreviation pooled := (stateful Pool TransportError).

Definition set_sockets (m : gmap string TransportInfo) (t : TransportWss) : TransportWss :=
  MkTransportWss m (event_queue t) (n_id t).
Definition push_events (evts : list TransportEvent) (t : TransportWss) : TransportWss :=
  MkTransportWss (stream_sockets t) (event_queue t ++ evts) (n_id t).

Definition with_socket (st : WssStreamState) (i : TransportInfo) : TransportInfo :=
  MkTransportInfo (info_id i) (info_url i) (last_msg i) (send_queue i) st.
Definition heard_at (now : Z) (i : TransportInfo) : TransportInfo :=
  MkTransportInfo (info_id i) (info_url i) now (send_queue i) (stateful_socket i).
Definition with_queue (q : list bytes) (i : TransportInfo) : TransportInfo :=
  MkTransportInfo (info_id i) (info_url i) (last_msg i) q (stateful_socket i).

(** [instant.elapsed().as_millis()]. *)
Definition elapsed_ms (since : Z) (o : Outside) : Z := (clock o - since) `div` 1000000.

Definition transport_new : TransportWss := MkTransportWss ∅ [] 1.

(** The stream factory of [with_std_tcp_stream]. *)
Definition stream_factory (host_port : string) (o : Outside) :
    Outside * result TransportError BaseStream :=
  match tcp_connect host_port o with
  | (o, Ok socket) => set_nonblocking socket o
  | (o, Err e) => (o, Err e)
  end.

(** [priv_next_id]. *)
Definition id_of (n : Z) : TransportId := "ws" +:+ pretty n.
Definition priv_next_id : pooled TransportId := λ '(t, o),
  if decide (n_id t + 1 < 2 ^ 64) then
    Done (MkTransportWss (stream_sockets t) (event_queue t) (n_id t + 1), o, Ok (id_of (n_id t)))
  else Panicked "attempt to add with overflow".

Definition open_stream (host_port : string) : pooled BaseStream := λ '(t, o),
  let '(o', r) := stream_factory host_port o in Done (t, o', r).

Definition insert_info (id : TransportId) (uri : Url) (socket : BaseStream) : pooled unit :=
  modify (λ '(t, o),
    (set_sockets (<[id := MkTransportInfo id uri (clock o) [] (Connecting socket)]> (stream_sockets t)) t, o)).

Definition connect (uri : string) : pooled TransportId :=
  uri ← lift (parse_url uri);
  host ← lift (ok_or (url_host uri) "bad connect host");
  port ← lift (ok_or (url_port uri) "bad connect port");
  socket ← open_stream (host +:+ ":" +:+ port);
  id ← priv_next_id;
  insert_info id uri socket ;;
  mret id.

(** [TransportInfo::close]; the connection itself is dropped by the callers. *)
Definition info_close (i : TransportInfo) (o : Outside) : Outside * result TransportError unit :=
  match stateful_socket i with
  | Ready socket =>
      match ws_close socket o with
      | (o, socket, Ok _) => let '(o, _, r) := write_pending socket o in (o, r)
      | (o, _, Err e) => (o, Err e)
      end
  | _ => (o, Ok tt)
  end.

Definition close (id : TransportId) : pooled unit := λ '(t, o),
  match stream_sockets t !! id with
  | Some info =>
      let '(o, r) := info_close info o in
      Done (set_sockets (delete id (stream_sockets t)) t, o, r)
  | None => Done (t, o, Ok tt)
  end.

(** The loop of [close_all] removes one key of the map in every turn. *)
Fixpoint close_each (fuel : nat) (m : gmap string TransportInfo) (errors : list TransportError)
    (o : Outside) : gmap string TransportInfo * list TransportError * Outside :=
  match fuel, key_order o (dom m) with
  | S fuel, key :: _ =>
      match m !! key with
      | Some info =>
          let '(o, r) := info_close info o in
          let errors := match r with Ok _ => errors | Err e => errors ++ [e] end in
          close_each fuel (delete key m) errors o
      | None => close_each fuel m errors o
      end
  | _, _ => (m, errors, o)
  end.

Definition close_all : pooled unit := λ '(t, o),
  let '(m, errors, o) := close_each (size (stream_sockets t)) (stream_sockets t) [] o in
  Done (set_sockets m t, o, if decide (errors = []) then Ok tt else Err (debug_errors errors)).

Definition transport_id_list : pooled (list TransportId) :=
  gets (λ '(t, o), key_order o (dom (stream_sockets t))).

Definition send_one (payload : bytes) (m : gmap string TransportInfo) (id : TransportId) :
    gmap string TransportInfo :=
  alter (λ i, with_queue (send_queue i ++ [payload]) i) id m.

Definition send (id_list : list TransportId) (payload : bytes) : pooled unit :=
  modify (λ '(t, o), (set_sockets (foldl (send_one payload) (stream_sockets t) id_list) t, o)).

Definition send_all (payload : bytes) : pooled unit :=
  modify (λ '(t, o),
    (set_sockets ((λ i, with_queue (send_queue i ++ [payload]) i) <$> stream_sockets t) t, o)).

(** ** Polling *)

Definition priv_tls_handshake (res : Handshake TlsMid TlsStream) :
    result TransportError WssStreamState :=
  match res with
  | HsBlocked socket => Ok (TlsMidHandshake socket)
  | HsFailed e => Err e
  | HsDone socket => Ok (TlsReady socket)
  end.

(** The events are those it pushes. *)
Definition priv_ws_handshake (id : TransportId) (res : Handshake WssMid WssStream) :
    list TransportEvent * result TransportError WssStreamState :=
  match res with
  | HsBlocked socket => ([], Ok (WssMidHandshake socket))
  | HsFailed e => ([], Err e)
  | HsDone socket => ([EventConnect id], Ok (Ready socket))
  end.

Fixpoint write_messages (msgs : list bytes) (socket : WssStream) (o : Outside) :
    Outside * result TransportError WssStream :=
  match msgs with
  | [] => (o, Ok socket)
  | msg :: msgs =>
      match write_message (WsBinary msg) socket o with
      | (o, socket, Ok _) => write_messages msgs socket o
      | (o, _, Err e) => (o, Err e)
      end
  end.

(** What one turn makes of a connection: whether it did work, the connection as it leaves
    it, the events it pushes, the world and its result. *)
Record Turn := MkTurn {
  turn_did_work : bool;
  turn_info : TransportInfo;
  turn_events : list TransportEvent;
  turn_outside : Outside;
  turn_result : result TransportError unit;
}.

(** [info.stateful_socket = r?; Ok(())], the socket having been moved out before. *)
Definition settle (did_work : bool) (info : TransportInfo) (evts : list TransportEvent) (o : Outside)
    (r : result TransportError WssStreamState) : Turn :=
  match r with
  | Ok st => MkTurn did_work (with_socket st info) evts o (Ok tt)
  | Err e => MkTurn did_work info evts o (Err e)
  end.

Definition queued (msg : WsMessage) : option bytes :=
  match msg with WsText s => Some s | WsBinary b => Some b | _ => None end.

Definition process_ready (did_work : bool) (info : TransportInfo) (socket : WssStream) (o : Outside) : Turn :=
  let msgs := send_queue info in
  let info := with_queue [] info in
  match write_messages msgs socket o with
  | (o, Err e) => MkTurn did_work info [] o (Err e)
  | (o, Ok socket) =>
      match read_message socket o with
      | (o, socket, ReadBlocked) => MkTurn did_work (with_socket (Ready socket) info) [] o (Ok tt)
      | (o, _, ReadClosed) => MkTurn did_work info [] o (Ok tt)
      | (o, _, ReadFailed e) => MkTurn did_work info [] o (Err e)
      | (o, socket, ReadMessage msg) =>
          let evts := match queued msg with Some b => [EventMessage (info_id info) b] | None => [] end in
          MkTurn true (with_socket (Ready socket) (heard_at (clock o) info)) evts o (Ok tt)
      end
  end.

Definition priv_process_socket (did_work : bool) (info : TransportInfo) (o : Outside) : outcome Turn :=
  let socket := stateful_socket info in
  let info := with_socket StNone info in
  match socket with
  | StNone => Done (MkTurn did_work info [] o (Ok tt))
  | Connecting socket =>
      let info := heard_at (clock o) info in
      if connector_builds o then
        let '(o, res) := tls_connect (url_text (info_url info)) socket o in
        Done (settle true info [] o (priv_tls_handshake res))
      else Panicked "failed to build TlsConnector"
  | TlsMidHandshake socket =>
      let '(o, res) := tls_handshake socket o in
      Done (settle did_work info [] o (priv_tls_handshake res))
  | TlsReady socket =>
      let info := heard_at (clock o) info in
      let '(o, res) := ws_client (info_url info) socket o in
      let '(evts, r) := priv_ws_handshake (info_id info) res in
      Done (settle true info evts o r)
  | WssMidHandshake socket =>
      let '(o, res) := ws_handshake socket o in
      let '(evts, r) := priv_ws_handshake (info_id info) res in
      Done (settle did_work info evts o r)
  | Ready socket => Done (process_ready did_work info socket o)
  end.

(** The heartbeat of a connection that is still open: [None] when the connection is closed,
    otherwise the connection that is kept.  The source asks for the elapsed time once in
    each condition; no time is taken to pass between the two. *)
Definition heartbeat (info : TransportInfo) (o : Outside) :
    Outside * result TransportError (option TransportInfo) :=
  if decide (DEFAULT_HEARTBEAT_MS < elapsed_ms (last_msg info) o) then
    match stateful_socket info with
    | Ready socket =>
        match write_message (WsPing []) socket o with
        | (o, socket, Ok _) => (o, Ok (Some (with_socket (Ready socket) info)))
        | (o, _, Err e) => (o, Err e)
        end
    | _ => (o, Ok (Some info))
    end
  else if decide (DEFAULT_HEARTBEAT_WAIT_MS < elapsed_ms (last_msg info) o) then (o, Ok None)
  else (o, Ok (Some info)).

Definition error_events (id : TransportId) (r : result TransportError unit) : list TransportEvent :=
  match r with Ok _ => [] | Err e => [EventError id e] end.

(** The loop over the connections that were taken out. *)
Fixpoint process_sockets (sockets : list (string * TransportInfo)) (did_work : bool) : pooled bool :=
  match sockets with
  | [] => mret did_work
  | (id, info) :: sockets => λ '(t, o),
      match priv_process_socket did_work info o with
      | Panicked why => Panicked why
      | Done turn =>
          let info := turn_info turn in
          let t := push_events (turn_events turn ++ error_events (info_id info) (turn_result turn)) t in
          match stateful_socket info with
          | StNone =>
              process_sockets sockets (turn_did_work turn)
                (push_events [EventClose (info_id info)] t, turn_outside turn)
          | _ =>
              match heartbeat info (turn_outside turn) with
              | (o, Err e) => Done (t, o, Err e)
              | (o, Ok None) =>
                  process_sockets sockets (turn_did_work turn)
                    (push_events [EventClose (info_id info)] t, o)
              | (o, Ok (Some info)) =>
                  process_sockets sockets (turn_did_work turn)
                    (set_sockets (<[id := info]> (stream_sockets t)) t, o)
              end
          end
      end
  end.

(** [self.stream_sockets.drain().collect()]. *)
Definition drained (m : gmap string TransportInfo) (o : Outside) : list (string * TransportInfo) :=
  omap (λ k, pair k <$> m !! k) (key_order o (dom m)).

Definition priv_process_stream_sockets : pooled bool := λ '(t, o),
  process_sockets (drained (stream_sockets t) o) false (set_sockets ∅ t, o).

Definition take_events : pooled (list TransportEvent) := λ '(t, o),
  Done (MkTransportWss (stream_sockets t) [] (n_id t), o, Ok (event_queue t)).

Definition poll : pooled (bool * list TransportEvent) :=
  did_work ← priv_process_stream_sockets;
  evts ← take_events;
  mret (did_work, evts).

(** ** Waiting for a connection *)

(** Every turn of the loop sleeps for 3 ms, and it goes on for less than 5000 ms: 1668
    turns are never exceeded. *)
Definition wait_fuel : nat := 1668.

Definition sleep_ms (ms : Z) : pooled unit := modify (λ '(t, o), (t, sleep (ms * 1000000) o)).

Definition out_of_turns : string := "wait_connect: out of turns".

Definition is_connect (evt : TransportEvent) : bool :=
  match evt with EventConnect _ => true | _ => false end.

Fixpoint wait_loop (fuel : nat) (start : Z) (transport_id : TransportId) (out : list TransportEvent) :
    pooled TransportId :=
  elapsed ← gets (λ '(t, o), elapsed_ms start o);
  if decide (elapsed < DEFAULT_HEARTBEAT_WAIT_MS) then
    match fuel with
    | O => panic out_of_turns
    | S fuel =>
        '(_, evt_lst) ← poll;
        if decide (EventConnect transport_id ∈ evt_lst) then mret transport_id
        else
          sleep_ms 3 ;;
          wait_loop fuel start transport_id (out ++ filter (λ evt, negb (is_connect evt)) evt_lst)
    end
  else throw (debug_timeout transport_id out).

Definition wait_connect (uri : string) : pooled TransportId :=
  transport_id ← connect uri;
  start ← gets (λ '(t, o), clock o);
  wait_loop wait_fuel start transport_id [].
End transport.
