(* ===== verification/TransportFacts.v ===== *)
(** * Properties of the connections over web sockets

    What a poll keeps of the pool, that waiting for a connection ends, and that a connection
    whose peer has fallen silent is kept for ever. *)
From S2P Require Import Prelude Transport.

Definition event_id (evt : TransportEvent) : TransportId :=
  match evt with EventError id _ | EventConnect id | EventMessage id _ | EventClose id => id end.

Section pool.
Context `{K : Sockets}.

(** ** One turn of a connection *)

(** The stream has been moved out of the connection, so an error leaves it without one. *)
Lemma settle_spec did_work info evts o r :
  stateful_socket info = StNone →
  turn_info (settle did_work info evts o r) = with_socket (stateful_socket (turn_info (settle did_work info evts o r))) info ∧
  turn_events (settle did_work info evts o r) = evts ∧
  turn_outside (settle did_work info evts o r) = o ∧
  (turn_result (settle did_work info evts o r) = Ok tt ∨
   stateful_socket (turn_info (settle did_work info evts o r)) = StNone).
Proof. intros Hn. destruct info, r; simpl in *; subst; auto. Qed.

Lemma ws_handshake_events id res evts r :
  priv_ws_handshake id res = (evts, r) → Forall (λ evt, event_id evt = id) evts.
Proof. destruct res; intros [= <- <-]; repeat constructor. Qed.

Definition turn_fine (info : TransportInfo) (turn : Turn) : Prop :=
  info_id (turn_info turn) = info_id info ∧
  Forall (λ evt, event_id evt = info_id info) (turn_events turn) ∧
  (turn_result turn = Ok tt ∨ stateful_socket (turn_info turn) = StNone).

Lemma settle_fine did_work info info' evts o r :
  stateful_socket info = StNone → info_id info = info_id info' →
  Forall (λ evt, event_id evt = info_id info') evts →
  turn_fine info' (settle did_work info evts o r).
Proof.
  intros Hn Hid Hevts.
  destruct (settle_spec did_work info evts o r Hn) as (Hi & He & _ & Hr).
  split_and!; [by rewrite Hi|by rewrite He|done].
Qed.

Lemma process_ready_fine did_work info socket o :
  stateful_socket info = StNone → turn_fine info (process_ready did_work info socket o).
Proof.
  intros Hn. unfold process_ready, turn_fine.
  repeat case_match; simpl; split_and!; auto; repeat constructor.
Qed.

Lemma process_socket_fine did_work info o turn :
  priv_process_socket did_work info o = Done turn → turn_fine info turn.
Proof.
  unfold priv_process_socket. destruct (stateful_socket info) eqn:Hs; intros Ht.
  - injection Ht as <-. split_and!; simpl; auto; constructor.
  - case_match; [|done]. case_match. injection Ht as <-. apply settle_fine; [done..|constructor].
  - case_match. injection Ht as <-. apply settle_fine; [done..|constructor].
  - case_match. destruct (priv_ws_handshake _ _) as [evts r] eqn:Hw. injection Ht as <-.
    apply settle_fine; [done..|]. by apply ws_handshake_events in Hw.
  - case_match. destruct (priv_ws_handshake _ _) as [evts r] eqn:Hw. injection Ht as <-.
    apply settle_fine; [done..|]. by apply ws_handshake_events in Hw.
  - injection Ht as <-. by apply (process_ready_fine did_work (with_socket StNone info)).
Qed.

(** The heartbeat keeps every connection: whoever is silent for more than
    [DEFAULT_HEARTBEAT_WAIT_MS] is silent for more than [DEFAULT_HEARTBEAT_MS], and the
    test for the latter comes first. *)
Lemma heartbeat_keeps info o o' kept :
  heartbeat info o = (o', Ok kept) →
  ∃ info', kept = Some info' ∧ info_id info' = info_id info ∧ last_msg info' = last_msg info ∧
    (stateful_socket info ≠ StNone → stateful_socket info' ≠ StNone).
Proof.
  unfold heartbeat, DEFAULT_HEARTBEAT_MS, DEFAULT_HEARTBEAT_WAIT_MS. intros Hh.
  destruct (decide (2000 < _)) as [?|?].
  - repeat case_match; simplify_eq/=; (eexists; split_and!; [done..|by simpl; try congruence]).
  - rewrite decide_False in Hh by lia. injection Hh as <- <-. eauto.
Qed.

(** ** The pool stays well-formed *)

Definition issued (t : TransportWss) (id : TransportId) : Prop := ∃ n, 1 ≤ n < n_id t ∧ id = id_of n.

Record pool_ok (t : TransportWss) : Prop := {
  pool_counter : 1 ≤ n_id t;
  pool_sockets : map_Forall
    (λ k i, info_id i = k ∧ issued t k ∧ stateful_socket i ≠ StNone) (stream_sockets t);
  pool_events : Forall (λ evt, issued t (event_id evt)) (event_queue t);
}.

Lemma id_of_inj n m : id_of n = id_of m → n = m.
Proof. unfold id_of. intros H. by apply (inj (String.app "ws")), (inj pretty) in H. Qed.

Lemma push_events_ok t evts :
  pool_ok t → Forall (λ evt, issued t (event_id evt)) evts → pool_ok (push_events evts t).
Proof. intros [? ? ?] ?. constructor; simpl; [done..|]. by apply Forall_app. Qed.

Lemma push_nothing t : push_events [] t = t.
Proof. destruct t as [m q n]. unfold push_events. simpl. by rewrite app_nil_r. Qed.

Lemma set_sockets_ok t m :
  pool_ok t → map_Forall (λ k i, info_id i = k ∧ issued t k ∧ stateful_socket i ≠ StNone) m →
  pool_ok (set_sockets m t).
Proof. intros [? ? ?] ?. by constructor. Qed.

Lemma turn_events_ok t info turn :
  turn_fine info turn → issued t (info_id info) → pool_ok t →
  pool_ok (push_events (turn_events turn ++ error_events (info_id (turn_info turn)) (turn_result turn)) t).
Proof.
  intros (Hid & Hevts & _) Hi Ht. apply push_events_ok; [done|]. apply Forall_app. split.
  - eapply Forall_impl; [exact Hevts|]. by intros evt ->.
  - destruct (turn_result turn); repeat constructor. simpl. by rewrite Hid.
Qed.

Lemma none_or_not (st : WssStreamState) : st = StNone ∨ st ≠ StNone.
Proof. destruct st; auto. Qed.

(** The turns of the loop: a connection is closed because it has no stream, its heartbeat
    ends the loop, or it is put back. *)
Lemma process_sockets_cons k info l did_work t o p r :
  process_sockets ((k, info) :: l) did_work (t, o) = Done (p, r) →
  ∃ turn, priv_process_socket did_work info o = Done turn ∧
    let t1 := push_events (turn_events turn ++ error_events (info_id (turn_info turn)) (turn_result turn)) t in
    (stateful_socket (turn_info turn) = StNone ∧
       process_sockets l (turn_did_work turn)
         (push_events [EventClose (info_id (turn_info turn))] t1, turn_outside turn) = Done (p, r)) ∨
    (stateful_socket (turn_info turn) ≠ StNone ∧ ∃ o1 e,
       heartbeat (turn_info turn) (turn_outside turn) = (o1, Err e) ∧ p = (t1, o1) ∧ r = Err e) ∨
    (stateful_socket (turn_info turn) ≠ StNone ∧ ∃ o1 info',
       heartbeat (turn_info turn) (turn_outside turn) = (o1, Ok (Some info')) ∧
       process_sockets l (turn_did_work turn) (set_sockets (<[k := info']> (stream_sockets t1)) t1, o1)
         = Done (p, r)).
Proof.
  simpl. destruct (priv_process_socket did_work info o) as [turn|]; [|done]. intros Hp.
  exists turn. split; [done|]. simpl.
  destruct (none_or_not (stateful_socket (turn_info turn))) as [Hn|Hn].
  { left. split; [done|]. by rewrite Hn in Hp. }
  destruct (heartbeat (turn_info turn) (turn_outside turn)) as [o1 [kept|e]] eqn:Hh.
  - destruct (heartbeat_keeps _ _ _ _ Hh) as (info' & -> & _). right; right. split; [done|].
    exists o1, info'. split; [done|]. by destruct (stateful_socket (turn_info turn)).
  - right; left. split; [done|]. exists o1, e. split; [done|].
    destruct (stateful_socket (turn_info turn)); simplify_eq; done.
Qed.

Lemma process_sockets_ok l did_work t o t' o' r :
  pool_ok t → Forall (λ ki, info_id ki.2 = ki.1 ∧ issued t ki.1) l →
  process_sockets l did_work (t, o) = Done (t', o', r) → pool_ok t' ∧ n_id t' = n_id t.
Proof.
  revert did_work t o. induction l as [|[k info] l IH]; intros did_work t o Ht Hl Hp.
  { injection Hp as <- <- <-. done. }
  apply Forall_cons in Hl as [[Hk Hi] Hl]. simpl in Hk, Hi. subst k.
  apply process_sockets_cons in Hp as (turn & Hturn & Hcases).
  apply process_socket_fine in Hturn.
  pose proof (turn_events_ok t info turn Hturn Hi Ht) as Ht1. destruct Hturn as (Hid & _ & _).
  destruct Hcases as [[_ Hp]|[(_ & o1 & e & _ & [= -> ->] & _)|(Hs & o1 & info' & Hh & Hp)]].
  - apply IH in Hp; [done| |done]. apply push_events_ok; [done|]. repeat constructor.
    simpl. by rewrite Hid.
  - done.
  - apply heartbeat_keeps in Hh as (? & [= <-] & Hi' & _ & Hn).
    apply IH in Hp; [done| |done]. apply set_sockets_ok; [done|].
    apply map_Forall_insert_2; [|apply Ht1]. split_and!; [congruence|done|by apply Hn].
Qed.

Lemma drained_spec `{!SocketLaws K} m o k i : (k, i) ∈ drained m o ↔ m !! k = Some i.
Proof.
  unfold drained. rewrite list_elem_of_omap. setoid_rewrite key_order_keys.
  setoid_rewrite elem_of_elements. setoid_rewrite elem_of_dom. split.
  - intros (k' & _ & Hk). destruct (m !! k') eqn:E; simplify_eq/=. done.
  - intros Hk. exists k. rewrite Hk. eauto.
Qed.

Lemma poll_ok `{!SocketLaws K} t o t' o' r :
  pool_ok t → poll (t, o) = Done (t', o', r) → pool_ok t' ∧ n_id t' = n_id t.
Proof.
  intros Ht Hp. unfold poll, mbind, stateful_bind in Hp. simpl in Hp.
  destruct (process_sockets _ _ _) as [[[t1 o1] r1]|] eqn:Hps; [|done].
  apply process_sockets_ok in Hps as [[Hc Hm He] Hn].
  - unfold mret, stateful_ret in Hp. destruct r1; simplify_eq/=; split; try done; by constructor.
  - by apply set_sockets_ok; [|apply map_Forall_empty].
  - apply Forall_forall. intros [k i] Hk. apply drained_spec in Hk.
    by destruct (pool_sockets t Ht k i Hk) as (? & ? & _).
Qed.

Lemma issued_mono t t' id : n_id t ≤ n_id t' → issued t id → issued t' id.
Proof. intros ? (n & ? & ->). exists n. split; [lia|done]. Qed.

Lemma pool_connect_ok uri t o t' o' r :
  pool_ok t → connect uri (t, o) = Done (t', o', r) →
  pool_ok t' ∧ n_id t ≤ n_id t' ∧
  (∀ id, r = Ok id → stream_sockets t !! id = None ∧ is_Some (stream_sockets t' !! id)).
Proof.
  intros Ht Hc. unfold connect, mbind, stateful_bind, lift in Hc.
  destruct (parse_url uri) as [u|]; [|by simplify_eq].
  destruct (ok_or (url_host u) _) as [host|]; [|by simplify_eq].
  destruct (ok_or (url_port u) _) as [port|]; [|by simplify_eq].
  unfold open_stream in Hc. destruct (stream_factory _ o) as [o1 [socket|]]; [|by simplify_eq].
  unfold priv_next_id in Hc. case_decide; [|done].
  unfold insert_info, modify, mret, stateful_ret in Hc. simplify_eq/=. destruct Ht as [Hn Hm He].
  assert (Hnew : stream_sockets t !! id_of (n_id t) = None).
  { apply eq_None_not_Some. intros [i Hi]. destruct (Hm _ _ Hi) as (_ & (n & ? & Heq) & _).
    apply id_of_inj in Heq. lia. }
  split_and!; simpl; [|lia|intros id [= <-]; rewrite lookup_insert_eq; eauto].
  constructor; simpl; [lia| |].
  - apply map_Forall_insert_2.
    + split_and!; [done| |done]. exists (n_id t). simpl. split; [lia|done].
    + eapply map_Forall_impl; [exact Hm|]. intros k i (? & ? & ?). split_and!; [done| |done].
      eapply issued_mono; [|done]. simpl. lia.
  - eapply Forall_impl; [exact He|]. intros evt. apply issued_mono. simpl. lia.
Qed.
Lemma connect_id uri t o t' o' id :
  connect uri (t, o) = Done (t', o', Ok id) → id = id_of (n_id t).
Proof.
  intros Hc. unfold connect, mbind, stateful_bind, lift in Hc.
  destruct (parse_url uri) as [u|]; [|done]. destruct (ok_or (url_host u) _); [|done].
  destruct (ok_or (url_port u) _); [|done].
  unfold open_stream in Hc. destruct (stream_factory _ o) as [o1 [socket|]]; [|done].
  unfold priv_next_id in Hc. case_decide; [|done]. by injection Hc.
Qed.

Lemma close_ok id t o p r : pool_ok t → close id (t, o) = Done (p, r) → pool_ok p.1.
Proof.
  unfold close. intros Ht Hc. destruct (stream_sockets t !! id) as [info|]; [|by simplify_eq].
  destruct (info_close info o). simplify_eq/=. apply set_sockets_ok; [done|].
  apply map_Forall_delete, Ht.
Qed.

(** [close_all] removes every connection, whatever closing them answers. *)
Lemma close_each_empty `{!SocketLaws K} fuel m errors o :
  (size m ≤ fuel)%nat → (close_each fuel m errors o).1.1 = ∅.
Proof.
  revert m errors o. induction fuel as [|fuel IH]; intros m errors o Hf.
  { apply map_size_empty_iff. simpl. lia. }
  simpl. pose proof (key_order_keys o (dom m)) as Hk.
  destruct (key_order o (dom m)) as [|key keys] eqn:Ho.
  - simpl. apply dom_empty_iff_L, leibniz_equiv, elements_empty_iff. by apply Permutation_nil_l in Hk.
  - assert (Hin : key ∈ dom m) by (apply elem_of_elements; rewrite <- Hk; set_solver).
    apply elem_of_dom in Hin as [info Hinfo]. rewrite Hinfo.
    destruct (info_close info o) as [o1 r]. apply IH.
    rewrite map_size_delete, Hinfo. simpl. lia.
Qed.

Lemma close_all_spec `{!SocketLaws K} t o :
  ∃ o' r, close_all (t, o) = Done (set_sockets ∅ t, o', r).
Proof.
  unfold close_all. pose proof (close_each_empty (size (stream_sockets t)) (stream_sockets t) [] o) as He.
  destruct (close_each _ _ _ _) as [[m errors] o1]. simpl in He. rewrite He by done. eauto.
Qed.

Lemma queue_ok t (f : TransportInfo → TransportInfo) m :
  (∀ i, info_id (f i) = info_id i ∧ stateful_socket (f i) = stateful_socket i) →
  (∀ k i, m !! k = Some i → ∃ i', stream_sockets t !! k = Some i' ∧ (i = i' ∨ i = f i')) →
  pool_ok t → pool_ok (set_sockets m t).
Proof.
  intros Hf Hm Ht. apply set_sockets_ok; [done|]. intros k i Hi.
  destruct (Hm k i Hi) as (i' & Hi' & Hcase). destruct (pool_sockets t Ht k i' Hi') as (? & ? & ?).
  destruct (Hf i') as [? ?]. destruct Hcase as [->| ->]; split_and!; congruence.
Qed.

Lemma send_one_ok t payload id :
  pool_ok t → pool_ok (set_sockets (send_one payload (stream_sockets t) id) t).
Proof.
  apply (queue_ok t (λ i, with_queue (send_queue i ++ [payload]) i)); [done|].
  intros k i. unfold send_one. rewrite lookup_alter. case_decide as Heq; [subst k|eauto].
  intros (i' & ? & ?)%fmap_Some; eauto.
Qed.

Lemma send_ok ids payload t o p r : pool_ok t → send ids payload (t, o) = Done (p, r) → pool_ok p.1.
Proof.
  intros Ht [= <- <-]. simpl. revert t Ht. induction ids as [|id ids IH]; intros t Ht; simpl.
  { apply set_sockets_ok; [done|apply Ht]. }
  exact (IH _ (send_one_ok t payload id Ht)).
Qed.

Lemma send_all_ok payload t o p r : pool_ok t → send_all payload (t, o) = Done (p, r) → pool_ok p.1.
Proof.
  intros Ht [= <- <-]. simpl. revert Ht.
  apply (queue_ok t (λ i, with_queue (send_queue i ++ [payload]) i)); [done|].
  intros k i. rewrite lookup_fmap. intros (i' & ? & ?)%fmap_Some; eauto.
Qed.

Lemma wait_loop_ok `{!SocketLaws K} fuel start id out t o p r :
  pool_ok t → wait_loop fuel start id out (t, o) = Done (p, r) → pool_ok p.1.
Proof.
  revert out t o. induction fuel as [|fuel IH]; intros out t o Ht; simpl;
    unfold mbind, stateful_bind; simpl; intros Hw.
  { case_decide; [done|]. by injection Hw as <- <-. }
  case_decide; [|by injection Hw as <- <-].
  destruct (poll (t, o)) as [[[t1 o1] r1]|] eqn:Hp; [|done].
  apply poll_ok in Hp as [Ht1 _]; [|done].
  destruct r1 as [[b evts]|]; [|by injection Hw as <- <-].
  case_decide; [by injection Hw as <- <-|]. by apply IH in Hw.
Qed.

Lemma wait_connect_ok `{!SocketLaws K} uri t o p r :
  pool_ok t → wait_connect uri (t, o) = Done (p, r) → pool_ok p.1.
Proof.
  intros Ht Hw. unfold wait_connect in Hw.
  destruct (connect uri (t, o)) as [[[t1 o1] [id|e]]|] eqn:Hc.
  - rewrite (stateful_bind_eq _ _ _ _ _ Hc) in Hw. apply pool_connect_ok in Hc as (Ht1 & _); [|done].
    rewrite (stateful_bind_eq _ _ _ (t1, o1) (clock o1)) in Hw by done. by apply wait_loop_ok in Hw.
  - rewrite (stateful_bind_err _ _ _ _ _ Hc) in Hw. apply pool_connect_ok in Hc as (Ht1 & _); [|done].
    by injection Hw as <- <-.
  - unfold mbind, stateful_bind in Hw. by rewrite Hc in Hw.
Qed.

(** The calls of a client, each with its result thrown away. *)
Inductive PoolOp :=
| OpConnect (uri : string)
| OpWaitConnect (uri : string)
| OpClose (id : TransportId)
| OpCloseAll
| OpSend (ids : list TransportId) (payload : bytes)
| OpSendAll (payload : bytes)
| OpPoll.

Definition state_after {A} (m : stateful (TransportWss * Outside) TransportError A)
    (p : TransportWss * Outside) : outcome (TransportWss * Outside) := fst <$> m p.

Definition run_op (op : PoolOp) : TransportWss * Outside → outcome (TransportWss * Outside) :=
  match op with
  | OpConnect uri => state_after (connect uri)
  | OpWaitConnect uri => state_after (wait_connect uri)
  | OpClose id => state_after (close id)
  | OpCloseAll => state_after close_all
  | OpSend ids payload => state_after (send ids payload)
  | OpSendAll payload => state_after (send_all payload)
  | OpPoll => state_after poll
  end.

Fixpoint run_ops (ops : list PoolOp) (p : TransportWss * Outside) : outcome (TransportWss * Outside) :=
  match ops with
  | [] => Done p
  | op :: ops => p ← run_op op p; run_ops ops p
  end.

Lemma state_after_done {A} (m : stateful (TransportWss * Outside) TransportError A) p p' :
  state_after m p = Done p' → ∃ r, m p = Done (p', r).
Proof. unfold state_after. destruct (m p) as [[p1 r]|]; intros [= <-]. eauto. Qed.

Lemma run_op_ok `{!SocketLaws K} op t o p :
  pool_ok t → run_op op (t, o) = Done p → pool_ok p.1.
Proof.
  intros Ht Hop. destruct op; apply state_after_done in Hop as [r Hr].
  - destruct p. by apply pool_connect_ok in Hr as [? _].
  - by eapply wait_connect_ok.
  - by eapply close_ok.
  - destruct (close_all_spec t o) as (o1 & r1 & Hc). rewrite Hc in Hr. simplify_eq/=.
    by apply set_sockets_ok; [|apply map_Forall_empty].
  - by eapply send_ok.
  - by eapply send_all_ok.
  - destruct p. by apply poll_ok in Hr as [? _].
Qed.

Lemma run_ops_ok `{!SocketLaws K} ops t o t' o' :
  pool_ok t → run_ops ops (t, o) = Done (t', o') → pool_ok t'.
Proof.
  revert t o. induction ops as [|op ops IH]; intros t o Ht Hr; [by simplify_eq/=|].
  apply outcome_bind_done in Hr as ([t1 o1] & Hop & Hr).
  apply (run_op_ok op t o (t1, o1)) in Hop; [|done]. by eapply IH.
Qed.

Lemma transport_new_ok : pool_ok transport_new.
Proof. constructor; [done|apply map_Forall_empty|constructor]. Qed.

(** C32: the pool of connections stays well-formed.  After any sequence of calls, whether they
    succeed or not, every connection is kept under its own identifier and has a stream, every
    event waits for a connection there has been, and the next connection gets an identifier
    that no connection and no waiting event has. *)
Theorem pool_stays_ok `{!SocketLaws K} ops o t o' :
  run_ops ops (transport_new, o) = Done (t, o') →
  map_Forall (λ k i, info_id i = k ∧ stateful_socket i ≠ StNone) (stream_sockets t) ∧
  ∀ uri t1 o1 id, connect uri (t, o') = Done (t1, o1, Ok id) →
    stream_sockets t !! id = None ∧ Forall (λ evt, event_id evt ≠ id) (event_queue t) ∧
    is_Some (stream_sockets t1 !! id).
Proof.
  intros Hr. apply run_ops_ok in Hr as Ht; [|apply transport_new_ok]. split.
  - eapply map_Forall_impl; [apply Ht|]. by intros k i (? & _ & ?).
  - intros uri t1 o1 id Hc. pose proof (connect_id _ _ _ _ _ _ Hc) as ->.
    destruct (pool_connect_ok _ _ _ _ _ _ Ht Hc) as (_ & _ & Hid). destruct (Hid _ eq_refl) as [? ?].
    split_and!; [done| |done]. eapply Forall_impl; [apply Ht|].
    intros evt (n & Hn & ->) Heq. apply id_of_inj in Heq. lia.
Qed.

(** What a poll leaves of the clock and that it comes to an end. *)
Lemma write_messages_clock `{!SocketLaws K} msgs socket o :
  clock o ≤ clock (write_messages msgs socket o).1.
Proof.
  revert socket o. induction msgs as [|msg msgs IH]; intros socket o; simpl; [done|].
  pose proof (clock_write_message (WsBinary msg) socket o) as Hw.
  destruct (write_message _ _ _) as [[o1 socket1] [[]|]]; simpl in *; [|done].
  etrans; [exact Hw|apply IH].
Qed.

Lemma process_ready_clock `{!SocketLaws K} did_work info socket o :
  clock o ≤ clock (turn_outside (process_ready did_work info socket o)).
Proof.
  unfold process_ready. pose proof (write_messages_clock (send_queue info) socket o) as Hw.
  destruct (write_messages _ _ _) as [o1 [socket1|]]; [|done].
  pose proof (clock_read_message socket1 o1) as Hr. simpl in Hw.
  destruct (read_message _ _) as [[o2 socket2] [msg| | |]]; simpl in *; lia.
Qed.

Lemma settle_outside did_work info evts o r : turn_outside (settle did_work info evts o r) = o.
Proof. by destruct r. Qed.

Lemma process_socket_total `{!SocketLaws K} did_work info o :
  connector_builds o = true →
  ∃ turn, priv_process_socket did_work info o = Done turn ∧ clock o ≤ clock (turn_outside turn).
Proof.
  intros Hb. unfold priv_process_socket. rewrite Hb.
  destruct (stateful_socket info) as [|socket|socket|socket|socket|socket].
  - by eexists.
  - pose proof (clock_tls_connect (url_text (info_url info)) socket o).
    simpl. destruct (tls_connect _ _ _). eexists; split; [done|]. by rewrite settle_outside.
  - pose proof (clock_tls_handshake socket o).
    destruct (tls_handshake _ _). eexists; split; [done|]. by rewrite settle_outside.
  - pose proof (clock_ws_client (info_url info) socket o). simpl. destruct (ws_client _ _ _).
    destruct (priv_ws_handshake _ _). eexists; split; [done|]. by rewrite settle_outside.
  - pose proof (clock_ws_handshake socket o). destruct (ws_handshake _ _). simpl.
    destruct (priv_ws_handshake _ _). eexists; split; [done|]. by rewrite settle_outside.
  - eexists; split; [done|]. apply process_ready_clock.
Qed.

Lemma heartbeat_clock `{!SocketLaws K} info o : clock o ≤ clock (heartbeat info o).1.
Proof.
  unfold heartbeat. case_decide; [|by case_decide].
  destruct (stateful_socket info) as [| | | | |socket]; [done..|].
  pose proof (clock_write_message (WsPing []) socket o) as Hw.
  by destruct (write_message _ _ _) as [[o1 socket1] [[]|]].
Qed.

Lemma process_sockets_total `{!SocketLaws K} l did_work t o :
  (∀ o, connector_builds o = true) →
  ∃ t' o' r, process_sockets l did_work (t, o) = Done (t', o', r) ∧ clock o ≤ clock o'.
Proof.
  intros Hb. revert did_work t o. induction l as [|[k info] l IH]; intros did_work t o; simpl.
  { by do 3 eexists. }
  destruct (process_socket_total did_work info o (Hb o)) as (turn & -> & Hc).
  pose proof (heartbeat_clock (turn_info turn) (turn_outside turn)) as Hh.
  destruct (heartbeat (turn_info turn) (turn_outside turn)) as [o1 [[info'|]|e]]; simpl in Hh.
  1,2: destruct (stateful_socket (turn_info turn));
    (edestruct IH as (t' & o' & r & Hp & ?); exists t', o', r; split; [exact Hp|lia]).
  destruct (stateful_socket (turn_info turn));
    [edestruct IH as (t' & o' & r & Hp & ?); exists t', o', r; split; [exact Hp|lia]|..];
    (do 3 eexists; split; [done|lia]).
Qed.

Lemma poll_total `{!SocketLaws K} t o :
  (∀ o, connector_builds o = true) →
  ∃ t' o' r, poll (t, o) = Done (t', o', r) ∧ clock o ≤ clock o'.
Proof.
  intros Hb. unfold poll, mbind, stateful_bind. simpl.
  destruct (process_sockets_total (drained (stream_sockets t) o) false (set_sockets ∅ t) o Hb)
    as (t1 & o1 & [b|e] & -> & ?); by do 3 eexists.
Qed.

(** Three milliseconds pass in every turn of the waiting loop. *)
Lemma wait_loop_total `{!SocketLaws K} fuel start id out t o :
  (∀ o, connector_builds o = true) →
  5000 * 1000000 ≤ clock o - start + Z.of_nat fuel * 3000000 →
  ∃ p r, wait_loop fuel start id out (t, o) = Done (p, r).
Proof.
  intros Hb. revert out t o. induction fuel as [|fuel IH]; intros out t o Hfuel; simpl;
    unfold mbind, stateful_bind; simpl; unfold elapsed_ms, DEFAULT_HEARTBEAT_WAIT_MS.
  - rewrite decide_False; [by do 2 eexists|]. apply Z.le_ngt, Z.div_le_lower_bound; lia.
  - case_decide; [|by do 2 eexists].
    destruct (poll_total t o Hb) as (t1 & o1 & [[b evts]|e] & -> & Hc); [|by do 2 eexists].
    case_decide; [by do 2 eexists|]. simpl. apply IH.
    pose proof (clock_sleep (3 * 1000000) o1). lia.
Qed.

Lemma connect_total uri t o :
  n_id t + 1 < 2 ^ 64 → ∃ p r, connect uri (t, o) = Done (p, r).
Proof.
  intros Hn. unfold connect, mbind, stateful_bind, lift.
  destruct (parse_url uri) as [u|]; [|by do 2 eexists].
  destruct (ok_or (url_host u) _) as [host|]; [|by do 2 eexists].
  destruct (ok_or (url_port u) _) as [port|]; [|by do 2 eexists].
  unfold open_stream. destruct (stream_factory _ o) as [o1 [socket|]]; [|by do 2 eexists].
  unfold priv_next_id. rewrite decide_True by done. by do 2 eexists.
Qed.

(** C33: waiting for a connection ends.  When a TLS connector can be built and the counter of
    connections has room, whatever the peer does, [wait_connect] comes back with
    the identifier or an error: the 5000 ms are over before its loop has made 1668 turns. *)
Theorem wait_connect_returns `{!SocketLaws K} uri t o :
  (∀ o, connector_builds o = true) → n_id t + 1 < 2 ^ 64 →
  ∃ t' o' r, wait_connect uri (t, o) = Done (t', o', r).
Proof.
  intros Hb Hn. destruct (connect_total uri t o Hn) as ([t1 o1] & [id|e] & Hc).
  - unfold wait_connect. rewrite (stateful_bind_eq _ _ _ _ _ Hc).
    rewrite (stateful_bind_eq _ _ _ (t1, o1) (clock o1)) by done.
    destruct (wait_loop_total wait_fuel (clock o1) id [] t1 o1 Hb) as ([t2 o2] & r & ->);
      [by unfold wait_fuel; lia|by do 3 eexists].
  - unfold wait_connect. rewrite (stateful_bind_err _ _ _ _ _ Hc). by do 3 eexists.
Qed.
End pool.

(** ** Silent peers *)
Section silent.
Context `{K : Sockets} `{!SocketLaws K}.

(** Streams whose peer sends nothing and takes what is sent to it. *)
Variable quiet : WssStream → Prop.
Hypothesis quiet_read : ∀ s o, quiet s → ∃ o' s', read_message s o = (o', s', ReadBlocked) ∧ quiet s'.
Hypothesis quiet_write : ∀ m s o, quiet s → ∃ o' s', write_message m s o = (o', s', Ok tt) ∧ quiet s'.

Definition quiet_info (i : TransportInfo) : Prop := ∃ s, stateful_socket i = Ready s ∧ quiet s.

Lemma quiet_write_messages msgs s o :
  quiet s → ∃ o' s', write_messages msgs s o = (o', Ok s') ∧ quiet s'.
Proof using quiet_write.
  revert s o. induction msgs as [|msg msgs IH]; intros s o Hs; simpl; [eauto|].
  destruct (quiet_write (WsBinary msg) s o Hs) as (o1 & s1 & -> & Hs1). by apply IH.
Qed.

Lemma quiet_turn did_work i o :
  quiet_info i → ∃ i' o', priv_process_socket did_work i o = Done (MkTurn did_work i' [] o' (Ok tt)) ∧
    quiet_info i' ∧ last_msg i' = last_msg i.
Proof using quiet_write quiet_read.
  intros (s & Hi & Hs). unfold priv_process_socket. rewrite Hi. unfold process_ready.
  destruct (quiet_write_messages (send_queue (with_socket StNone i)) s o Hs) as (o1 & s1 & -> & Hs1).
  destruct (quiet_read s1 o1 Hs1) as (o2 & s2 & -> & Hs2).
  do 2 eexists. split; [done|]. split; [|done]. by exists s2.
Qed.

Lemma quiet_heartbeat i o :
  quiet_info i → ∃ i' o', heartbeat i o = (o', Ok (Some i')) ∧ quiet_info i' ∧ last_msg i' = last_msg i.
Proof using quiet_write.
  intros (s & Hi & Hs). unfold heartbeat, DEFAULT_HEARTBEAT_MS, DEFAULT_HEARTBEAT_WAIT_MS. rewrite Hi.
  case_decide.
  - destruct (quiet_write (WsPing []) s o Hs) as (o1 & s1 & -> & Hs1).
    do 2 eexists. split; [done|]. split; [|done]. by exists s1.
  - rewrite decide_False by lia. do 2 eexists. split; [done|]. split; [|done]. by exists s.
Qed.

(** The connections that are kept are those that came in, last heard of when they were. *)
Definition heard (m : gmap string TransportInfo) : gmap string Z := last_msg <$> m.
Definition all_quiet (m : gmap string TransportInfo) : Prop := map_Forall (λ _, quiet_info) m.

Lemma quiet_sockets l did_work t o :
  Forall (λ ki, quiet_info ki.2) l → all_quiet (stream_sockets t) → NoDup l.*1 →
  ∃ m o', process_sockets l did_work (t, o) = Done (set_sockets m t, o', Ok did_work) ∧ all_quiet m ∧
    ∀ k, heard m !! k = match (list_to_map l : gmap _ _) !! k with
                        | Some i => Some (last_msg i)
                        | None => heard (stream_sockets t) !! k
                        end.
Proof using quiet_write quiet_read.
  revert t o. induction l as [|[k i] l IH]; intros t o Hl Ht Hd; simpl.
  { exists (stream_sockets t), o. split; [by destruct t|]. split; [done|]. intros k. by rewrite lookup_empty. }
  apply Forall_cons in Hl as [Hi Hl]. apply NoDup_cons in Hd as [Hk Hd].
  destruct (quiet_turn did_work i o Hi) as (i1 & o1 & -> & Hi1 & Hm1). simpl.
  destruct (quiet_heartbeat i1 o1 Hi1) as (i2 & o2 & Hh & Hi2 & Hm2).
  destruct Hi1 as (s1 & Hs1 & _). rewrite Hs1, Hh.
  destruct (IH (set_sockets (<[k := i2]> (stream_sockets t)) (push_events [] t)) o2)
    as (m & o3 & Hp & Hm & Hheard); [done| |done|].
  { by apply map_Forall_insert_2. }
  exists m, o3. split_and!; [|done|].
  - rewrite push_nothing in *. exact Hp.
  - intros k'. rewrite Hheard. simpl. unfold heard. rewrite lookup_fmap.
    destruct (decide (k' = k)) as [->|].
    + rewrite lookup_insert_eq, not_elem_of_list_to_map_1, lookup_insert_eq by done. simpl. congruence.
    + by rewrite !lookup_insert_ne, lookup_fmap.
Qed.
Lemma drained_nodup m o : NoDup (drained m o).*1.
Proof using SocketLaws0.
  assert (Hkeys : (drained m o).*1 = filter (λ k, is_Some (m !! k)) (key_order o (dom m))).
  { unfold drained. induction (key_order o (dom m)) as [|k l IH]; [done|].
    cbn [omap list_omap]. destruct (m !! k) as [i|] eqn:Hk.
    - rewrite filter_cons_True by eauto. simpl. by f_equal.
    - rewrite filter_cons_False by (rewrite Hk; by intros [? ?]). done. }
  rewrite Hkeys. apply NoDup_filter. rewrite key_order_keys. apply NoDup_elements.
Qed.

Lemma drained_map m o : list_to_map (drained m o) = m.
Proof using SocketLaws0.
  apply map_eq. intros k. apply option_eq. intros i.
  rewrite <- elem_of_list_to_map by apply drained_nodup. apply drained_spec.
Qed.

Lemma quiet_poll t o :
  all_quiet (stream_sockets t) → event_queue t = [] →
  ∃ t' o', poll (t, o) = Done (t', o', Ok (false, [])) ∧ all_quiet (stream_sockets t') ∧
    event_queue t' = [] ∧ heard (stream_sockets t') = heard (stream_sockets t).
Proof using quiet_write quiet_read SocketLaws0.
  intros Hq He. unfold poll, mbind, stateful_bind. simpl.
  destruct (quiet_sockets (drained (stream_sockets t) o) false (set_sockets ∅ t) o)
    as (m & o1 & -> & Hm & Hheard); [| |apply drained_nodup|].
  - apply Forall_forall. intros [k i] Hk. apply drained_spec in Hk. by eapply Hq.
  - apply map_Forall_empty.
  - simpl. rewrite He. do 2 eexists. split; [done|]. split_and!; [done..|]. simpl.
    apply map_eq. intros k. rewrite Hheard, drained_map. simpl. unfold heard.
    rewrite fmap_empty, lookup_empty, lookup_fmap. by destruct (stream_sockets t !! k).
Qed.

(** Polls after pauses of the given lengths, with the events of all of them. *)
Fixpoint polls (waits : list Z) : stateful (TransportWss * Outside) TransportError (list TransportEvent) :=
  match waits with
  | [] => mret []
  | ns :: waits =>
      modify (λ '(t, o), (t, sleep ns o)) ;;
      '(_, evts) ← poll;
      more ← polls waits;
      mret (evts ++ more)
  end.

(** a connection whose peer has fallen silent is never closed.  However often the pool is
    polled and however long it waits in between, a peer that sends nothing while writes to it
    succeed keeps its connection, and nobody is told: no event is reported and the connection
    stays in the pool, last heard of when it was.  [DEFAULT_HEARTBEAT_WAIT_MS], documented as
    the time after which such a connection is closed, is only compared with when the time is
    already known to be at most [DEFAULT_HEARTBEAT_MS]. *)
Theorem silent_peer_never_closed waits t o :
  all_quiet (stream_sockets t) → event_queue t = [] →
  ∃ t' o', polls waits (t, o) = Done (t', o', Ok []) ∧
    heard (stream_sockets t') = heard (stream_sockets t).
Proof using quiet_write quiet_read SocketLaws0.
  revert t o. induction waits as [|ns waits IH]; intros t o Hq He; [by do 2 eexists|].
  cbn [polls]. rewrite (stateful_bind_eq _ _ _ (t, sleep ns o) tt) by done.
  destruct (quiet_poll t (sleep ns o) Hq He) as (t1 & o1 & Hp & Hq1 & He1 & Hh1).
  rewrite (stateful_bind_eq _ _ _ _ _ Hp). cbn beta iota.
  destruct (IH t1 o1 Hq1 He1) as (t2 & o2 & Hps & Hh2).
  rewrite (stateful_bind_eq _ _ _ _ _ Hps). exists t2, o2. split; [done|congruence].
Qed.
End silent.

(** ** A world to run in

    The clock is the whole world; a stream is what its peer is going to send and whether it
    takes what is sent to it. *)
Module Scripted.
Definition Script : Type := list WsRead * bool.

Definition scripted (peer : Script) : Sockets := {|
  Outside := Z;
  BaseStream := unit; TlsMid := unit; TlsStream := unit; WssMid := unit; WssStream := Script;
  clock o := o;
  sleep ns o := o + ns;
  key_order o X := elements X;
  parse_url uri := Ok (MkUrl uri (Some "localhost") (Some "9000"));
  tcp_connect _ o := (o, Ok tt);
  set_nonblocking s o := (o, Ok s);
  connector_builds _ := true;
  tls_connect _ _ o := (o, HsBlocked tt);
  tls_handshake _ o := (o, HsDone tt);
  ws_client _ _ o := (o, HsBlocked tt);
  ws_handshake _ o := (o, HsDone peer);
  write_message _ s o := (o, s, if s.2 then Ok tt else Err "WouldBlock");
  read_message s o :=
    match s.1 with [] => (o, s, ReadBlocked) | r :: rs => (o, (rs, s.2), r) end;
  ws_close s o := (o, s, Ok tt);
  write_pending s o := (o, s, Ok tt);
  debug_errors := String.concat ", ";
  debug_timeout id _ := "timed out: " +:+ id;
|}.

#[global] Instance scripted_laws peer : SocketLaws (scripted peer).
Proof.
  constructor; simpl; intros; try lia; [done|].
  by destruct s as [[|] ?].
Qed.

(** A pool with one connection, which is ready and was last heard of at the beginning. *)
Definition one_ready (peer : Script) : TransportWss (K := scripted peer) :=
  MkTransportWss (K := scripted peer)
    {[ "ws1" := MkTransportInfo (K := scripted peer) "ws1" (MkUrl "wss://localhost" None None) 0 []
                  (Ready (K := scripted peer) peer) ]} [] 2.

Lemma wait_connect_returns_witness :
  ∃ t o r, wait_connect (K := scripted ([], true)) "wss://localhost:9000" (transport_new, 0)
    = Done (t, o, r).
Proof. apply (wait_connect_returns (K := scripted ([], true))); [done|by_decide]. Defined.

Definition busy_pool : list PoolOp :=
  [OpConnect "a"; OpPoll; OpSendAll [1]; OpPoll; OpConnect "b"; OpPoll; OpPoll; OpPoll].

Lemma pool_stays_ok_witness :
  match run_ops (K := scripted ([ReadClosed], true)) busy_pool (transport_new, 0) with
  | Done (t, _) => map_Forall (λ k i, info_id i = k ∧ stateful_socket i ≠ StNone) (stream_sockets t)
  | Panicked _ => False
  end.
Proof.
  assert (Hd : panics (run_ops (K := scripted ([ReadClosed], true)) busy_pool (transport_new, 0)) = false)
    by (vm_compute; reflexivity).
  destruct (run_ops (K := scripted ([ReadClosed], true)) busy_pool (transport_new, 0)) as [[t o]|why] eqn:Hr; [|discriminate Hd].
  exact (proj1 (pool_stays_ok (K := scripted ([ReadClosed], true)) busy_pool 0 t o Hr)).
Defined.

Lemma silent_peer_never_closed_witness :
  ∃ t' o', polls (K := scripted ([], true)) [60000000000; 60000000000] (one_ready ([], true), 0)
      = Done (t', o', Ok []) ∧
    heard (K := scripted ([], true)) (stream_sockets t') = {[ "ws1" := 0 ]}.
Proof.
  apply (silent_peer_never_closed (K := scripted ([], true)) (λ s, s = ([], true))).
  - intros s o ->. by do 2 eexists.
  - intros m s o ->. by do 2 eexists.
  - apply map_Forall_singleton. by eexists.
  - done.
Defined.
End Scripted.
