(* ===== verification/IpcWorker.v ===== *)
(** * The worker that talks to another process

    [net/src/connection] and [net/src/ipc_net_worker.rs], [net/src/p2p_network.rs]: how a
    message is put on the wire, the worker that passes messages between the core and the
    process of the network module over a web socket, the thread a worker runs in and the
    network that owns the thread.

    The process ([ipc/spawn.rs]), MessagePack ([rmp_serde]), the JSON of messages and the handler
    given by the core are parameters. *)
From S2P Require Import Prelude WasmMemory JsonString Eav Protocol MemoryNet Package Transport.

(** Errors of [failure], as their text. *)
Abbreviation NetFailure := string.

(** ** Messages on the wire *)

Record NamedBinaryData := MkNamedBinaryData { nb_name : bytes; nb_data : bytes }.

(** [rmp_serde::to_vec_named] and [from_slice] on the records of the protocol.  The data of pings
    and pongs are the bits of their [f64]s. *)
Class Packing := {
  pack : NamedBinaryData → bytes;
  unpack_named : bytes → result NetFailure NamedBinaryData;
  pack_ping : Z → bytes;
  unpack_ping : bytes → result NetFailure Z;
  pack_pong : Z * Z → bytes;
  unpack_pong : bytes → result NetFailure (Z * Z);
}.

(** What is packed is unpacked again. *)
Class PackingLaws (W : Packing) := {
  unpack_pack d : unpack_named (pack d) = Ok d;
  unpack_pack_ping x : unpack_ping (pack_ping x) = Ok x;
  unpack_pack_pong x : unpack_pong (pack_pong x) = Ok x;
}.

(** A [JsonString] is its UTF-8 text. *)
Abbreviation JsonString := string.

Definition bytes_of (s : string) : bytes :=
  (λ c, Z.of_nat (Ascii.nat_of_ascii c)) <$> String.list_ascii_of_string s.

(** [JsonString::from_json(&String::from_utf8_lossy(..).to_string())]. *)
Definition text_of_bytes (data : bytes) : JsonString :=
  from_json (String.string_of_list_ascii (from_utf8_lossy (Ascii.ascii_of_nat ∘ Z.to_nat <$> data))).

Section wire.
Context `{W : Packing}.
Abbreviation Protocol := (Protocol JsonString).

(** [From<&Protocol> for NamedBinaryData]. *)
Definition named_of_protocol (p : Protocol) : NamedBinaryData :=
  match p with
  | NamedBinary name data => MkNamedBinaryData (bytes_of "namedBinary") (pack (MkNamedBinaryData name data))
  | JsonText j => MkNamedBinaryData (bytes_of "json") (bytes_of j)
  | Ping sent => MkNamedBinaryData (bytes_of "ping") (pack_ping sent)
  | Pong orig recv => MkNamedBinaryData (bytes_of "pong") (pack_pong (orig, recv))
  | P2pReady => MkNamedBinaryData (bytes_of "p2pReady") []
  | Shutdown => MkNamedBinaryData (bytes_of "shutdown") []
  | Terminated => MkNamedBinaryData (bytes_of "terminated") []
  end.

(** [Result::unwrap]. *)
Definition unwrap {A} (r : result NetFailure A) : outcome A :=
  match r with Ok a => Done a | Err e => Panicked ("called `Result::unwrap()` on an `Err` value: " +:+ e) end.

(** [From<&NamedBinaryData> for Protocol]. *)
Definition protocol_of_named (nb : NamedBinaryData) : outcome Protocol :=
  if decide (nb_name nb = bytes_of "namedBinary") then
    sub ← unwrap (unpack_named (nb_data nb)); mret (NamedBinary (nb_name sub) (nb_data sub))
  else if decide (nb_name nb = bytes_of "json") then mret (JsonText (text_of_bytes (nb_data nb)))
  else if decide (nb_name nb = bytes_of "ping") then
    sent ← unwrap (unpack_ping (nb_data nb)); mret (Ping sent)
  else if decide (nb_name nb = bytes_of "pong") then
    sub ← unwrap (unpack_pong (nb_data nb)); mret (Pong sub.1 sub.2)
  else if decide (nb_name nb = bytes_of "p2pReady") then mret P2pReady
  else if decide (nb_name nb = bytes_of "shutdown") then mret Shutdown
  else if decide (nb_name nb = bytes_of "terminated") then mret Terminated
  else Panicked "bad Protocol type".
End wire.

(** ** Handlers and workers *)

(** [NetHandler::handle(Ok(message))], on the state the closure has captured. *)
Class NetHandler (Text H : Type) := {
  handle : Protocol Text → stateful H NetFailure unit;
}.

(** The trait [NetWorker]. *)
Class NetWorker (Text Worker : Type) := {
  worker_receive : Protocol Text → stateful Worker NetFailure unit;
  worker_tick : stateful Worker NetFailure bool;
  worker_stop : stateful Worker NetFailure unit;
  worker_endpoint : Worker → option string;
}.

(** What the worker uses of the machine: [get_millis], in units of 2^-12 ms (the [f64] of a
    date after 2004 is a multiple of this unit, and the difference of two such dates is
    exact), the spawned process and the closure that ends it, and JSON texts. *)
Class Machine `{K : Sockets} := {
  get_millis : Outside → Z;
  ipc_spawn : string → string → list (string * string) → Outside →
    Outside * result NetFailure (string * bool);
  kill : Outside → Outside;
  value_of_text : string → result NetFailure Value;
}.

Section worker.
Context {Json H : Type}.
Context `{!MessageText Json JsonString} `{W : Packing} `{!NetHandler JsonString H}.
Context `{K : Sockets} {MC : Machine}.
Abbreviation Protocol := (Protocol JsonString).

(** [done] says whether there is a closure to call. *)
Record IpcNetWorker := MkIpc {
  handler : H;
  wss_socket : TransportWss;
  ipc_uri : string;
  transport_id : TransportId;
  done : bool;
  is_network_ready : bool;
  last_known_state : string;
  last_state_millis : Z;
  bootstrap_nodes : list string;
}.

Abbreviation Ipc := (IpcNetWorker * Outside)%type.
Abbreviation ipc := (stateful Ipc NetFailure).

Definition set_wss (t : TransportWss) (k : IpcNetWorker) : IpcNetWorker :=
  MkIpc (handler k) t (ipc_uri k) (transport_id k) (done k) (is_network_ready k) (last_known_state k)
    (last_state_millis k) (bootstrap_nodes k).
Definition set_handler (h : H) (k : IpcNetWorker) : IpcNetWorker :=
  MkIpc h (wss_socket k) (ipc_uri k) (transport_id k) (done k) (is_network_ready k) (last_known_state k)
    (last_state_millis k) (bootstrap_nodes k).
Definition set_transport_id (id : TransportId) (k : IpcNetWorker) : IpcNetWorker :=
  MkIpc (handler k) (wss_socket k) (ipc_uri k) id (done k) (is_network_ready k) (last_known_state k)
    (last_state_millis k) (bootstrap_nodes k).
Definition set_network_ready (b : bool) (k : IpcNetWorker) : IpcNetWorker :=
  MkIpc (handler k) (wss_socket k) (ipc_uri k) (transport_id k) (done k) b (last_known_state k)
    (last_state_millis k) (bootstrap_nodes k).
Definition set_known_state (st : string) (k : IpcNetWorker) : IpcNetWorker :=
  MkIpc (handler k) (wss_socket k) (ipc_uri k) (transport_id k) (done k) (is_network_ready k) st
    (last_state_millis k) (bootstrap_nodes k).
Definition set_state_millis (ms : Z) (k : IpcNetWorker) : IpcNetWorker :=
  MkIpc (handler k) (wss_socket k) (ipc_uri k) (transport_id k) (done k) (is_network_ready k)
    (last_known_state k) ms (bootstrap_nodes k).
Definition no_bootstrap_nodes (k : IpcNetWorker) : IpcNetWorker :=
  MkIpc (handler k) (wss_socket k) (ipc_uri k) (transport_id k) (done k) (is_network_ready k)
    (last_known_state k) (last_state_millis k) [].

Definition update (f : IpcNetWorker → IpcNetWorker) : ipc unit := modify (λ '(k, o), (f k, o)).
Definition asks {A} (f : IpcNetWorker → A) : ipc A := gets (λ '(k, o), f k).

(** A call of the transport, and of the handler. *)
Definition on_socket {A} (m : stateful (TransportWss * Outside) TransportError A) : ipc A := λ '(k, o),
  match m (wss_socket k, o) with
  | Done (t, o, r) => Done (set_wss t k, o, r)
  | Panicked why => Panicked why
  end.
Definition to_handler (p : Protocol) : ipc unit := λ '(k, o),
  match handle p (handler k) with
  | Done (h, r) => Done (set_handler h k, o, r)
  | Panicked why => Panicked why
  end.

(** [receive]: packing a [NamedBinaryData] into a vector does not fail. *)
Definition receive (data : Protocol) : ipc unit :=
  on_socket (send_all (pack (named_of_protocol data))).

Definition priv_send_connects : ipc unit :=
  bs_nodes ← asks bootstrap_nodes;
  update no_bootstrap_nodes ;;
  for_each (λ bs_node, receive (into (Protocol.Connect bs_node))) bs_nodes.

(** 500 ms. *)
Definition state_request_interval : Z := 500 * 4096.

Definition priv_request_state : ipc unit :=
  now ← gets (λ '(k, o), get_millis o);
  last ← asks last_state_millis;
  if decide (state_request_interval < now - last) then
    receive (into GetState) ;; update (set_state_millis now)
  else mret tt.

Definition priv_handle_state (state : StateData) : ipc unit :=
  update (set_known_state (sd_state state)) ;;
  if decide (sd_state state = "need_config") then receive (into GetDefaultConfig) else mret tt.

Definition priv_handle_default_config (config : string) : ipc unit :=
  known ← asks last_known_state;
  if decide (known = "need_config") then receive (into (SetConfig config)) else mret tt.

Definition ignore_result {A} (m : ipc A) : ipc unit := λ s,
  match m s with Done (s, _) => Done (s, Ok tt) | Panicked why => Panicked why end.

Definition of_outcome {A} (m : outcome A) : ipc A := λ s,
  match m with Done a => Done (s, Ok a) | Panicked why => Panicked why end.

(** The special cases of the configuration. *)
Definition before_handler (msg : Protocol) : ipc unit :=
  match try_from msg with
  | Some (GetStateResult state) => priv_handle_state state
  | Some (GetDefaultConfigResult config) => priv_handle_default_config config
  | _ => mret tt
  end.

Definition is_terminated (msg : Protocol) : bool :=
  match msg with Terminated => true | _ => false end.

Definition after_handler (msg : Protocol) : ipc unit :=
  (if is_terminated msg then
     update (set_network_ready false) ;;
     update (set_known_state "terminated") ;;
     ignore_result (on_socket close_all)
   else mret tt) ;;
  '(ready, known) ← asks (λ k, (is_network_ready k, last_known_state k));
  if negb ready && bool_decide (known = "ready") then
    update (set_network_ready true) ;; to_handler P2pReady ;; priv_send_connects
  else mret tt.

Definition handle_message (msg : bytes) : ipc unit :=
  named ← lift (unpack_named msg);
  msg ← of_outcome (protocol_of_named named);
  before_handler msg ;; to_handler msg ;; after_handler msg.

Definition reconnect : ipc unit :=
  '(id, uri) ← asks (λ k, (transport_id k, ipc_uri k));
  on_socket (close id) ;;
  id ← on_socket (wait_connect uri);
  update (set_transport_id id).

Definition handle_event (evt : TransportEvent) : ipc unit :=
  match evt with
  | EventError _ _ => reconnect
  | EventConnect _ => mret tt
  | EventClose _ => reconnect
  | EventMessage _ msg => handle_message msg
  end.

Definition tick : ipc bool :=
  known ← asks last_known_state;
  (if decide (known = "ready") then mret tt else priv_request_state) ;;
  '(did_work, evt_lst) ← on_socket poll;
  for_each handle_event evt_lst ;;
  mret did_work.

Definition call_done : ipc unit := modify (λ '(k, o), (k, if done k then kill o else o)).

Definition stop : ipc unit :=
  known ← asks last_known_state;
  if decide (known = "terminated") then mret tt
  else receive Shutdown ;; ignore_result tick ;; on_socket close_all ;; call_done.

#[global] Instance ipc_net_worker : NetWorker JsonString Ipc := {
  worker_receive := receive;
  worker_tick := tick;
  worker_stop := stop;
  worker_endpoint := λ '(k, o), Some (ipc_uri k);
}.

(** *** Construction *)

(** [value[key]] is [Null] where there is nothing; [map[key]] panics there. *)
Definition value_index (v : Value) (key : string) : Value :=
  match v with Obj m => default Null (obj_get key m) | _ => Null end.
Definition map_index (m : Object) (key : string) : outcome Value :=
  expect (obj_get key m) "no entry found for key".

Definition as_str (v : Value) : option string := match v with Str s => Some s | _ => None end.
Definition as_array (v : Value) : option (list Value) := match v with Array l => Some l | _ => None end.
Definition as_object (v : Value) : option Object := match v with Obj m => Some m | _ => None end.
Definition is_string (v : Value) : bool := bool_decide (is_Some (as_str v)).
Definition is_object (v : Value) : bool := bool_decide (is_Some (as_object v)).

Definition unwrap_none : string := "called `Option::unwrap()` on a `None` value".

Fixpoint strs (l : list Value) : outcome (list string) :=
  match l with
  | [] => mret []
  | v :: l => s ← expect (as_str v) unwrap_none; l ← strs l; mret (s :: l)
  end.
Fixpoint pairs_of (m : Object) : outcome (list (string * string)) :=
  match m with
  | [] => mret []
  | (k, v) :: m => s ← expect (as_str v) unwrap_none; m ← pairs_of m; mret ((k, s) :: m)
  end.

Abbreviation built := (Outside * result NetFailure IpcNetWorker)%type.

Definition priv_new (h : H) (uri : string) (shutdown : bool) (nodes : list string) (o : Outside) :
    outcome built :=
  match wait_connect uri (transport_new, o) with
  | Panicked why => Panicked why
  | Done (t, o, Err e) => Done (o, Err e)
  | Done (t, o, Ok id) => Done (o, Ok (MkIpc h t uri id shutdown false "undefined" 0 nodes))
  end.

Definition priv_new_with_spawn (h : H) (work_dir config : string) (env : list (string * string))
    (nodes : list string) (o : Outside) : outcome built :=
  match ipc_spawn work_dir config env o with
  | (o, Err e) => Done (o, Err e)
  | (o, Ok (ipc_binding, kills)) => priv_new h ipc_binding kills nodes o
  end.

Definition ipc_new (h : H) (config enduser_config : string) (o : Outside) : outcome built :=
  match value_of_text config with
  | Err e => Done (o, Err e)
  | Ok config =>
      nodes ← strs (default [] (as_array (value_index config "bootstrapNodes")));
      match as_str (value_index config "ipcUri") with
      | Some uri => priv_new h uri false nodes o
      | None =>
          match as_object (value_index config "spawn") with
          | None => Done (o, Err "config.spawn or config.ipcUri is required")
          | Some spawn_config =>
              work_dir ← map_index spawn_config "workDir";
              env_given ← (if is_string work_dir
                           then is_object <$> map_index spawn_config "env" else mret false);
              if (env_given : bool) then
                env ← map_index spawn_config "env";
                env ← expect (as_object env) unwrap_none;
                env ← pairs_of env;
                work_dir ← expect (as_str work_dir) unwrap_none;
                priv_new_with_spawn h work_dir enduser_config env nodes o
              else Done (o, Err "config.spawn requires 'workDir', and 'env'")
          end
      end
  end.
End worker.
Arguments IpcNetWorker H {K}.

(** ** The thread of a worker *)
Section thread.
Context {Text Worker : Type} `{NW : !NetWorker Text Worker}.
Abbreviation Protocol := (Protocol Text).

(** The flag and the channel are shared with the owner; [slept] are the sleeps of the loop in
    microseconds. *)
Record NetThread := MkThread {
  can_keep_running : bool;
  channel : list Protocol;
  worker : Worker;
  sleep_duration_us : Z;
  slept : list Z;
}.

(** [m.unwrap_or_else(|e| eprintln!(..))]. *)
Definition run_printing {A} (m : stateful Worker NetFailure A) (k : Worker) : outcome (Worker * option A) :=
  match m k with
  | Done (k, r) => Done (k, ok r)
  | Panicked why => Panicked why
  end.

Definition next_sleep (did_something : bool) (us : Z) : Z :=
  if did_something then 100
  else let us := us * 2 in if decide (10000 < us) then 10000 else us.

(** One turn of the loop [while can_keep_running]. *)
Definition thread_turn (th : NetThread) : outcome NetThread :=
  let did_something := match channel th with [] => false | _ => true end in
  k ← match channel th with
      | [] => mret (worker th)
      | data :: _ => fst <$> run_printing (worker_receive data) (worker th)
      end;
  '(k, b) ← run_printing worker_tick k;
  let us := next_sleep (did_something || default false b) (sleep_duration_us th) in
  mret (MkThread (can_keep_running th) (tail (channel th)) k us (slept th ++ [us])).

(** The thread up to its loop: the endpoint is sent to the owner, who expects one. *)
Definition thread_new (k : Worker) : outcome (NetThread * string) :=
  endpoint ← expect (worker_endpoint k) "Should have an endpoint address";
  mret (MkThread true [] k 100 [], endpoint).

(** [send] of the owner. *)
Definition thread_send (data : Protocol) (th : NetThread) : NetThread :=
  MkThread (can_keep_running th) (channel th ++ [data]) (worker th) (sleep_duration_us th) (slept th).

(** [stop] of the owner: the flag is cleared, the loop ends after the turn it is in and the
    worker is stopped. *)
Definition thread_stop (th : NetThread) : outcome Worker := fst <$> run_printing worker_stop (worker th).
End thread.
Arguments NetThread Text Worker : clear implicits.

(** ** The network *)

(** The handler that [P2pNetwork::new] wraps around the one it is given: it sends every
    [P2pReady] to the channel that [wait_p2p_ready] reads.  The receiver of the channel is
    a variable of [new]. *)
Record Wrapped (H : Type) := MkWrapped { inner : H; ready_queue : nat; receiver_alive : bool }.
Arguments MkWrapped {H} inner ready_queue receiver_alive.
Arguments inner {H} w.
Arguments ready_queue {H} w.
Arguments receiver_alive {H} w.

Section network.
Context {Text H : Type} `{!NetHandler Text H}.

Definition to_inner (message : Protocol Text) : stateful (Wrapped H) NetFailure unit := λ w,
  match handle message (inner w) with
  | Done (h, r) => Done (MkWrapped h (ready_queue w) (receiver_alive w), r)
  | Panicked why => Panicked why
  end.

Definition send_ready : stateful (Wrapped H) NetFailure unit := λ w,
  if receiver_alive w then Done (MkWrapped (inner w) (S (ready_queue w)) true, Ok tt)
  else Panicked "called `Result::unwrap()` on an `Err` value: SendError".

#[global] Instance wrapped_handler : NetHandler Text (Wrapped H) := {
  handle message :=
    match message with P2pReady => send_ready | _ => mret tt end ;; to_inner message;
}.

Definition wrap (h : H) : Wrapped H := MkWrapped h 0 true.

(** The end of [new]: [wait_p2p_ready] takes the event from the channel or, when none came
    in time, panics; the receiver is dropped. *)
Definition wait_p2p_ready (w : Wrapped H) : outcome (Wrapped H) :=
  match ready_queue w with
  | O => Panicked "p2p network not ready within alloted time of 5000 ms"
  | S n => Done (MkWrapped (inner w) n false)
  end.
End network.
