(* ===== verification/IpcFacts.v ===== *)
(** * Properties of the worker that talks to another process

    Messages survive the wire; the worker hands them to the handler in order and announces
    that the network is ready once; a heartbeat that cannot be written cuts the worker off for
    good; a second [P2pReady] ends the thread; the thread sleeps between 100 and 10000
    microseconds. *)
From S2P Require Import Prelude WasmMemory JsonString Eav Protocol MemoryNet Package Transport TransportFacts IpcWorker.

(** ** The wire *)
Section wire.
Context `{W : Packing}.
Abbreviation Protocol := (Protocol JsonString).

(** The bytes of a message, and reading them as [tick] does. *)
Definition on_wire (p : Protocol) : bytes := pack (named_of_protocol p).
Definition off_wire (b : bytes) : outcome (result NetFailure Protocol) :=
  match unpack_named b with
  | Err e => Done (Err e)
  | Ok named => Ok <$> protocol_of_named named
  end.

Lemma bytes_of_back t : Ascii.ascii_of_nat ∘ Z.to_nat <$> bytes_of t = String.list_ascii_of_string t.
Proof.
  unfold bytes_of. rewrite <- list_fmap_compose. rewrite <- (list_fmap_id (String.list_ascii_of_string t)) at 2.
  apply list_fmap_ext. intros i c _. simpl. by rewrite Nat2Z.id, Ascii.ascii_nat_embedding.
Qed.

(** The text of a JSON message is UTF-8, as that of every [String] is. *)
Definition utf8_text (p : Protocol) : Prop :=
  match p with JsonText t => from_utf8 (String.list_ascii_of_string t) = true | _ => True end.

(** A message as it arrives: its text is cleaned. *)
Definition arriving (p : Protocol) : Protocol :=
  match p with JsonText t => JsonText (from_json t) | _ => p end.

Lemma text_of_bytes_of t : from_utf8 (String.list_ascii_of_string t) = true → text_of_bytes (bytes_of t) = from_json t.
Proof.
  intros Ht. unfold text_of_bytes. by rewrite bytes_of_back, lossy_utf8, String.string_of_list_ascii_of_string.
Qed.

Context `{!PackingLaws W}.

Lemma protocol_named p : utf8_text p → protocol_of_named (named_of_protocol p) = Done (arriving p).
Proof using PackingLaws0.
  intros Hp. unfold protocol_of_named, unwrap.
  destruct p; simpl; repeat (rewrite decide_True by done || rewrite decide_False by done);
    rewrite ?unpack_pack, ?unpack_pack_ping, ?unpack_pack_pong, ?text_of_bytes_of; done.
Qed.

Lemma on_off_wire p : utf8_text p → off_wire (on_wire p) = Done (Ok (arriving p)).
Proof using PackingLaws0. intros Hp. unfold off_wire, on_wire. by rewrite unpack_pack, protocol_named. Qed.

(** The text of a message of the JSON protocol is a JSON object or string, which [serde_json]
    writes without spaces around it and in UTF-8. *)
Class MessageShape (Json : Type) `{!MessageText Json JsonString} := {
  message_utf8 m : from_utf8 (String.list_ascii_of_string (text_of_message m)) = true;
  message_shape m : ∃ a l b, String.list_ascii_of_string (text_of_message m) = a :: l ++ [b] ∧
    a ∈ List.map Ascii.ascii_of_nat [123; 91; 34]%nat ∧ b ∈ List.map Ascii.ascii_of_nat [125; 93; 34]%nat;
}.

(** C35: messages survive the wire, but for the spaces and NULs around a JSON text.  What a
    worker sends for a message, read the way a worker reads what it receives, is the message, with
    its text cleaned by [JsonString::from_json] when it is JSON; the text of a message of the JSON
    protocol is left as it is, so the same message is understood at the other end. *)
Theorem wire_roundtrip `{!MessageText Json JsonString} `{!MessageShape Json} p :
  utf8_text p →
  off_wire (on_wire p) = Done (Ok (arriving p)) ∧
  ∀ m : JsonProtocol Json, p = into m →
    arriving p = p ∧ (try_from <$> (off_wire (on_wire p) ≫= unwrap)) = Done (Some m).
Proof using PackingLaws0.
  intros Hp. pose proof (on_off_wire p Hp) as Hw. split; [done|]. intros m ->.
  assert (Ha : arriving (into m) = into m).
  { unfold into. simpl. f_equal. destruct (message_shape m) as (a & l & b & Hs & Ha & Hb). by eapply from_json_clean. }
  split; [done|]. rewrite Hw, Ha. simpl. by rewrite message_text_roundtrip.
Qed.

(** Cleaning a text once more can change it: spaces inside of NULs are left by the first time
    and taken by the second, so such a text of the core arrives as another one. *)
Example cleaned_again :
  let t := String.string_of_list_ascii (List.map Ascii.ascii_of_nat [0; 32; 120]%nat) in
  from_json t = " x" ∧ from_json (from_json t) = "x".
Proof. by vm_compute. Qed.
End wire.

(** ** A heartbeat that cannot be written *)
Section cut_off.
Context {Json H : Type}.
Context `{!MessageText Json JsonString} `{W : Packing} `{!NetHandler JsonString H}.
Context `{K : Sockets} `{!SocketLaws K} {MC : Machine}.
Abbreviation Protocol := (Protocol JsonString).
Abbreviation tick := (tick (Json := Json)).

(** The calls of the thread. *)
Inductive Call := CallReceive (p : Protocol) | CallTick.
Definition call (c : Call) : stateful (IpcNetWorker H * Outside) NetFailure unit :=
  match c with
  | CallReceive p => receive p
  | CallTick => _ ← tick; mret tt
  end.

Definition cut_off (k : IpcNetWorker H) : Prop :=
  stream_sockets (wss_socket k) = ∅ ∧ event_queue (wss_socket k) = [].

Lemma drained_empty o : drained ∅ o = [].
Proof. unfold drained. by induction (key_order o (dom ∅)). Qed.

Lemma drained_singleton id (info : TransportInfo) o : drained {[id := info]} o = [(id, info)].
Proof using SocketLaws0.
  unfold drained. rewrite dom_singleton_L. pose proof (key_order_keys o {[id]}) as Hk.
  rewrite elements_singleton in Hk. symmetry in Hk. apply Permutation_singleton_l in Hk as <-.
  simpl. by rewrite lookup_singleton_eq.
Qed.

Lemma cut_off_receive k o p : cut_off k → receive p (k, o) = Done (k, o, Ok tt).
Proof.
  intros [Hm _]. unfold receive, on_socket, send_all, modify. destruct k as [h t]; destruct t; simpl in *.
  subst. unfold set_wss, set_sockets. simpl. by rewrite fmap_empty.
Qed.

Lemma cut_off_poll k o : cut_off k → on_socket poll (k, o) = Done (k, o, Ok (false, [])).
Proof.
  intros [Hm He]. destruct k as [h t]; destruct t; simpl in *. subst.
  unfold on_socket, poll, mbind, stateful_bind. simpl. rewrite drained_empty. done.
Qed.

Lemma cut_off_request k o :
  cut_off k → ∃ k', priv_request_state (k, o) = Done (k', o, Ok tt) ∧ cut_off k' ∧
    handler k' = handler k ∧ transport_id k' = transport_id k.
Proof.
  intros Hk. unfold priv_request_state.
  rewrite (stateful_bind_eq _ _ _ (k, o) (get_millis o)) by done.
  rewrite (stateful_bind_eq _ _ _ (k, o) (last_state_millis k)) by done.
  case_decide; [|by eexists].
  rewrite (stateful_bind_eq _ _ _ (k, o) tt) by (by apply cut_off_receive). by eexists.
Qed.

Lemma cut_off_call k o c :
  cut_off k → ∃ k', call c (k, o) = Done (k', o, Ok tt) ∧ cut_off k' ∧
    handler k' = handler k ∧ transport_id k' = transport_id k.
Proof.
  intros Hk. destruct c as [p|]; cbn [call]; [rewrite cut_off_receive by done; by eexists|].
  assert (Hreq : ∃ k', (if decide (last_known_state k = "ready") then mret tt else priv_request_state) (k, o)
      = Done (k', o, Ok tt) ∧ cut_off k' ∧ handler k' = handler k ∧ transport_id k' = transport_id k).
  { case_decide; [by eexists|by apply cut_off_request]. }
  destruct Hreq as (k' & Hreq & Hk' & ?). exists k'. split; [|done].
  rewrite (stateful_bind_eq _ _ _ (k', o) false); [done|]. unfold IpcWorker.tick.
  rewrite (stateful_bind_eq _ _ _ (k, o) (last_known_state k)) by done.
  rewrite (stateful_bind_eq _ _ _ _ _ Hreq).
  by rewrite (stateful_bind_eq _ _ _ _ _ (cut_off_poll k' o Hk')).
Qed.

Lemma cut_off_calls calls k o :
  cut_off k → ∃ k', for_each call calls (k, o) = Done (k', o, Ok tt) ∧ cut_off k' ∧
    handler k' = handler k ∧ transport_id k' = transport_id k.
Proof.
  revert k. induction calls as [|c calls IH]; intros k Hk; simpl; [by eexists|].
  destruct (cut_off_call k o c Hk) as (k1 & Hc & Hk1 & Hh & Ht).
  rewrite (stateful_bind_eq _ _ _ _ _ Hc).
  destruct (IH k1 Hk1) as (k2 & -> & Hk2 & ? & ?). exists k2. split_and!; [done..|congruence|congruence].
Qed.

(** C36: a heartbeat that cannot be written cuts the worker off for good.  When the ping that
    follows two seconds of silence fails (the buffer of the stream is full, say), the poll
    returns at once: the connection is neither kept nor reported as closed.  From then on
    every call succeeds and does nothing: no message is sent, no connection is opened, the
    handler hears nothing. *)
Theorem failed_heartbeat_cuts_off k o id info socket o1 socket1 o2 socket2 e :
  stream_sockets (wss_socket k) = {[id := info]} → event_queue (wss_socket k) = [] →
  last_known_state k = "ready" →
  stateful_socket info = Ready socket → send_queue info = [] →
  read_message socket o = (o1, socket1, ReadBlocked) →
  DEFAULT_HEARTBEAT_MS < elapsed_ms (last_msg info) o1 →
  write_message (WsPing []) socket1 o1 = (o2, socket2, Err e) →
  ∃ k', tick (k, o) = Done (k', o2, Err e) ∧
    ∀ calls, ∃ k'', for_each call calls (k', o2) = Done (k'', o2, Ok tt) ∧
      stream_sockets (wss_socket k'') = ∅ ∧ handler k'' = handler k ∧ transport_id k'' = transport_id k.
Proof using SocketLaws0.
  intros Hm He Hs Hi Hq Hr Ht Hw.
  set (k' := set_wss (MkTransportWss ∅ [] (n_id (wss_socket k))) k).
  exists k'. split.
  - unfold IpcWorker.tick, mbind, stateful_bind. simpl. rewrite decide_True by done.
    unfold on_socket, poll, mbind, stateful_bind. simpl. rewrite Hm, drained_singleton. simpl.
    unfold priv_process_socket. rewrite Hi. unfold process_ready. simpl. rewrite Hq. simpl.
    rewrite Hr. simpl. unfold heartbeat. simpl. rewrite decide_True by done. rewrite Hw.
    unfold push_events, set_sockets. simpl. by rewrite He.
  - intros calls. destruct (cut_off_calls calls k' o2) as (k'' & Hc & [? _] & ? & ?); [done|eauto].
Qed.
End cut_off.

(** ** The handler of the network *)
Section ready.
Context {Json H : Type}.
Context `{!MessageText Json JsonString} `{W : Packing} `{!PackingLaws W} `{!NetHandler JsonString H}.
Context `{K : Sockets} {MC : Machine}.

Lemma wrapped_alive (ms : list (Protocol JsonString)) (w : Wrapped H) w' r :
  receiver_alive w = false → for_each handle ms w = Done (w', r) → receiver_alive w' = false.
Proof.
  revert w. induction ms as [|m ms IH]; intros w Hw Hr; [by injection Hr as <- <-|].
  cbn [for_each] in Hr. unfold mbind, stateful_bind in Hr.
  assert (Hm : ∀ w1 r1, handle m w = Done (w1, r1) → receiver_alive w1 = false).
  { intros w1 r1. destruct m; simpl; unfold mbind, stateful_bind, send_ready, to_inner; simpl;
      rewrite ?Hw; try done;
      (destruct (handle _ (inner w)) as [[h r2]|]; [by intros [= <- <-]|done]). }
  destruct (handle m w) as [[w1 [[]|e]]|]; [| |done].
  - apply (IH w1); [|done]. by eapply Hm.
  - injection Hr as <- <-. by eapply Hm.
Qed.

(** a second [P2pReady] ends the thread of the network.  [P2pNetwork::new] waits for the
    first one and then drops the receiver of its channel, to which the handler goes on
    sending: when the process sends [P2pReady] once more, whatever messages came in between,
    handling it panics. *)
Theorem second_ready_panics (w w' : Wrapped H) ms r k o :
  wait_p2p_ready w = Done w' → for_each handle ms w' = Done (handler k, r) →
  ∃ why, handle_message (Json := Json) (on_wire P2pReady) (k, o) = Panicked why.
Proof using PackingLaws0.
  intros Hw Hms. assert (Ha : receiver_alive (handler k) = false).
  { eapply wrapped_alive; [|exact Hms]. unfold wait_p2p_ready in Hw. case_match; by simplify_eq. }
  unfold handle_message, on_wire. rewrite unpack_pack. unfold mbind, stateful_bind. simpl.
  unfold to_handler. simpl. unfold mbind, stateful_bind, send_ready. rewrite Ha. eauto.
Qed.
End ready.

(** ** Messages from the process *)
Section announce.
Context {Json H : Type}.
Context `{!MessageText Json JsonString} `{W : Packing} `{!NetHandler JsonString H}.
Context `{K : Sockets} {MC : Machine}.
Abbreviation Protocol := (Protocol JsonString).
Abbreviation Worker := (IpcNetWorker H).
Abbreviation handle_message := (handle_message (Json := Json) (H := H)).

(** The state a message reports, and the answers it asks for. *)
Definition reported (p : Protocol) : option string :=
  match try_from (Json := Json) p with Some (GetStateResult state) => Some (sd_state state) | _ => None end.

Definition answers (known : string) (p : Protocol) : list (JsonProtocol Json) :=
  match try_from p with
  | Some (GetStateResult state) => if decide (sd_state state = "need_config") then [GetDefaultConfig] else []
  | Some (GetDefaultConfigResult config) => if decide (known = "need_config") then [SetConfig config] else []
  | _ => []
  end.

(** What the handler is to hear: the messages, with an announcement after the first report of
    [ready] since the process terminated.  [waiting] says that there was none yet. *)
Definition reports_ready (p : Protocol) : bool := bool_decide (reported p = Some "ready").
Fixpoint with_announcements (waiting : bool) (ps : list Protocol) : list Protocol :=
  match ps with
  | [] => []
  | p :: ps =>
      if is_terminated p then p :: with_announcements true ps
      else if waiting && reports_ready p then p :: P2pReady :: with_announcements false ps
      else p :: with_announcements waiting ps
  end.

(** What the process is to be sent, as long as it does not terminate: answers and, once, with
    the announcement, requests for the bootstrap nodes. *)
Fixpoint with_connects (waiting : bool) (known : string) (nodes : list string) (ps : list Protocol) :
    list (JsonProtocol Json) :=
  match ps with
  | [] => []
  | p :: ps =>
      answers known p ++
      if waiting && reports_ready p
      then (Protocol.Connect <$> nodes) ++ with_connects false "ready" [] ps
      else with_connects waiting (default known (reported p)) nodes ps
  end.

(** Messages for the process are queued for every connection. *)
Definition queue_up (ms : list (JsonProtocol Json)) (t : TransportWss) : TransportWss :=
  set_sockets ((λ i, with_queue (send_queue i ++ (on_wire ∘ into <$> ms)) i) <$> stream_sockets t) t.

Lemma queue_up_nil t : queue_up [] t = t.
Proof.
  destruct t as [m q n]. unfold queue_up, set_sockets. simpl. f_equal.
  rewrite <- (map_fmap_id m) at 2. apply map_fmap_ext. intros k i _. destruct i. simpl.
  unfold with_queue. simpl. by rewrite app_nil_r.
Qed.

Lemma queue_up_app ms ms' t : queue_up ms' (queue_up ms t) = queue_up (ms ++ ms') t.
Proof.
  unfold queue_up, set_sockets. simpl. f_equal. rewrite <- map_fmap_compose. apply map_fmap_ext.
  intros k i _. simpl. unfold with_queue. simpl. by rewrite fmap_app, (assoc_L (++)).
Qed.

Lemma receive_spec m (k : Worker) o :
  receive (into m) (k, o) = Done (set_wss (queue_up [m] (wss_socket k)) k, o, Ok tt).
Proof. done. Qed.

Lemma set_wss_queue_nil (k : Worker) : set_wss (queue_up [] (wss_socket k)) k = k.
Proof. rewrite queue_up_nil. by destruct k. Qed.

Lemma send_connects_spec nodes (k : Worker) o :
  for_each (λ bs_node, receive (into (Protocol.Connect bs_node))) nodes (k, o) =
  Done (set_wss (queue_up (Protocol.Connect <$> nodes) (wss_socket k)) k, o, Ok tt).
Proof.
  revert k. induction nodes as [|n nodes IH]; intros k.
  { simpl. rewrite (set_wss_queue_nil k). done. }
  cbn [for_each]. rewrite (stateful_bind_eq _ _ _ _ _ (receive_spec (Protocol.Connect n) k o)), IH.
  simpl wss_socket. by rewrite queue_up_app.
Qed.

(** What a message makes of the worker before the handler sees it. *)
Definition told (p : Protocol) (k : Worker) : Worker :=
  set_known_state (default (last_known_state k) (reported p))
    (set_wss (queue_up (answers (last_known_state k) p) (wss_socket k)) k).

Lemma before_handler_spec p (k : Worker) o : before_handler p (k, o) = Done (told p k, o, Ok tt).
Proof.
  unfold before_handler, told, reported, answers.
  destruct (try_from p) as [[]|]; try (rewrite (set_wss_queue_nil k); by destruct k).
  - unfold priv_handle_state. rewrite (stateful_bind_eq _ _ _ (set_known_state (sd_state d) k, o) tt) by done.
    case_decide; [|by rewrite (set_wss_queue_nil k)]. rewrite receive_spec. done.
  - unfold priv_handle_default_config. rewrite (stateful_bind_eq _ _ _ (k, o) (last_known_state k)) by done.
    case_decide; [|by rewrite (set_wss_queue_nil k); destruct k]. rewrite receive_spec. done.
Qed.

(** The worker waits for [ready], or has announced it. *)
Definition settled (k : Worker) : Prop := is_network_ready k = false → last_known_state k ≠ "ready".

(** The state of the announcement after a message that the handler has taken. *)
Definition connected (k : Worker) : Worker :=
  no_bootstrap_nodes (set_wss (queue_up (Protocol.Connect <$> bootstrap_nodes k) (wss_socket k)) k).

Lemma send_connects_done (k : Worker) o : priv_send_connects (k, o) = Done (connected k, o, Ok tt).
Proof.
  unfold priv_send_connects. rewrite (stateful_bind_eq _ _ _ (k, o) (bootstrap_nodes k)) by done.
  rewrite (stateful_bind_eq _ _ _ (no_bootstrap_nodes k, o) tt) by done. apply send_connects_spec.
Qed.

(** A run of the worker does to the handler what a run of the handler alone does; [Q] holds of
    what a run without an error leaves. *)
Definition agrees (m : outcome (Worker * Outside * result NetFailure unit))
    (alone : outcome (H * result NetFailure unit)) (Q : Worker → Outside → Prop) : Prop :=
  match alone with
  | Panicked _ => ∃ why, m = Panicked why
  | Done (h, Err e) => ∃ k o, m = Done (k, o, Err e) ∧ handler k = h
  | Done (h, Ok _) => ∃ k o, m = Done (k, o, Ok tt) ∧ handler k = h ∧ Q k o
  end.

Lemma agrees_bind (m n : stateful (Worker * Outside) NetFailure unit) (m' n' : stateful H NetFailure unit)
    s h Q1 Q2 :
  agrees (m s) (m' h) Q1 → (∀ k o, Q1 k o → agrees (n (k, o)) (n' (handler k)) Q2) →
  agrees ((m ;; n) s) ((m' ;; n') h) Q2.
Proof.
  unfold agrees, mbind, stateful_bind. intros Hm Hn. destruct (m' h) as [[h1 [[]|e]]|why].
  - destruct Hm as (k & o & -> & <- & HQ). by apply Hn.
  - destruct Hm as (k & o & -> & <-). eauto.
  - destruct Hm as [why' ->]. eauto.
Qed.

Lemma agrees_to_handler p (k : Worker) o :
  agrees (to_handler p (k, o)) (handle p (handler k)) (λ k' o', k' = set_handler (handler k') k ∧ o' = o).
Proof.
  unfold agrees, to_handler. destruct (handle p (handler k)) as [[h [[]|e]]|why]; [|eauto..].
  by do 2 eexists.
Qed.

(** The handler hears nothing of the rest. *)
Lemma agrees_quiet (m : stateful (Worker * Outside) NetFailure unit) (k : Worker) o k' o' (Q : Worker → Outside → Prop) :
  m (k, o) = Done (k', o', Ok tt) → handler k' = handler k → Q k' o' →
  agrees (m (k, o)) ((mret tt : stateful H NetFailure unit) (handler k)) Q.
Proof. intros Hm Hh HQ. simpl. rewrite Hm. eauto. Qed.

Lemma agrees_weaken m alone (Q Q' : Worker → Outside → Prop) :
  agrees m alone Q → (∀ k o, Q k o → Q' k o) → agrees m alone Q'.
Proof.
  unfold agrees. intros Hm HQ. destruct alone as [[h [[]|e]]|why]; [|done..].
  destruct Hm as (k & o & ? & ? & ?). eauto 6.
Qed.

(** What one message adds, and whether the worker still waits after it. *)
Definition heard (waiting : bool) (p : Protocol) : list Protocol := with_announcements waiting [p].
Definition still_waiting (waiting : bool) (p : Protocol) : bool :=
  is_terminated p || (waiting && negb (reports_ready p)).

Lemma with_announcements_cons waiting p ps :
  with_announcements waiting (p :: ps) = heard waiting p ++ with_announcements (still_waiting waiting p) ps.
Proof.
  unfold heard, still_waiting. simpl. destruct (is_terminated p), waiting, (reports_ready p); done.
Qed.

Lemma for_each_app (f : Protocol → stateful H NetFailure unit) l1 l2 h :
  for_each f (l1 ++ l2) h = (for_each f l1 ;; for_each f l2) h.
Proof.
  revert h. induction l1 as [|x l1 IH]; intros h; [done|]. simpl. unfold mbind, stateful_bind.
  destruct (f x h) as [[h1 [[]|e]]|why]; [|done..]. exact (IH h1).
Qed.

(** The state of a worker after a message. *)
Record follows_message (p : Protocol) (k : Worker) (o : Outside) (k' : Worker) (o' : Outside) : Prop := {
  after_settled : settled k';
  after_waiting : negb (is_network_ready k') = still_waiting (negb (is_network_ready k)) p;
  after_talk : is_terminated p = false →
    last_known_state k' = default (last_known_state k) (reported p) ∧
    bootstrap_nodes k' = (if negb (is_network_ready k) && reports_ready p then [] else bootstrap_nodes k) ∧
    wss_socket k' = queue_up (answers (last_known_state k) p ++
      if negb (is_network_ready k) && reports_ready p then Protocol.Connect <$> bootstrap_nodes k else [])
      (wss_socket k);
}.

Lemma known_ready p (k : Worker) :
  settled k → is_network_ready k = false →
  bool_decide (default (last_known_state k) (reported p) = "ready") = reports_ready p.
Proof.
  intros Hk Hr. specialize (Hk Hr). unfold reports_ready. apply bool_decide_ext.
  destruct (reported p) as [st|]; simpl; split; congruence.
Qed.

Lemma terminated_after (k : Worker) o :
  ∃ k' o', after_handler Terminated (k, o) = Done (k', o', Ok tt) ∧ handler k' = handler k ∧
    is_network_ready k' = false ∧ last_known_state k' = "terminated".
Proof.
  unfold after_handler, ignore_result, on_socket, close_all, mbind, stateful_bind. simpl.
  match goal with |- context [close_each ?n ?m ?es ?o] => destruct (close_each n m es o) as [[m' errors] o'] end.
  simpl. by do 2 eexists.
Qed.

(** After the handler has taken a message. *)
Lemma after_handler_agrees p (k k1 : Worker) o :
  settled k → k1 = set_handler (handler k1) (told p k) →
  agrees (after_handler p (k1, o)) (for_each handle (tail (heard (negb (is_network_ready k)) p)) (handler k1))
    (follows_message p k o).
Proof.
  intros Hk Hk1. unfold heard. simpl. destruct (is_terminated p) eqn:Ht; simpl.
  { destruct p; try discriminate Ht. destruct (terminated_after k1 o) as (k' & o' & Ha & Hh & Hr & Hs).
    rewrite Ha. exists k', o'. split_and!; [done..|]. split; [|by rewrite Hr|done]. intros _. by rewrite Hs. }
  assert (Hr1 : is_network_ready k1 = is_network_ready k) by (by rewrite Hk1).
  assert (Hs1 : last_known_state k1 = default (last_known_state k) (reported p)) by (by rewrite Hk1).
  assert (Hn1 : bootstrap_nodes k1 = bootstrap_nodes k) by (by rewrite Hk1).
  assert (Hw1 : wss_socket k1 = queue_up (answers (last_known_state k) p) (wss_socket k)) by (by rewrite Hk1).
  assert (Hcond : negb (is_network_ready k1) && bool_decide (last_known_state k1 = "ready")
      = negb (is_network_ready k) && reports_ready p).
  { rewrite Hr1, Hs1. destruct (is_network_ready k) eqn:Hr; [done|]. by rewrite known_ready. }
  unfold after_handler. rewrite Ht. rewrite (stateful_bind_eq _ _ _ (k1, o) tt) by done.
  rewrite (stateful_bind_eq _ _ _ (k1, o) (is_network_ready k1, last_known_state k1)) by done.
  cbn beta iota. rewrite Hcond. destruct (negb (is_network_ready k) && reports_ready p) eqn:Hc; simpl tail.
  - rewrite (stateful_bind_eq _ _ _ (set_network_ready true k1, o) tt) by done.
    cbn [for_each]. eapply agrees_bind; [exact (agrees_to_handler P2pReady (set_network_ready true k1) o)|]. intros k2 o2 [Hk2 ->].
    eapply agrees_quiet; [apply send_connects_done|done|].
    rewrite Hk2. split; simpl.
    + done.
    + unfold still_waiting. rewrite Ht. by destruct (is_network_ready k), (reports_ready p).
    + intros _. rewrite Hc, Hs1, Hn1, Hw1. by rewrite queue_up_app.
  - exists k1, o. split_and!; [done..|]. split.
    + intros Hr. rewrite Hs1. intros Heq. rewrite Hr1 in Hr. rewrite Hr in Hc. simpl in Hc.
      rewrite <- (known_ready p k Hk Hr), Heq in Hc. done.
    + rewrite Hr1. unfold still_waiting. rewrite Ht. by destruct (is_network_ready k), (reports_ready p).
    + intros _. by rewrite Hc, Hs1, Hn1, Hw1, app_nil_r.
Qed.

Lemma heard_first waiting p : heard waiting p = p :: tail (heard waiting p).
Proof. unfold heard. simpl. by repeat case_match. Qed.

Lemma handle_message_agrees b p (k : Worker) o :
  off_wire b = Done (Ok p) → settled k →
  agrees (handle_message b (k, o)) (for_each handle (heard (negb (is_network_ready k)) p) (handler k))
    (follows_message p k o).
Proof.
  intros Hb Hk. unfold off_wire in Hb. destruct (unpack_named b) as [named|e] eqn:Hn; [|done].
  destruct (protocol_of_named named) as [p'|] eqn:Hp; [|done]. injection Hb as ->.
  unfold IpcWorker.handle_message. rewrite (stateful_bind_eq _ _ _ (k, o) named) by (unfold lift; by rewrite Hn).
  rewrite (stateful_bind_eq _ _ _ (k, o) p) by (unfold of_outcome; by rewrite Hp).
  rewrite (stateful_bind_eq _ _ _ _ _ (before_handler_spec p k o)).
  rewrite heard_first. cbn [for_each]. eapply (agrees_bind (to_handler p)); [exact (agrees_to_handler p (told p k) o)|].
  intros k1 o1 [Hk1 ->]. by apply after_handler_agrees.
Qed.

(** What a sequence of messages leaves of the queues. *)
Lemma with_connects_cons waiting known nodes p ps :
  with_connects waiting known nodes (p :: ps) =
  (answers known p ++ if waiting && reports_ready p then Protocol.Connect <$> nodes else []) ++
  with_connects (waiting && negb (reports_ready p)) (default known (reported p))
    (if waiting && reports_ready p then [] else nodes) ps.
Proof.
  simpl. rewrite <- (assoc_L (++)). f_equal. destruct waiting, (reports_ready p) eqn:Hr; simpl; try done.
  unfold reports_ready in Hr. apply bool_decide_eq_true in Hr. by rewrite Hr.
Qed.

Lemma handle_messages_agree bs ps (k : Worker) o :
  Forall2 (λ b p, off_wire b = Done (Ok p)) bs ps → settled k →
  agrees (for_each handle_message bs (k, o))
    (for_each handle (with_announcements (negb (is_network_ready k)) ps) (handler k))
    (λ k' o', Forall (λ p, is_terminated p = false) ps →
       wss_socket k' = queue_up (with_connects (negb (is_network_ready k)) (last_known_state k)
         (bootstrap_nodes k) ps) (wss_socket k)).
Proof.
  intros Hbs. revert k o. induction Hbs as [|b p bs ps Hb Hbs IH]; intros k o Hk.
  { exists k, o. split_and!; [done..|]. intros _. by rewrite queue_up_nil. }
  rewrite with_announcements_cons. rewrite for_each_app. cbn [for_each].
  eapply agrees_bind; [by apply handle_message_agrees|]. intros k1 o1 [Hk1 Hw Htalk].
  rewrite <- Hw. eapply agrees_weaken; [by apply IH|]. intros k' o' HQ [Hp Hps]%Forall_cons.
  rewrite (HQ Hps). destruct (Htalk Hp) as (-> & -> & ->).
  rewrite queue_up_app, with_connects_cons, Hw. unfold still_waiting. by rewrite Hp.
Qed.

(** C34: the handler hears the messages of the network process in order, with one announcement that
    the network is ready right after the first report of that state, and with another one only
    after the process has terminated.  The worker does to the handler exactly what the
    handler does on its own with that sequence: where it fails or panics, the worker does, and what
    is left of the messages is lost.  Until the process terminates, what the worker sends are the
    answers to its questions and, with the announcement and only there, one request for every
    bootstrap node. *)
Theorem ready_announced_once bs ps (k : Worker) o :
  Forall2 (λ b p, off_wire b = Done (Ok p)) bs ps →
  (is_network_ready k = false → last_known_state k ≠ "ready") →
  match for_each handle_message bs (k, o),
        for_each handle (with_announcements (negb (is_network_ready k)) ps) (handler k) with
  | Done (k', _, r), Done (h, r') =>
      handler k' = h ∧ r = r' ∧
      (r = Ok tt → Forall (λ p, is_terminated p = false) ps →
       ∀ id i, stream_sockets (wss_socket k) !! id = Some i → ∃ i',
         stream_sockets (wss_socket k') !! id = Some i' ∧
         send_queue i' = send_queue i ++ (on_wire ∘ into <$>
           with_connects (negb (is_network_ready k)) (last_known_state k) (bootstrap_nodes k) ps))
  | Panicked _, Panicked _ => True
  | _, _ => False
  end.
Proof.
  intros Hbs Hk. pose proof (handle_messages_agree bs ps k o Hbs Hk) as Ha. unfold agrees in Ha.
  destruct (for_each handle _ (handler k)) as [[h [[]|e]]|why].
  - destruct Ha as (k' & o' & -> & Hh & HQ). split_and!; [done..|]. intros _ Hps id i Hi.
    rewrite (HQ Hps). simpl. rewrite lookup_fmap, Hi. by eexists.
  - by destruct Ha as (k' & o' & -> & Hh).
  - by destruct Ha as [why' ->].
Qed.
End announce.

(** ** The thread *)
Section thread.
Context {Text Worker : Type} `{!NetWorker Text Worker}.

(** What the thread and its owner do. *)
Inductive ThreadStep := Turns | Sends (data : Protocol Text).

Definition thread_step (th : NetThread Text Worker) (s : ThreadStep) : outcome (NetThread Text Worker) :=
  match s with Turns => thread_turn th | Sends data => Done (thread_send data th) end.

Fixpoint thread_steps (ss : list ThreadStep) (th : NetThread Text Worker) :
    outcome (NetThread Text Worker) :=
  match ss with
  | [] => Done th
  | s :: ss => th ← thread_step th s; thread_steps ss th
  end.

Definition in_range (us : Z) : Prop := 100 ≤ us ≤ 10000.

Lemma next_sleep_range b us : in_range us → in_range (next_sleep b us).
Proof. unfold in_range, next_sleep. destruct b; [lia|]. simpl. case_decide; lia. Qed.

Lemma thread_turn_spec th th' :
  thread_turn th = Done th' → ∃ b,
    sleep_duration_us th' = next_sleep b (sleep_duration_us th) ∧
    slept th' = slept th ++ [next_sleep b (sleep_duration_us th)] ∧
    channel th' = tail (channel th) ∧ (channel th ≠ [] → b = true).
Proof.
  unfold thread_turn. intros Ht. apply outcome_bind_done in Ht as (k & _ & Ht).
  apply outcome_bind_done in Ht as ([k1 b] & _ & Ht). injection Ht as <-. simpl.
  eexists. split_and!; [done..|]. by destruct (channel th).
Qed.

(** Once nothing happens, the sleeps double up to their limit. *)
Lemma idle_sleeps n : Nat.iter n (next_sleep false) 100 = Z.min (100 * 2 ^ Z.of_nat n) 10000.
Proof.
  induction n as [|n IH]; [done|]. rewrite Nat.iter_succ, IH, Nat2Z.inj_succ, Z.pow_succ_r by lia.
  unfold next_sleep. simpl. assert (0 < 2 ^ Z.of_nat n) by lia. case_decide; lia.
Qed.

(** the thread keeps listening.  Between two turns it sleeps at least 100 and at most 10000
    microseconds, every turn takes the next message of its channel, and after a turn that had
    one it sleeps for 100 microseconds only: what the owner has sent is handed over after as
    many turns as there were messages before it. *)
Theorem thread_keeps_listening k th0 endpoint ss th :
  thread_new k = Done (th0, endpoint) → thread_steps ss th0 = Done th →
  Forall in_range (slept th) ∧
  ∀ th', thread_turn th = Done th' →
    channel th' = tail (channel th) ∧ ∃ us, slept th' = slept th ++ [us] ∧ in_range us ∧
      (channel th ≠ [] → us = 100).
Proof.
  intros Hn Hs. assert (Hinv : in_range (sleep_duration_us th) ∧ Forall in_range (slept th)).
  { assert (H0 : in_range (sleep_duration_us th0) ∧ Forall in_range (slept th0)).
    { apply outcome_bind_done in Hn as (e & _ & Hn). injection Hn as <- <-. by split; [|constructor]. }
    clear Hn. revert th0 H0 Hs. induction ss as [|s ss IH]; intros th0 [H0 H0']; [by intros [= <-]|].
    intros Hs. apply outcome_bind_done in Hs as (th1 & H1 & Hs). apply (IH th1); [|done].
    destruct s; [|by injection H1 as <-].
    apply thread_turn_spec in H1 as (b & -> & -> & _). split; [by apply next_sleep_range|].
    apply Forall_app. split; [done|]. constructor; [by apply next_sleep_range|done]. }
  destruct Hinv as [H1 H2]. split; [done|]. intros th' Ht.
  apply thread_turn_spec in Ht as (b & _ & Hsl & Hch & Hb). split; [done|].
  exists (next_sleep b (sleep_duration_us th)). split_and!; [done|by apply next_sleep_range|].
  intros Hne. by rewrite (Hb Hne).
Qed.
End thread.

(** ** Failures *)
Section failures.
Context `{K : Sockets}.

(** A turn that fails is reported twice, as an error and as the end of its connection. *)
Theorem failure_reported_twice k info l did_work t o turn e :
  priv_process_socket did_work info o = Done turn → turn_result turn = Err e →
  process_sockets ((k, info) :: l) did_work (t, o) =
  process_sockets l (turn_did_work turn)
    (push_events [EventClose (info_id info)] (push_events (turn_events turn ++ [EventError (info_id info) e]) t),
     turn_outside turn).
Proof.
  intros Ht He. destruct (process_socket_fine _ _ _ _ Ht) as (Hid & _ & [Hr|Hn]); [congruence|].
  cbn [process_sockets]. rewrite Ht, Hn, Hid, He. done.
Qed.

Context {H : Type} {MC : Machine}.

(** A configuration whose [spawn] has no [workDir] does not get the error that is written for
    it: the map is asked for a key it does not have. *)
Theorem spawn_without_work_dir_panics (h : H) config enduser v spawn_config o :
  value_of_text config = Ok v → as_array (value_index v "bootstrapNodes") = None →
  as_str (value_index v "ipcUri") = None → as_object (value_index v "spawn") = Some spawn_config →
  obj_get "workDir" spawn_config = None →
  ipc_new h config enduser o = Panicked "no entry found for key".
Proof.
  intros Hv Hb Hu Hs Hw. unfold ipc_new. rewrite Hv, Hb. simpl. rewrite Hu, Hs. unfold map_index.
  by rewrite Hw.
Qed.
End failures.
