(* ===== verification/IpcDemo.v ===== *)
(** * The worker at work

    Texts and bytes for messages, a machine around the scripted streams, and runs of the worker
    that show that the hypotheses of its properties can be met. *)
From S2P Require Import Prelude WasmMemory JsonString Eav Protocol MemoryNet Package Transport TransportFacts IpcWorker IpcFacts.

(** ** Texts and bytes

    A text is the number of its message, its fields and its lists, written as bits in braces. *)
Module IpcDemo.
Abbreviation Message := (JsonProtocol string).
Abbreviation Fields := (nat * list string * list string * list (string * string * string))%type.

Definition fields_of (m : Message) : Fields :=
  match m with
  | SuccessResult (MkSuccessResultData s1 s2 s3 s4) => (0, [s1; s2; s3; s4], [], [])
  | FailureResult (MkFailureResultData s1 s2 s3 s4) => (1, [s1; s2; s3; s4], [], [])
  | TrackDna (MkTrackDnaData s1 s2) => (2, [s1; s2], [], [])
  | UntrackDna (MkTrackDnaData s1 s2) => (3, [s1; s2], [], [])
  | Connect s1 => (4, [s1], [], [])
  | PeerConnected s1 => (5, [s1], [], [])
  | GetState => (6, [], [], [])
  | GetStateResult (MkStateData s1 s2 l) => (7, [s1; s2], l, [])
  | GetDefaultConfig => (8, [], [], [])
  | GetDefaultConfigResult s1 => (9, [s1], [], [])
  | SetConfig s1 => (10, [s1], [], [])
  | SendMessage (MkMessageData s1 s2 s3 s4 s5) => (11, [s1; s2; s3; s4; s5], [], [])
  | SendMessageResult (MkMessageData s1 s2 s3 s4 s5) => (12, [s1; s2; s3; s4; s5], [], [])
  | HandleSendMessage (MkMessageData s1 s2 s3 s4 s5) => (13, [s1; s2; s3; s4; s5], [], [])
  | HandleSendMessageResult (MkMessageData s1 s2 s3 s4 s5) => (14, [s1; s2; s3; s4; s5], [], [])
  | FetchEntry (MkFetchEntryData s1 s2 s3 s4) => (15, [s1; s2; s3; s4], [], [])
  | FetchEntryResult (MkFetchEntryResultData s1 s2 s3 s4 s5 s6) => (16, [s1; s2; s3; s4; s5; s6], [], [])
  | HandleFetchEntry (MkFetchEntryData s1 s2 s3 s4) => (17, [s1; s2; s3; s4], [], [])
  | HandleFetchEntryResult (MkFetchEntryResultData s1 s2 s3 s4 s5 s6) => (18, [s1; s2; s3; s4; s5; s6], [], [])
  | PublishEntry (MkEntryData s1 s2 s3 s4) => (19, [s1; s2; s3; s4], [], [])
  | HandleStoreEntry (MkEntryData s1 s2 s3 s4) => (20, [s1; s2; s3; s4], [], [])
  | HandleDropEntry (MkDropEntryData s1 s2 s3) => (21, [s1; s2; s3], [], [])
  | FetchMeta (MkFetchMetaData s1 s2 s3 s4 s5) => (22, [s1; s2; s3; s4; s5], [], [])
  | FetchMetaResult (MkFetchMetaResultData s1 s2 s3 s4 s5 s6 l) => (23, [s1; s2; s3; s4; s5; s6], l, [])
  | HandleFetchMeta (MkFetchMetaData s1 s2 s3 s4 s5) => (24, [s1; s2; s3; s4; s5], [], [])
  | HandleFetchMetaResult (MkFetchMetaResultData s1 s2 s3 s4 s5 s6 l) => (25, [s1; s2; s3; s4; s5; s6], l, [])
  | PublishMeta (MkDhtMetaData s1 s2 s3 s4 l) => (26, [s1; s2; s3; s4], l, [])
  | HandleStoreMeta (MkDhtMetaData s1 s2 s3 s4 l) => (27, [s1; s2; s3; s4], l, [])
  | HandleDropMeta (MkDropMetaData s1 s2 s3 s4) => (28, [s1; s2; s3; s4], [], [])
  | HandleGetPublishingEntryList (MkGetListData s1 s2) => (29, [s1; s2], [], [])
  | HandleGetPublishingEntryListResult (MkEntryListData s1 s2 l) => (30, [s1; s2], l, [])
  | HandleGetHoldingEntryList (MkGetListData s1 s2) => (31, [s1; s2], [], [])
  | HandleGetHoldingEntryListResult (MkEntryListData s1 s2 l) => (32, [s1; s2], l, [])
  | HandleGetPublishingMetaList (MkGetListData s1 s2) => (33, [s1; s2], [], [])
  | HandleGetPublishingMetaListResult (MkMetaListData s1 s2 ms) => (34, [s1; s2], [], ms)
  | HandleGetHoldingMetaList (MkGetListData s1 s2) => (35, [s1; s2], [], [])
  | HandleGetHoldingMetaListResult (MkMetaListData s1 s2 ms) => (36, [s1; s2], [], ms)
  end%nat.

Definition of_fields (f : Fields) : option Message :=
  match f with
  | (0, [s1; s2; s3; s4], [], []) => Some (SuccessResult (MkSuccessResultData s1 s2 s3 s4))
  | (1, [s1; s2; s3; s4], [], []) => Some (FailureResult (MkFailureResultData s1 s2 s3 s4))
  | (2, [s1; s2], [], []) => Some (TrackDna (MkTrackDnaData s1 s2))
  | (3, [s1; s2], [], []) => Some (UntrackDna (MkTrackDnaData s1 s2))
  | (4, [s1], [], []) => Some (Connect s1)
  | (5, [s1], [], []) => Some (PeerConnected s1)
  | (6, [], [], []) => Some (GetState)
  | (7, [s1; s2], l, []) => Some (GetStateResult (MkStateData s1 s2 l))
  | (8, [], [], []) => Some (GetDefaultConfig)
  | (9, [s1], [], []) => Some (GetDefaultConfigResult s1)
  | (10, [s1], [], []) => Some (SetConfig s1)
  | (11, [s1; s2; s3; s4; s5], [], []) => Some (SendMessage (MkMessageData s1 s2 s3 s4 s5))
  | (12, [s1; s2; s3; s4; s5], [], []) => Some (SendMessageResult (MkMessageData s1 s2 s3 s4 s5))
  | (13, [s1; s2; s3; s4; s5], [], []) => Some (HandleSendMessage (MkMessageData s1 s2 s3 s4 s5))
  | (14, [s1; s2; s3; s4; s5], [], []) => Some (HandleSendMessageResult (MkMessageData s1 s2 s3 s4 s5))
  | (15, [s1; s2; s3; s4], [], []) => Some (FetchEntry (MkFetchEntryData s1 s2 s3 s4))
  | (16, [s1; s2; s3; s4; s5; s6], [], []) => Some (FetchEntryResult (MkFetchEntryResultData s1 s2 s3 s4 s5 s6))
  | (17, [s1; s2; s3; s4], [], []) => Some (HandleFetchEntry (MkFetchEntryData s1 s2 s3 s4))
  | (18, [s1; s2; s3; s4; s5; s6], [], []) => Some (HandleFetchEntryResult (MkFetchEntryResultData s1 s2 s3 s4 s5 s6))
  | (19, [s1; s2; s3; s4], [], []) => Some (PublishEntry (MkEntryData s1 s2 s3 s4))
  | (20, [s1; s2; s3; s4], [], []) => Some (HandleStoreEntry (MkEntryData s1 s2 s3 s4))
  | (21, [s1; s2; s3], [], []) => Some (HandleDropEntry (MkDropEntryData s1 s2 s3))
  | (22, [s1; s2; s3; s4; s5], [], []) => Some (FetchMeta (MkFetchMetaData s1 s2 s3 s4 s5))
  | (23, [s1; s2; s3; s4; s5; s6], l, []) => Some (FetchMetaResult (MkFetchMetaResultData s1 s2 s3 s4 s5 s6 l))
  | (24, [s1; s2; s3; s4; s5], [], []) => Some (HandleFetchMeta (MkFetchMetaData s1 s2 s3 s4 s5))
  | (25, [s1; s2; s3; s4; s5; s6], l, []) => Some (HandleFetchMetaResult (MkFetchMetaResultData s1 s2 s3 s4 s5 s6 l))
  | (26, [s1; s2; s3; s4], l, []) => Some (PublishMeta (MkDhtMetaData s1 s2 s3 s4 l))
  | (27, [s1; s2; s3; s4], l, []) => Some (HandleStoreMeta (MkDhtMetaData s1 s2 s3 s4 l))
  | (28, [s1; s2; s3; s4], [], []) => Some (HandleDropMeta (MkDropMetaData s1 s2 s3 s4))
  | (29, [s1; s2], [], []) => Some (HandleGetPublishingEntryList (MkGetListData s1 s2))
  | (30, [s1; s2], l, []) => Some (HandleGetPublishingEntryListResult (MkEntryListData s1 s2 l))
  | (31, [s1; s2], [], []) => Some (HandleGetHoldingEntryList (MkGetListData s1 s2))
  | (32, [s1; s2], l, []) => Some (HandleGetHoldingEntryListResult (MkEntryListData s1 s2 l))
  | (33, [s1; s2], [], []) => Some (HandleGetPublishingMetaList (MkGetListData s1 s2))
  | (34, [s1; s2], [], ms) => Some (HandleGetPublishingMetaListResult (MkMetaListData s1 s2 ms))
  | (35, [s1; s2], [], []) => Some (HandleGetHoldingMetaList (MkGetListData s1 s2))
  | (36, [s1; s2], [], ms) => Some (HandleGetHoldingMetaListResult (MkMetaListData s1 s2 ms))
  | _ => None
  end%nat.

Lemma of_fields_of m : of_fields (fields_of m) = Some m.
Proof. by destruct m as [[]|[]|[]|[]| | | |[]| | | |[]|[]|[]|[]|[]|[]|[]|[]|[]|[]|[]|[]|[]|[]|[]|[]|[]|[]|[]|[]|[]|[]|[]|[]|[]|[]]. Qed.

Definition zero : Ascii.ascii := Ascii.ascii_of_nat 48.
Definition one : Ascii.ascii := Ascii.ascii_of_nat 49.
Definition open_brace : Ascii.ascii := Ascii.ascii_of_nat 123.

Fixpoint bits (p : positive) : string :=
  match p with
  | xH => "}"
  | xO p => String zero (bits p)
  | xI p => String one (bits p)
  end.
Fixpoint of_bits (s : string) : option positive :=
  match s with
  | String c s =>
      if decide (c = zero) then xO <$> of_bits s
      else if decide (c = one) then xI <$> of_bits s
      else if decide (String c s = "}") then Some xH else None
  | EmptyString => None
  end.

Lemma of_bits_of p : of_bits (bits p) = Some p.
Proof. induction p as [p IH|p IH|]; simpl; [by rewrite IH..|done]. Qed.

Definition json_of_message (m : Message) : string := String open_brace (bits (encode (fields_of m))).
Definition message_of_json (s : string) : option Message :=
  match s with
  | String c s => if decide (c = open_brace) then n ← of_bits s; f ← decode (A := Fields) n; of_fields f else None
  | EmptyString => None
  end.

#[export] Instance fields_text : MessageText string JsonString.
Proof.
  refine {| text_of_message := json_of_message; message_of_text := message_of_json |}.
  intros m. unfold json_of_message. simpl. rewrite of_bits_of. simpl. rewrite decode_encode. apply of_fields_of.
Defined.

Lemma bits_shape p :
  from_utf8 (String.list_ascii_of_string (bits p)) = true ∧
  ∃ l, String.list_ascii_of_string (bits p) = l ++ [Ascii.ascii_of_nat 125].
Proof.
  induction p as [p [Hu [l Hl]]|p [Hu [l Hl]]|]; [..|by split; [|exists []]];
    (split; [exact Hu|]); simpl; rewrite Hl; by eexists (_ :: l).
Qed.

#[export] Instance fields_shape : MessageShape string.
Proof.
  split; intros m; destruct (bits_shape (encode (fields_of m))) as [Hu [l Hl]].
  - exact Hu.
  - exists (Ascii.ascii_of_nat 123), l, (Ascii.ascii_of_nat 125). simpl. rewrite Hl.
    split_and!; [done|by_decide..].
Qed.

#[export] Instance numbers : Packing := {|
  pack d := Z.of_nat (length (nb_name d)) :: nb_name d ++ nb_data d;
  unpack_named b :=
    match b with
    | n :: b => Ok (MkNamedBinaryData (take (Z.to_nat n) b) (drop (Z.to_nat n) b))
    | [] => Err "invalid length"
    end;
  pack_ping x := [x];
  unpack_ping b := match b with [x] => Ok x | _ => Err "invalid length" end;
  pack_pong x := [x.1; x.2];
  unpack_pong b := match b with [x; y] => Ok (x, y) | _ => Err "invalid length" end;
|}.

#[export] Instance numbers_laws : PackingLaws numbers.
Proof.
  constructor; simpl.
  - intros [name data]. simpl. by rewrite Nat2Z.id, take_app_length, drop_app_length.
  - done.
  - by intros [].
Qed.

Definition connect_message : Protocol JsonString := into (Protocol.Connect "node").

Lemma wire_roundtrip_witness :
  off_wire (on_wire connect_message) = Done (Ok connect_message) ∧
  off_wire (on_wire (JsonText " x ")) = Done (Ok (JsonText "x")).
Proof.
  split.
  - destruct (wire_roundtrip (Json := string) connect_message) as [Hw Hm]; [by vm_compute|].
    rewrite <- (proj1 (Hm _ eq_refl)) at 2. exact Hw.
  - apply (wire_roundtrip (Json := string) (JsonText " x ")). by vm_compute.
Defined.

(** ** The machine: its dates are those of the clock *)
Definition machine (peer : Scripted.Script) : Machine (K := Scripted.scripted peer) :=
  Build_Machine (Scripted.scripted peer) (λ o : Z, o * 4096 / 1000000)
    (λ _ _ _ (o : Z), (o, Ok ("wss://localhost:9000", true))) (λ o : Z, o) (λ _, Err "no text").

Abbreviation Log := (list (Protocol JsonString)).

(** A handler that keeps what it is given and refuses the second ping. *)
#[local] Instance logging : NetHandler JsonString Log := {
  handle p log := Done (log ++ [p], match p with Ping 2 => Err "enough" | _ => Ok tt end);
}.

Definition worker_of (peer : Scripted.Script) (state : string) (nodes : list string) :
    IpcNetWorker Log (K := Scripted.scripted peer) :=
  MkIpc (K := Scripted.scripted peer) [] (Scripted.one_ready peer) "wss://localhost:9000" "ws1" false false
    state 0 nodes.

(** *** A peer that takes nothing *)
Definition stalled : Scripted.Script := ([], false).

Lemma failed_heartbeat_cuts_off_witness :
  ∃ k', tick (Json := string) (K := Scripted.scripted stalled) (MC := machine stalled)
      (worker_of stalled "ready" [], 3000000000) = Done (k', 3000000000, Err "WouldBlock") ∧
    ∀ calls, ∃ k'', for_each (call (Json := string) (MC := machine stalled)) calls (k', 3000000000)
        = Done (k'', 3000000000, Ok tt) ∧
      stream_sockets (wss_socket k'') = ∅ ∧ handler k'' = [] ∧ transport_id k'' = "ws1".
Proof.
  eapply (failed_heartbeat_cuts_off (Json := string) (K := Scripted.scripted stalled)
    (MC := machine stalled) (worker_of stalled "ready" []));
    [reflexivity..|by_decide|reflexivity].
Defined.

(** *** A process that gets ready, terminates, and gets ready again *)
Definition says (st : string) : Protocol JsonString := into (GetStateResult (MkStateData st "id" [])).
Definition talk : list (Protocol JsonString) :=
  [says "need_config"; into (GetDefaultConfigResult "{}"); Ping 1; says "ready"; says "ready"].
Definition later : list (Protocol JsonString) := [Terminated; says "ready"; Ping 2; says "ready"].

Definition talking : Scripted.Script := ([], true).

Lemma talk_read : Forall2 (λ b p, off_wire b = Done (Ok p)) (on_wire <$> talk) talk.
Proof. repeat (constructor; [vm_compute; reflexivity|]). constructor. Qed.
Lemma talk_and_later_read : Forall2 (λ b p, off_wire b = Done (Ok p)) (on_wire <$> talk ++ later) (talk ++ later).
Proof. repeat (constructor; [vm_compute; reflexivity|]). constructor. Qed.

Lemma heard_in_all :
  for_each handle (with_announcements (Json := string)
      (negb (is_network_ready (worker_of talking "undefined" ["n1"; "n2"]))) (talk ++ later))
    (handler (worker_of talking "undefined" ["n1"; "n2"]))
  = Done (take 4 talk ++ [P2pReady; says "ready"; Terminated; says "ready"; P2pReady; Ping 2], Err "enough").
Proof. vm_compute. reflexivity. Qed.
Lemma heard_in_talk :
  for_each handle (with_announcements (Json := string)
      (negb (is_network_ready (worker_of talking "undefined" ["n1"; "n2"]))) talk)
    (handler (worker_of talking "undefined" ["n1"; "n2"]))
  = Done (take 4 talk ++ [P2pReady; says "ready"], Ok tt).
Proof. vm_compute. reflexivity. Qed.

(** The handler hears both announcements and stops the batch at the second ping. *)
Lemma ready_announced_once_witness :
  match for_each (handle_message (Json := string) (H := Log) (K := Scripted.scripted talking))
      (on_wire <$> talk ++ later) (worker_of talking "undefined" ["n1"; "n2"], 0) with
  | Done (k', _, r) =>
      handler k' = take 4 talk ++ [P2pReady; says "ready"; Terminated; says "ready"; P2pReady; Ping 2] ∧
      r = Err "enough"
  | Panicked _ => False
  end ∧
  match for_each (handle_message (Json := string) (H := Log) (K := Scripted.scripted talking))
      (on_wire <$> talk) (worker_of talking "undefined" ["n1"; "n2"], 0) with
  | Done (k', _, _) =>
      (send_queue (K := Scripted.scripted talking)
         <$> stream_sockets (K := Scripted.scripted talking) (wss_socket k') !! "ws1")
        = Some (on_wire ∘ into <$>
            [GetDefaultConfig; SetConfig "{}"; Protocol.Connect "n1"; Protocol.Connect "n2"])
  | Panicked _ => False
  end.
Proof.
  split.
  - pose proof (ready_announced_once (Json := string) (H := Log) (K := Scripted.scripted talking)
      _ _ (worker_of talking "undefined" ["n1"; "n2"]) 0 talk_and_later_read (λ _ H, ltac:(discriminate H))) as Ht.
    rewrite heard_in_all in Ht. destruct (for_each (handle_message (Json := string)) _ _) as [[[k' o'] r]|]; [|done].
    destruct Ht as (-> & -> & _). done.
  - pose proof (ready_announced_once (Json := string) (H := Log) (K := Scripted.scripted talking)
      _ _ (worker_of talking "undefined" ["n1"; "n2"]) 0 talk_read (λ _ H, ltac:(discriminate H))) as Ht.
    rewrite heard_in_talk in Ht. destruct (for_each (handle_message (Json := string)) _ _) as [[[k' o'] r]|]; [|done].
    destruct Ht as (_ & Hr & Hq). specialize (Hq Hr ltac:(by repeat constructor) "ws1" _ eq_refl) as (i' & Hi & Hs).
    rewrite Hi. simpl. f_equal. etrans; [exact Hs|]. by vm_compute.
Defined.

(** *** A second announcement *)
Definition waited : Wrapped Log := MkWrapped [] 1 true.
Definition network_worker : IpcNetWorker (Wrapped Log) (K := Scripted.scripted talking) :=
  MkIpc (K := Scripted.scripted talking) (MkWrapped [says "ready"] 0 false) (Scripted.one_ready talking)
    "wss://localhost:9000" "ws1" false true "ready" 0 [].

Lemma second_ready_panics_witness :
  ∃ why, handle_message (Json := string) (K := Scripted.scripted talking)
    (on_wire P2pReady) (network_worker, 0) = Panicked why.
Proof.
  apply (second_ready_panics (Json := string) (K := Scripted.scripted talking)
    waited (MkWrapped [] 0 false) [says "ready"] (Ok tt) network_worker); reflexivity.
Defined.

(** *** The thread of the worker *)
#[local] Instance talker : NetWorker JsonString _ :=
  ipc_net_worker (Json := string) (H := Log) (K := Scripted.scripted talking) (MC := machine talking).

Definition started :=
  MkThread (Text := JsonString) true []
    (worker_of talking "ready" [], 0 : Outside (Sockets := Scripted.scripted talking)) 100 [].
Definition turns : list (ThreadStep (Text := JsonString)) := [Turns; Sends Shutdown; Turns; Turns].

Lemma thread_keeps_listening_witness :
  match thread_steps turns started with
  | Done th => Forall in_range (slept th)
  | Panicked _ => False
  end.
Proof.
  assert (Hd : panics (thread_steps turns started) = false) by (vm_compute; reflexivity).
  destruct (thread_steps turns started) as [th|why] eqn:Ht; [|discriminate Hd].
  exact (proj1 (thread_keeps_listening (worker_of talking "ready" [], 0) started
    "wss://localhost:9000" turns th eq_refl Ht)).
Defined.

(** *** A connection that is reset

    The failure is reported as an error and as the end of the connection, and the worker
    connects again for both: the second connection is closed as soon as it is there. *)
Definition resetting : Scripted.Script := ([ReadFailed "connection reset"], true).

Example one_failure_two_connections :
  match tick (Json := string) (H := Log) (K := Scripted.scripted resetting) (MC := machine resetting)
          (worker_of resetting "ready" [], 0) with
  | Done (k, _, Ok _) => Some (transport_id k, elements (dom (stream_sockets (wss_socket k))))
  | _ => None
  end = Some ("ws3", ["ws3"]).
Proof. vm_compute. reflexivity. Qed.
End IpcDemo.
